(* ===== verification/_CoqProject ===== *)
-Q . S2P
Prelude.v
Wire.v
Messages.v
Codec.v
Wallet.v
NetConfig.v
Names.v
Mpsc.v
NodeSetup.v
Discovery.v
RequestResponses.v
Connections.v
Network.v
Benchmark.v
Peerset.v
StartMsg.v
Room.v
NetworkProxy.v
Negotiation.v
Coordination.v
Echo.v
Storage.v
Execution.v
Worker.v
Frost.v
Session.v
System.v
KeyGen.v
KeySign.v
Reference.v
KeyGenSession.v
KeySignSession.v
Factory.v
EndToEnd.v
Launch.v
Deployment.v
Rpc.v
Node.v
CommandLine.v
Witnesses.v
SessionWitnesses.v
NetWitnesses.v
