(* ===== verification/Prelude.v ===== *)
(** * Verification of frost-mpc-tss

    The program is a node of a threshold signature network: the nodes generate
    keys together with FROST and sign with them, over [libp2p].  This library
    models its crates as executable Rocq functions and proves what makes them
    correct.  File names below are under [src/crates].

    ** The parts of the program and where they are

    A request comes in over RPC ([client/rpc], [client/rpc-api]; the commands of
    [apps/cli] call it) and is handed by [Service] ([client/service/src/service.rs])
    to the service worker ([worker.rs]).  The worker owns the rooms.  An idle room
    waits in phase 1 ([coordination.rs]); a local request makes the node propose a
    session and collect peers ([negotiation.rs]), a proposal of another node makes
    it join and wait for the start message (phase 2).  Then a computation runs:
    [network_proxy.rs] passes it the messages of its session, [execution.rs] carries
    messages between the network and the agent and orders broadcasts, [echo.rs]
    checks that all parties saw the same broadcasts, and the agent is a key
    generation or a signature ([tss/src/keygen.rs], [keysign.rs]).  Below is the
    network crate ([client/network]): the network worker ([service.rs]) with its
    behaviours for discovery and for requests, and the codec of the wire.

    - [Prelude]: outcomes of Rust code, machine integers, sorting, list lemmas,
      tactics and the hint database.
    - [Wire]: readers, the 8 KiB [BufWriter], the interface of [unsigned_varint].
    - [Messages], [Codec]: the data and the [GenericCodec] of
      [client/network/src/request_responses.rs], at the level of bytes.
    - [RequestResponses]: [RequestResponsesBehaviour] of the same file; [Connections]: what
      it and the discovery behaviour do when connections are made, close or speak.
    - [Discovery]: [client/network/src/discovery.rs].
    - [Names]: protocol names ([client/network/src/types.rs]), protocol ids ([config.rs]),
      rooms ([room.rs]) and curves ([curve.rs]).
    - [Mpsc]: the wrapper of unbounded channels of [client/service/src/mpsc.rs].
    - [NetConfig], [NodeSetup]: [client/network/src/config.rs], [tss/src/config.rs]
      and what [apps/node/src/lib.rs] prepares.
    - [Network]: [client/network/src/behaviour.rs] and [service.rs].
    - [Peerset], [StartMsg], [Storage]: [client/service/src/peerset.rs], [StartMsg] of
      [negotiation.rs], [storage.rs].
    - [Room], [NetworkProxy], [Negotiation], [Coordination], [Echo], [Execution],
      [Worker]: the files of [client/service/src] of the same names ([Room] holds
      what they share, with the interfaces of [handler.rs]).
    - [Wallet], [Frost], [KeyGen], [KeySign], [Factory]: [tss/src]; [Frost] is the
      interface of the FROST crates and the channels of an agent.
    - [Session]: agents of several parties that run against each other; [System]: nodes
      that run the executions of [Execution] around their agents, and the network between
      them, with the proof that they implement a session; [Reference]: the protocols of FROST with everything in one place, and what is documented of
      them; [KeyGenSession], [KeySignSession]: the agents of [keygen.rs] and [keysign.rs]
      in sessions; [EndToEnd]: a key generation and signatures with its shares, through
      the [compute] of both agents; [Launch]: how a local request at one worker and the
      proposal at the others begin the executions of a session; [Deployment]: from requests
      to a key and signatures, over workers and executions.
    - [Rpc]: [client/service/src/service.rs], [client/rpc], [client/rpc-api] and the
      commands of [apps/cli]; [Benchmark]: [apps/cli/src/commands/benchmark.rs];
      [Node]: what [apps/node/src/lib.rs] builds of the parts, and messages from one
      node to another; [CommandLine]: [apps/cli/src/cli.rs] and how the programs exit.
    - [Witnesses], [SessionWitnesses], [NetWitnesses]: the theorems at concrete inputs, with every
      interface instantiated.

    ** How code becomes definitions

    A function that can fail returns an [outcome]: [Ok], [Err] or [Panic].
    Structs are records and enums inductive types with the constructors of the
    source.  A task that is polled is a function from its state and what it
    observes in that poll (the clock, what its channels and the [libp2p] behaviours
    under it have ready, whether a channel has room) to a new state and a list of
    effects; a [select!] loop is a [step] function over the events of its branches
    and [run] iterates it over any list of events, so that a theorem about [run]
    holds for all interleavings.  A session of agents ([Session]) is a step relation whose
    steps are the deliveries of messages, in any order; a system of nodes ([System]) is one
    whose steps are the polls of their executions, with a network that gives every
    request once to its addressee, in any order.  [System.system_session] says that the
    second refines the first; its invariant accounts for every message, in flight, in the
    buffer of its receiver or delivered.  A step of a system is a poll that leaves the
    execution running: what follows the end of an agent is [result_reported].  Channels to other tasks are names (numbers), and
    what is sent on them is an effect.  The file system is a map from paths to
    contents, with observations for what it refuses.  Integers are [Z] with the
    checks of the debug profile, in which overflow panics.  Strings are lists of
    Unicode scalar values, or of bytes where only their encoding matters.

    Code outside the repository ([libp2p] and its request-response, Kademlia and
    mDNS behaviours, [unsigned_varint], FROST, hashes, CBOR and JSON) is an
    interface: a class of operations with a class of laws the code relies on.  The
    witnesses instantiate all of them.

    ** Bounds and fuel

    Loops recurse on what they consume: messages that arrive, observations of a
    poll, events of a run.  Three use fuel.  [forward_buffered_messages] gets one more
    than the number of buffered messages, and every turn of the loop removes at
    least one (theorem [execution_invariant]: no poll diverges).  [Leb128], the
    instance of the varint interface, gets ten, the length of the longest encoding
    of a [u64].  [Mpsc.consume] gets one more than the messages that wait
    ([close_loses_messages]).  A session needs no fuel: its deliveries are bounded ([deliveries_bounded]),
    and so are the polls of a system that do something ([System.goes_on]).
    Where code waits for a future in a loop (the response bridges,
    [rx.await] in the RPC methods) what arrives is an argument and [None] says that
    the other end was dropped.

    ** What the theorems show

    - Agreement: a session starts with the same peers, parties and request at all
      nodes ([start_agreement], [negotiation_start_sound], [negotiation_decided]);
      an echo round that ends well means that the others saw the same broadcasts
      ([echo_agreement], [echo_round_sound], [echo_round_complete]).
    - No request is lost or answered twice: [coordination_conserves],
      [no_request_stranded], [room_has_one_owner] in the service crate;
      [worker_answers], [overdue_answered] in the network crate.
    - Transport: what is sent arrives as it was sent, at the right peers and only in
      its session ([message_travels], [proxy_refines_filter],
      [foreign_messages_rejected], [broadcasts_in_order], [rpc_reaches_worker], [node_ready]).
    - The protocols, for all parties together: the executions deliver every message of an
      agent once to every agent it is for ([system_session]), and whatever the order and
      the delays of the deliveries, the agents compute what FROST does on paper, no agent fails or waits
      for ever, and all parties end with the same key and the same signature
      ([requested_keygen_then_signing], [keygen_then_signing], [dkg_session],
      [signing_session]).  The first starts from the turns of the workers in which a request is
      negotiated and joined ([formed_agree], [formed_initial]), with the agents
      that the factory makes for them ([execution_agent]).
    - The protocols, for one party among arbitrary others: what a key generation or a
      signature that succeeds has done ([dkg_sound], [signing_sound]), the key
      share and the identifiers that link the two ([keygen_saves_share],
      [signing_identifiers_match], [share_path_confined], [recover_saved]).
    - Safety of the long-running parts: [execution_invariant], [worker_total],
      [discovery_invariant], [connections_tracked], [dial_addresses], and
      [connections_accepted] and [kad_connections_inv] of [Connections].
    - Set-up, identity and benchmark: [node_identity_stable], [new_server], and
      [percentile_nearest_rank] of [Benchmark].
    - Names and channels: names are keys by their text ([borrow_contract], [names_are_texts]),
      a protocol id is read as the string it was made of ([from_as_ref]), rooms have
      protocols of their own ([room_protocols]); a channel is received in order
      ([send_receive], [sink_sends]) and loses what waits when its receiver is closed
      ([close_loses_messages]).
    - What the code does not do as meant: [request_in_the_gap], [retry_aborts_joiner],
      [late_broadcast_panics], [fallback_lost], [node_misses_setup_key],
      and further theorems of the files ([queries_tracked], [local_request_dropped],
      [foreign_start_kills_worker], [start_msg_large_body], [read_request_panics],
      [echo_ambiguous], [fresh_config_panics], [second_connection_forgotten],
      [sign_threshold_overflow], [shared_name_panics], [close_overflows]).

    ** Not modelled

    - The transport, encryption and the swarm of [libp2p], and what its request-response,
      Kademlia and [jsonrpsee] do behind their interfaces: input and output of libraries.
    - Argument parsing ([clap] attributes), logging, metrics and the spawning of tasks: the
      tasks run as the steps of their own models; [args.rs] holds data for [clap] only, and no [mod] declares it.
    - Cryptographic security of FROST: the agents are verified against its
      interface, with its correctness among honest parties as the laws of [FrostCorrect].
    - Derived code (serde, [Debug], [thiserror] texts) and tests. *)

From Stdlib Require Import ZArith Lia Strings.Byte.
From stdpp Require Import base gmap sorting strings numbers list.

(** ** Outcomes of Rust code

    A fallible Rust function returns [Ok] or [Err]; it can also panic (an
    [unwrap]/[expect] on the wrong variant, an index out of range, an integer
    overflow in the debug profile, which is the one the README and [test.sh]
    build).  All three are values, so theorems about error paths are
    theorems about ordinary functions. *)

Inductive outcome (E A : Type) : Type :=
  | Ok (a : A)
  | Err (e : E)
  | Panic (why : string).
Arguments Ok {E A} a.
Arguments Err {E A} e.
Arguments Panic {E A} why.

#[export] Instance outcome_ret {E} : MRet (outcome E) := fun A a => Ok a.
#[export] Instance outcome_bind {E} : MBind (outcome E) :=
  fun A B f m => match m with
                 | Ok a => f a
                 | Err e => Err e
                 | Panic w => Panic w
                 end.
#[export] Instance outcome_eq_dec {E A} `{EqDecision E, EqDecision A} :
  EqDecision (outcome E A).
Proof. solve_decision. Defined.

Definition map_err {E F A} (f : E -> F) (m : outcome E A) : outcome F A :=
  match m with Ok a => Ok a | Err e => Err (f e) | Panic w => Panic w end.

(** [Option::ok_or_else] followed by [?]. *)
Definition ok_or {E A} (e : E) (o : option A) : outcome E A :=
  match o with Some a => Ok a | None => Err e end.

(** [Option::unwrap] and [Option::expect]. *)
Definition expect {E A} (why : string) (o : option A) : outcome E A :=
  match o with Some a => Ok a | None => Panic why end.

Definition is_ok {E A} (m : outcome E A) : bool :=
  match m with Ok _ => true | _ => false end.

Section outcome_lemmas.
Context {E A B : Type}.
Implicit Types (m : outcome E A) (f : A -> outcome E B).

Lemma bind_ok m f b :
  (m ≫= f) = Ok b <-> exists a, m = Ok a /\ f a = Ok b.
Proof. destruct m; cbn; naive_solver. Qed.

Lemma bind_panic m f w :
  (m ≫= f) = Panic w <->
  m = Panic w \/ exists a, m = Ok a /\ f a = Panic w.
Proof. destruct m; cbn; naive_solver. Qed.

Lemma ok_or_ok (e : E) (o : option A) a : ok_or e o = Ok a <-> o = Some a.
Proof. destruct o; cbn; naive_solver. Qed.

Lemma map_err_ok {F} (g : E -> F) m a : map_err g m = Ok a <-> m = Ok a.
Proof. destruct m; cbn; naive_solver. Qed.

Lemma expect_ok (w : string) (o : option A) a :
  expect (E:=E) w o = Ok a <-> o = Some a.
Proof. destruct o; cbn; naive_solver. Qed.
End outcome_lemmas.

(** Decomposes every hypothesis that says a monadic computation returned
    [Ok], one [?] at a time. *)
Ltac inv_ok :=
  repeat match goal with
  | H : (_ ≫= _) = Ok _ |- _ =>
      let a := fresh "a" in let Ha := fresh "Ha" in
      apply bind_ok in H as (a & Ha & H)
  | H : mret _ = Ok _ |- _ => unfold mret, outcome_ret in H
  | H : Ok _ = Ok _ |- _ => injection H as H; try subst
  | H : ok_or _ _ = Ok _ |- _ => apply ok_or_ok in H
  | H : expect _ _ = Ok _ |- _ => apply expect_ok in H
  | H : map_err _ _ = Ok _ |- _ => apply map_err_ok in H
  | H : Err _ = Ok _ |- _ => discriminate H
  | H : Panic _ = Ok _ |- _ => discriminate H
  | p : (_ * _)%type |- _ => destruct p
  end.

(** The same for a computation that panicked: one goal per place the panic can
    come from. *)
Ltac inv_panic :=
  repeat match goal with
  | H : (_ ≫= _) = Panic _ |- _ =>
      let a := fresh "a" in let Ha := fresh "Ha" in
      apply bind_panic in H as [H|(a & Ha & H)]
  | H : Ok _ = Panic _ |- _ => discriminate H
  | H : Err _ = Panic _ |- _ => discriminate H
  | H : Panic _ = Panic _ |- _ => injection H as H; try subst
  | p : (_ * _)%type |- _ => destruct p
  end.

(** ** Bytes *)

Abbreviation bytes := (list byte).

#[export] Instance byte_eq_decision : EqDecision byte := Byte.byte_eq_dec.
#[export] Program Instance byte_countable : Countable byte :=
  inj_countable Byte.to_N Byte.of_N _.
Next Obligation. intros x. apply Byte.of_to_N. Qed.

(** ** Machine integers

    [u16] and [u64] values are integers in range.  [as_u16] is the
    truncating cast; [u16_add] and [u16_sub] panic on overflow as the debug
    profile does. *)

Definition u16_max : Z := 65535.
Definition u32_max : Z := 4294967295.
Definition u64_max : Z := 18446744073709551615.
Definition isize_max : Z := 9223372036854775807.

Definition as_u16 (x : Z) : Z := (x mod 65536)%Z.

Definition u16_add {E} (a b : Z) : outcome E Z :=
  if (a + b <=? u16_max)%Z then Ok (a + b)%Z
  else Panic "attempt to add with overflow".

Definition u32_add {E} (a b : Z) : outcome E Z :=
  if (a + b <=? u32_max)%Z then Ok (a + b)%Z
  else Panic "attempt to add with overflow".

Definition u16_sub {E} (a b : Z) : outcome E Z :=
  if (b <=? a)%Z then Ok (a - b)%Z
  else Panic "attempt to subtract with overflow".

Lemma u16_add_ok {E} a b : (a + b <= u16_max)%Z -> u16_add (E:=E) a b = Ok (a + b)%Z.
Proof. unfold u16_add. intros H. by apply Z.leb_le in H as ->. Qed.

Lemma u32_add_ok {E} a b : (a + b <= u32_max)%Z -> u32_add (E:=E) a b = Ok (a + b)%Z.
Proof. unfold u32_add. intros H. by apply Z.leb_le in H as ->. Qed.

Lemma u16_sub_ok {E} a b : (b <= a)%Z -> u16_sub (E:=E) a b = Ok (a - b)%Z.
Proof. unfold u16_sub. intros H. by apply Z.leb_le in H as ->. Qed.

Lemma as_u16_small x : (0 <= x <= u16_max)%Z -> as_u16 x = x.
Proof. unfold as_u16, u16_max. intros. apply Z.mod_small. lia. Qed.

(** ** Sorting

    [sort_by_key] of [std] (and of [itertools]) is a stable sort by a key.
    The order on keys is a class, with the two instances the code uses:
    integers and byte strings in lexicographic order. *)

Class TotalLeb {K} (leb : K -> K -> bool) : Prop := {
  leb_total x y : leb x y = true \/ leb y x = true;
  leb_trans x y z : leb x y = true -> leb y z = true -> leb x z = true;
  leb_antisym x y : leb x y = true -> leb y x = true -> x = y;
}.

#[export] Instance Zleb_total : TotalLeb Z.leb.
Proof. split; intros *; rewrite !Z.leb_le; lia. Qed.

(** [Ord] for [Vec<u8>]. *)
Fixpoint bytes_leb (a b : bytes) : bool :=
  match a, b with
  | [], _ => true
  | _ :: _, [] => false
  | x :: a', y :: b' =>
      match (Byte.to_N x ?= Byte.to_N y)%N with
      | Lt => true
      | Gt => false
      | Eq => bytes_leb a' b'
      end
  end.

Lemma byte_to_N_inj x y : Byte.to_N x = Byte.to_N y -> x = y.
Proof.
  intros H. pose proof (Byte.of_to_N x) as Hx. rewrite H, Byte.of_to_N in Hx.
  by injection Hx.
Qed.

#[export] Instance bytes_leb_total : TotalLeb bytes_leb.
Proof.
  split.
  - induction x as [|x a IH]; intros [|y b]; cbn; auto.
    rewrite (N.compare_antisym (Byte.to_N x)).
    destruct (Byte.to_N x ?= Byte.to_N y)%N; cbn; auto.
  - induction x as [|x a IH]; intros [|y b] [|z c]; cbn; auto; try discriminate.
    case (N.compare_spec (Byte.to_N x) (Byte.to_N y)); try discriminate;
      case (N.compare_spec (Byte.to_N y) (Byte.to_N z)); try discriminate;
      case (N.compare_spec (Byte.to_N x) (Byte.to_N z)); try lia; auto.
    intros _ _ _. apply IH.
  - induction x as [|x a IH]; intros [|y b]; cbn; auto; try discriminate.
    rewrite (N.compare_antisym (Byte.to_N x)).
    case (N.compare_spec (Byte.to_N x) (Byte.to_N y)); cbn; try discriminate.
    intros Hxy%byte_to_N_inj Hab Hba. f_equal; auto.
Qed.

Section sort.
Context {A K : Type} (leb : K -> K -> bool) `{!TotalLeb leb} (key : A -> K).

Fixpoint insert_by_key (x : A) (l : list A) : list A :=
  match l with
  | [] => [x]
  | y :: l' => if leb (key x) (key y) then x :: l else y :: insert_by_key x l'
  end.

Definition sort_by_key (l : list A) : list A := foldr insert_by_key [] l.

Definition key_le (x y : A) : Prop := leb (key x) (key y) = true.

Lemma insert_by_key_perm x l : insert_by_key x l ≡ₚ x :: l.
Proof.
  induction l as [|y l IH]; cbn; [done|].
  destruct leb; [done|]. rewrite IH. apply Permutation_swap.
Qed.

Lemma sort_by_key_perm l : sort_by_key l ≡ₚ l.
Proof.
  induction l as [|x l IH]; cbn; [done|]. by rewrite insert_by_key_perm, IH.
Qed.

Lemma sort_by_key_length l : length (sort_by_key l) = length l.
Proof. by rewrite sort_by_key_perm. Qed.

Lemma insert_by_key_least x l :
  Forall (fun y => leb (key x) (key y) = true) l -> insert_by_key x l = x :: l.
Proof. destruct 1 as [|y l Hy _]; cbn; [done|]. by rewrite Hy. Qed.

Lemma insert_by_key_sorted x l :
  StronglySorted key_le l -> StronglySorted key_le (insert_by_key x l).
Proof.
  induction 1 as [|y l Hs IH Hf]; cbn; [by repeat constructor|].
  destruct (leb (key x) (key y)) eqn:Hxy.
  - constructor; [by constructor|]. constructor; [done|].
    eapply Forall_impl; [exact Hf|]. unfold key_le. eauto using leb_trans.
  - constructor; [done|]. rewrite insert_by_key_perm. constructor; [|done].
    unfold key_le. destruct (leb_total (key x) (key y)); congruence.
Qed.

Lemma sort_by_key_sorted l : StronglySorted key_le (sort_by_key l).
Proof.
  induction l as [|x l IH]; cbn; [constructor|]. by apply insert_by_key_sorted.
Qed.

Lemma sort_by_key_id l : StronglySorted key_le l -> sort_by_key l = l.
Proof.
  induction 1 as [|x l _ IH Hx]; cbn; [done|].
  fold (sort_by_key l). rewrite IH. by apply insert_by_key_least.
Qed.

(** Sorting by a key that is injective on the list forgets the order the
    elements came in. *)
Lemma sort_by_key_canonical l1 l2 :
  l1 ≡ₚ l2 ->
  (forall x y, x ∈ l1 -> y ∈ l1 -> key x = key y -> x = y) ->
  sort_by_key l1 = sort_by_key l2.
Proof.
  intros Hp Hinj.
  eapply StronglySorted_unique_strong;
    [|apply sort_by_key_sorted|apply sort_by_key_sorted|].
  - intros x y Hx Hy Hxy Hyx.
    rewrite sort_by_key_perm in Hx. rewrite sort_by_key_perm, <- Hp in Hy.
    apply Hinj; auto. by apply leb_antisym.
  - by rewrite !sort_by_key_perm.
Qed.
End sort.

(** ** Lengths of concatenations *)

Lemma concat_lookup_length {A} (l : list (list A)) i x :
  l !! i = Some x -> (length x <= length (concat l))%nat.
Proof.
  revert i. induction l as [|y l IH]; intros [|i] Hi; cbn in *; try done.
  - injection Hi as ->. rewrite length_app. lia.
  - rewrite length_app. apply IH in Hi. lia.
Qed.

Lemma concat_lookup_two {A} (l : list (list A)) i j x y :
  i <> j -> l !! i = Some x -> l !! j = Some y ->
  (length x + length y <= length (concat l))%nat.
Proof.
  revert i j. induction l as [|z l IH]; intros [|i] [|j] Hij Hi Hj; cbn in *;
    try done; rewrite length_app.
  - injection Hi as ->. apply concat_lookup_length in Hj. lia.
  - injection Hj as ->. apply concat_lookup_length in Hi. lia.
  - specialize (IH i j ltac:(congruence) Hi Hj). lia.
Qed.

Lemma NoDup_omap_inj {A B} (f : A -> option B) (l : list A) :
  (forall x y b, f x = Some b -> f y = Some b -> x = y) -> NoDup l -> NoDup (omap f l).
Proof.
  intros Hinj. induction 1 as [|x l Hx _ IH]; cbn; [constructor|].
  destruct (f x) as [b|] eqn:Hb; [|done]. constructor; [|done].
  intros (y & Hy & Hyb)%list_elem_of_omap. by rewrite (Hinj x y b) in Hx.
Qed.

Lemma list_filter_iff_in {A} (P Q : A -> Prop) `{forall x, Decision (P x)}
    `{forall x, Decision (Q x)} (l : list A) :
  (forall x, x ∈ l -> P x <-> Q x) -> filter P l = filter Q l.
Proof.
  induction l as [|x l IH]; intros Hl; [done|]. rewrite !filter_cons.
  rewrite IH by (intros; apply Hl; by right).
  destruct (Hl x ltac:(by left)). repeat case_decide; tauto.
Qed.

(** ** Finding a position *)

Fixpoint position {A} (p : A -> bool) (l : list A) : option nat :=
  match l with
  | [] => None
  | x :: l' => if p x then Some 0%nat else S <$> position p l'
  end.

Lemma position_some {A} (p : A -> bool) l i :
  position p l = Some i <->
  (exists x, l !! i = Some x /\ p x = true) /\
  (forall j y, (j < i)%nat -> l !! j = Some y -> p y = false).
Proof.
  revert i. induction l as [|x l IH]; intros i; cbn.
  { split; [done|]. by intros [(y & Hy & _) _]. }
  destruct (p x) eqn:Hp.
  - split.
    + intros [= <-]. split; [by exists x|]. lia.
    + intros [_ Hlt]. destruct i as [|i]; [done|].
      specialize (Hlt 0%nat x ltac:(lia) eq_refl). congruence.
  - rewrite fmap_Some. split.
    + intros (k & Hk & ->). apply IH in Hk as [Hx Hlt]. split; [done|].
      intros [|j] y Hj Hl; cbn in Hl; [congruence|]. eapply Hlt; [|done]. lia.
    + intros [(y & Hy & Hpy) Hlt]. destruct i as [|i]; cbn in *; [congruence|].
      exists i. split; [|done]. apply IH. split; [eauto|].
      intros j z Hj Hz. apply (Hlt (S j) z); [lia|done].
Qed.

Lemma position_none {A} (p : A -> bool) l :
  position p l = None <-> forall x, x ∈ l -> p x = false.
Proof.
  induction l as [|x l IH]; cbn.
  { split; [|done]. intros _ y Hy. by apply elem_of_nil in Hy. }
  destruct (p x) eqn:Hp.
  - split; [done|]. intros H. rewrite (H x) in Hp by constructor. done.
  - rewrite fmap_None, IH. split.
    + intros H y [->|Hy]%elem_of_cons; auto.
    + intros H y Hy. apply H. by constructor.
Qed.

(** ** Filters and maps that can fail *)

(** What is not in a part is in the rest. *)
Lemma filter_rest {A} (P : A -> Prop) `{!forall x, Decision (P x)} (l : list A) :
  filter P l = [] -> filter (fun x => ~ P x) l = l.
Proof.
  induction l as [|x l IH]; [done|]. rewrite !filter_cons. destruct (decide (P x)); [done|].
  rewrite decide_True by done. intros. f_equal. auto.
Qed.

Lemma mapM_perm {A B} (f : A -> option B) l l' k :
  l ≡ₚ l' -> mapM f l = Some k -> exists k', mapM f l' = Some k' /\ k ≡ₚ k'.
Proof.
  intros Hl. revert k. induction Hl as [|x l l' _ IH|x y l|l1 l2 l3 _ IH1 _ IH2]; intros k; cbn.
  - intros [= <-]. by exists [].
  - intros (a & Ha & (k1 & Hk & [= <-])%bind_Some)%bind_Some.
    destruct (IH k1 Hk) as (k' & Hk' & Hp). exists (a :: k'). rewrite Ha, Hk'. cbn. by rewrite Hp.
  - intros (b & Hb & (k1 & (a & Ha & (k2 & Hk2 & [= <-])%bind_Some)%bind_Some & [= <-])%bind_Some)%bind_Some.
    exists (a :: b :: k2). rewrite Ha. cbn. rewrite Hb. cbn. rewrite Hk2. cbn.
    split; [done|]. constructor.
  - intros Hk. destruct (IH1 k Hk) as (k2 & Hk2 & Hp). destruct (IH2 k2 Hk2) as (k3 & Hk3 & Hp').
    exists k3. split; [done|]. by etrans.
Qed.

Lemma mapM_app_inv {A B} (f : A -> option B) l1 l2 k :
  mapM f (l1 ++ l2) = Some k ->
  exists k1 k2, mapM f l1 = Some k1 /\ mapM f l2 = Some k2 /\ k = k1 ++ k2.
Proof.
  intros (k1 & k2 & H1 & H2 & ->)%mapM_Some_1%Forall2_app_inv_l.
  exists k1, k2. by split_and!; try apply mapM_Some_2.
Qed.

Lemma mapM_fmap {A B C} (f : B -> option C) (g : A -> B) l :
  mapM f (g <$> l) = mapM (fun x => f (g x)) l.
Proof. induction l as [|x l IH]; cbn; [done|]. by rewrite IH. Qed.

(** ** Hint databases *)

Create HintDb frost.
#[export] Hint Rewrite @sort_by_key_length @length_app @length_map : frost.
#[export] Hint Resolve sort_by_key_perm sort_by_key_sorted : frost.
