(* ===== verification/Wire.v ===== *)
(** * Byte streams: readers, writers and variable-length integers

    What the encoders of the repository use of their surroundings:
    - [read_exact] on a byte slice or stream and the allocation of the buffer
      it fills ([vec![0; n]]), from the standard library;
    - [std::io::BufWriter], whose 8 KiB buffer the [to_bytes] functions read
      back with [buffer()];
    - the [unsigned_varint] crate, which is not part of the repository: an
      interface ([UnsignedVarint]) with its documented laws, and one instance
      (LEB128) that shows the laws can be met. *)

From Stdlib Require Import ZArith Lia Strings.Byte.
From stdpp Require Import base strings numbers list.
From S2P Require Import Prelude.

Local Open Scope Z_scope.

(** ** Errors of [std::io] *)

Inductive io_error : Type :=
  | UnexpectedEof
  | InvalidInput
  | InvalidData
  | NotFound.

#[export] Instance io_error_eq_dec : EqDecision io_error.
Proof. solve_decision. Defined.

(** ** Readers

    A reader is the list of bytes still to come. *)

(** [vec![0; n]]: a capacity over [isize::MAX] panics. *)
Definition vec_zeroed {E} (n : Z) : outcome E unit :=
  if n <=? isize_max then Ok tt else Panic "capacity overflow".

(** [read_exact] into a buffer of [n] bytes. *)
Definition read_exact (n : Z) (io : bytes) : outcome io_error (bytes * bytes) :=
  if n <=? Z.of_nat (length io)
  then Ok (take (Z.to_nat n) io, drop (Z.to_nat n) io)
  else Err UnexpectedEof.

(** [let mut b = vec![0; n]; io.read_exact(&mut b)?]. *)
Definition read_buffer (n : Z) (io : bytes) : outcome io_error (bytes * bytes) :=
  _ ← vec_zeroed n; read_exact n io.

Lemma read_exact_app (a rest : bytes) :
  read_exact (Z.of_nat (length a)) (a ++ rest) = Ok (a, rest).
Proof.
  unfold read_exact. rewrite length_app, Nat2Z.id.
  rewrite (proj2 (Z.leb_le _ _)) by lia.
  by rewrite take_app_length, drop_app_length.
Qed.

Lemma read_buffer_app (a rest : bytes) :
  Z.of_nat (length a) <= isize_max ->
  read_buffer (Z.of_nat (length a)) (a ++ rest) = Ok (a, rest).
Proof.
  intros Ha. unfold read_buffer, vec_zeroed.
  rewrite (proj2 (Z.leb_le _ _)) by done. apply read_exact_app.
Qed.

Lemma read_exact_ok n io a rest :
  0 <= n -> read_exact n io = Ok (a, rest) ->
  io = a ++ rest /\ Z.of_nat (length a) = n.
Proof.
  unfold read_exact. intros Hn.
  destruct (Z.leb_spec n (Z.of_nat (length io))); [|done].
  intros [= <- <-]. rewrite take_drop, length_take. split; [done|lia].
Qed.

Lemma read_buffer_ok n io a rest :
  0 <= n -> read_buffer n io = Ok (a, rest) ->
  io = a ++ rest /\ Z.of_nat (length a) = n.
Proof.
  unfold read_buffer, vec_zeroed. intros Hn.
  destruct (n <=? isize_max); [|done]. by apply read_exact_ok.
Qed.

Lemma read_exact_no_panic n io why : read_exact n io <> Panic why.
Proof. unfold read_exact. by case_match. Qed.

Lemma read_buffer_no_panic n io why : n <= isize_max -> read_buffer n io <> Panic why.
Proof.
  intros Hn. unfold read_buffer, vec_zeroed. rewrite (proj2 (Z.leb_le _ _)) by done.
  apply read_exact_no_panic.
Qed.

(** ** [std::io::BufWriter] over a [Vec<u8>] *)

Module BufWriter.
(** [DEFAULT_BUF_SIZE] of [std::io]. *)
Definition capacity : Z := 8192.

Record t : Type := { inner : bytes; buffer : bytes }.

(** [BufWriter::new(vec![])]. *)
Definition new : t := {| inner := []; buffer := [] |}.

Definition spare_capacity (w : t) : Z := capacity - Z.of_nat (length (buffer w)).

Definition flush_buf (w : t) : t :=
  {| inner := inner w ++ buffer w; buffer := [] |}.

Definition write_to_buffer (b : bytes) (w : t) : t :=
  {| inner := inner w; buffer := buffer w ++ b |}.

Definition write_inner (b : bytes) (w : t) : t :=
  {| inner := inner w ++ b; buffer := buffer w |}.

(** [write_all]: the data goes to the buffer while it fits; otherwise the
    buffer is flushed first, and data as long as the buffer bypasses it. *)
Definition write_all (b : bytes) (w : t) : t :=
  let len := Z.of_nat (length b) in
  if len <? spare_capacity w then write_to_buffer b w
  else
    let w := if spare_capacity w <? len then flush_buf w else w in
    if capacity <=? len then write_inner b w else write_to_buffer b w.

Definition write_list (bs : list bytes) (w : t) : t :=
  foldl (fun w b => write_all b w) w bs.

(** What was written in all, flushed or not. *)
Definition contents (w : t) : bytes := inner w ++ buffer w.

Lemma write_all_fits b w :
  Z.of_nat (length (buffer w) + length b) <= capacity ->
  Z.of_nat (length b) < capacity ->
  write_all b w = write_to_buffer b w.
Proof.
  intros Hfit Hlen. unfold write_all, spare_capacity.
  repeat case_match; rewrite ?Z.ltb_lt, ?Z.ltb_ge, ?Z.leb_le, ?Z.leb_gt in *;
    auto; lia.
Qed.

(** As long as everything fits, the buffer is the whole output. *)
Lemma write_list_fits bs w :
  Z.of_nat (length (buffer w) + length (concat bs)) <= capacity ->
  Forall (fun b => Z.of_nat (length b) < capacity) bs ->
  write_list bs w = write_to_buffer (concat bs) w.
Proof.
  unfold write_list. revert w.
  induction bs as [|b bs IH]; intros w Hfit Hall; cbn in *.
  { unfold write_to_buffer. rewrite app_nil_r. by destruct w. }
  rewrite length_app in Hfit. inversion_clear Hall.
  rewrite write_all_fits by (auto; lia). rewrite IH; [|cbn|done].
  - unfold write_to_buffer. cbn. by rewrite <- app_assoc.
  - rewrite length_app. lia.
Qed.

(** When at least two of the writes are not empty, none of them fills the
    buffer on its own. *)
Lemma write_list_two_fits bs i j x y :
  Z.of_nat (length (concat bs)) <= capacity ->
  i <> j -> bs !! i = Some x -> x <> [] -> bs !! j = Some y -> y <> [] ->
  write_list bs new = write_to_buffer (concat bs) new.
Proof.
  intros Hfit Hij Hi Hx Hj Hy. apply write_list_fits; [cbn; lia|].
  assert (0 < length x)%nat by (destruct x; [done|cbn; lia]).
  assert (0 < length y)%nat by (destruct y; [done|cbn; lia]).
  apply Forall_lookup. intros k b Hb.
  destruct (decide (k = i)) as [->|Hki].
  - pose proof (concat_lookup_two _ i j b y Hij Hb Hj). lia.
  - pose proof (concat_lookup_two _ k i b x Hki Hb Hi). lia.
Qed.

Lemma write_list_app bs1 bs2 w :
  write_list (bs1 ++ bs2) w = write_list bs2 (write_list bs1 w).
Proof. apply foldl_app. Qed.

Lemma write_all_nonempty b w :
  b <> [] -> Z.of_nat (length b) < capacity -> buffer (write_all b w) <> [].
Proof.
  intros Hb Hlen. unfold write_all.
  repeat case_match; rewrite ?Z.leb_le in *; cbn; try lia;
    intros [_ ?]%app_eq_nil || intros ?; done.
Qed.

(** A write at least as long as the whole buffer leaves nothing in it, if
    the buffer was not empty before or the write is longer. *)
Lemma write_all_large b w :
  capacity <= Z.of_nat (length b) -> buffer w <> [] ->
  buffer (write_all b w) = [].
Proof.
  intros Hlen Hne. unfold write_all, spare_capacity.
  assert (0 < Z.of_nat (length (buffer w))).
  { destruct (buffer w); [done|]. cbn. lia. }
  rewrite (proj2 (Z.ltb_ge _ _)) by lia.
  rewrite (proj2 (Z.ltb_lt _ _)) by lia.
  by rewrite (proj2 (Z.leb_le _ _)) by lia.
Qed.
End BufWriter.

(** ** Variable-length integers: the interface of [unsigned_varint] *)

Inductive width : Type := U8 | U64 | Usize.

Definition bits (w : width) : Z := match w with U8 => 8 | U64 | Usize => 64 end.

(** [unsigned_varint::io::ReadError]. *)
Inductive read_error : Type :=
  | ReadIo (e : io_error)
  | ReadDecode.

#[export] Instance read_error_eq_dec : EqDecision read_error.
Proof. solve_decision. Defined.

(** [encode::u8], [encode::u64], [encode::usize] and [io::read_u8],
    [read_u64], [read_usize] (the [aio] readers are the same functions on an
    asynchronous stream). *)
Class UnsignedVarint : Type := {
  uv_encode : width -> Z -> bytes;
  uv_read : width -> bytes -> outcome read_error (Z * bytes);
}.

Class UnsignedVarintLaws `{UnsignedVarint} : Prop := {
  uv_read_encode w v rest :
    0 <= v < 2 ^ bits w -> uv_read w (uv_encode w v ++ rest) = Ok (v, rest);
  uv_encode_nonempty w v : uv_encode w v <> [];
  uv_encode_bound w v : (length (uv_encode w v) <= 10)%nat;
  uv_read_eof w : uv_read w [] = Err (ReadIo UnexpectedEof);
  uv_read_range w io v rest : uv_read w io = Ok (v, rest) -> 0 <= v < 2 ^ bits w;
  uv_read_no_panic w io why : uv_read w io <> Panic why;
}.

(** The reader's [?]: every varint error becomes [InvalidInput]. *)
Definition read_uint `{UnsignedVarint} (w : width) (io : bytes) :
  outcome io_error (Z * bytes) :=
  map_err (fun _ => InvalidInput) (uv_read w io).

Section read_uint.
Context `{UnsignedVarintLaws}.

Lemma read_uint_encode w v rest :
  0 <= v < 2 ^ bits w -> read_uint w (uv_encode w v ++ rest) = Ok (v, rest).
Proof. intros Hv. unfold read_uint. by rewrite uv_read_encode. Qed.

Lemma read_uint_range w io v rest :
  read_uint w io = Ok (v, rest) -> 0 <= v < 2 ^ bits w.
Proof. unfold read_uint. intros. inv_ok. by eapply uv_read_range. Qed.

Lemma read_uint_no_panic w io why : read_uint w io <> Panic why.
Proof.
  unfold read_uint. pose proof (uv_read_no_panic w io why) as Hnp.
  destruct (uv_read w io); cbn; [done..|]. by intros [= ->].
Qed.

Lemma uv_encode_length w v : (0 < length (uv_encode w v))%nat.
Proof.
  destruct (uv_encode w v) eqn:He; [|cbn; lia].
  by destruct (uv_encode_nonempty w v).
Qed.
End read_uint.

(** ** LEB128, an implementation of the interface *)

Module Leb128.
Definition byte_of_Z (z : Z) : byte :=
  match Byte.of_N (Z.to_N (z mod 256)) with Some b => b | None => x00 end.
Definition byte_to_Z (b : byte) : Z := Z.of_N (Byte.to_N b).

Lemma byte_to_of_Z z : 0 <= z < 256 -> byte_to_Z (byte_of_Z z) = z.
Proof.
  intros Hz. unfold byte_to_Z, byte_of_Z. rewrite Z.mod_small by done.
  destruct (Byte.of_N (Z.to_N z)) eqn:E.
  - apply Byte.to_of_N in E. rewrite E. lia.
  - apply Byte.of_N_None_iff in E. lia.
Qed.

Fixpoint encode (fuel : nat) (v : Z) : bytes :=
  match fuel with
  | O => []
  | S fuel =>
      if v <? 128 then [byte_of_Z v]
      else byte_of_Z (v mod 128 + 128) :: encode fuel (v / 128)
  end.

(** [acc] is the value read so far, [unit] the weight of the next group. *)
Fixpoint read (fuel : nat) (limit acc unit : Z) (io : bytes) :
  outcome read_error (Z * bytes) :=
  match fuel, io with
  | O, _ => Err ReadDecode
  | S _, [] => Err (ReadIo UnexpectedEof)
  | S fuel, b :: rest =>
      let x := byte_to_Z b in
      let acc' := acc + x mod 128 * unit in
      if x <? 128
      then if acc' <? limit then Ok (acc', rest) else Err ReadDecode
      else read fuel limit acc' (unit * 128) rest
  end.

(** Ten groups of seven bits hold 64 bits. *)
#[export] Instance leb128 : UnsignedVarint := {|
  uv_encode _ v := encode 10 v;
  uv_read w io := read 10 (2 ^ bits w) 0 1 io;
|}.

Lemma read_encode fuel limit acc unit v rest :
  0 <= v < 128 ^ Z.of_nat fuel -> (0 < fuel)%nat -> 0 < unit ->
  0 <= acc -> acc + v * unit < limit ->
  read fuel limit acc unit (encode fuel v ++ rest) = Ok (acc + v * unit, rest).
Proof.
  revert acc unit v. induction fuel as [|fuel IH]; [lia|].
  intros acc unit v Hv _ Hu Hacc Hlim. cbn [encode].
  destruct (Z.ltb_spec v 128); cbn [read app].
  - rewrite byte_to_of_Z, Z.mod_small by lia.
    rewrite (proj2 (Z.ltb_lt v 128)) by lia.
    by rewrite (proj2 (Z.ltb_lt _ _)) by lia.
  - pose proof (Z.mod_pos_bound v 128 eq_refl).
    pose proof (Z.div_mod v 128 ltac:(lia)) as Hdm.
    rewrite byte_to_of_Z by lia.
    replace ((v mod 128 + 128) mod 128) with (v mod 128)
      by (rewrite <- (Z.mul_1_l 128) at 3; by rewrite Z.mod_add, Z.mod_mod by lia).
    rewrite (proj2 (Z.ltb_ge _ 128)) by lia.
    rewrite Nat2Z.inj_succ, Z.pow_succ_r in Hv by lia.
    assert (acc + v mod 128 * unit + v / 128 * (unit * 128) = acc + v * unit) as Heq
      by (rewrite Hdm at 3; ring).
    rewrite IH, Heq; [done|..].
    + split; [apply Z.div_pos; lia|]. apply Z.div_lt_upper_bound; lia.
    + destruct fuel; [cbn in Hv; lia|lia].
    + lia.
    + apply Z.add_nonneg_nonneg; [done|]. apply Z.mul_nonneg_nonneg; lia.
    + by rewrite Heq.
Qed.

Lemma read_range fuel limit acc unit io v rest :
  0 <= acc -> 0 < unit -> read fuel limit acc unit io = Ok (v, rest) -> 0 <= v < limit.
Proof.
  revert acc unit io. induction fuel as [|fuel IH]; [done|].
  intros acc unit [|b io] Hacc Hu; cbn [read]; [done|].
  pose proof (Z.mod_pos_bound (byte_to_Z b) 128 eq_refl).
  destruct (byte_to_Z b <? 128).
  - destruct (Z.ltb_spec (acc + byte_to_Z b mod 128 * unit) limit); [|done].
    intros [= <- <-]. nia.
  - apply IH; nia.
Qed.

Lemma read_no_panic fuel limit acc unit io why :
  read fuel limit acc unit io <> Panic why.
Proof.
  revert acc unit io. induction fuel as [|fuel IH]; [done|].
  intros acc unit [|b io]; cbn [read]; [done|]. repeat case_match; try done.
Qed.

#[export] Instance leb128_laws : UnsignedVarintLaws.
Proof.
  split.
  - intros w v rest Hv. cbn [uv_read uv_encode leb128].
    pose proof (read_encode 10 (2 ^ bits w) 0 1 v rest) as Hr.
    rewrite Z.mul_1_r, Z.add_0_l in Hr. destruct Hv as [Hv1 Hv2].
    apply Hr; [split; [done|]|lia..|done].
    eapply Z.lt_le_trans; [exact Hv2|]. by destruct w; vm_compute.
  - intros w v. cbn. by case_match.
  - intros w v. unfold uv_encode, leb128. generalize 10%nat as fuel. intros fuel.
    revert v. induction fuel as [|fuel IH]; intros v; cbn; [lia|].
    case_match; cbn; [lia|]. specialize (IH (v / 128)). lia.
  - done.
  - intros w io v rest. apply read_range; lia.
  - intros w io why. apply read_no_panic.
Qed.
End Leb128.
