(* ===== verification/Messages.v ===== *)
(** * Messages and peer identities of the network crate

    The data of [crates/client/network]: message contexts, wire messages,
    incoming requests and the failures of a request ([request_responses.rs]),
    room identifiers ([room.rs]) and curves ([curve.rs]).  Peer identities
    come from [libp2p] and are an interface ([PeerIds]) with the round trips
    the code relies on.

    A [oneshot::Sender] is modelled by the name of its channel (a [nat]); to
    send on it is to emit an effect that carries the name, so that theorems
    can count how often a request is answered. *)

From Stdlib Require Import ZArith Lia Strings.Byte Strings.String.
From stdpp Require Import base gmap strings numbers list.
From S2P Require Import Prelude.

Local Open Scope Z_scope.

(** ** Peer identities: the interface of [libp2p::PeerId] *)

Class PeerIds : Type := {
  PeerId : Type;
  peer_eq_dec :: EqDecision PeerId;
  peer_countable :: Countable PeerId;
  peer_to_bytes : PeerId -> bytes;
  peer_from_bytes : bytes -> option PeerId;
  peer_to_base58 : PeerId -> string;
  peer_from_str : string -> option PeerId;
}.

Class PeerIdLaws `{PeerIds} : Prop := {
  peer_from_to_bytes p : peer_from_bytes (peer_to_bytes p) = Some p;
  peer_from_to_base58 p : peer_from_str (peer_to_base58 p) = Some p;
}.

Section peer_ids.
Context `{PeerIdLaws}.

Lemma peer_to_bytes_inj p q : peer_to_bytes p = peer_to_bytes q -> p = q.
Proof.
  intros Hpq. pose proof (peer_from_to_bytes p) as Hp.
  rewrite Hpq, peer_from_to_bytes in Hp. by injection Hp.
Qed.

Lemma peer_to_base58_inj p q : peer_to_base58 p = peer_to_base58 q -> p = q.
Proof.
  intros Hpq. pose proof (peer_from_to_base58 p) as Hp.
  rewrite Hpq, peer_from_to_base58 in Hp. by injection Hp.
Qed.
End peer_ids.

(** Byte strings as peer identities, an instance for concrete runs. *)
Module BytePeers.
#[export] Instance byte_peers : PeerIds := {|
  PeerId := bytes;
  peer_to_bytes p := p;
  peer_from_bytes b := Some b;
  peer_to_base58 p := String.string_of_list_byte p;
  peer_from_str s := Some (String.list_byte_of_string s);
|}.

#[export] Instance byte_peers_laws : PeerIdLaws.
Proof.
  split; [done|]. intros p. cbn. f_equal.
  apply String.list_byte_of_string_of_list_byte.
Qed.
End BytePeers.

(** ** Rooms and curves *)

(** [RoomId] is the hex digest of the room's name; the digest is [blake3]'s
    and only its use as a key matters here. *)
Abbreviation RoomId := string.

Inductive Curve : Type := Ed25519 | Secp256k1.

#[export] Instance curve_eq_dec : EqDecision Curve.
Proof. solve_decision. Defined.

(** [RoomId::protocol_name]. *)
Definition protocol_name (id : RoomId) : string := ("/room/" ++ id)%string.

(** ** Contexts and wire messages *)

Inductive MessageType : Type := Coordination | Computation.

#[export] Instance message_type_eq_dec : EqDecision MessageType.
Proof. solve_decision. Defined.

(** [message_type as u8]. *)
Definition message_type_as_u8 (t : MessageType) : Z :=
  match t with Coordination => 0 | Computation => 1 end.

Abbreviation SessionId := bytes.

Definition NO_SESSION_ID : SessionId := replicate 16 x00.

Record MessageContext : Type := {
  message_type : MessageType;
  protocol_id : Z;
  session_id : SessionId;
  message_id : Z;
}.

Record WireMessage : Type := {
  wm_context : MessageContext;
  wm_payload : bytes;
  wm_is_broadcast : bool;
}.

#[export] Instance message_context_eq_dec : EqDecision MessageContext.
Proof. solve_decision. Defined.
#[export] Instance wire_message_eq_dec : EqDecision WireMessage.
Proof. solve_decision. Defined.

(** The ranges the Rust types impose: [u64] ids and a 16-byte session id. *)
Record context_wf (c : MessageContext) : Prop := {
  wf_protocol_id : 0 <= protocol_id c < 2 ^ 64;
  wf_session_id : length (session_id c) = 16%nat;
  wf_message_id : 0 <= message_id c < 2 ^ 64;
}.

(** ** Failures of requests *)

Inductive OutboundFailure : Type :=
  | DialFailure
  | OutboundTimeout
  | OutboundConnectionClosed
  | OutboundUnsupportedProtocols
  | OutboundIo (e : string).

Inductive InboundFailure : Type :=
  | InboundTimeout
  | InboundConnectionClosed
  | InboundUnsupportedProtocols
  | ResponseOmission
  | InboundIo (e : string).

Inductive RequestFailure : Type :=
  | NotConnected
  | UnknownProtocol
  | Refused
  | Obsolete
  | Network (f : OutboundFailure).

#[export] Instance outbound_failure_eq_dec : EqDecision OutboundFailure.
Proof. solve_decision. Defined.
#[export] Instance inbound_failure_eq_dec : EqDecision InboundFailure.
Proof. solve_decision. Defined.
#[export] Instance request_failure_eq_dec : EqDecision RequestFailure.
Proof. solve_decision. Defined.

(** ** Requests as the service layer sees them *)

Section requests.
Context `{PeerIds}.

(** [request_responses::IncomingRequest]; [pending_response] names the
    channel the answer goes to. *)
Record IncomingRequest : Type := {
  context : MessageContext;
  peer : PeerId;
  peer_id : PeerId;
  is_broadcast : bool;
  peer_index : Z;
  payload : bytes;
  pending_response : nat;
}.

#[export] Instance incoming_request_eq_dec : EqDecision IncomingRequest.
Proof. solve_decision. Defined.

(** [request_responses::OutgoingResponse]; [None] stands for [Err(())]. *)
Record OutgoingResponse : Type := {
  result : option bytes;
  sent_feedback : option nat;
}.

Definition reject : OutgoingResponse := {| result := None; sent_feedback := None |}.
Definition accept (b : bytes) : OutgoingResponse :=
  {| result := Some b; sent_feedback := None |}.

(** [msg.peer_index = i]. *)
Definition with_peer_index (i : Z) (m : IncomingRequest) : IncomingRequest :=
  {| context := context m; peer := peer m; peer_id := peer_id m;
     is_broadcast := is_broadcast m; peer_index := i; payload := payload m;
     pending_response := pending_response m |}.
End requests.
