(* ===== verification/Codec.v ===== *)
(** * The request-response codec

    [GenericCodec] of [crates/client/network/src/request_responses.rs]: how a
    [WireMessage] and its answer are laid out on a substream.  A substream is
    the list of bytes to read, or the list of bytes written. *)

From Stdlib Require Import ZArith Lia Strings.Byte.
From stdpp Require Import base strings numbers list.
From S2P Require Import Prelude Wire Messages.

Local Open Scope Z_scope.

Module GenericCodec.
Record t : Type := { max_request_size : Z; max_response_size : Z }.

Section codec.
Context `{UnsignedVarint}.

(** [read_request]. *)
Definition read_request (c : t) (io : bytes) : outcome io_error WireMessage :=
  '(ty, io) ← read_uint U8 io;
  message_type ← (if decide (ty = 0) then Ok Coordination
                  else if decide (ty = 1) then Ok Computation
                  else Panic "unknown messages type");
  '(is_broadcast, io) ← read_uint U8 io;
  '(protocol_id, io) ← read_uint U64 io;
  '(session_id, io) ← read_exact 16 io;
  '(message_id, io) ← read_uint U64 io;
  '(length, io) ← read_uint Usize io;
  if max_request_size c <? length then Err InvalidInput
  else
    '(buffer, io) ← read_buffer length io;
    Ok {| wm_context := {| message_type := message_type;
                           protocol_id := protocol_id;
                           session_id := session_id;
                           message_id := message_id |};
          wm_payload := buffer;
          wm_is_broadcast := negb (is_broadcast =? 0) |}.

(** [read_response]; [None] is the [Err(())] of a remote that closed the
    substream without an answer. *)
Definition read_response (c : t) (io : bytes) : outcome io_error (option bytes) :=
  match uv_read Usize io with
  | Ok (length, io) =>
      if max_response_size c <? length then Err InvalidInput
      else '(buffer, io) ← read_buffer length io; Ok (Some buffer)
  | Err (ReadIo UnexpectedEof) => Ok None
  | Err _ => Err InvalidInput
  | Panic why => Panic why
  end.

(** [write_request]. *)
Definition write_request (req : WireMessage) : bytes :=
  uv_encode U8 (message_type_as_u8 (message_type (wm_context req))) ++
  uv_encode U8 (if wm_is_broadcast req then 1 else 0) ++
  uv_encode U64 (protocol_id (wm_context req)) ++
  session_id (wm_context req) ++
  uv_encode U64 (message_id (wm_context req)) ++
  uv_encode Usize (Z.of_nat (length (wm_payload req))) ++
  wm_payload req.

(** [write_response]: an [Err] writes nothing. *)
Definition write_response (res : option bytes) : bytes :=
  match res with
  | Some res => uv_encode Usize (Z.of_nat (length res)) ++ res
  | None => []
  end.
End codec.

(** ** The codec is faithful *)
Section laws.
Context `{UnsignedVarintLaws}.

(** [read_request] up to the length check, on a written request. *)
Lemma read_request_written c req rest :
  context_wf (wm_context req) ->
  Z.of_nat (length (wm_payload req)) < 2 ^ 64 ->
  read_request c (write_request req ++ rest) =
  if max_request_size c <? Z.of_nat (length (wm_payload req))
  then Err InvalidInput
  else '(buffer, _) ← read_buffer (Z.of_nat (length (wm_payload req)))
                                  (wm_payload req ++ rest);
       Ok {| wm_context := wm_context req; wm_payload := buffer;
             wm_is_broadcast := wm_is_broadcast req |}.
Proof.
  destruct req as [[ty pid sid mid] pl br]. intros [Hp Hs Hm] Hl.
  unfold read_request, write_request. cbn in *.
  rewrite <- !app_assoc, read_uint_encode by (by destruct ty). cbn.
  assert (forall A (k : MessageType -> outcome io_error A),
    ((if decide (message_type_as_u8 ty = 0) then Ok Coordination
      else if decide (message_type_as_u8 ty = 1) then Ok Computation
      else Panic "unknown messages type") ≫= k) = k ty) as -> by (by destruct ty).
  rewrite read_uint_encode by (by destruct br). cbn.
  rewrite read_uint_encode by done. cbn.
  replace 16 with (Z.of_nat (length sid)) by (by rewrite Hs).
  rewrite read_exact_app. cbn.
  rewrite read_uint_encode by done. cbn.
  rewrite read_uint_encode by (cbn; lia). cbn.
  case_match; [done|]. by destruct br.
Qed.

Lemma request_read c req rest :
  context_wf (wm_context req) ->
  Z.of_nat (length (wm_payload req)) <= max_request_size c ->
  max_request_size c <= isize_max ->
  read_request c (write_request req ++ rest) = Ok req.
Proof.
  intros Hwf Hlen Hmax. unfold isize_max in Hmax.
  rewrite read_request_written by (auto; lia).
  rewrite (proj2 (Z.ltb_ge _ _)) by done.
  rewrite read_buffer_app by (unfold isize_max; lia). by destruct req.
Qed.

(** a request within the size limit is read back exactly as it was
    written, whatever follows it on the substream, and one over the limit is
    refused before a buffer for it is allocated or read. *)
Theorem request_roundtrip c req rest :
  context_wf (wm_context req) -> max_request_size c <= isize_max ->
  Z.of_nat (length (wm_payload req)) < 2 ^ 64 ->
  read_request c (write_request req ++ rest) =
    if Z.of_nat (length (wm_payload req)) <=? max_request_size c then Ok req
    else Err InvalidInput.
Proof.
  intros Hwf Hmax Hlen. case_match eqn:Hle.
  - apply request_read; [done|by apply Z.leb_le|done].
  - rewrite read_request_written by done.
    rewrite (proj2 (Z.ltb_lt _ _)); [done|]. by apply Z.leb_gt.
Qed.

(** what [read_request] accepts has a 16-byte session id, [u64]
    identifiers and a payload within the limit. *)
Theorem read_request_wf c io req :
  read_request c io = Ok req ->
  context_wf (wm_context req) /\
  Z.of_nat (length (wm_payload req)) <= max_request_size c.
Proof.
  unfold read_request. intros Hr. inv_ok. case_match; inv_ok.
  cbn. rewrite Z.ltb_ge in *.
  repeat match goal with
  | H : read_uint _ _ = Ok _ |- _ => apply read_uint_range in H
  | H : read_buffer _ _ = Ok _ |- _ => apply read_buffer_ok in H as [_ H]; [|lia]
  | H : read_exact _ _ = Ok _ |- _ => apply read_exact_ok in H as [_ H]; [|lia]
  end.
  split; [|lia]. constructor; cbn in *; lia.
Qed.

(** the only panic of [read_request] is the one on an unknown message
    type, and any type byte other than 0 and 1 provokes it: the byte comes
    from the remote peer. *)
Theorem read_request_panics c io ty rest :
  max_request_size c <= isize_max ->
  (forall why, read_request c io = Panic why -> why = "unknown messages type"%string) /\
  (1 < ty < 256 ->
   read_request c (uv_encode U8 ty ++ rest) = Panic "unknown messages type").
Proof.
  intros Hmax. split.
  - intros why. unfold read_request. intros Hp.
    inv_panic; try (by apply read_uint_no_panic in Hp);
      try (by apply read_exact_no_panic in Hp).
    + by repeat case_decide; inv_panic.
    + case_match; inv_panic. rewrite Z.ltb_ge in *.
      by apply read_buffer_no_panic in Hp; [|lia].
  - intros Hty. unfold read_request. rewrite read_uint_encode by (cbn; lia). cbn.
    by rewrite !decide_False by lia.
Qed.

(** an answer within the limit, and the refusal to answer, are read
    back as they were written. *)
Theorem response_roundtrip c res :
  (forall b, res = Some b -> Z.of_nat (length b) <= max_response_size c) ->
  max_response_size c <= isize_max ->
  read_response c (write_response res) = Ok res.
Proof.
  intros Hlen Hmax. unfold read_response. destruct res as [b|]; cbn.
  - specialize (Hlen b eq_refl). unfold isize_max in Hmax.
    rewrite uv_read_encode by (cbn; lia).
    rewrite (proj2 (Z.ltb_ge _ _)) by done. rewrite <- (app_nil_r b) at 2.
    by rewrite read_buffer_app by (unfold isize_max; lia).
  - by rewrite uv_read_eof.
Qed.
End laws.
End GenericCodec.
