(* ===== verification/Wallet.v ===== *)
(** * Wallets

    [crates/tss/src/wallet.rs]: the payloads of the two protocols, wallet names
    and the files of key shares.

    A Rust string is the list of its Unicode scalar values.  The encodings
    (CBOR for payloads, JSON for key shares) are an interface, [Serde], with
    the round trip the code relies on. *)

From Stdlib Require Import ZArith Lia Strings.Byte Strings.String Strings.Ascii.
From stdpp Require Import base gmap strings numbers list.
From S2P Require Import Prelude.

Local Open Scope Z_scope.

(** ** Serialisation: [to_vec] and [from_slice] *)

Class Serde (T : Type) : Type := {
  to_vec : T -> option bytes;
  from_slice : bytes -> option T;
}.

Class SerdeLaws (T : Type) `{Serde T} : Prop := {
  from_to_vec x b : to_vec x = Some b -> from_slice b = Some x;
}.

(** ** Rust strings *)

Abbreviation chars := (list Z).

(** A literal. *)
Definition str (s : string) : chars :=
  (fun a => Z.of_N (N_of_ascii a)) <$> String.list_ascii_of_string s.

(** [char::is_whitespace]: the Unicode property [White_Space]. *)
Definition is_whitespace (c : Z) : bool :=
  ((9 <=? c) && (c <=? 13)) || (c =? 32) || (c =? 133) || (c =? 160) || (c =? 5760) ||
  ((8192 <=? c) && (c <=? 8202)) || (c =? 8232) || (c =? 8233) || (c =? 8239) ||
  (c =? 8287) || (c =? 12288).

Fixpoint trim_start (s : chars) : chars :=
  match s with
  | [] => []
  | c :: s' => if is_whitespace c then trim_start s' else s
  end.

(** [str::trim]. *)
Definition trim (s : chars) : chars := reverse (trim_start (reverse (trim_start s))).

Definition is_ascii_alphanumeric (c : Z) : bool :=
  ((48 <=? c) && (c <=? 57)) || ((65 <=? c) && (c <=? 90)) || ((97 <=? c) && (c <=? 122)).

Definition dash : Z := 45.
Definition underscore : Z := 95.
Definition slash : Z := 47.
Definition dot : Z := 46.

(** ** Wallet names *)

Definition DEFAULT_WALLET_ID : chars := str "default".
Definition MAX_WALLET_ID_LEN : nat := 64.

Record KeygenRequestPayload : Type := { kg_wallet_id : chars; kg_threshold : Z }.
Record SignRequestPayload : Type := { sg_wallet_id : chars; sg_message : bytes }.

Definition wallet_char (c : Z) : bool :=
  is_ascii_alphanumeric c || (c =? dash) || (c =? underscore).

(** The loop of [normalize_wallet_id]; everything it pushes is ASCII, so that the
    length in bytes is the number of characters. *)
Fixpoint sanitize (sanitized : chars) (s : chars) : chars :=
  match s with
  | [] => sanitized
  | c :: s =>
      if (MAX_WALLET_ID_LEN <=? length sanitized)%nat then sanitized
      else sanitize (sanitized ++ [if wallet_char c then c else underscore]) s
  end.

(** [normalize_wallet_id]. *)
Definition normalize_wallet_id (raw : chars) : chars :=
  let trimmed := trim raw in
  match trimmed with
  | [] => DEFAULT_WALLET_ID
  | _ =>
      match sanitize [] trimmed with
      | [] => DEFAULT_WALLET_ID
      | sanitized => sanitized
      end
  end.

Section payloads.
Context `{Serde KeygenRequestPayload} `{Serde SignRequestPayload}.

Definition encode_keygen_payload (wallet_id : chars) (threshold : Z) : outcome string bytes :=
  ok_or "failed to encode keygen wallet payload"
    (to_vec {| kg_wallet_id := normalize_wallet_id wallet_id; kg_threshold := threshold |}).

Definition decode_keygen_payload (payload : bytes) : outcome string KeygenRequestPayload :=
  decoded ← ok_or "failed to decode keygen wallet payload" (from_slice payload);
  Ok {| kg_wallet_id := normalize_wallet_id (kg_wallet_id decoded);
        kg_threshold := kg_threshold decoded |}.

Definition encode_sign_payload (wallet_id : chars) (message : bytes) : outcome string bytes :=
  ok_or "failed to encode sign wallet payload"
    (to_vec {| sg_wallet_id := normalize_wallet_id wallet_id; sg_message := message |}).

Definition decode_sign_payload (payload : bytes) : outcome string SignRequestPayload :=
  decoded ← ok_or "failed to decode sign wallet payload" (from_slice payload);
  Ok {| sg_wallet_id := normalize_wallet_id (sg_wallet_id decoded);
        sg_message := sg_message decoded |}.
End payloads.

(** ** Paths

    [std::path::Path] on Unix: components are separated by slashes; empty
    components and inner [.] components do not count. *)

Fixpoint split_slash (cur : chars) (s : chars) : list chars :=
  match s with
  | [] => [cur]
  | c :: s => if c =? slash then cur :: split_slash [] s else split_slash (cur ++ [c]) s
  end.

(** The normal and parent components of a path, with [.] and empty ones gone. *)
Definition components (p : chars) : list chars :=
  filter (fun c => c <> [] /\ c <> [dot]) (split_slash [] p).

(** [Path::file_name]: the last component, unless it is [..]. *)
Definition file_name (p : chars) : option chars :=
  match last (components p) with
  | Some c => if bool_decide (c = [dot; dot]) then None else Some c
  | None => None
  end.

(** [Path::extension]: what follows the last dot of the file name, if the name
    has a dot that is not its first character. *)
Definition extension (p : chars) : option chars :=
  name ← file_name p;
  match position (fun c => c =? dot) (reverse name) with
  | None => None
  | Some k =>
      if (S k <? length name)%nat then Some (drop (length name - k) name) else None
  end.

Fixpoint intercalate (cs : list chars) : chars :=
  match cs with
  | [] => []
  | [c] => c
  | c :: cs => c ++ slash :: intercalate cs
  end.

(** [Path::parent] of a path with a last component: the path of the components
    before it, from the root if the path is absolute.  (Paths are compared by
    their components, so that repeated slashes do not matter.) *)
Definition parent (p : chars) : chars :=
  (if head p is Some c then if c =? slash then [slash] else [] else []) ++
  intercalate (take (length (components p) - 1) (components p)).

(** [Path::join] with a relative path. *)
Definition join (p q : chars) : chars :=
  match last p with
  | None => q
  | Some c => if c =? slash then p ++ q else p ++ [slash] ++ q
  end.

(** [wallet_key_share_path]. *)
Definition wallet_key_share_path (base_path wallet_id : chars) : chars :=
  let wallet_id := normalize_wallet_id wallet_id in
  if extension base_path is Some _
  then join (join (parent base_path) (str "wallets")) (wallet_id ++ str ".share")
  else join base_path (wallet_id ++ str ".share").

(** ** Properties of names *)

Lemma sanitize_take acc s :
  (length acc <= MAX_WALLET_ID_LEN)%nat ->
  sanitize acc s =
  take MAX_WALLET_ID_LEN (acc ++ ((fun c => if wallet_char c then c else underscore) <$> s)).
Proof.
  revert acc. induction s as [|c s IH]; intros acc Hacc; cbn [sanitize].
  { rewrite app_nil_r, take_ge by done. done. }
  destruct (Nat.leb_spec MAX_WALLET_ID_LEN (length acc)) as [Hl|Hl].
  - rewrite take_app_le, take_ge by lia. done.
  - rewrite IH by (rewrite length_app; cbn [length]; lia). cbn [fmap list_fmap].
    by rewrite <- app_assoc.
Qed.

Definition valid_wallet_id (w : chars) : Prop :=
  w <> [] /\ (length w <= MAX_WALLET_ID_LEN)%nat /\ Forall (fun c => wallet_char c = true) w.

Lemma wallet_char_not_whitespace c : wallet_char c = true -> is_whitespace c = false.
Proof.
  unfold wallet_char, is_ascii_alphanumeric, is_whitespace, dash, underscore. lia.
Qed.

Lemma trim_start_id s :
  Forall (fun c => wallet_char c = true) s -> trim_start s = s.
Proof. destruct 1 as [|c s Hc _]; cbn; [done|]. by rewrite wallet_char_not_whitespace. Qed.

Lemma normalize_valid_id w : valid_wallet_id w -> normalize_wallet_id w = w.
Proof.
  intros (Hne & Hlen & Hch). unfold normalize_wallet_id, trim.
  rewrite (trim_start_id w) by done. rewrite trim_start_id by (by apply Forall_reverse).
  rewrite reverse_involutive.
  destruct w as [|c w]; [done|]. rewrite sanitize_take by (cbn; lia). cbn [app].
  assert ((fun c => if wallet_char c then c else underscore) <$> (c :: w) = c :: w) as ->.
  { rewrite <- (list_fmap_id (c :: w)) at 2. apply list_fmap_ext. intros i x Hx.
    rewrite Forall_lookup in Hch. by rewrite (Hch i x Hx). }
  by rewrite take_ge.
Qed.

Lemma sanitized_char c : wallet_char (if wallet_char c then c else underscore) = true.
Proof. by destruct (wallet_char c) eqn:Hc. Qed.

Lemma normalize_valid raw : valid_wallet_id (normalize_wallet_id raw).
Proof.
  assert (valid_wallet_id DEFAULT_WALLET_ID) as Hd.
  { split; [done|]. split; [vm_compute; lia|]. by repeat constructor. }
  unfold normalize_wallet_id. destruct (trim raw) as [|c s]; [done|].
  destruct (sanitize [] (c :: s)) as [|c' s'] eqn:Hs; [done|].
  rewrite sanitize_take in Hs by (cbn; lia). cbn [app] in Hs. split; [done|].
  rewrite <- Hs. split; [rewrite length_take; lia|].
  apply Forall_take, Forall_fmap, Forall_true. intros x. apply sanitized_char.
Qed.

(** every wallet name, whatever its characters, is normalised to between 1
    and 64 ASCII letters, digits, dashes or underscores; normalising again
    changes nothing, and a name that is already of that form is kept. *)
Theorem wallet_id_normal raw :
  valid_wallet_id (normalize_wallet_id raw) /\
  normalize_wallet_id (normalize_wallet_id raw) = normalize_wallet_id raw /\
  (valid_wallet_id raw -> normalize_wallet_id raw = raw).
Proof.
  split; [apply normalize_valid|]. split; [|apply normalize_valid_id].
  apply normalize_valid_id, normalize_valid.
Qed.

Lemma normalize_idempotent raw :
  normalize_wallet_id (normalize_wallet_id raw) = normalize_wallet_id raw.
Proof. apply normalize_valid_id, normalize_valid. Qed.

(** what a node encodes for a protocol, every node decodes to the same
    normalised wallet and the same threshold or message. *)
Theorem payload_roundtrip `{SerdeLaws KeygenRequestPayload} `{SerdeLaws SignRequestPayload}
    wallet threshold message kb sb :
  encode_keygen_payload wallet threshold = Ok kb ->
  encode_sign_payload wallet message = Ok sb ->
  decode_keygen_payload kb =
    Ok {| kg_wallet_id := normalize_wallet_id wallet; kg_threshold := threshold |} /\
  decode_sign_payload sb =
    Ok {| sg_wallet_id := normalize_wallet_id wallet; sg_message := message |}.
Proof.
  unfold encode_keygen_payload, encode_sign_payload, decode_keygen_payload, decode_sign_payload.
  intros Hk%ok_or_ok%from_to_vec Hs%ok_or_ok%from_to_vec. rewrite Hk, Hs. cbn.
  by rewrite normalize_idempotent.
Qed.

(** ** Where key shares are kept *)

Definition share_dir (base_path : chars) : chars :=
  if extension base_path is Some _ then join (parent base_path) (str "wallets") else base_path.

Lemma join_suffix p q : exists sep, join p q = p ++ sep ++ q /\ (sep = [] \/ sep = [slash]).
Proof.
  unfold join. destruct (last p) as [c|] eqn:Hl.
  - case_match; [by exists []; auto|by exists [slash]; auto].
  - apply last_None in Hl as ->. exists []. auto.
Qed.

Lemma share_path_eq base_path w :
  wallet_key_share_path base_path w =
  join (share_dir base_path) (normalize_wallet_id w ++ str ".share").
Proof. unfold wallet_key_share_path, share_dir. by case_match. Qed.

Lemma share_path_inj base_path w1 w2 :
  wallet_key_share_path base_path w1 = wallet_key_share_path base_path w2 ->
  normalize_wallet_id w1 = normalize_wallet_id w2.
Proof.
  rewrite !share_path_eq. unfold join. intros Heq.
  destruct (last (share_dir base_path)) as [c|]; [destruct (c =? slash)|];
    repeat match goal with
    | H : _ ++ _ = _ ++ _ |- _ => apply app_inv_head in H
    end; by apply app_inv_tail in Heq.
Qed.

Lemma share_name_no_slash w : slash ∉ normalize_wallet_id w ++ str ".share".
Proof.
  rewrite elem_of_app. intros [Hs|Hs].
  - pose proof (normalize_valid w) as (_ & _ & Hch). rewrite Forall_forall in Hch.
    apply Hch in Hs. by vm_compute in Hs.
  - assert (bool_decide (slash ∈ str ".share") = false) as Hf by by vm_compute.
    by apply bool_decide_eq_false in Hf.
Qed.

(** C35: a key share stays in the directory of the key shares: its path is that
    directory and one more component, the normalised wallet name with the
    suffix [.share], which holds no slash; and two wallets have the same path
    exactly when their normalised names are equal (so that wallets whose names
    differ only in characters outside the alphabet share a file). *)
Theorem share_path_confined base_path w1 w2 :
  (exists sep, wallet_key_share_path base_path w1 =
     share_dir base_path ++ sep ++ normalize_wallet_id w1 ++ str ".share" /\
     (sep = [] \/ sep = [slash])) /\
  slash ∉ normalize_wallet_id w1 ++ str ".share" /\
  (wallet_key_share_path base_path w1 = wallet_key_share_path base_path w2 <->
   normalize_wallet_id w1 = normalize_wallet_id w2).
Proof.
  split; [rewrite share_path_eq; apply join_suffix|]. split; [apply share_name_no_slash|].
  split; [apply share_path_inj|]. intros Heq. by rewrite !share_path_eq, Heq.
Qed.
