(* ===== verification/NetConfig.v ===== *)
(** * Configuration of the network

    [crates/client/network/src/config.rs]: node keys and the files that hold
    them, and addresses with a peer id.

    Multiaddresses, Ed25519 keys and the hexadecimal decoder come from other
    crates and are interfaces with the laws the code relies on.  The file system
    is a map from paths to contents; what it allows is an observation. *)

From Stdlib Require Import ZArith Lia Strings.Byte.
From stdpp Require Import base gmap strings numbers list.
From S2P Require Import Prelude Messages Wallet.

Local Open Scope Z_scope.

(** ** Multiaddresses: the interface of [libp2p::Multiaddr] *)

(** [multiaddr::Protocol]; the protocols the code does not name are one
    constructor. *)
Inductive Protocol `{PeerIds} : Type :=
  | Ip4 (addr : Z)
  | Ip6 (addr : Z)
  | Dns (name : string)
  | Dns4 (name : string)
  | Dns6 (name : string)
  | P2p (peer : PeerId)
  | OtherProtocol (name : string).

#[export] Instance protocol_eq_dec `{PeerIds} : EqDecision Protocol.
Proof. solve_decision. Defined.

Class Multiaddrs `{PeerIds} : Type := {
  Multiaddr : Type;
  multiaddr_eq_dec :: EqDecision Multiaddr;
  multiaddr_countable :: Countable Multiaddr;
  multiaddr_iter : Multiaddr -> list Protocol;
  (** [push] and [with]. *)
  multiaddr_push : Multiaddr -> Protocol -> Multiaddr;
  multiaddr_pop : Multiaddr -> Multiaddr * option Protocol;
  (** [Display] and [FromStr]. *)
  multiaddr_to_string : Multiaddr -> chars;
  multiaddr_from_str : chars -> option Multiaddr;
}.

Class MultiaddrLaws `{Multiaddrs} : Prop := {
  multiaddr_iter_push a p : multiaddr_iter (multiaddr_push a p) = multiaddr_iter a ++ [p];
  multiaddr_pop_push a p : multiaddr_pop (multiaddr_push a p) = (a, Some p);
  multiaddr_pop_some a b p : multiaddr_pop a = (b, Some p) -> a = multiaddr_push b p;
  multiaddr_from_to_string a : multiaddr_from_str (multiaddr_to_string a) = Some a;
}.

(** ** Keys: the interface of [libp2p::identity] and of [hex] *)

Class Ed25519Keys `{PeerIds} : Type := {
  SecretKey : Type;
  Keypair : Type;
  sk_try_from_bytes : bytes -> option SecretKey;
  sk_as_ref : SecretKey -> bytes;
  (** [Keypair::from(ed25519::Keypair::from(sk))]. *)
  keypair_from : SecretKey -> Keypair;
  (** [try_into_ed25519] and [secret]. *)
  try_into_ed25519 : Keypair -> option SecretKey;
  (** [public().to_peer_id()]. *)
  keypair_peer_id : Keypair -> PeerId;
  hex_decode : bytes -> option bytes;
}.

Class Ed25519Laws `{Ed25519Keys} : Prop := {
  sk_length sk : length (sk_as_ref sk) = 32%nat;
  sk_from_ref sk : sk_try_from_bytes (sk_as_ref sk) = Some sk;
  keypair_into_from sk : try_into_ed25519 (keypair_from sk) = Some sk;
}.

(** ** Addresses with a peer id *)

Module MultiaddrWithPeerId.
Section address.
Context `{Multiaddrs}.

Record t : Type := { multiaddr : Multiaddr; peer_id : PeerId }.

(** [concat]. *)
Definition concat (a : t) : Multiaddr := multiaddr_push (multiaddr a) (P2p (peer_id a)).

(** [Display], and [From] for [String]. *)
Definition to_string (a : t) : chars := multiaddr_to_string (concat a).

(** [parse_addr]. *)
Definition parse_addr (addr : Multiaddr) : outcome string (PeerId * Multiaddr) :=
  match multiaddr_pop addr with
  | (addr, Some (P2p key)) => Ok (key, addr)
  | _ => Err "peer id missing"
  end.

(** [parse_str_addr]; the error of the parser is that of [multiaddr]. *)
Definition parse_str_addr (s : chars) : outcome string (PeerId * Multiaddr) :=
  addr ← ok_or "invalid multiaddr" (multiaddr_from_str s);
  parse_addr addr.

(** [FromStr]. *)
Definition from_str (s : chars) : outcome string t :=
  '(who, addr) ← parse_str_addr s;
  Ok {| peer_id := who; multiaddr := addr |}.

(** [TryFrom<String>], which [serde] uses. *)
Definition try_from (s : chars) : outcome string t :=
  map_err (fun e => ("parsing multiaddr_peer_id terminated with err: " ++ e)%string) (from_str s).

Context `{!MultiaddrLaws}.

Lemma from_to_string a : from_str (to_string a) = Ok a.
Proof.
  unfold from_str, parse_str_addr, to_string. rewrite multiaddr_from_to_string. cbn.
  unfold parse_addr, concat. rewrite multiaddr_pop_push. by destruct a.
Qed.

Lemma parse_addr_ok addr who rest :
  parse_addr addr = Ok (who, rest) <-> addr = concat {| multiaddr := rest; peer_id := who |}.
Proof.
  unfold parse_addr, concat. cbn. split.
  - destruct (multiaddr_pop addr) as [b [[]|]] eqn:Hp; try discriminate.
    intros [= -> ->]. by apply multiaddr_pop_some.
  - intros ->. by rewrite multiaddr_pop_push.
Qed.

(** an address with a peer id survives being written to a configuration file
    and read back; and a string is accepted exactly when it denotes a multiaddress
    that ends in a peer id, which is then split into the two. *)
Theorem address_roundtrip :
  (forall a, try_from (to_string a) = Ok a) /\
  (forall s a, try_from s = Ok a <-> multiaddr_from_str s = Some (concat a)).
Proof.
  split; [intros a; unfold try_from; by rewrite from_to_string|].
  intros s [addr who]. unfold try_from, from_str, parse_str_addr. split.
  - intros Ht. inv_ok. simplify_eq.
    match goal with H : parse_addr _ = _ |- _ => by apply parse_addr_ok in H as <- end.
  - intros Hs. rewrite Hs. cbn.
    by rewrite (proj2 (parse_addr_ok _ who addr) eq_refl).
Qed.
End address.
End MultiaddrWithPeerId.

(** ** Files *)

Abbreviation files := (gmap chars bytes).

Inductive io_error : Type := NotFound | AlreadyExists | InvalidData | OtherIo.

(** What the file system answers: whether a file that exists can be read, whether
    a new one can be opened, how many bytes are written before an error (or all),
    and whether a directory can be made. *)
Record fs_obs : Type := {
  read_ok : bool;
  open_ok : bool;
  written : option nat;
  mkdir_ok : bool;
}.

(** [fs::read]. *)
Definition fs_read (f : chars) (fs : files) (o : fs_obs) : outcome io_error bytes :=
  match fs !! f with
  | None => Err NotFound
  | Some b => if read_ok o then Ok b else Err OtherIo
  end.

(** [open_secret_file]: [create_new] refuses a file that exists. *)
Definition open_secret_file (f : chars) (fs : files) (o : fs_obs) : files * outcome io_error unit :=
  match fs !! f with
  | Some _ => (fs, Err AlreadyExists)
  | None => if open_ok o then (<[f := []]> fs, Ok tt) else (fs, Err OtherIo)
  end.

(** [write_secret_file]. *)
Definition write_secret_file (f : chars) (b : bytes) (fs : files) (o : fs_obs) :
  files * outcome io_error unit :=
  match open_secret_file f fs o with
  | (fs, Ok _) =>
      match written o with
      | None => (<[f := b]> fs, Ok tt)
      | Some k => (<[f := take k b]> fs, Err OtherIo)
      end
  | r => r
  end.

Lemma write_secret_file_ok f b fs o fs' :
  write_secret_file f b fs o = (fs', Ok tt) -> fs !! f = None /\ fs' = <[f := b]> fs.
Proof.
  unfold write_secret_file, open_secret_file. destruct (fs !! f); [done|].
  destruct (open_ok o); [|done]. destruct (written o); [done|].
  intros [= <-]. by rewrite insert_insert_eq.
Qed.

(** Writing a secret leaves every file that exists alone. *)
Lemma write_secret_file_keeps f b fs o fs' r g c :
  write_secret_file f b fs o = (fs', r) -> fs !! g = Some c -> fs' !! g = Some c.
Proof.
  unfold write_secret_file, open_secret_file. intros Hw Hg.
  destruct (fs !! f) eqn:Hf; [by simplify_eq|]. assert (f <> g) by congruence.
  destruct (open_ok o); [|by simplify_eq].
  destruct (written o); simplify_eq; by rewrite !lookup_insert_ne.
Qed.

Lemma write_secret_file_exists f b fs o c :
  fs !! f = Some c -> write_secret_file f b fs o = (fs, Err AlreadyExists).
Proof. unfold write_secret_file, open_secret_file. by intros ->. Qed.

(** ** [get_secret] *)

Section get_secret.
Context {K : Type} (parse : bytes -> option K) (generated : K) (serialize : K -> bytes).

(** [fs::create_dir_all] of the parent directory; no directory is kept in the
    map. *)
Definition get_secret (f : chars) (fs : files) (o : fs_obs) : files * outcome io_error K :=
  match (b ← fs_read f fs o; ok_or InvalidData (parse b)) with
  | Err NotFound =>
      if mkdir_ok o then
        match write_secret_file f (serialize generated) fs o with
        | (fs, Ok _) => (fs, Ok generated)
        | (fs, Err e) => (fs, Err e)
        | (fs, Panic w) => (fs, Panic w)
        end
      else (fs, Err OtherIo)
  | r => (fs, r)
  end.

(** A secret that has been obtained is obtained again, and no file changes. *)
Lemma get_secret_stable f fs o fs' k :
  parse (serialize generated) = Some generated ->
  get_secret f fs o = (fs', Ok k) ->
  forall o', read_ok o' = true -> get_secret f fs' o' = (fs', Ok k).
Proof.
  intros Hp Hg o' Ho'. unfold get_secret, fs_read in *. destruct (fs !! f) as [b|] eqn:Hf.
  - destruct (read_ok o); [|done]. cbn in Hg.
    destruct (parse b) as [k'|] eqn:Hb; [|done]. injection Hg as <- <-.
    rewrite Hf, Ho'. cbn. by rewrite Hb.
  - cbn in Hg. destruct (mkdir_ok o); [|done].
    destruct (write_secret_file _ _ _ _) as [fs1 [[]|e|w]] eqn:Hw; [|done..].
    injection Hg as <- <-. apply write_secret_file_ok in Hw as [_ ->].
    rewrite lookup_insert_eq, Ho'. cbn. by rewrite Hp.
Qed.
End get_secret.

(** ** Node keys *)

Module NodeKeyConfig.
Section keys.
Context `{Ed25519Keys}.

(** [Secret], and [NodeKeyConfig] with its one constructor. *)
Inductive t : Type :=
  | Input (k : SecretKey)
  | File (f : chars)
  | New.

(** *** [String::from_utf8] *)

Definition continuation (b : Z) : bool := (128 <=? b) && (b <=? 191).

(** Well-formed UTF-8 (table 3-7 of the Unicode standard), as [std] checks it. *)
Fixpoint utf8_valid (l : list Z) : bool :=
  match l with
  | [] => true
  | a :: l =>
      if a <? 128 then utf8_valid l
      else if (194 <=? a) && (a <=? 223) then
        match l with b :: l => continuation b && utf8_valid l | _ => false end
      else if (224 <=? a) && (a <=? 239) then
        match l with
        | b :: c :: l =>
            (if a =? 224 then (160 <=? b) && (b <=? 191)
             else if a =? 237 then (128 <=? b) && (b <=? 159)
             else continuation b) && continuation c && utf8_valid l
        | _ => false
        end
      else if (240 <=? a) && (a <=? 244) then
        match l with
        | b :: c :: d :: l =>
            (if a =? 240 then (144 <=? b) && (b <=? 191)
             else if a =? 244 then (128 <=? b) && (b <=? 143)
             else continuation b) && continuation c && continuation d && utf8_valid l
        | _ => false
        end
      else false
  end.

Definition from_utf8 (b : bytes) : option bytes :=
  if utf8_valid ((fun x => Z.of_N (Byte.to_N x)) <$> b) then Some b else None.

(** *** [into_keypair] *)

(** A key file: 64 hexadecimal digits, or 32 bytes. *)
Definition parse_key (b : bytes) : option SecretKey :=
  match (s ← from_utf8 b;
         decoded ← (if decide (length s = 64%nat) then hex_decode s else None);
         if decide (length decoded = 32%nat) then sk_try_from_bytes decoded else None) with
  | Some sk => Some sk
  | None => if decide (length b = 32%nat) then sk_try_from_bytes b else None
  end.

(** What [into_keypair] does when no key could be read; [generated] is the new
    key.  The copy into an array of 32 bytes panics on another length. *)
Definition generate_key (f : chars) (generated : SecretKey) (fs : files) (o : fs_obs) :
  files * outcome io_error Keypair :=
  let keypair := keypair_from generated in
  match try_into_ed25519 keypair with
  | None => (fs, Err InvalidData)
  | Some sk =>
      if decide (length (sk_as_ref sk) = 32%nat) then
        match write_secret_file f (sk_as_ref sk) fs o with
        | (fs, Ok _) => (fs, Ok keypair)
        | (fs, Err e) => (fs, Err e)
        | (fs, Panic w) => (fs, Panic w)
        end
      else (fs, Panic "copy_from_slice: source slice length does not match")
  end.

Definition into_keypair (cfg : t) (generated : SecretKey) (fs : files) (o : fs_obs) :
  files * outcome io_error Keypair :=
  match cfg with
  | New => (fs, Ok (keypair_from generated))
  | Input k => (fs, Ok (keypair_from k))
  | File f =>
      match fs_read f fs o with
      | Ok b =>
          match parse_key b with
          | Some sk => (fs, Ok (keypair_from sk))
          | None => generate_key f generated fs o
          end
      | _ => generate_key f generated fs o
      end
  end.

(** [persist]. *)
Definition persist (k : Keypair) (f : chars) (fs : files) (o : fs_obs) :
  files * outcome io_error unit :=
  match try_into_ed25519 k with
  | Some sk => write_secret_file f (sk_as_ref sk) fs o
  | None => (fs, Err InvalidData)
  end.

Context `{!Ed25519Laws}.

Lemma parse_raw_key sk : parse_key (sk_as_ref sk) = Some sk.
Proof.
  unfold parse_key. rewrite sk_length, sk_from_ref. rewrite decide_True by done.
  unfold from_utf8. destruct (utf8_valid _); [|done]. cbn. by rewrite sk_length.
Qed.

Lemma generate_key_eq f generated fs o :
  generate_key f generated fs o =
  match write_secret_file f (sk_as_ref generated) fs o with
  | (fs, Ok _) => (fs, Ok (keypair_from generated))
  | (fs, Err e) => (fs, Err e)
  | (fs, Panic w) => (fs, Panic w)
  end.
Proof.
  unfold generate_key. rewrite keypair_into_from, decide_True; [done|apply sk_length].
Qed.

Lemma generate_key_ok f generated fs o fs' kp :
  generate_key f generated fs o = (fs', Ok kp) ->
  kp = keypair_from generated /\ fs !! f = None /\ fs' = <[f := sk_as_ref generated]> fs.
Proof.
  rewrite generate_key_eq. destruct (write_secret_file _ _ _ _) as [fs1 [[]|e|w]] eqn:Hw; [|done..].
  intros [= <- <-]. by apply write_secret_file_ok in Hw.
Qed.

Lemma read_written_key f sk fs generated o :
  fs !! f = Some (sk_as_ref sk) -> read_ok o = true ->
  into_keypair (File f) generated fs o = (fs, Ok (keypair_from sk)).
Proof. intros Hf Ho. unfold into_keypair, fs_read. by rewrite Hf, Ho, parse_raw_key. Qed.

(** C34: a node keeps its identity: once the key of a file has been obtained, by
    reading it or by generating and saving it, every later start of the node gets
    the same key pair and changes no file; the same holds for a key saved by the
    set-up of the node at that path. *)
Theorem node_identity_stable f generated fs o fs' kp :
  into_keypair (File f) generated fs o = (fs', Ok kp) \/
  (exists sk, kp = keypair_from sk /\ persist kp f fs o = (fs', Ok tt)) ->
  forall generated' o', read_ok o' = true ->
    into_keypair (File f) generated' fs' o' = (fs', Ok kp).
Proof.
  intros [Hi|(sk & -> & Hp)] generated' o' Ho'.
  - cbn [into_keypair] in Hi. destruct (fs_read f fs o) as [b|e|w] eqn:Hr.
    1: destruct (parse_key b) as [sk|] eqn:Hb.
    1: { injection Hi as <- <-. unfold into_keypair, fs_read in *.
         destruct (fs !! f); [|done]. rewrite Ho'. destruct (read_ok o); simplify_eq.
         by rewrite Hb. }
    all: apply generate_key_ok in Hi as (-> & _ & ->);
      apply read_written_key; [apply lookup_insert_eq|done].
  - unfold persist in Hp. rewrite keypair_into_from in Hp.
    apply write_secret_file_ok in Hp as [_ ->].
    apply read_written_key; [apply lookup_insert_eq|done].
Qed.

(** to obtain a key never changes a file that exists; in particular a key
    file that is neither 64 hexadecimal digits nor 32 bytes of a key, or that
    cannot be read, is not replaced: the node stops with [AlreadyExists], although
    the code goes on to generate and save a new key. *)
Theorem key_files_kept cfg generated fs o fs' r :
  into_keypair cfg generated fs o = (fs', r) ->
  (forall g c, fs !! g = Some c -> fs' !! g = Some c) /\
  (forall f c, cfg = File f -> fs !! f = Some c ->
     read_ok o = false \/ parse_key c = None -> fs' = fs /\ r = Err AlreadyExists).
Proof.
  intros Hi. split.
  - intros g c Hg. destruct cfg as [k|f|]; cbn in Hi; [by simplify_eq| |by simplify_eq].
    destruct (fs_read f fs o) as [b|e|w]; [destruct (parse_key b); [by simplify_eq|]|..];
      rewrite generate_key_eq in Hi;
      destruct (write_secret_file _ _ _ _) as [fs1 [[]|e'|w']] eqn:Hw; simplify_eq;
      by eapply write_secret_file_keeps.
  - intros f c -> Hf Hbad. unfold into_keypair, fs_read in Hi. rewrite Hf in Hi.
    rewrite generate_key_eq, (write_secret_file_exists _ _ _ _ _ Hf) in Hi.
    destruct (read_ok o); [|by simplify_eq]. destruct Hbad as [|Hb]; [done|].
    rewrite Hb in Hi. by simplify_eq.
Qed.
End keys.
End NodeKeyConfig.
