(* ===== verification/Names.v ===== *)
(** * Names

    The names of protocols, rooms and curves: [ProtocolName] of
    [crates/client/network/src/types.rs], [ProtocolId] of [config.rs], [RoomId] of
    [room.rs] and [Curve] of [curve.rs].  A protocol name is kept in one of two ways,
    and two names are equal when their text is: [same] is that equality, coarser than
    equality of the model, and everything the program does with a name respects it.
    That is why [RequestResponses] can take a protocol name to be its text. *)

From Stdlib Require Import ZArith Lia Strings.Byte.
From stdpp Require Import base gmap strings numbers list.
From S2P Require Import Prelude Wire Messages Wallet NetConfig.

Local Open Scope Z_scope.

(** ** Protocol names *)

Module ProtocolName.

(** [ProtocolName]. *)
Inductive t : Type :=
  | Static (name : string)
  | OnHeap (name : string).

(** [Cow<str>]. *)
Inductive cow : Type := Borrowed (s : string) | Owned (s : string).

(** The [From] conversions. *)
Definition from_static (name : string) : t := Static name.
Definition from_arc (name : string) : t := OnHeap name.
Definition from_string (name : string) : t := OnHeap name.
Definition from_cow (name : cow) : t :=
  match name with Borrowed s => OnHeap s | Owned s => OnHeap s end.

(** [Deref], [Borrow], [AsRef] and [Display]. *)
Definition deref (n : t) : string := match n with Static name => name | OnHeap name => name end.
Definition borrow (n : t) : string := deref n.
Definition as_ref (n : t) : string := deref n.
Definition fmt (n : t) : string := deref n.

(** [PartialEq]. *)
Definition eq (n m : t) : bool := bool_decide (deref n = deref m).

(** [Hash]: the state of the hasher after the name has been fed to it. *)
Definition hash {S : Type} (feed : string -> S -> S) (n : t) (s : S) : S := feed (deref n) s.

(** Names that the program can not tell apart. *)
Definition same (n m : t) : Prop := eq n m = true.

#[export] Instance same_equivalence : Equivalence same.
Proof.
  split; unfold same, eq.
  - intros n. by apply bool_decide_eq_true_2.
  - intros n m Hnm%bool_decide_eq_true. by apply bool_decide_eq_true_2.
  - intros n m k Hnm%bool_decide_eq_true Hmk%bool_decide_eq_true.
    apply bool_decide_eq_true_2. congruence.
Qed.

#[export] Instance deref_proper : Proper (same ==> Logic.eq) deref.
Proof. by intros n m ?%bool_decide_eq_true. Qed.

#[export] Instance hash_proper {S} (feed : string -> S -> S) :
  Proper (same ==> Logic.eq ==> Logic.eq) (hash feed).
Proof. intros n m Hnm s ? <-. unfold hash. by rewrite Hnm. Qed.

(** What [HashMap] asks of a key that is looked up by its text: names are equal exactly
    when their texts are, and a name and its text leave the same hash. *)
Theorem borrow_contract {S} (feed : string -> S -> S) n m s :
  (same n m <-> borrow n = borrow m) /\ hash feed n s = feed (borrow n) s.
Proof. split; [|done]. unfold same, eq, borrow. by rewrite bool_decide_eq_true. Qed.

(** Every way to make a name keeps its text. *)
Theorem from_deref s :
  deref (from_static s) = s /\ deref (from_arc s) = s /\ deref (from_string s) = s /\
  deref (from_cow (Borrowed s)) = s /\ deref (from_cow (Owned s)) = s.
Proof. done. Qed.

(** *** Maps with protocol names as keys

    A [HashMap] compares its keys with [Eq]: an association list without two equal keys. *)

Definition hash_map (V : Type) : Type := list (t * V).

Definition get {V} (k : string) (l : hash_map V) : option V :=
  snd <$> List.find (fun x => bool_decide (borrow x.1 = k)) l.

(** [HashMap::insert]: the key that is there stays. *)
Fixpoint insert {V} (n : t) (v : V) (l : hash_map V) : hash_map V :=
  match l with
  | [] => [(n, v)]
  | (m, w) :: l => if eq m n then (m, v) :: l else (m, w) :: insert n v l
  end.

(** The map by text. *)
Definition by_text {V} (l : hash_map V) : gmap string V :=
  foldr (fun x m => <[borrow x.1 := x.2]> m) ∅ l.

Lemma get_by_text {V} k (l : hash_map V) : get k l = by_text l !! k.
Proof.
  unfold get. induction l as [|[n v] l IH]; cbn [List.find by_text foldr fst snd]; [done|].
  case_bool_decide as Hn.
  - by rewrite Hn, lookup_insert_eq.
  - by rewrite lookup_insert_ne.
Qed.

Lemma insert_by_text {V} n (v : V) l : by_text (insert n v l) = <[borrow n := v]> (by_text l).
Proof.
  induction l as [|[m w] l IH]; cbn; [done|]. unfold eq. case_bool_decide as Hm; cbn.
  - unfold borrow. rewrite Hm. by rewrite insert_insert_eq.
  - fold (@by_text V). change (foldr _ ∅ ?x) with (by_text x). rewrite IH.
    apply insert_insert_ne. unfold borrow. congruence.
Qed.

(** A map with protocol names as keys is the map by their texts: what is found under a
    text is what was last inserted under a name with that text. *)
Theorem names_are_texts {V} (n : t) (v : V) l k :
  get k (insert n v l) = if decide (k = deref n) then Some v else get k l.
Proof.
  rewrite !get_by_text, insert_by_text. unfold borrow. case_decide as Hk.
  - by rewrite Hk, lookup_insert_eq.
  - by rewrite lookup_insert_ne.
Qed.
End ProtocolName.

(** ** Protocol ids *)

Module ProtocolId.

(** A character of a string: a Unicode scalar value, and its UTF-8 encoding. *)
Definition scalar (c : Z) : Prop := 0 <= c < 55296 \/ 57344 <= c < 1114112.

Definition encode_char (c : Z) : list Z :=
  if c <? 128 then [c]
  else if c <? 2048 then [192 + c / 64; 128 + c mod 64]
  else if c <? 65536 then [224 + c / 4096; 128 + (c / 64) mod 64; 128 + c mod 64]
  else [240 + c / 262144; 128 + (c / 4096) mod 64; 128 + (c / 64) mod 64; 128 + c mod 64].

Definition utf8 (s : chars) : list Z := s ≫= encode_char.

Lemma encode_char_bytes c : scalar c -> Forall (fun b => 0 <= b < 256) (encode_char c).
Proof.
  intros Hc. unfold scalar in Hc. unfold encode_char.
  destruct (Z.ltb_spec c 128), (Z.ltb_spec c 2048), (Z.ltb_spec c 65536); repeat constructor;
    Z.to_euclidean_division_equations; lia.
Qed.

Lemma utf8_bytes s : Forall scalar s -> Forall (fun b => 0 <= b < 256) (utf8 s).
Proof.
  induction 1 as [|c s Hc _ IH]; [constructor|]. unfold utf8. cbn. apply Forall_app.
  split; [by apply encode_char_bytes|exact IH].
Qed.

Ltac bytes_in_range :=
  repeat match goal with
  | |- context [?a =? ?b] => destruct (Z.eqb_spec a b)
  end; cbn [andb];
  unfold NodeKeyConfig.continuation;
  rewrite ?andb_true_iff, ?Z.leb_le, ?Z.ltb_lt;
  Z.to_euclidean_division_equations; lia.

Lemma utf8_valid_char c rest :
  scalar c -> NodeKeyConfig.utf8_valid (encode_char c ++ rest) = NodeKeyConfig.utf8_valid rest.
Proof.
  intros Hc. unfold scalar in Hc. unfold encode_char.
  destruct (Z.ltb_spec c 128) as [H1|H1]; [cbn; by rewrite (proj2 (Z.ltb_lt _ _))|].
  destruct (Z.ltb_spec c 2048) as [H2|H2].
  { cbn [app NodeKeyConfig.utf8_valid].
    rewrite (proj2 (Z.ltb_ge _ _)) by (Z.to_euclidean_division_equations; lia).
    rewrite (proj2 (Z.leb_le _ _)) by (Z.to_euclidean_division_equations; lia).
    rewrite (proj2 (Z.leb_le _ _)) by (Z.to_euclidean_division_equations; lia). cbn [andb].
    replace (NodeKeyConfig.continuation _) with true; [done|]. symmetry. bytes_in_range. }
  destruct (Z.ltb_spec c 65536) as [H3|H3].
  { cbn [app NodeKeyConfig.utf8_valid].
    rewrite (proj2 (Z.ltb_ge _ _)) by (Z.to_euclidean_division_equations; lia).
    rewrite (proj2 (Z.leb_gt (224 + c / 4096) 223)) by (Z.to_euclidean_division_equations; lia).
    rewrite andb_false_r.
    rewrite (proj2 (Z.leb_le 224 _)) by (Z.to_euclidean_division_equations; lia).
    rewrite (proj2 (Z.leb_le _ 239)) by (Z.to_euclidean_division_equations; lia). cbn [andb].
    match goal with |- ?x && _ = _ => replace x with true; [done|] end. symmetry. bytes_in_range. }
  cbn [app NodeKeyConfig.utf8_valid].
  rewrite (proj2 (Z.ltb_ge _ _)) by (Z.to_euclidean_division_equations; lia).
  rewrite (proj2 (Z.leb_gt (240 + c / 262144) 223)) by (Z.to_euclidean_division_equations; lia).
  rewrite (proj2 (Z.leb_gt (240 + c / 262144) 239)) by (Z.to_euclidean_division_equations; lia).
  rewrite !andb_false_r.
  rewrite (proj2 (Z.leb_le 240 _)) by (Z.to_euclidean_division_equations; lia).
  rewrite (proj2 (Z.leb_le _ 244)) by (Z.to_euclidean_division_equations; lia). cbn [andb].
  match goal with |- ?x && _ = _ => replace x with true; [done|] end. symmetry. bytes_in_range.
Qed.

Lemma utf8_valid_utf8 s : Forall scalar s -> NodeKeyConfig.utf8_valid (utf8 s) = true.
Proof.
  induction 1 as [|c s Hc _ IH]; [done|]. unfold utf8. cbn. by rewrite utf8_valid_char.
Qed.

(** The bytes of a string. *)
Definition as_bytes (s : chars) : bytes :=
  Leb128.byte_of_Z <$> utf8 s.

(** [ProtocolId]. *)
Record t : Type := { inner : bytes }.

Definition from (s : chars) : t := {| inner := as_bytes s |}.

Definition as_ref {E} (p : t) : outcome E bytes :=
  expect "the only way to build a ProtocolId is through a UTF-8 String; qed"
    (NodeKeyConfig.from_utf8 (inner p)).

(** [Debug]. *)
Definition fmt {E} (p : t) : outcome E bytes := as_ref p.

(** A protocol id made of a string is read as that string: the check of its bytes does
    not fail. *)
Theorem from_as_ref {E} s :
  Forall scalar s -> as_ref (E:=E) (from s) = Ok (as_bytes s).
Proof.
  intros Hs. unfold as_ref, NodeKeyConfig.from_utf8. cbn [from inner].
  replace ((fun x => Z.of_N (Byte.to_N x)) <$> as_bytes s) with (utf8 s).
  { by rewrite utf8_valid_utf8. }
  unfold as_bytes. rewrite <- list_fmap_compose. symmetry. rewrite <- (list_fmap_id (utf8 s)) at 2.
  apply list_fmap_ext. intros i b Hb. pose proof (utf8_bytes s Hs) as Hr. rewrite Forall_lookup in Hr.
  apply (Leb128.byte_to_of_Z b). exact (Hr i b Hb).
Qed.
End ProtocolId.

(** ** Rooms and curves *)

(** [blake3::hash(..).to_hex()]: 64 hexadecimal digits. *)
Class Blake3 : Type := { hash_to_hex : bytes -> string }.

Definition hex_digit (c : Ascii.ascii) : bool :=
  let n := Z.of_nat (Ascii.nat_of_ascii c) in
  ((48 <=? n) && (n <=? 57)) || ((97 <=? n) && (n <=? 102)).

Class Blake3Laws `{Blake3} : Prop := {
  hex_length b : String.length (hash_to_hex b) = 64%nat;
  hex_digits b : forallb hex_digit (String.list_ascii_of_string (hash_to_hex b)) = true;
}.

(** [RoomId::from]. *)
Definition room_id_from `{Blake3} (id : chars) : RoomId := hash_to_hex (ProtocolId.as_bytes id).

(** [RoomId::as_str]. *)
Definition room_as_str (id : RoomId) : string := id.

Lemma protocol_name_inj (r r' : RoomId) : protocol_name r = protocol_name r' -> r = r'.
Proof. unfold protocol_name. cbn. intros Hp. by injection Hp. Qed.

(** The protocol of a room is a name of its own: it starts with a slash, as [libp2p] asks of
    protocol names, and names of rooms give the same protocol only if their hashes
    collide. *)
Theorem room_protocols `{Blake3Laws} id id' :
  String.get 0 (protocol_name (room_id_from id)) = Some (Ascii.ascii_of_nat 47) /\
  String.length (protocol_name (room_id_from id)) = 70%nat /\
  (protocol_name (room_id_from id) = protocol_name (room_id_from id') ->
   ProtocolId.as_bytes id = ProtocolId.as_bytes id' \/
   exists b b', b <> b' /\ hash_to_hex b = hash_to_hex b').
Proof.
  split; [done|]. split.
  - pose proof (hex_length (ProtocolId.as_bytes id)) as Hl. unfold room_id_from, protocol_name.
    match goal with |- String.length (_ +:+ ?r) = _ =>
      change (6 + String.length r = 70)%nat end. lia.
  - intros Hp%protocol_name_inj. unfold room_id_from in Hp.
    destruct (decide (ProtocolId.as_bytes id = ProtocolId.as_bytes id')) as [?|Hne]; [by left|].
    right. eauto.
Qed.

(** [Curve], as it is displayed and written in requests. *)
Definition curve_name (c : Curve) : string :=
  match c with Ed25519 => "ed25519" | Secp256k1 => "secp256k1" end.

Definition curve_from_name (s : string) : option Curve :=
  if decide (s = "ed25519") then Some Ed25519
  else if decide (s = "secp256k1") then Some Secp256k1 else None.

Theorem curve_name_roundtrip c s : curve_from_name s = Some c <-> s = curve_name c.
Proof.
  unfold curve_from_name. destruct c; cbn; repeat case_decide; subst; naive_solver.
Qed.
