(* ===== verification/Mpsc.v ===== *)
(** * Unbounded channels

    [crates/client/service/src/mpsc.rs]: a wrapper of the unbounded channel of [futures]
    under a name for metrics.  (No [mod] declares the file, so the program does not compile
    it yet.)  It passes everything on but two things: a receiver that is closed or dropped
    first takes out all messages that wait.

    The channel itself is an interface, [Unbounded], with the queue of messages it promises
    as its law. *)

From Stdlib Require Import ZArith Lia.
From stdpp Require Import base gmap strings numbers list.
From S2P Require Import Prelude.

Local Open Scope Z_scope.

Module Mpsc.

(** ** [futures::channel::mpsc::unbounded] *)

(** The result of [try_next]: a message, the end of a closed channel, or nothing yet. *)
Inductive next (T : Type) : Type := Message (x : T) | Terminated | Empty.
#[global] Arguments Message {T} x.
#[global] Arguments Terminated {T}.
#[global] Arguments Empty {T}.

(** Sending gives the message back when the channel takes no more. *)
Class Unbounded (T : Type) : Type := {
  chan : Type;
  unbounded : chan;
  tx_send : chan -> T -> chan * bool;
  tx_is_closed : chan -> bool;
  tx_close_channel : chan -> chan;
  (** [Poll<Result<(), SendError>>]: [None] is [Poll::Pending]. *)
  tx_poll_ready : chan -> option bool;
  tx_disconnect : chan -> chan;
  rx_try_next : chan -> chan * next T;
  rx_close : chan -> chan;
  rx_is_terminated : chan -> bool;
}.

Class UnboundedLaws (T : Type) `{Unbounded T} : Type := {
  queue : chan -> list T;
  unbounded_law : queue unbounded = [] /\ tx_is_closed unbounded = false;
  send_law c x : tx_send c x =
    if tx_is_closed c then (c, false) else ((tx_send c x).1, true);
  send_queue c x : tx_is_closed c = false ->
    queue (tx_send c x).1 = queue c ++ [x] /\ tx_is_closed (tx_send c x).1 = false;
  close_channel_law c : queue (tx_close_channel c) = queue c /\ tx_is_closed (tx_close_channel c) = true;
  poll_ready_law c : tx_poll_ready c = Some (negb (tx_is_closed c));
  disconnect_law c : queue (tx_disconnect c) = queue c /\ tx_is_closed (tx_disconnect c) = true;
  try_next_law c : let '(c', r) := rx_try_next c in
    tx_is_closed c' = tx_is_closed c /\
    match queue c with
    | x :: q => r = Message x /\ queue c' = q
    | [] => queue c' = [] /\ forall x, r <> Message x
    end;
  close_law c : queue (rx_close c) = queue c /\ tx_is_closed (rx_close c) = true;
  terminated_law c : rx_is_terminated c = true -> queue c = [];
}.

(** ** The wrapper *)

Section wrapper.
Context {T : Type} `{Unbounded T}.

(** [TracingUnboundedSender] and [TracingUnboundedReceiver]: the two ends of a channel,
    and its name. *)
Record t : Type := { key : string; inner : chan }.

Definition with_inner (c : chan) (s : t) : t := {| key := key s; inner := c |}.

(** [tracing_unbounded]. *)
Definition tracing_unbounded (key : string) : t := {| key := key; inner := unbounded |}.

(** *** The sender *)

Definition poll_ready (s : t) : option bool := tx_poll_ready (inner s).
Definition is_closed (s : t) : bool := tx_is_closed (inner s).
Definition close_channel (s : t) : t := with_inner (tx_close_channel (inner s)) s.
Definition disconnect (s : t) : t := with_inner (tx_disconnect (inner s)) s.
Definition start_send (msg : T) (s : t) : t * bool :=
  let '(c, ok) := tx_send (inner s) msg in (with_inner c s, ok).
Definition unbounded_send (msg : T) (s : t) : t * bool :=
  let '(c, ok) := tx_send (inner s) msg in (with_inner c s, ok).

(** [Sink] of the sender and of a reference to it: the latter has no [&mut] to disconnect
    with and closes the channel instead. *)
Definition sink_poll_ready (s : t) : option bool := poll_ready s.
Definition sink_start_send (msg : T) (s : t) : t * bool := start_send msg s.
Definition sink_poll_flush (s : t) : t * option bool := (s, Some true).
Definition sink_poll_close (s : t) : t * option bool := (disconnect s, Some true).

Definition ref_sink_poll_ready (s : t) : option bool := poll_ready s.
Definition ref_sink_start_send (msg : T) (s : t) : t * bool := unbounded_send msg s.
Definition ref_sink_poll_flush (s : t) : t * option bool := (s, Some true).
Definition ref_sink_poll_close (s : t) : t * option bool := (close_channel s, Some true).

(** *** The receiver *)

Definition try_next (s : t) : t * next T :=
  let '(c, r) := rx_try_next (inner s) in (with_inner c s, r).

(** [FusedStream::is_terminated]. *)
Definition is_terminated (s : t) : bool := rx_is_terminated (inner s).

(** [Stream::poll_next]: [None] is [Poll::Pending], and [Some None] the end. *)
Definition poll_next (s : t) : t * option (option T) :=
  let '(s, r) := try_next s in
  (s, match r with Message x => Some (Some x) | Terminated => Some None | Empty => None end).

(** [count], an [i32], is incremented in the debug profile. *)
Definition count_add (count : Z) : outcome Empty_set Z :=
  if count + 1 <=? 2 ^ 31 - 1 then Ok (count + 1) else Panic "attempt to add with overflow".

(** The loop of [consume]. *)
Fixpoint consume_from (fuel : nat) (count : Z) (s : t) : option (outcome Empty_set t) :=
  match fuel with
  | O => None
  | S fuel =>
      if is_terminated s then Some (Ok s)
      else
        match try_next s with
        | (s, Message _) =>
            match count_add count with
            | Ok count => consume_from fuel count s
            | Err e => Some (Err e)
            | Panic why => Some (Panic why)
            end
        | (s, _) => Some (Ok s)
        end
  end.

Definition consume (fuel : nat) (s : t) : option (outcome Empty_set t) := consume_from fuel 0 s.

(** [close]. *)
Definition close (fuel : nat) (s : t) : option (outcome Empty_set t) :=
  (fun r => s ← r; Ok (with_inner (rx_close (inner s)) s)) <$> consume fuel s.

(** [Drop]. *)
Definition drop (fuel : nat) (s : t) : option (outcome Empty_set t) := consume fuel s.
End wrapper.

(** ** What it does *)

Section laws.
Context {T : Type} `{UnboundedLaws T}.

Definition waiting (s : t) : list T := queue (inner s).

(** Sent messages are received in order; sending to a closed channel fails and changes
    nothing. *)
Theorem send_receive s x :
  (is_closed s = false ->
   exists s', unbounded_send x s = (s', true) /\ waiting s' = waiting s ++ [x]) /\
  (is_closed s = true -> unbounded_send x s = (s, false)) /\
  (forall y q, waiting s = y :: q -> exists s', poll_next s = (s', Some (Some y)) /\ waiting s' = q).
Proof.
  unfold is_closed, unbounded_send, waiting. split; [|split].
  - intros Hc. rewrite send_law, Hc. eexists. split; [done|]. by apply send_queue.
  - intros Hc. rewrite send_law, Hc. by destruct s.
  - intros y q Hq. unfold poll_next, try_next. pose proof (try_next_law (inner s)) as Hn.
    destruct (rx_try_next (inner s)) as [c r]. rewrite Hq in Hn. destruct Hn as (_ & -> & Hc).
    eexists. split; [done|done].
Qed.

(** Sending through a sink: what a sink is ready for is taken, and closing it leaves what
    was sent to be received. *)
Theorem sink_sends s x :
  (sink_poll_ready s = Some true -> exists s', sink_start_send x s = (s', true) /\
    waiting s' = waiting s ++ [x] /\ ref_sink_start_send x s = (s', true)) /\
  (sink_poll_ready s = Some false -> sink_start_send x s = (s, false)) /\
  (forall s', s' = (sink_poll_close s).1 \/ s' = (ref_sink_poll_close s).1 ->
    waiting s' = waiting s /\ sink_start_send x s' = (s', false)).
Proof.
  unfold sink_poll_ready, poll_ready. rewrite poll_ready_law. destruct (send_receive s x) as (Ho & Hc & _).
  split; [|split].
  - intros [= Hn%negb_true_iff]. destruct (Ho Hn) as (s' & Hs & Hw). exists s'. done.
  - intros [= Hn%negb_false_iff]. by apply Hc.
  - intros s' Hs'. destruct (send_receive s' x) as (_ & Hc' & _). unfold waiting, is_closed in *.
    destruct (disconnect_law (inner s)) as [Hdq Hdc], (close_channel_law (inner s)) as [Hcq Hcc].
    destruct Hs' as [-> | ->]; cbn in *; by rewrite ?Hdq, ?Hcq, <- ?Hc'.
Qed.

Lemma consume_ok fuel count s :
  (length (waiting s) < fuel)%nat -> count + Z.of_nat (length (waiting s)) <= 2 ^ 31 - 1 ->
  exists s', consume_from fuel count s = Some (Ok s') /\ waiting s' = [] /\ key s' = key s /\
    is_closed s' = is_closed s.
Proof.
  revert count s. induction fuel as [|fuel IH]; intros count s Hf Hc; [lia|].
  cbn [consume_from]. unfold is_terminated, try_next.
  destruct (rx_is_terminated (inner s)) eqn:Ht.
  { exists s. split; [done|]. split; [|done]. by apply terminated_law. }
  pose proof (try_next_law (inner s)) as Hn. destruct (rx_try_next (inner s)) as [c r].
  destruct Hn as [Hcl Hn]. unfold waiting in *. destruct (queue (inner s)) as [|x q].
  - destruct Hn as [Hq Hr]. destruct r as [x| |]; [by destruct (Hr x)|..];
      exists (with_inner c s); done.
  - destruct Hn as [-> Hq]. cbn [length] in Hf, Hc. unfold count_add.
    rewrite (proj2 (Z.leb_le _ _)) by lia.
    destruct (IH (count + 1) (with_inner c s)) as (s' & Hs & Hw & Hk & Hcl');
      [cbn; rewrite Hq; lia..|].
    exists s'. split; [done|]. split; [done|]. split; [done|]. rewrite Hcl'. exact Hcl.
Qed.

(** Closing or dropping the receiver ends and loses every message that waits, unlike closing the
    channel of [futures], which leaves them to be received; afterwards nothing can be sent. *)
Theorem close_loses_messages s :
  Z.of_nat (length (waiting s)) <= 2 ^ 31 - 1 ->
  let fuel := S (length (waiting s)) in
  (exists s', close fuel s = Some (Ok s') /\ waiting s' = [] /\ is_closed s' = true) /\
  (exists s', drop fuel s = Some (Ok s') /\ waiting s' = []) /\
  queue (rx_close (inner s)) = waiting s.
Proof.
  intros Hl fuel. destruct (consume_ok fuel 0 s) as (s' & Hs & Hw & _); [unfold fuel; lia|lia|].
  unfold close, drop, consume. rewrite Hs. split; [|split; [by exists s'|apply close_law]].
  eexists. split; [done|]. unfold waiting, is_closed in *. cbn.
  destruct (close_law (inner s')) as [-> ->]. done.
Qed.

(** A receiver with [2^31] messages or more panics when it is closed. *)
Theorem close_overflows fuel count s :
  0 <= count <= 2 ^ 31 - 1 -> 2 ^ 31 - 1 < count + Z.of_nat (length (waiting s)) ->
  (length (waiting s) < fuel)%nat ->
  consume_from fuel count s = Some (Panic "attempt to add with overflow").
Proof.
  revert count s. induction fuel as [|fuel IH]; intros count s Hc Hl Hf; [lia|].
  cbn [consume_from]. unfold is_terminated, try_next.
  destruct (rx_is_terminated (inner s)) eqn:Ht.
  { apply terminated_law in Ht. unfold waiting in Hl. rewrite Ht in Hl. cbn in Hl. lia. }
  pose proof (try_next_law (inner s)) as Hn. destruct (rx_try_next (inner s)) as [c r].
  destruct Hn as [_ Hn]. unfold waiting in *.
  destruct (queue (inner s)) as [|x q]; [cbn in Hl; lia|]. destruct Hn as [-> Hq].
  cbn [length] in Hf, Hl. unfold count_add. destruct (Z.leb_spec (count + 1) (2 ^ 31 - 1)); [|done].
  apply IH; cbn; rewrite ?Hq; lia.
Qed.
End laws.

(** ** A channel *)

(** The queue, whether it takes messages, and whether its end has been received. *)
Record fifo (T : Type) : Type := { items : list T; shut : bool; ended : bool }.
#[global] Arguments items {T} _.
#[global] Arguments shut {T} _.
#[global] Arguments ended {T} _.

#[export] Instance fifo_channel (T : Type) : Unbounded T := {|
  chan := fifo T;
  unbounded := {| items := []; shut := false; ended := false |};
  tx_send c x :=
    if shut c then (c, false)
    else ({| items := items c ++ [x]; shut := false; ended := false |}, true);
  tx_is_closed c := shut c;
  tx_close_channel c := {| items := items c; shut := true; ended := ended c |};
  tx_poll_ready c := Some (negb (shut c));
  tx_disconnect c := {| items := items c; shut := true; ended := ended c |};
  rx_try_next c :=
    match items c with
    | x :: q => ({| items := q; shut := shut c; ended := false |}, Message x)
    | [] => if shut c then ({| items := []; shut := true; ended := true |}, Terminated)
            else (c, Empty)
    end;
  rx_close c := {| items := items c; shut := true; ended := ended c |};
  rx_is_terminated c := ended c && bool_decide (length (items c) = 0%nat);
|}.

#[export] Instance fifo_laws (T : Type) : UnboundedLaws T.
Proof.
  refine {| queue := (fun c : chan => items c) |}; cbn; try done.
  - intros c x. by destruct (shut c).
  - intros c x Hc. by rewrite Hc.
  - intros c. destruct (items c) as [|x q] eqn:Hi; [|done].
    by destruct (shut c) eqn:Hs; cbn; rewrite ?Hs, ?Hi.
  - intros c [_ Hl]%andb_true_iff. apply bool_decide_eq_true in Hl. by apply nil_length_inv.
Defined.

(** Two messages, one received, one lost. *)
Example one_lost :
  let s := (unbounded_send 2 (unbounded_send 1 (tracing_unbounded "jobs")).1).1 in
  let '(s, first) := poll_next s in
  first = Some (Some 1) /\
  (fun r => is_ok r) <$> close 2 s = Some true /\
  waiting (default s (r ← close 2 s; if r is Ok s then Some s else None)) = [].
Proof. vm_compute. done. Qed.
End Mpsc.
