(* ===== verification/NodeSetup.v ===== *)
(** * Setting up and starting a node

    [Config], [PartyConfig] and [generate_config] of [crates/tss/src/config.rs],
    [RoomConfig] and [Params] of [crates/client/network/src/config.rs], and the
    part of [Command::execute] of [crates/apps/node/src/lib.rs] that turns the
    configuration into the key and the parameters of the network worker.

    JSON is an interface ([Serde]); the digest that makes a room id of a name is a
    parameter. *)

From Stdlib Require Import ZArith Lia Strings.Byte.
From stdpp Require Import base gmap strings numbers list.
From S2P Require Import Prelude Messages Wallet NetConfig.

Local Open Scope Z_scope.

#[local] Arguments str : simpl never.

(** ** Rooms and parameters of the network *)

Section rooms.
Context `{Multiaddrs}.

(** [RoomConfig]; the sending end of the queue is named by a number. *)
Record RoomConfig : Type := {
  rc_id : RoomId;
  rc_max_size : Z;
  rc_boot_nodes : list MultiaddrWithPeerId.t;
  rc_inbound_queue : option nat;
}.

(** [Params]. *)
Record Params : Type := {
  listen_address : Multiaddr;
  mdns : bool;
  kademlia : bool;
  rooms : list RoomConfig;
  boot_nodes : list MultiaddrWithPeerId.t;
}.

(** [RoomConfig::new_full]; [queue] is the new channel, and [room_from] is
    [RoomId::from].  [async_channel::bounded] panics on a capacity of zero. *)
Definition new_full (room_from : chars -> RoomId) (name : chars)
  (boot_nodes : list MultiaddrWithPeerId.t) (max_size : Z) (queue : nat) :
  outcome string (RoomId * RoomConfig * nat) :=
  let id := room_from name in
  if max_size =? 0 then Panic "capacity cannot be zero"
  else Ok (id, {| rc_id := id; rc_max_size := max_size; rc_boot_nodes := boot_nodes;
                  rc_inbound_queue := Some queue |}, queue).
End rooms.

(** ** Strings and paths *)

Fixpoint starts_with (pat s : chars) : bool :=
  match pat, s with
  | [], _ => true
  | p :: pat, c :: s => (p =? c) && starts_with pat s
  | _, _ => false
  end.

(** [str::replace] of a pattern that is not empty: occurrences from left to
    right, [skip] characters of one being behind. *)
Fixpoint replace_from (skip : nat) (pat rep s : chars) : chars :=
  match s with
  | [] => []
  | c :: s' =>
      match skip with
      | S k => replace_from k pat rep s'
      | O =>
          if starts_with pat s then rep ++ replace_from (length pat - 1) pat rep s'
          else c :: replace_from 0 pat rep s'
      end
  end.

Definition replace (pat rep s : chars) : chars := replace_from 0 pat rep s.

(** Whether [Path::parent] is [Some]: the path has a component other than the
    root ([.] counts at the start of a path). *)
Definition has_parent (p : chars) : bool :=
  match Wallet.components p, p with
  | _ :: _, _ => true
  | [], [] => false
  | [], c :: _ => negb (c =? slash)
  end.

(** ** Configuration *)

Section config.
Context `{Multiaddrs} `{!Ed25519Keys}.

Record PartyConfig : Type := {
  network_peer : MultiaddrWithPeerId.t;
  rpc_addr : chars;
}.

Record Config : Type := {
  local : PartyConfig;
  cfg_boot_nodes : list MultiaddrWithPeerId.t;
}.

Context `{!Serde Config}.

(** [load_config]. *)
Definition load_config (path : chars) (fs : files) (o : fs_obs) : outcome string Config :=
  match fs_read path fs o with
  | Ok b =>
      match NodeKeyConfig.from_utf8 b with
      | Some s => ok_or "decoding config terminated with err" (from_slice s)
      | None => Err "reading config terminated with err"
      end
  | _ => Err "reading config terminated with err"
  end.

(** The directory of a node: [:id] stands for its peer id. *)
Definition node_path (path : chars) (id : PeerId) : chars :=
  replace (str ":id") (str (peer_to_base58 id)) path.

(** [generate_config]; [generated] is the new key, [config_ok] whether the
    configuration file can be written. *)
Definition generate_config (cfg_path setup_path libp2p_addr rpc : chars) (generated : SecretKey)
  (fs : files) (o : fs_obs) (config_ok : bool) : files * outcome string Config :=
  match NodeKeyConfig.into_keypair NodeKeyConfig.New generated fs o with
  | (fs, Ok keypair) =>
      let id := keypair_peer_id keypair in
      let path := node_path setup_path id in
      if negb (has_parent path) then (fs, Panic "called `Option::unwrap()` on a `None` value")
      else if negb (mkdir_ok o) then (fs, Panic "called `Result::unwrap()` on an `Err` value")
      else
        match NodeKeyConfig.persist keypair path fs o with
        | (fs, Ok _) =>
            match multiaddr_from_str libp2p_addr with
            | None => (fs, Err "multiaddr parse err")
            | Some addr =>
                let config :=
                  {| local :=
                       {| network_peer :=
                            {| MultiaddrWithPeerId.multiaddr := addr;
                               MultiaddrWithPeerId.peer_id := id |};
                          rpc_addr := rpc |};
                     cfg_boot_nodes := [] |} in
                match to_vec config with
                | None => (fs, Err "config encoding terminated with err")
                | Some b =>
                    if config_ok then (<[cfg_path := b]> fs, Ok config)
                    else (fs, Err "writing config err")
                end
            end
        | (fs, Err _) => (fs, Err "secret key backup failed")
        | (fs, Panic w) => (fs, Panic w)
        end
  | (fs, Err _) => (fs, Err "keypair generating err")
  | (fs, Panic w) => (fs, Panic w)
  end.

(** [setup::Command] of [crates/apps/cli/src/commands/setup.rs] and its [execute]. *)
Record SetupCommand : Type := {
  sc_multiaddr : chars;
  sc_rpc_address : chars;
  sc_config_path : chars;
  sc_path : chars;
}.

Definition setup_execute (c : SetupCommand) (generated : SecretKey) (fs : files) (o : fs_obs)
  (config_ok : bool) : files * outcome string unit :=
  match generate_config (sc_config_path c) (sc_path c) (sc_multiaddr c) (sc_rpc_address c)
          generated fs o config_ok with
  | (fs, Ok _) => (fs, Ok tt)
  | (fs, Err e) => (fs, Err ("error generating config: " ++ e)%string)
  | (fs, Panic w) => (fs, Panic w)
  end.

(** ** The node *)

(** The options of the [node] command. *)
Record Command : Type := {
  config_path : chars;
  path : chars;
  cmd_kademlia : bool;
  cmd_mdns : bool;
}.

(** What [execute] prepares for the network worker and the service: the source of
    the key, the parameters, the room with its queue, and the directory of the
    peer set cache. *)
Record prepared : Type := {
  node_key : NodeKeyConfig.t;
  params : Params;
  room : RoomId;
  room_rx : nat;
  peerset_path : chars;
  rpc_address : chars;
}.

Definition prepare (room_from : chars -> RoomId) (c : Command) (queue : nat) (fs : files)
  (o : fs_obs) : outcome string prepared :=
  config ← load_config (config_path c) fs o;
  let peer := network_peer (local config) in
  let base := node_path (path c) (MultiaddrWithPeerId.peer_id peer) in
  '(id, cfg, rx) ← new_full room_from (str "tss/0") (cfg_boot_nodes config)
                     (Z.of_nat (length (cfg_boot_nodes config))) queue;
  Ok {| node_key := NodeKeyConfig.File (join base (str "secret.key"));
        params := {| listen_address := MultiaddrWithPeerId.multiaddr peer;
                     mdns := cmd_mdns c; kademlia := cmd_kademlia c; rooms := [cfg];
                     boot_nodes := cfg_boot_nodes config |};
        room := id; room_rx := rx; peerset_path := join base (str "peerset");
        rpc_address := rpc_addr (local config) |}.

(** [TssFactory::new(format!("data/{}/key.share", ..))]: with the peer id of the
    key, not of the configuration. *)
Definition key_share_base (id : PeerId) : chars :=
  str "data/" ++ str (peer_to_base58 id) ++ str "/key.share".

(** ** Properties *)

Context `{!Ed25519Laws}.

Lemma generate_config_ok cfg_path setup_path addr rpc generated fs o ok fs' c :
  generate_config cfg_path setup_path addr rpc generated fs o ok = (fs', Ok c) ->
  let id := keypair_peer_id (keypair_from generated) in
  fs !! node_path setup_path id = None /\
  MultiaddrWithPeerId.peer_id (network_peer (local c)) = id /\
  rpc_addr (local c) = rpc /\ cfg_boot_nodes c = [] /\
  multiaddr_from_str addr = Some (MultiaddrWithPeerId.multiaddr (network_peer (local c))) /\
  exists b, to_vec c = Some b /\
    fs' = <[cfg_path := b]> (<[node_path setup_path id := sk_as_ref generated]> fs).
Proof.
  unfold generate_config. cbn [NodeKeyConfig.into_keypair].
  destruct (has_parent _); [|done]. destruct (mkdir_ok o); [|done]. cbn [negb].
  unfold NodeKeyConfig.persist. rewrite keypair_into_from.
  destruct (write_secret_file _ _ _ _) as [fs1 [[]|e|w]] eqn:Hw; [|done..].
  apply write_secret_file_ok in Hw as [Hn ->].
  destruct (multiaddr_from_str addr) as [a|] eqn:Ha; [|done].
  destruct (to_vec _) as [b|] eqn:Hb; [|done]. destruct ok; [|done].
  intros [= <- <-]. cbn. eauto 10.
Qed.

(** JSON is UTF-8. *)
Definition utf8_output : Prop :=
  forall (c : Config) b, to_vec c = Some b -> NodeKeyConfig.from_utf8 b = Some b.

Context `{!SerdeLaws Config} (json_utf8 : utf8_output).

Lemma load_written path c b fs o :
  to_vec c = Some b -> fs !! path = Some b -> read_ok o = true -> load_config path fs o = Ok c.
Proof.
  intros Hb Hf Ho. unfold load_config, fs_read. rewrite Hf, Ho, (json_utf8 _ _ Hb).
  by rewrite (from_to_vec _ _ Hb).
Qed.

(** the set-up of a node writes a configuration that is read back as it was
    made, with the peer id of the key it saved and the given addresses; but started
    with it, the node panics, because it sizes the queue of its room by the number
    of boot nodes, and there are none. *)
Theorem fresh_config_panics cfg_path setup_path addr rpc generated fs o ok fs' c :
  generate_config cfg_path setup_path addr rpc generated fs o ok = (fs', Ok c) ->
  MultiaddrWithPeerId.peer_id (network_peer (local c)) = keypair_peer_id (keypair_from generated) /\
  rpc_addr (local c) = rpc /\
  forall o', read_ok o' = true ->
    load_config cfg_path fs' o' = Ok c /\
    forall room_from cmd queue, config_path cmd = cfg_path ->
      prepare room_from cmd queue fs' o' = Panic "capacity cannot be zero".
Proof.
  intros (_ & Hid & Hrpc & Hboot & _ & b & Hb & ->)%generate_config_ok.
  split; [done|]. split; [done|]. intros o' Ho'.
  assert (load_config cfg_path (<[cfg_path := b]> (<[node_path setup_path
    (keypair_peer_id (keypair_from generated)) := sk_as_ref generated]> fs)) o' = Ok c) as Hl.
  { eapply load_written; [done|apply lookup_insert_eq|done]. }
  split; [done|]. intros room_from cmd queue Hc. unfold prepare. rewrite Hc, Hl. cbn.
  by rewrite Hboot.
Qed.

Lemma join_nonempty p q : q <> [] -> join p q <> p.
Proof.
  intros Hq Heq. destruct (join_suffix p q) as (sep & Hj & _). rewrite Heq in Hj.
  apply (f_equal length) in Hj. rewrite !length_app in Hj.
  destruct q; [done|]. cbn in Hj. lia.
Qed.

End config.
