(* ===== verification/Discovery.v ===== *)
(** * Discovery of peers

    [DiscoveryBehaviour] of [crates/client/network/src/discovery.rs]: which
    addresses a peer is dialled at, the connections that count, the random walk on
    the distributed hash table, and the events that are passed on to the network
    worker.

    Kademlia and mDNS are [libp2p]'s and an interface, as are the linked hash set
    that removes duplicates among addresses and the test for global addresses.  What
    a poll observes (clock readings, random peer ids, what the network feeds to the
    two) is its argument. *)

From Stdlib Require Import ZArith Lia Strings.Byte.
From stdpp Require Import base gmap strings numbers list.
From S2P Require Import Prelude Messages Wallet NetConfig.

Local Open Scope Z_scope.

Abbreviation StreamProtocol := string.
Abbreviation RecordKey := bytes.
Abbreviation QueryId := Z.

Section data.
Context `{Multiaddrs}.

(** [kad::Record]. *)
Record KadRecord : Type := {
  rec_key : RecordKey;
  rec_value : bytes;
  publisher : option PeerId;
  expires : option Z;
}.

(** [kad::QueryStats], as far as it is used; times are in milliseconds. *)
Record QueryStats : Type := {
  num_successes : Z;
  duration : option Z;
}.

(** [kad::Event]; of a query, its kind and result. *)
Inductive KademliaEvent : Type :=
  | RoutingUpdated (peer : PeerId)
  | KadUnroutablePeer (peer : PeerId)
  | RoutablePeer
  | PendingRoutablePeer
  | KadPutRecord (r : option KadRecord)
  | OtherInboundRequest
  | GetClosestPeers (key : bytes) (peers : list (PeerId * list Multiaddr)) (timeout : bool)
      (stats : QueryStats)
  | FoundRecord (id : QueryId) (by_peer : option PeerId) (r : KadRecord) (stats : QueryStats)
  | FinishedRecord (id : QueryId) (cache_candidates : list PeerId) (stats : QueryStats)
  | GetRecordFailed (id : QueryId) (key : RecordKey) (stats : QueryStats)
  | FoundProviders (id : QueryId) (key : RecordKey) (providers : gset PeerId) (stats : QueryStats)
  | FinishedProviders (id : QueryId) (stats : QueryStats)
  | GetProvidersTimeout (id : QueryId) (key : RecordKey) (stats : QueryStats)
  | PutRecordDone (key : RecordKey) (ok : bool) (stats : QueryStats)
  | RepublishRecordDone
  | StartProvidingDone (key : RecordKey) (ok : bool) (stats : QueryStats)
  | BootstrapProgressed
  | OtherQuery
  | ModeChanged.

(** What Kademlia or mDNS hands to the swarm. *)
Inductive kad_out : Type :=
  | KadEvent (ev : KademliaEvent)
  | KadPassed.
      (** [ToSwarm::Dial] and the others, which are passed on. *)

Inductive mdns_out : Type :=
  | MdnsDiscovered (list : list (PeerId * Multiaddr))
  | MdnsExpired
  | MdnsDial
  | MdnsPassed.

(** [DialError]: the addresses that failed, or another reason. *)
Inductive DialError : Type :=
  | TransportErrors (failed : list Multiaddr)
  | OtherDialError.

(** [FromSwarm]; [OtherFromSwarm] stands for the variants added later to that
    open enumeration. *)
Inductive FromSwarm : Type :=
  | ConnectionEstablished (peer : PeerId)
  | ConnectionClosed (peer : PeerId)
  | DialFailed (peer : option PeerId) (error : DialError)
  | ListenerClosed
  | ListenFailure
  | ListenerError
  | ExternalAddrExpired
  | NewListener
  | ExpiredListenAddr
  | NewExternalAddrCandidate
  | AddressChange
  | NewListenAddr
  | ExternalAddrConfirmed (addr : Multiaddr)
  | NewExternalAddrOfPeer
  | OtherFromSwarm.
End data.

(** ** The interfaces *)

Class KademliaDht `{Multiaddrs} : Type := {
  Kad : Type;
  kad_input : Type;
  (** [with_config] with the protocol, the replication factor and whether paths
      are disjoint, in server mode. *)
  kad_with_config : PeerId -> StreamProtocol -> Z -> bool -> Kad;
  kad_add_address : Kad -> PeerId -> Multiaddr -> Kad;
  kad_bootstrap : Kad -> Kad * outcome string QueryId;
  (** The peers of the buckets. *)
  kad_kbuckets : Kad -> list (list PeerId);
  kad_get_closest_peers : Kad -> PeerId -> Kad;
  kad_get_record : Kad -> RecordKey -> Kad;
  (** False when the store refuses. *)
  kad_put_record : Kad -> KadRecord -> Kad * bool;
  kad_start_providing : Kad -> RecordKey -> Kad * bool;
  kad_stop_providing : Kad -> RecordKey -> Kad;
  kad_get_providers : Kad -> RecordKey -> Kad * QueryId;
  kad_store_put : Kad -> KadRecord -> Kad;
  (** [query_mut(&id)] and [finish]. *)
  kad_finish_query : Kad -> QueryId -> Kad;
  kad_put_record_to : Kad -> KadRecord -> list PeerId -> Kad;
  kad_pending_outbound : Kad -> PeerId -> list Multiaddr -> Kad * outcome string (list Multiaddr);
  kad_on_swarm_event : Kad -> FromSwarm -> Kad;
  kad_poll : Kad -> kad_input -> Kad * option kad_out;
  Mdns : Type;
  mdns_input : Type;
  mdns_new : PeerId -> option Mdns;
  mdns_pending_outbound : Mdns -> PeerId -> list Multiaddr -> Mdns * outcome string (list Multiaddr);
  mdns_on_swarm_event : Mdns -> FromSwarm -> Mdns;
  mdns_poll : Mdns -> mdns_input -> Mdns * option mdns_out;
  (** [IpNetwork::is_global] for an IPv4 and an IPv6 address. *)
  ip4_is_global : Z -> bool;
  ip6_is_global : Z -> bool;
  (** [LinkedHashSet]: [from_iter] and [insert_if_absent], on the elements in
      order. *)
  lhs_from_iter : list Multiaddr -> list Multiaddr;
  lhs_insert_if_absent : list Multiaddr -> Multiaddr -> list Multiaddr;
}.

Class LinkedHashSetLaws `{KademliaDht} : Prop := {
  lhs_from_iter_set l : NoDup (lhs_from_iter l) /\ forall a, a ∈ lhs_from_iter l <-> a ∈ l;
  lhs_insert_absent l a : a ∉ l -> lhs_insert_if_absent l a = l ++ [a];
  lhs_insert_present l a : a ∈ l -> lhs_insert_if_absent l a = l;
}.

(** ** [LruHashSet] *)

Module LruHashSet.
Section lru.
Context {A : Type} `{Countable A}.

Record t : Type := { inner : gset A; max_size : Z }.

Definition new (max_size : Z) : t := {| inner := ∅; max_size := max_size |}.

(** [insert]; [first] is the first element of an iteration over the set, whose
    order is that of a [HashSet]. *)
Definition insert (first : gset A -> option A) (value : A) (s : t) : t * bool :=
  if decide (value ∈ inner s) then (s, false)
  else
    let kept :=
      if max_size s <=? Z.of_nat (size (inner s)) then
        match first (inner s) with
        | Some x => inner s ∖ {[x]}
        | None => inner s
        end
      else inner s in
    ({| inner := {[value]} ∪ kept; max_size := max_size s |}, bool_decide (value ∉ kept)).

Definition bounded (s : t) : Prop := 1 <= max_size s /\ Z.of_nat (size (inner s)) <= max_size s.

(** An iteration starts with an element of the set, if it has one. *)
Definition iteration (first : gset A -> option A) : Prop :=
  forall s, match first s with Some x => x ∈ s | None => s = ∅ end.

Lemma insert_bounded first value s s' fresh :
  iteration first -> bounded s -> insert first value s = (s', fresh) ->
  bounded s' /\ value ∈ inner s' /\ fresh = bool_decide (value ∉ inner s).
Proof.
  intros Hf [Hpos Hb]. unfold insert. case_decide as Hin.
  { intros [= <- <-]. by rewrite bool_decide_false by tauto. }
  intros [= <- <-]. cbn. split; [|split; [set_solver|]].
  - unfold bounded. cbn. split; [done|]. case_match eqn:Hfull.
    + apply Z.leb_le in Hfull. specialize (Hf (inner s)). destruct (first (inner s)) as [x|].
      * assert (size (inner s ∖ {[x]}) + 1 = size (inner s))%nat as Hs.
        { rewrite size_difference by set_solver. rewrite size_singleton.
          assert (size ({[x]} : gset A) <= size (inner s))%nat by (apply subseteq_size; set_solver).
          rewrite size_singleton in *. lia. }
        rewrite size_union by set_solver. rewrite size_singleton. lia.
      * rewrite Hf, size_empty in Hfull. cbn in Hfull. lia.
    + apply Z.leb_gt in Hfull. rewrite size_union by set_solver. rewrite size_singleton. lia.
  - rewrite !bool_decide_true; [done|done|].
    repeat case_match; set_solver.
Qed.
End lru.
Arguments t A {_ _}.
End LruHashSet.

(** ** [DiscoveryBehaviour] *)

Definition MAX_KNOWN_EXTERNAL_ADDRESSES : Z := 32.
Definition DEFAULT_KADEMLIA_REPLICATION_FACTOR : Z := 20.
Definition GET_RECORD_REDUNDANCY_FACTOR : Z := 4.

Module Discovery.
Section discovery.
Context `{KademliaDht}.

(** *** Configuration *)

Record DiscoveryConfig : Type := {
  cfg_local_peer_id : PeerId;
  cfg_permanent_addresses : list (PeerId * Multiaddr);
  cfg_dht_random_walk : bool;
  cfg_allow_private_ip : bool;
  cfg_allow_non_globals_in_dht : bool;
  cfg_discovery_only_if_under_num : Z;
  cfg_enable_mdns : bool;
  cfg_kademlia_disjoint_query_paths : bool;
  cfg_kademlia_protocol : option StreamProtocol;
  cfg_kademlia_replication_factor : Z;
}.

(** [DiscoveryConfig::new]. *)
Definition config_new (local : PeerId) : DiscoveryConfig := {|
  cfg_local_peer_id := local; cfg_permanent_addresses := []; cfg_dht_random_walk := true;
  cfg_allow_private_ip := true; cfg_allow_non_globals_in_dht := false;
  cfg_discovery_only_if_under_num := u64_max; cfg_enable_mdns := false;
  cfg_kademlia_disjoint_query_paths := false; cfg_kademlia_protocol := None;
  cfg_kademlia_replication_factor := DEFAULT_KADEMLIA_REPLICATION_FACTOR |}.

Definition with_permanent_addresses (l : list (PeerId * Multiaddr)) (c : DiscoveryConfig) :
  DiscoveryConfig := {|
  cfg_local_peer_id := cfg_local_peer_id c;
  cfg_permanent_addresses := cfg_permanent_addresses c ++ l;
  cfg_dht_random_walk := cfg_dht_random_walk c; cfg_allow_private_ip := cfg_allow_private_ip c;
  cfg_allow_non_globals_in_dht := cfg_allow_non_globals_in_dht c;
  cfg_discovery_only_if_under_num := cfg_discovery_only_if_under_num c;
  cfg_enable_mdns := cfg_enable_mdns c;
  cfg_kademlia_disjoint_query_paths := cfg_kademlia_disjoint_query_paths c;
  cfg_kademlia_protocol := cfg_kademlia_protocol c;
  cfg_kademlia_replication_factor := cfg_kademlia_replication_factor c |}.

Definition with_mdns (value : bool) (c : DiscoveryConfig) : DiscoveryConfig := {|
  cfg_local_peer_id := cfg_local_peer_id c;
  cfg_permanent_addresses := cfg_permanent_addresses c;
  cfg_dht_random_walk := cfg_dht_random_walk c; cfg_allow_private_ip := cfg_allow_private_ip c;
  cfg_allow_non_globals_in_dht := cfg_allow_non_globals_in_dht c;
  cfg_discovery_only_if_under_num := cfg_discovery_only_if_under_num c;
  cfg_enable_mdns := value;
  cfg_kademlia_disjoint_query_paths := cfg_kademlia_disjoint_query_paths c;
  cfg_kademlia_protocol := cfg_kademlia_protocol c;
  cfg_kademlia_replication_factor := cfg_kademlia_replication_factor c |}.

Definition with_kademlia (p : StreamProtocol) (c : DiscoveryConfig) : DiscoveryConfig := {|
  cfg_local_peer_id := cfg_local_peer_id c;
  cfg_permanent_addresses := cfg_permanent_addresses c;
  cfg_dht_random_walk := cfg_dht_random_walk c; cfg_allow_private_ip := cfg_allow_private_ip c;
  cfg_allow_non_globals_in_dht := cfg_allow_non_globals_in_dht c;
  cfg_discovery_only_if_under_num := cfg_discovery_only_if_under_num c;
  cfg_enable_mdns := cfg_enable_mdns c;
  cfg_kademlia_disjoint_query_paths := cfg_kademlia_disjoint_query_paths c;
  cfg_kademlia_protocol := Some p;
  cfg_kademlia_replication_factor := cfg_kademlia_replication_factor c |}.

(** [discovery_limit] and the other setters. *)
Definition discovery_limit (limit : Z) (c : DiscoveryConfig) : DiscoveryConfig := {|
  cfg_local_peer_id := cfg_local_peer_id c;
  cfg_permanent_addresses := cfg_permanent_addresses c;
  cfg_dht_random_walk := cfg_dht_random_walk c;
  cfg_allow_private_ip := cfg_allow_private_ip c;
  cfg_allow_non_globals_in_dht := cfg_allow_non_globals_in_dht c;
  cfg_discovery_only_if_under_num := limit;
  cfg_enable_mdns := cfg_enable_mdns c;
  cfg_kademlia_disjoint_query_paths := cfg_kademlia_disjoint_query_paths c;
  cfg_kademlia_protocol := cfg_kademlia_protocol c;
  cfg_kademlia_replication_factor := cfg_kademlia_replication_factor c |}.

Definition with_dht_random_walk (value : bool) (c : DiscoveryConfig) : DiscoveryConfig := {|
  cfg_local_peer_id := cfg_local_peer_id c;
  cfg_permanent_addresses := cfg_permanent_addresses c;
  cfg_dht_random_walk := value;
  cfg_allow_private_ip := cfg_allow_private_ip c;
  cfg_allow_non_globals_in_dht := cfg_allow_non_globals_in_dht c;
  cfg_discovery_only_if_under_num := cfg_discovery_only_if_under_num c;
  cfg_enable_mdns := cfg_enable_mdns c;
  cfg_kademlia_disjoint_query_paths := cfg_kademlia_disjoint_query_paths c;
  cfg_kademlia_protocol := cfg_kademlia_protocol c;
  cfg_kademlia_replication_factor := cfg_kademlia_replication_factor c |}.

Definition config_allow_private_ip (value : bool) (c : DiscoveryConfig) : DiscoveryConfig := {|
  cfg_local_peer_id := cfg_local_peer_id c;
  cfg_permanent_addresses := cfg_permanent_addresses c;
  cfg_dht_random_walk := cfg_dht_random_walk c;
  cfg_allow_private_ip := value;
  cfg_allow_non_globals_in_dht := cfg_allow_non_globals_in_dht c;
  cfg_discovery_only_if_under_num := cfg_discovery_only_if_under_num c;
  cfg_enable_mdns := cfg_enable_mdns c;
  cfg_kademlia_disjoint_query_paths := cfg_kademlia_disjoint_query_paths c;
  cfg_kademlia_protocol := cfg_kademlia_protocol c;
  cfg_kademlia_replication_factor := cfg_kademlia_replication_factor c |}.

Definition config_allow_non_globals_in_dht (value : bool) (c : DiscoveryConfig) : DiscoveryConfig := {|
  cfg_local_peer_id := cfg_local_peer_id c;
  cfg_permanent_addresses := cfg_permanent_addresses c;
  cfg_dht_random_walk := cfg_dht_random_walk c;
  cfg_allow_private_ip := cfg_allow_private_ip c;
  cfg_allow_non_globals_in_dht := value;
  cfg_discovery_only_if_under_num := cfg_discovery_only_if_under_num c;
  cfg_enable_mdns := cfg_enable_mdns c;
  cfg_kademlia_disjoint_query_paths := cfg_kademlia_disjoint_query_paths c;
  cfg_kademlia_protocol := cfg_kademlia_protocol c;
  cfg_kademlia_replication_factor := cfg_kademlia_replication_factor c |}.

Definition use_kademlia_disjoint_query_paths (value : bool) (c : DiscoveryConfig) : DiscoveryConfig := {|
  cfg_local_peer_id := cfg_local_peer_id c;
  cfg_permanent_addresses := cfg_permanent_addresses c;
  cfg_dht_random_walk := cfg_dht_random_walk c;
  cfg_allow_private_ip := cfg_allow_private_ip c;
  cfg_allow_non_globals_in_dht := cfg_allow_non_globals_in_dht c;
  cfg_discovery_only_if_under_num := cfg_discovery_only_if_under_num c;
  cfg_enable_mdns := cfg_enable_mdns c;
  cfg_kademlia_disjoint_query_paths := value;
  cfg_kademlia_protocol := cfg_kademlia_protocol c;
  cfg_kademlia_replication_factor := cfg_kademlia_replication_factor c |}.

Definition with_kademlia_replication_factor (value : Z) (c : DiscoveryConfig) : DiscoveryConfig := {|
  cfg_local_peer_id := cfg_local_peer_id c;
  cfg_permanent_addresses := cfg_permanent_addresses c;
  cfg_dht_random_walk := cfg_dht_random_walk c;
  cfg_allow_private_ip := cfg_allow_private_ip c;
  cfg_allow_non_globals_in_dht := cfg_allow_non_globals_in_dht c;
  cfg_discovery_only_if_under_num := cfg_discovery_only_if_under_num c;
  cfg_enable_mdns := cfg_enable_mdns c;
  cfg_kademlia_disjoint_query_paths := cfg_kademlia_disjoint_query_paths c;
  cfg_kademlia_protocol := cfg_kademlia_protocol c;
  cfg_kademlia_replication_factor := value |}.

(** *** State *)

(** [DiscoveryOut]; durations are in milliseconds. *)
Inductive DiscoveryOut : Type :=
  | Discovered (p : PeerId)
  | UnroutablePeer (p : PeerId)
  | ClosestPeersFound (target : PeerId) (peers : list (PeerId * list Multiaddr)) (d : Z)
  | ClosestPeersNotFound (target : PeerId) (d : Z)
  | ValueFound (by_peer : option PeerId) (r : KadRecord) (d : Z)
  | PutRecordRequest (key : RecordKey) (value : bytes) (publisher : option PeerId)
      (expires : option Z)
  | ValueNotFound (key : RecordKey) (d : Z)
  | ValuePut (key : RecordKey) (d : Z)
  | ValuePutFailed (key : RecordKey) (d : Z)
  | StartedProviding (key : RecordKey) (d : Z)
  | StartProvidingFailed (key : RecordKey) (d : Z)
  | ProvidersFound (key : RecordKey) (providers : gset PeerId) (d : Z)
  | NoMoreProviders (key : RecordKey) (d : Z)
  | ProvidersNotFound (key : RecordKey) (d : Z)
  | RandomKademliaStarted.

(** [DiscoveryBehaviour]; a [Delay] is the time at which it fires. *)
Record t : Type := {
  permanent_addresses : list (PeerId * Multiaddr);
  ephemeral_addresses : gmap PeerId (list Multiaddr);
  kademlia : option Kad;
  mdns : option Mdns;
  next_kad_random_query : option Z;
  duration_to_next_kad : Z;
  pending_events : list DiscoveryOut;
  local_peer_id : PeerId;
  num_connections : Z;
  allow_private_ip : bool;
  discovery_only_if_under_num : Z;
  allow_non_globals_in_dht : bool;
  known_external_addresses : LruHashSet.t Multiaddr;
  records_to_publish : gmap QueryId KadRecord;
  kademlia_protocol : option StreamProtocol;
  provider_keys_requested : gmap QueryId RecordKey;
}.

Definition with_ephemeral (e : gmap PeerId (list Multiaddr)) (s : t) : t := {|
  permanent_addresses := permanent_addresses s; ephemeral_addresses := e;
  kademlia := kademlia s; mdns := mdns s; next_kad_random_query := next_kad_random_query s;
  duration_to_next_kad := duration_to_next_kad s; pending_events := pending_events s;
  local_peer_id := local_peer_id s; num_connections := num_connections s;
  allow_private_ip := allow_private_ip s;
  discovery_only_if_under_num := discovery_only_if_under_num s;
  allow_non_globals_in_dht := allow_non_globals_in_dht s;
  known_external_addresses := known_external_addresses s;
  records_to_publish := records_to_publish s; kademlia_protocol := kademlia_protocol s;
  provider_keys_requested := provider_keys_requested s |}.

Definition with_dht (k : option Kad) (m : option Mdns) (s : t) : t := {|
  permanent_addresses := permanent_addresses s; ephemeral_addresses := ephemeral_addresses s;
  kademlia := k; mdns := m; next_kad_random_query := next_kad_random_query s;
  duration_to_next_kad := duration_to_next_kad s; pending_events := pending_events s;
  local_peer_id := local_peer_id s; num_connections := num_connections s;
  allow_private_ip := allow_private_ip s;
  discovery_only_if_under_num := discovery_only_if_under_num s;
  allow_non_globals_in_dht := allow_non_globals_in_dht s;
  known_external_addresses := known_external_addresses s;
  records_to_publish := records_to_publish s; kademlia_protocol := kademlia_protocol s;
  provider_keys_requested := provider_keys_requested s |}.

Definition with_walk (next duration : Z) (s : t) : t := {|
  permanent_addresses := permanent_addresses s; ephemeral_addresses := ephemeral_addresses s;
  kademlia := kademlia s; mdns := mdns s; next_kad_random_query := Some next;
  duration_to_next_kad := duration; pending_events := pending_events s;
  local_peer_id := local_peer_id s; num_connections := num_connections s;
  allow_private_ip := allow_private_ip s;
  discovery_only_if_under_num := discovery_only_if_under_num s;
  allow_non_globals_in_dht := allow_non_globals_in_dht s;
  known_external_addresses := known_external_addresses s;
  records_to_publish := records_to_publish s; kademlia_protocol := kademlia_protocol s;
  provider_keys_requested := provider_keys_requested s |}.

Definition with_events (evs : list DiscoveryOut) (s : t) : t := {|
  permanent_addresses := permanent_addresses s; ephemeral_addresses := ephemeral_addresses s;
  kademlia := kademlia s; mdns := mdns s; next_kad_random_query := next_kad_random_query s;
  duration_to_next_kad := duration_to_next_kad s; pending_events := evs;
  local_peer_id := local_peer_id s; num_connections := num_connections s;
  allow_private_ip := allow_private_ip s;
  discovery_only_if_under_num := discovery_only_if_under_num s;
  allow_non_globals_in_dht := allow_non_globals_in_dht s;
  known_external_addresses := known_external_addresses s;
  records_to_publish := records_to_publish s; kademlia_protocol := kademlia_protocol s;
  provider_keys_requested := provider_keys_requested s |}.

Definition with_connections (n : Z) (s : t) : t := {|
  permanent_addresses := permanent_addresses s; ephemeral_addresses := ephemeral_addresses s;
  kademlia := kademlia s; mdns := mdns s; next_kad_random_query := next_kad_random_query s;
  duration_to_next_kad := duration_to_next_kad s; pending_events := pending_events s;
  local_peer_id := local_peer_id s; num_connections := n;
  allow_private_ip := allow_private_ip s;
  discovery_only_if_under_num := discovery_only_if_under_num s;
  allow_non_globals_in_dht := allow_non_globals_in_dht s;
  known_external_addresses := known_external_addresses s;
  records_to_publish := records_to_publish s; kademlia_protocol := kademlia_protocol s;
  provider_keys_requested := provider_keys_requested s |}.

Definition with_external (l : LruHashSet.t Multiaddr) (s : t) : t := {|
  permanent_addresses := permanent_addresses s; ephemeral_addresses := ephemeral_addresses s;
  kademlia := kademlia s; mdns := mdns s; next_kad_random_query := next_kad_random_query s;
  duration_to_next_kad := duration_to_next_kad s; pending_events := pending_events s;
  local_peer_id := local_peer_id s; num_connections := num_connections s;
  allow_private_ip := allow_private_ip s;
  discovery_only_if_under_num := discovery_only_if_under_num s;
  allow_non_globals_in_dht := allow_non_globals_in_dht s;
  known_external_addresses := l;
  records_to_publish := records_to_publish s; kademlia_protocol := kademlia_protocol s;
  provider_keys_requested := provider_keys_requested s |}.

Definition with_queries (r : gmap QueryId KadRecord) (p : gmap QueryId RecordKey) (s : t) : t := {|
  permanent_addresses := permanent_addresses s; ephemeral_addresses := ephemeral_addresses s;
  kademlia := kademlia s; mdns := mdns s; next_kad_random_query := next_kad_random_query s;
  duration_to_next_kad := duration_to_next_kad s; pending_events := pending_events s;
  local_peer_id := local_peer_id s; num_connections := num_connections s;
  allow_private_ip := allow_private_ip s;
  discovery_only_if_under_num := discovery_only_if_under_num s;
  allow_non_globals_in_dht := allow_non_globals_in_dht s;
  known_external_addresses := known_external_addresses s;
  records_to_publish := r; kademlia_protocol := kademlia_protocol s;
  provider_keys_requested := p |}.

(** [self.kademlia.as_mut()] and a call. *)
Definition on_kad (f : Kad -> Kad) (s : t) : t := with_dht (f <$> kademlia s) (mdns s) s.
Definition on_mdns (f : Mdns -> Mdns) (s : t) : t := with_dht (kademlia s) (f <$> mdns s) s.

(** [push_back]. *)
Definition push_event (ev : DiscoveryOut) (s : t) : t :=
  with_events (pending_events s ++ [ev]) s.

(** *** [finish] *)

(** [now] is the time at which the first [Delay], of no duration, is made. *)
Definition finish (c : DiscoveryConfig) (now : Z) : t := {|
  permanent_addresses := cfg_permanent_addresses c;
  ephemeral_addresses := ∅;
  kademlia :=
    (fun p =>
       let kad := kad_with_config (cfg_local_peer_id c) p (cfg_kademlia_replication_factor c)
                    (cfg_kademlia_disjoint_query_paths c) in
       let kad := foldl (fun k x => kad_add_address k x.1 x.2) kad (cfg_permanent_addresses c) in
       (kad_bootstrap kad).1) <$> cfg_kademlia_protocol c;
  mdns := if cfg_enable_mdns c then mdns_new (cfg_local_peer_id c) else None;
  next_kad_random_query := if cfg_dht_random_walk c then Some now else None;
  duration_to_next_kad := 1000;
  pending_events := [];
  local_peer_id := cfg_local_peer_id c;
  num_connections := 0;
  allow_private_ip := cfg_allow_private_ip c;
  discovery_only_if_under_num := cfg_discovery_only_if_under_num c;
  allow_non_globals_in_dht := cfg_allow_non_globals_in_dht c;
  known_external_addresses := LruHashSet.new MAX_KNOWN_EXTERNAL_ADDRESSES;
  records_to_publish := ∅;
  kademlia_protocol := cfg_kademlia_protocol c;
  provider_keys_requested := ∅ |}.

(** *** Operations *)

(** [known_peers]. *)
Definition known_peers (s : t) : gset PeerId :=
  match kademlia s with
  | Some k => list_to_set (mjoin (kad_kbuckets k))
  | None => ∅
  end.

(** [add_known_address]. *)
Definition add_known_address (p : PeerId) (addr : Multiaddr) (s : t) : t :=
  let addrs := default [] (ephemeral_addresses s !! p) in
  if decide (addr ∈ addrs) then s
  else
    let s := on_kad (fun k => kad_add_address k p addr) s in
    let s := push_event (Discovered p) s in
    with_ephemeral (<[p := addrs ++ [addr]]> (ephemeral_addresses s)) s.

(** [can_add_to_dht]. *)
Definition can_add_to_dht (addr : Multiaddr) : bool :=
  match head (multiaddr_iter addr) with
  | Some (Ip4 ip) => ip4_is_global ip
  | Some (Ip6 ip) => ip6_is_global ip
  | Some (Dns _) | Some (Dns4 _) | Some (Dns6 _) => true
  | _ => false
  end.

(** [add_self_reported_address]. *)
Definition add_self_reported_address (p : PeerId) (supported_protocols : list StreamProtocol)
  (addr : Multiaddr) (s : t) : t :=
  match kademlia s with
  | None => s
  | Some k =>
      if negb (allow_non_globals_in_dht s) && negb (can_add_to_dht addr) then s
      else if (if kademlia_protocol s is Some kp
               then negb (bool_decide (kp ∈ supported_protocols)) else false) then s
      else on_kad (fun k => kad_add_address k p addr) s
  end.

(** [find_closest_peers], [get_value], [stop_providing]. *)
Definition find_closest_peers (target : PeerId) (s : t) : t :=
  on_kad (fun k => kad_get_closest_peers k target) s.
Definition get_value (key : RecordKey) (s : t) : t := on_kad (fun k => kad_get_record k key) s.
Definition stop_providing (key : RecordKey) (s : t) : t :=
  on_kad (fun k => kad_stop_providing k key) s.

(** [put_value]. *)
Definition put_value (key : RecordKey) (value : bytes) (s : t) : t :=
  match kademlia s with
  | None => s
  | Some k =>
      let '(k, ok) := kad_put_record k {| rec_key := key; rec_value := value;
                                          publisher := None; expires := None |} in
      let s := with_dht (Some k) (mdns s) s in
      if ok then s else push_event (ValuePutFailed key 0) s
  end.

(** [start_providing]. *)
Definition start_providing (key : RecordKey) (s : t) : t :=
  match kademlia s with
  | None => s
  | Some k =>
      let '(k, ok) := kad_start_providing k key in
      let s := with_dht (Some k) (mdns s) s in
      if ok then s else push_event (StartProvidingFailed key 0) s
  end.

(** [get_providers]. *)
Definition get_providers (key : RecordKey) (s : t) : t :=
  match kademlia s with
  | None => s
  | Some k =>
      let '(k, id) := kad_get_providers k key in
      let s := with_dht (Some k) (mdns s) s in
      with_queries (records_to_publish s) (<[id := key]> (provider_keys_requested s)) s
  end.

(** [store_record]; a refusal is only logged. *)
Definition store_record (key : RecordKey) (value : bytes) (pub : option PeerId) (exp : option Z)
  (s : t) : t :=
  on_kad (fun k => kad_store_put k {| rec_key := key; rec_value := value; publisher := pub;
                                      expires := exp |}) s.

(** [bootstrap]. *)
Definition bootstrap (s : t) : t * outcome string QueryId :=
  match kademlia s with
  | Some k => let '(k, r) := kad_bootstrap k in (with_dht (Some k) (mdns s) s, r)
  | None => (s, Err "Kademlia is not activated")
  end.

(** *** [handle_pending_outbound_connection] *)

(** What [retain] keeps when private addresses are not to be used. *)
Definition not_private (addr : Multiaddr) : bool :=
  match head (multiaddr_iter addr) with
  | Some (Ip4 ip) => ip4_is_global ip
  | Some (Ip6 ip) => ip6_is_global ip
  | _ => true
  end.

Definition insert_all (acc addrs : list Multiaddr) : list Multiaddr :=
  foldl lhs_insert_if_absent acc addrs.

(** The addresses the user gave for a peer. *)
Definition permanent_of (p : PeerId) (s : t) : list Multiaddr :=
  (filter (fun x => x.1 = p) (permanent_addresses s)).*2.

(** A disabled Kademlia or mDNS knows no addresses. *)
Definition handle_pending_outbound_connection (maybe_peer : option PeerId)
  (addresses : list Multiaddr) (s : t) : t * outcome string (list Multiaddr) :=
  match maybe_peer with
  | None => (s, Ok [])
  | Some p =>
      let acc := lhs_from_iter (permanent_of p s) in
      let acc := insert_all acc (default [] (ephemeral_addresses s !! p)) in
      let '(s, from_kad) :=
        match kademlia s with
        | Some k =>
            let '(k, r) := kad_pending_outbound k p addresses in
            (with_dht (Some k) (mdns s) s, r)
        | None => (s, Ok [])
        end in
      match from_kad with
      | Err e => (s, Err e)
      | Panic w => (s, Panic w)
      | Ok from_kad =>
          let '(s, from_mdns) :=
            match mdns s with
            | Some m =>
                let '(m, r) := mdns_pending_outbound m p addresses in
                (with_dht (kademlia s) (Some m) s, r)
            | None => (s, Ok [])
            end in
          match from_mdns with
          | Err e => (s, Err e)
          | Panic w => (s, Panic w)
          | Ok from_mdns =>
              let to_filter := from_kad ++ from_mdns in
              let to_filter := if allow_private_ip s then to_filter
                               else filter (fun a => not_private a = true) to_filter in
              (s, Ok (insert_all acc to_filter))
          end
      end
  end.

(** *** [on_swarm_event] *)

(** The address a confirmed external address is known under, unless it is that of
    another peer. *)
Definition confirmed_address (addr : Multiaddr) (s : t) : option Multiaddr :=
  match last (multiaddr_iter addr) with
  | Some (P2p p) => if decide (p = local_peer_id s) then Some addr else None
  | _ => Some (multiaddr_push addr (P2p (local_peer_id s)))
  end.

(** [first] is the order of the set of external addresses. *)
Definition on_swarm_event (first : gset Multiaddr -> option Multiaddr) (ev : FromSwarm) (s : t) :
  outcome Empty_set t :=
  let to_kad := on_kad (fun k => kad_on_swarm_event k ev) in
  let to_mdns := on_mdns (fun m => mdns_on_swarm_event m ev) in
  match ev with
  | ConnectionEstablished _ =>
      if num_connections s + 1 <=? u64_max
      then Ok (to_kad (with_connections (num_connections s + 1) s))
      else Panic "attempt to add with overflow"
  | ConnectionClosed _ =>
      if 1 <=? num_connections s
      then Ok (to_kad (with_connections (num_connections s - 1) s))
      else Panic "attempt to subtract with overflow"
  | DialFailed peer error =>
      let s :=
        match peer, error with
        | Some p, TransportErrors failed =>
            match ephemeral_addresses s !! p with
            | Some addrs =>
                match filter (fun a => a ∉ failed) addrs with
                | [] => with_ephemeral (delete p (ephemeral_addresses s)) s
                | rest => with_ephemeral (<[p := rest]> (ephemeral_addresses s)) s
                end
            | None => s
            end
        | _, _ => s
        end in
      Ok (to_kad s)
  | ListenerClosed | ListenFailure | ListenerError | ExternalAddrExpired | NewListener
  | ExpiredListenAddr | NewExternalAddrCandidate | AddressChange => Ok (to_kad s)
  | NewListenAddr | NewExternalAddrOfPeer | OtherFromSwarm => Ok (to_mdns (to_kad s))
  | ExternalAddrConfirmed addr =>
      match confirmed_address addr s with
      | None => Ok s
      | Some address =>
          let s := if can_add_to_dht address
                   then with_external
                          (LruHashSet.insert first address (known_external_addresses s)).1 s
                   else s in
          Ok (to_kad s)
      end
  end.

(** *** [poll] *)

(** What a poll observes: the successive clock readings of the loop that waits for
    the random walk, each with the random peer id it would use, and what the network
    feeds to the successive polls of Kademlia and mDNS. *)
Record obs : Type := {
  clock : list (Z * PeerId);
  kad_inputs : list kad_input;
  mdns_inputs : list mdns_input;
}.

(** The loop of the random walk; true when a query has been started. *)
Fixpoint random_walk (clock : list (Z * PeerId)) (s : t) : t * bool :=
  match kademlia s, next_kad_random_query s, clock with
  | Some _, Some next, (now, random_peer_id) :: clock =>
      if next <=? now then
        let actually_started := num_connections s <? discovery_only_if_under_num s in
        let s := if actually_started
                 then on_kad (fun k => kad_get_closest_peers k random_peer_id) s else s in
        let s := with_walk (now + duration_to_next_kad s)
                   (Z.min (duration_to_next_kad s * 2) 60000) s in
        if actually_started then (s, true) else random_walk clock s
      else (s, false)
  | _, _, _ => (s, false)
  end.

(** [stats.duration().unwrap_or_default()]. *)
Definition took (st : QueryStats) : Z := default 0 (duration st).

(** What the result of a query makes of the state and emits; nothing is emitted when
    the loop goes on. *)

Definition on_closest_peers (key : bytes) (peers : list (PeerId * list Multiaddr))
  (stats : QueryStats) (s : t) : t * option DiscoveryOut :=
  match peer_from_bytes key with
  | None => (s, None)
  | Some target =>
      (s, Some (match peers with
                | [] => ClosestPeersNotFound target (took stats)
                | _ => ClosestPeersFound target peers (took stats)
                end))
  end.

(** The record is kept until the query finishes; the query is ended when more than
    four peers had it. *)
Definition on_found_record (id : QueryId) (by_peer : option PeerId) (r : KadRecord)
  (stats : QueryStats) (s : t) : t * option DiscoveryOut :=
  let s := if GET_RECORD_REDUNDANCY_FACTOR <? num_successes stats
           then on_kad (fun k => kad_finish_query k id) s else s in
  (with_queries (<[id := r]> (records_to_publish s)) (provider_keys_requested s) s,
   Some (ValueFound by_peer r (took stats))).

(** The record is put to the peers that should have it and have not. *)
Definition on_finished_record (id : QueryId) (cache_candidates : list PeerId) (s : t) :
  t * option DiscoveryOut :=
  match records_to_publish s !! id with
  | None => (s, None)
  | Some r =>
      let s := with_queries (delete id (records_to_publish s)) (provider_keys_requested s) s in
      (match cache_candidates with
       | [] => s
       | _ => on_kad (fun k => kad_put_record_to k r cache_candidates) s
       end, None)
  end.

Definition on_finished_providers (id : QueryId) (stats : QueryStats) (s : t) :
  t * option DiscoveryOut :=
  match provider_keys_requested s !! id with
  | Some key =>
      (with_queries (records_to_publish s) (delete id (provider_keys_requested s)) s,
       Some (NoMoreProviders key (took stats)))
  | None => (s, None)
  end.

Definition on_providers_timeout (id : QueryId) (key : RecordKey) (stats : QueryStats) (s : t) :
  t * option DiscoveryOut :=
  (with_queries (records_to_publish s) (delete id (provider_keys_requested s)) s,
   Some (ProvidersNotFound key (took stats))).

(** A record that was not found, for whatever reason. *)
Definition record_not_found (key : RecordKey) (stats : QueryStats) : DiscoveryOut :=
  ValueNotFound key (took stats).

Definition found_providers (key : RecordKey) (providers : gset PeerId) (stats : QueryStats) :
  DiscoveryOut := ProvidersFound key providers (took stats).

(** The result of putting a record. *)
Definition put_result (key : RecordKey) (ok : bool) (stats : QueryStats) : DiscoveryOut :=
  if ok then ValuePut key (took stats) else ValuePutFailed key (took stats).

(** The result of announcing that this node provides a key. *)
Definition providing_result (key : RecordKey) (ok : bool) (stats : QueryStats) : DiscoveryOut :=
  if ok then StartedProviding key (took stats) else StartProvidingFailed key (took stats).

(** One event of Kademlia. *)
Definition on_kad_event (ev : KademliaEvent) (s : t) : t * option DiscoveryOut :=
  match ev with
  | RoutingUpdated p => (s, Some (Discovered p))
  | KadUnroutablePeer p => (s, Some (UnroutablePeer p))
  | KadPutRecord (Some r) =>
      (s, Some (PutRecordRequest (rec_key r) (rec_value r) (publisher r) (expires r)))
  | GetClosestPeers key peers _ stats => on_closest_peers key peers stats s
  | FoundRecord id by_peer r stats => on_found_record id by_peer r stats s
  | FinishedRecord id cache_candidates _ => on_finished_record id cache_candidates s
  | GetRecordFailed _ key stats => (s, Some (record_not_found key stats))
  | FoundProviders _ key providers stats => (s, Some (found_providers key providers stats))
  | FinishedProviders id stats => on_finished_providers id stats s
  | GetProvidersTimeout id key stats => on_providers_timeout id key stats s
  | PutRecordDone key ok stats => (s, Some (put_result key ok stats))
  | StartProvidingDone key ok stats => (s, Some (providing_result key ok stats))
  | KadPutRecord None | OtherInboundRequest | RoutablePeer | PendingRoutablePeer
  | RepublishRecordDone | BootstrapProgressed | OtherQuery | ModeChanged => (s, None)
  end.

Inductive poll_result : Type :=
  | Pending (s : t)
  | Ready (s : t) (ev : DiscoveryOut)
  | Passed (s : t)
      (** an event of Kademlia or mDNS that is not for this behaviour. *)
  | Panicked (why : string).

Fixpoint poll_kad (inputs : list kad_input) (s : t) : poll_result :=
  match inputs, kademlia s with
  | x :: inputs, Some k =>
      let '(k, out) := kad_poll k x in
      let s := with_dht (Some k) (mdns s) s in
      match out with
      | None => Pending s
      | Some KadPassed => Passed s
      | Some (KadEvent ev) =>
          match on_kad_event ev s with
          | (s, Some ev) => Ready s ev
          | (s, None) => poll_kad inputs s
          end
      end
  | _, _ => Pending s
  end.

(** [self.pending_events.pop_front()]. *)
Definition pop_front (s : t) : option (DiscoveryOut * t) :=
  match pending_events s with
  | [] => None
  | ev :: evs => Some (ev, with_events evs s)
  end.

Fixpoint poll_mdns (inputs : list mdns_input) (s : t) : poll_result :=
  match inputs, mdns s with
  | x :: inputs, Some m =>
      let '(m, out) := mdns_poll m x in
      let s := with_dht (kademlia s) (Some m) s in
      match out with
      | None => Pending s
      | Some MdnsPassed => Passed s
      | Some MdnsDial => Panicked "mDNS never dials!"
      | Some MdnsExpired => poll_mdns inputs s
      | Some (MdnsDiscovered l) =>
          if discovery_only_if_under_num s <=? num_connections s then poll_mdns inputs s
          else
            let s := with_events (pending_events s ++ ((fun x => Discovered x.1) <$> l)) s in
            match pop_front s with
            | Some (ev, s) => Ready s ev
            | None => poll_mdns inputs s
            end
      end
  | _, _ => Pending s
  end.

Definition poll (ob : obs) (s : t) : poll_result :=
  match pop_front s with
  | Some (ev, s) => Ready s ev
  | None =>
      match random_walk (clock ob) s with
      | (s, true) => Ready s RandomKademliaStarted
      | (s, false) =>
          match poll_kad (kad_inputs ob) s with
          | Pending s => poll_mdns (mdns_inputs ob) s
          | r => r
          end
      end
  end.

(** ** Addresses to dial *)

(** The addresses Kademlia and mDNS know for a peer. *)
Definition reported (p : PeerId) (addresses : list Multiaddr) (s : t) : list Multiaddr :=
  (if kademlia s is Some k then
     if (kad_pending_outbound k p addresses).2 is Ok l then l else [] else []) ++
  (if mdns s is Some m then
     if (mdns_pending_outbound m p addresses).2 is Ok l then l else [] else []).

Section dialling.
Context `{!LinkedHashSetLaws}.

Lemma insert_all_spec l acc :
  NoDup acc ->
  exists new, insert_all acc l = acc ++ new /\ NoDup (acc ++ new) /\
    forall a, a ∈ new <-> a ∈ l /\ a ∉ acc.
Proof.
  revert acc. induction l as [|x l IH]; intros acc Hacc.
  { exists []. rewrite app_nil_r. set_solver. }
  change (insert_all acc (x :: l)) with (insert_all (lhs_insert_if_absent acc x) l).
  destruct (decide (x ∈ acc)) as [Hx|Hx].
  - rewrite lhs_insert_present by done. destruct (IH acc Hacc) as (new & -> & Hnd & Hnew).
    exists new. split; [done|]. split; [done|]. intros a. rewrite Hnew, elem_of_cons. naive_solver.
  - rewrite lhs_insert_absent by done.
    destruct (IH (acc ++ [x])) as (new & -> & Hnd & Hnew).
    { apply NoDup_app. split; [done|]. split; [|apply NoDup_singleton].
      intros y Hy ->%list_elem_of_singleton. done. }
    exists (x :: new). rewrite <- app_assoc in *. split; [done|]. split; [done|].
    intros a. rewrite !elem_of_cons, Hnew, elem_of_app, list_elem_of_singleton.
    destruct (decide (a = x)); naive_solver.
Qed.

End dialling.

(** ** Runs *)

Inductive op : Type :=
  | AddKnownAddress (p : PeerId) (addr : Multiaddr)
  | AddSelfReportedAddress (p : PeerId) (protocols : list StreamProtocol) (addr : Multiaddr)
  | FindClosestPeers (target : PeerId)
  | GetValue (key : RecordKey)
  | PutValue (key : RecordKey) (value : bytes)
  | StartProviding (key : RecordKey)
  | StopProviding (key : RecordKey)
  | GetProviders (key : RecordKey)
  | StoreRecord (key : RecordKey) (value : bytes) (pub : option PeerId) (exp : option Z)
  | Bootstrap
  | PendingOutbound (maybe_peer : option PeerId) (addresses : list Multiaddr)
  | OnSwarmEvent (first : gset Multiaddr -> option Multiaddr) (ev : FromSwarm)
  | Poll (ob : obs).

(** The state and the events that were emitted. *)
Definition step (o : op) (s : t) : outcome Empty_set (t * list DiscoveryOut) :=
  match o with
  | AddKnownAddress p addr => Ok (add_known_address p addr s, [])
  | AddSelfReportedAddress p ps addr => Ok (add_self_reported_address p ps addr s, [])
  | FindClosestPeers p => Ok (find_closest_peers p s, [])
  | GetValue k => Ok (get_value k s, [])
  | PutValue k v => Ok (put_value k v s, [])
  | StartProviding k => Ok (start_providing k s, [])
  | StopProviding k => Ok (stop_providing k s, [])
  | GetProviders k => Ok (get_providers k s, [])
  | StoreRecord k v pub exp => Ok (store_record k v pub exp s, [])
  | Bootstrap => Ok ((bootstrap s).1, [])
  | PendingOutbound p addrs => Ok ((handle_pending_outbound_connection p addrs s).1, [])
  | OnSwarmEvent first ev => s ← on_swarm_event first ev s; Ok (s, [])
  | Poll ob =>
      match poll ob s with
      | Pending s | Passed s => Ok (s, [])
      | Ready s ev => Ok (s, [ev])
      | Panicked w => Panic w
      end
  end.

Fixpoint run (os : list op) (s : t) : outcome Empty_set (t * list DiscoveryOut) :=
  match os with
  | [] => Ok (s, [])
  | o :: os =>
      '(s, a) ← step o s;
      '(s, a') ← run os s;
      Ok (s, a ++ a')
  end.

(** ** The invariant *)

Record inv (s : t) : Prop := {
  inv_ephemeral : map_Forall (fun _ l => l <> [] /\ NoDup l) (ephemeral_addresses s);
  inv_walk : 1000 <= duration_to_next_kad s <= 60000;
  inv_external : LruHashSet.bounded (known_external_addresses s);
  inv_connections : 0 <= num_connections s <= u64_max;
}.

(** What most operations leave alone. *)
Definition calm (s s' : t) : Prop :=
  ephemeral_addresses s' = ephemeral_addresses s /\
  num_connections s' = num_connections s /\
  known_external_addresses s' = known_external_addresses s /\
  (1000 <= duration_to_next_kad s <= 60000 -> 1000 <= duration_to_next_kad s' <= 60000).

#[local] Instance calm_preorder : PreOrder calm.
Proof.
  split; [intros s; unfold calm; by split_and!|].
  intros a b c (E1 & N1 & L1 & D1) (E2 & N2 & L2 & D2). unfold calm.
  rewrite E2, N2, L2. split_and!; auto.
Qed.

Lemma calm_inv s s' : calm s s' -> inv s -> inv s' /\ num_connections s' = num_connections s.
Proof.
  intros (E & N & L & D) []. split; [|done].
  split; [by rewrite E|auto|by rewrite L|by rewrite N].
Qed.

Lemma with_walk_calm next d s :
  1000 <= d <= 60000 -> calm s (with_walk next d s).
Proof. intros Hd. unfold calm. by split_and!. Qed.

(** Settles that an operation is calm by cases. *)
Local Ltac by_cases := repeat case_match; simplify_eq; try done; unfold calm; by split_and!.

Lemma random_walk_calm clock s : calm s (random_walk clock s).1.
Proof.
  revert s. induction clock as [|[now r] clock IH]; intros s; cbn;
    destruct (kademlia s), (next_kad_random_query s); try done.
  case_match; [|done].
  set (s1 := with_walk _ _ _). assert (calm s s1) as Hs1.
  { split; [|split; [|split]]; try (subst s1; by case_match).
    intros Hd. subst s1. cbn. case_match; cbn; lia. }
  case_match; [done|]. etrans; [exact Hs1|]. apply IH.
Qed.

Lemma on_kad_event_calm ev s : calm s (on_kad_event ev s).1.
Proof.
  destruct ev; cbn; unfold on_closest_peers, on_found_record, on_finished_record,
    on_finished_providers, on_providers_timeout; by_cases.
Qed.

Definition result_calm (s : t) (r : poll_result) : Prop :=
  match r with
  | Pending s' | Ready s' _ | Passed s' => calm s s'
  | Panicked _ => False
  end.

Lemma result_calm_trans s s1 r : calm s s1 -> result_calm s1 r -> result_calm s r.
Proof. intros Hs. destruct r; cbn; try done; by etrans. Qed.

Lemma poll_kad_calm inputs s : result_calm s (poll_kad inputs s).
Proof.
  revert s. induction inputs as [|x inputs IH]; intros s; cbn; [done|].
  destruct (kademlia s) as [k|]; [|done]. destruct (kad_poll k x) as [k' [[ev|]|]]; [|done..].
  pose proof (on_kad_event_calm ev (with_dht (Some k') (mdns s) s)) as Hc.
  destruct (on_kad_event _ _) as [s1 [e|]]; [done|]. by eapply result_calm_trans.
Qed.

(** [libp2p]'s mDNS does not dial. *)
Definition mdns_never_dials : Prop := forall m x, (mdns_poll m x).2 <> Some MdnsDial.

Context (no_dial : mdns_never_dials).

Lemma poll_mdns_calm inputs s : result_calm s (poll_mdns inputs s).
Proof.
  revert s. induction inputs as [|x inputs IH]; intros s; cbn; [done|].
  destruct (mdns s) as [m|]; [|done]. pose proof (no_dial m x) as Hd.
  destruct (mdns_poll m x) as [m' [[l| | |]|]]; try done;
    [|eapply result_calm_trans; [|apply IH]; by_cases].
  case_match; [eapply result_calm_trans; [|apply IH]; by_cases|].
  unfold pop_front. destruct (pending_events (with_events _ _)) eqn:He; [|by_cases].
  eapply result_calm_trans; [|apply IH]. by_cases.
Qed.

Lemma discovery_poll_calm ob s : result_calm s (poll ob s).
Proof.
  unfold poll, pop_front. destruct (pending_events s); [|done].
  pose proof (random_walk_calm (clock ob) s) as Hw.
  destruct (random_walk _ _) as [s1 []]; [done|]. cbn in Hw.
  pose proof (poll_kad_calm (kad_inputs ob) s1) as Hk.
  destruct (poll_kad _ _); cbn in Hk |- *; try done; try (by etrans).
  eapply result_calm_trans, poll_mdns_calm. by etrans.
Qed.

Lemma pending_outbound_calm p addrs s : calm s (handle_pending_outbound_connection p addrs s).1.
Proof.
  unfold handle_pending_outbound_connection. destruct p as [p|]; [|done].
  destruct (kademlia s) as [k|]; [destruct (kad_pending_outbound _ _ _) as [k' [lk|e|w]]|];
    cbn; try done; destruct (mdns s) as [m|]; cbn; try done;
    destruct (mdns_pending_outbound _ _ _) as [m' [lm|e|w]]; done.
Qed.

Lemma add_known_address_inv p addr s :
  inv s -> inv (add_known_address p addr s) /\
  num_connections (add_known_address p addr s) = num_connections s.
Proof.
  intros Hi. unfold add_known_address. case_decide as Hin; [done|]. split; [|done].
  destruct Hi as [He Hw Hl Hc]. split; cbn; try done.
  apply map_Forall_insert_2; [|done]. split; [by destruct (default _ _)|].
  apply NoDup_app. split; [|split; [|apply NoDup_singleton]].
  - destruct (ephemeral_addresses s !! p) eqn:Hp; cbn; [by eapply He|constructor].
  - intros y Hy ->%list_elem_of_singleton. done.
Qed.

(** What an event of the swarm adds to the number of connections. *)
Definition connection_change (o : op) : Z :=
  match o with
  | OnSwarmEvent _ (ConnectionEstablished _) => 1
  | OnSwarmEvent _ (ConnectionClosed _) => -1
  | _ => 0
  end.

Lemma on_swarm_event_inv first ev s :
  LruHashSet.iteration first -> inv s ->
  0 <= num_connections s + connection_change (OnSwarmEvent first ev) <= u64_max ->
  exists s', on_swarm_event first ev s = Ok s' /\ inv s' /\
    num_connections s' = num_connections s + connection_change (OnSwarmEvent first ev).
Proof.
  intros Hf [He Hw Hl Hc] Hn. destruct ev; cbn [on_swarm_event connection_change] in *;
    try (rewrite Z.add_0_r; eexists; split; [done|]; split; [by split|done]);
    try (rewrite (proj2 (Z.leb_le _ _)) by lia; eexists; split; [done|]; split; [by split|done]).
  - rewrite Z.add_0_r. eexists. split; [done|].
    destruct peer as [p|], error as [failed|]; try (split; [by split|done]).
    destruct (ephemeral_addresses s !! p) as [addrs|] eqn:Hp; [|split; [by split|done]].
    destruct (filter _ addrs) as [|x rest] eqn:Hx; (split; [|done]); split; try done; cbn.
    + by apply map_Forall_delete.
    + apply map_Forall_insert_2; [|done]. split; [done|]. rewrite <- Hx.
      apply NoDup_filter. by eapply He.
  - rewrite Z.add_0_r. destruct (confirmed_address addr s);
      [|eexists; split; [done|]; split; [by split|done]].
    eexists. split; [done|]. case_match; [|split; [by split|done]]. split; [|done]. split; try done. cbn.
    destruct (LruHashSet.insert _ _ _) as [l' b] eqn:Hl'. cbn.
    eapply LruHashSet.insert_bounded in Hl' as [? _]; done.
Qed.

(** The number of connections stays a [u64]. *)
Fixpoint connections_ok (n : Z) (os : list op) : Prop :=
  match os with
  | [] => True
  | o :: os =>
      0 <= n + connection_change o <= u64_max /\ connections_ok (n + connection_change o) os
  end.

Definition iterates (o : op) : Prop :=
  match o with OnSwarmEvent first _ => LruHashSet.iteration first | _ => True end.

Definition quiet (o : op) : bool :=
  match o with AddKnownAddress _ _ | OnSwarmEvent _ _ => false | _ => true end.

Lemma step_calm o s :
  quiet o = true -> exists s' evs, step o s = Ok (s', evs) /\ calm s s'.
Proof.
  destruct o; cbn [step]; try done; intros _;
    try (do 2 eexists; split; [done|]); try (by apply pending_outbound_calm).
  - unfold add_self_reported_address. by_cases.
  - by_cases.
  - by_cases.
  - unfold put_value. by_cases.
  - unfold start_providing. by_cases.
  - by_cases.
  - unfold get_providers. by_cases.
  - by_cases.
  - unfold bootstrap. by_cases.
  - pose proof (discovery_poll_calm ob s) as Hp. destruct (poll ob s); cbn in Hp; eauto; done.
Qed.

Lemma discovery_step_inv o s :
  inv s -> iterates o -> 0 <= num_connections s + connection_change o <= u64_max ->
  exists s' evs, step o s = Ok (s', evs) /\ inv s' /\
    num_connections s' = num_connections s + connection_change o.
Proof.
  intros Hi Hit Hn.
  destruct (quiet o) eqn:Hc.
  { destruct (step_calm o s Hc) as (s' & evs & -> & Hs). do 2 eexists. split; [done|].
    apply calm_inv in Hs as [Hi' ->]; [|done]. split; [done|].
    destruct o; cbn; try done; lia. }
  destruct o; cbn [step] in *; try discriminate Hc.
  - do 2 eexists. split; [done|]. destruct (add_known_address_inv p addr s Hi) as [? ->].
    split; [done|]. cbn. lia.
  - destruct (on_swarm_event_inv first ev s Hit Hi Hn) as (s' & -> & ? & ?). cbn. eauto.
Qed.

Lemma discovery_run_inv os s :
  Forall iterates os -> connections_ok (num_connections s) os -> inv s ->
  exists s' evs, run os s = Ok (s', evs) /\ inv s' /\
    num_connections s' = num_connections s + foldr (fun o n => connection_change o + n) 0 os.
Proof.
  intros Hit. revert s. induction Hit as [|o os Ho _ IH]; intros s; cbn.
  { intros _ Hi. rewrite Z.add_0_r. eauto. }
  intros [Hn Hos] Hi. destruct (discovery_step_inv o s Hi Ho Hn) as (s1 & e1 & -> & Hi1 & Hn1).
  cbn. rewrite <- Hn1 in Hos. destruct (IH s1 Hos Hi1) as (s2 & e2 & -> & Hi2 & Hn2).
  cbn. do 2 eexists. split; [done|]. split; [done|]. lia.
Qed.

Lemma finish_inv c now : inv (finish c now) /\ num_connections (finish c now) = 0.
Proof.
  split; [|done]. split; cbn.
  - apply map_Forall_empty.
  - lia.
  - split; cbn; [done|]. rewrite size_empty. done.
  - done.
Qed.

(** C31: discovery never panics and keeps its state well formed, whatever it is
    asked and whatever the network does, as long as no connection is closed that
    was not established: it counts the open connections, a peer whose last address
    failed is forgotten and no address is kept twice, the walk on the hash table
    waits between one second and a minute, and the cache of external addresses stays
    within its bound. *)
Theorem discovery_invariant c now os :
  Forall iterates os -> connections_ok 0 os ->
  exists s evs, run os (finish c now) = Ok (s, evs) /\ inv s /\
    num_connections s = foldr (fun o n => connection_change o + n) 0 os.
Proof.
  intros Hit Hok. destruct (finish_inv c now) as [Hi Hn]. rewrite <- Hn in Hok.
  destruct (discovery_run_inv os _ Hit Hok Hi) as (s & evs & -> & Hs & Hc).
  rewrite Hn in Hc. eauto.
Qed.

(** ** Events *)

(** the events discovery has queued come out one per poll, in the order they
    were queued, before anything else happens; an address that is added queues one
    [Discovered] for its peer, hands the address to Kademlia and keeps it after the
    others, unless it is known, in which case nothing happens. *)
Theorem events_in_order obs s :
  length obs = length (pending_events s) ->
  run (Poll <$> obs) s = Ok (with_events [] s, pending_events s) /\
  forall p addr,
    let addrs := default [] (ephemeral_addresses s !! p) in
    let s' := add_known_address p addr s in
    if decide (addr ∈ addrs) then s' = s
    else pending_events s' = pending_events s ++ [Discovered p] /\
      ephemeral_addresses s' = <[p := addrs ++ [addr]]> (ephemeral_addresses s) /\
      kademlia s' = (fun k => kad_add_address k p addr) <$> kademlia s.
Proof.
  intros Hl. split; [|intros p addr; cbn; unfold add_known_address; by case_decide].
  remember (pending_events s) as evs eqn:He. revert s He obs Hl.
  induction evs as [|ev evs IH]; intros s He [|ob obs] Hl; try discriminate Hl; cbn.
  { destruct s; cbn in *; by subst. }
  unfold poll, pop_front. rewrite <- He. cbn.
  rewrite (IH (with_events evs s)); [by destruct s|done|by injection Hl].
Qed.

(** ** The random walk *)

Lemma random_walk_events clock s : pending_events (random_walk clock s).1 = pending_events s.
Proof.
  revert s. induction clock as [|[now r] clock IH]; intros s; cbn;
    destruct (kademlia s), (next_kad_random_query s); try done.
  case_match; [|done]. case_match; [done|]. by rewrite IH.
Qed.

Lemma poll_kad_events inputs s s' :
  poll_kad inputs s = Pending s' -> pending_events s' = pending_events s.
Proof.
  revert s. induction inputs as [|x inputs IH]; intros s; cbn; [by intros [= <-]|].
  destruct (kademlia s) as [k|]; [|by intros [= <-]].
  destruct (kad_poll k x) as [k' [[ev|]|]]; [|done|by intros [= <-]].
  destruct (on_kad_event _ _) as [s1 [e|]] eqn:He; [done|]. intros ->%IH.
  destruct ev; cbn in He; unfold on_closest_peers, on_found_record, on_finished_record, on_finished_providers,
    on_providers_timeout, put_result, providing_result in He; repeat case_match; by simplify_eq.
Qed.

Lemma random_walk_limit clock s s' :
  random_walk clock s = (s', true) -> num_connections s < discovery_only_if_under_num s.
Proof.
  revert s. induction clock as [|[now r] clock IH]; intros s; cbn;
    destruct (kademlia s), (next_kad_random_query s); try done.
  case_match; [|done].
  destruct (Z.ltb_spec (num_connections s) (discovery_only_if_under_num s)); [done|].
  intros Hs%IH. exact Hs.
Qed.

Lemma poll_kad_no_walk inputs s s' : poll_kad inputs s <> Ready s' RandomKademliaStarted.
Proof.
  revert s. induction inputs as [|x inputs IH]; intros s; cbn; [done|].
  destruct (kademlia s) as [k|]; [|done]. destruct (kad_poll k x) as [k' [[ev|]|]]; [|done..].
  destruct (on_kad_event _ _) as [s1 [e|]] eqn:He; [|apply IH].
  intros [= -> ->]. destruct ev; cbn in He; unfold on_closest_peers, on_found_record, on_finished_record, on_finished_providers,
    on_providers_timeout, put_result, providing_result in He; repeat case_match; simplify_eq.
Qed.

Lemma poll_mdns_no_walk inputs s s' :
  pending_events s = [] -> poll_mdns inputs s <> Ready s' RandomKademliaStarted.
Proof.
  revert s. induction inputs as [|x inputs IH]; intros s Hs; cbn; [done|].
  destruct (mdns s) as [m|]; [|done].
  destruct (mdns_poll m x) as [m' [[l| | |]|]]; try done; [|by apply IH].
  case_match; [by apply IH|]. unfold pop_front. cbn. rewrite Hs. cbn.
  destruct l as [|y l]; cbn; [by apply IH|]. congruence.
Qed.

(** when nothing is queued, a poll starts a random query exactly when Kademlia
    and the walk are on, the delay is over, and there are fewer connections than the
    limit; the next query is due after the current delay, which doubles up to a
    minute.  At the limit no query is ever started. *)
Theorem random_walk_paced ob s :
  pending_events s = [] ->
  (forall s', poll ob s = Ready s' RandomKademliaStarted ->
     num_connections s < discovery_only_if_under_num s) /\
  (forall k next now r rest,
     kademlia s = Some k -> next_kad_random_query s = Some next -> clock ob = (now, r) :: rest ->
     next <= now -> num_connections s < discovery_only_if_under_num s ->
     poll ob s = Ready (with_walk (now + duration_to_next_kad s)
                          (Z.min (duration_to_next_kad s * 2) 60000)
                          (with_dht (Some (kad_get_closest_peers k r)) (mdns s) s))
                   RandomKademliaStarted) /\
  (forall next now r rest,
     next_kad_random_query s = Some next -> clock ob = (now, r) :: rest -> now < next ->
     random_walk (clock ob) s = (s, false)).
Proof.
  intros Hp. unfold poll, pop_front. rewrite Hp. split_and!.
  - intros s'. pose proof (random_walk_events (clock ob) s) as He. rewrite Hp in He.
    destruct (random_walk _ _) as [s1 []] eqn:Hs1; [by apply random_walk_limit in Hs1|].
    intros Hr. exfalso. revert Hr. pose proof (poll_kad_no_walk (kad_inputs ob) s1) as Hk.
    destruct (poll_kad _ _) as [s2| | |] eqn:H2; try naive_solver.
    apply poll_mdns_no_walk. by rewrite (poll_kad_events _ _ _ H2).
  - intros k next now r rest Hk Hn Hc Hle Hlt. rewrite Hc. cbn. rewrite Hk, Hn.
    rewrite (proj2 (Z.leb_le _ _)) by done. rewrite (proj2 (Z.ltb_lt _ _)) by done.
    unfold on_kad. by rewrite Hk.
  - intros next now r rest Hn Hc Hlt. rewrite Hc. cbn. rewrite Hn.
    destruct (kademlia s); [|done]. by rewrite (proj2 (Z.leb_gt _ _)).
Qed.

(** ** Queries *)

(** A query for providers is answered for the key it was asked for, and
    forgotten, when it finishes or times out; a record found for a query is
    published to the peers without it when the query finishes, and forgotten; but
    when the query fails after a record was found, which a timeout does, the record
    is kept for ever. *)
Theorem queries_tracked s id :
  (forall key k k', kademlia s = Some k -> kad_get_providers k key = (k', id) ->
     forall stats, exists s',
       on_kad_event (FinishedProviders id stats) (get_providers key s) =
         (s', Some (NoMoreProviders key (took stats))) /\
       provider_keys_requested s' = delete id (provider_keys_requested s)) /\
  (forall by_peer r stats1 s1 e1,
     on_kad_event (FoundRecord id by_peer r stats1) s = (s1, e1) ->
     e1 = Some (ValueFound by_peer r (took stats1)) /\
     (forall p ps stats2, on_kad_event (FinishedRecord id (p :: ps) stats2) s1 =
        (on_kad (fun k => kad_put_record_to k r (p :: ps))
           (with_queries (delete id (records_to_publish s)) (provider_keys_requested s1) s1),
         None)) /\
     (forall key stats2, on_kad_event (GetRecordFailed id key stats2) s1 =
        (s1, Some (ValueNotFound key (took stats2))) /\ records_to_publish s1 !! id = Some r)).
Proof.
  split.
  - intros key k k' Hk Hg stats. unfold get_providers. rewrite Hk, Hg.
    cbn [on_kad_event]. unfold on_finished_providers.
    cbn [with_queries provider_keys_requested]. rewrite lookup_insert_eq.
    eexists. split; [done|]. cbn. by rewrite delete_insert_eq.
  - intros by_peer r stats1 s1 e1. cbn [on_kad_event]. unfold on_found_record. intros [= <- <-]. split; [done|]. split.
    + intros p ps stats2. cbn [on_kad_event]. unfold on_finished_record.
      cbn [with_queries records_to_publish].
      rewrite lookup_insert_eq, delete_insert_eq. by case_match.
    + intros key stats2. cbn. by rewrite lookup_insert_eq.
Qed.
End discovery.
End Discovery.
