(* ===== verification/RequestResponses.v ===== *)
(** * Requests and responses

    [RequestResponsesBehaviour] of
    [crates/client/network/src/request_responses.rs]: one [libp2p] behaviour per
    protocol, the callers that wait for an answer, and the requests of remote
    peers that wait for one.

    The behaviour of a single protocol is [libp2p]'s
    ([request_response::Behaviour]) and an interface here, [Inner].  One turn of
    the loop in [poll] takes what it observes (the tick of the periodic check,
    the responses that have become ready, what the network feeds to the protocols)
    and returns the actions it takes in order. *)

From Stdlib Require Import ZArith Lia Strings.Byte.
From stdpp Require Import base gmap strings numbers list.
From S2P Require Import Prelude Wire Messages Codec.

Local Open Scope Z_scope.

Abbreviation ProtocolName := string.

(** ** The interface of [libp2p::request_response::Behaviour] *)

(** Its events. *)
Inductive InnerEvent `{PeerIds} : Type :=
  | InboundMessage (peer : PeerId) (request_id : Z) (request : WireMessage) (channel : nat)
  | ResponseMessage (peer : PeerId) (request_id : Z) (response : option bytes)
  | OutboundFailed (peer : PeerId) (request_id : Z) (error : OutboundFailure)
  | InboundFailed (peer : PeerId) (request_id : Z) (error : InboundFailure)
  | ResponseSent (peer : PeerId) (request_id : Z)
  | PassThrough.
      (** [ToSwarm::Dial] and the like. *)

Class InnerBehaviour `{PeerIds} : Type := {
  Inner : Type;
  (** What the network feeds to a poll. *)
  input : Type;
  (** [Behaviour::with_codec]: the codec, the names, whether requests of remote
      peers are accepted, the timeout. *)
  inner_new : GenericCodec.t -> list ProtocolName -> bool -> Z -> Inner;
  is_connected : Inner -> PeerId -> bool;
  inner_send_request : Inner -> PeerId -> WireMessage -> Inner * Z;
  (** [send_response]: false when the channel is gone. *)
  inner_send_response : Inner -> nat -> bytes -> Inner * bool;
  (** One [poll]: [None] stands for [Poll::Pending]. *)
  inner_poll : Inner -> input -> Inner * option InnerEvent;
}.

(** What is documented of it: the id of an outbound request is new; an inbound
    request that was announced ends in exactly one [ResponseSent] or
    [InboundFailed]; a behaviour with outbound support only announces none.
    [issued] are the ids given out, [live] the inbound requests that have not
    ended. *)
Class InnerLaws `{InnerBehaviour} : Type := {
  issued : Inner -> gset Z;
  live : Inner -> gset Z;
  accepts : Inner -> bool;
  new_issued c names full t :
    issued (inner_new c names full t) = ∅ /\ live (inner_new c names full t) = ∅ /\
    accepts (inner_new c names full t) = full;
  send_issued b p m b' id :
    inner_send_request b p m = (b', id) ->
    id ∉ issued b /\ issued b' = {[id]} ∪ issued b /\ live b' = live b /\
    accepts b' = accepts b;
  respond_issued b c m b' ok :
    inner_send_response b c m = (b', ok) ->
    issued b' = issued b /\ live b' = live b /\ accepts b' = accepts b;
  poll_issued b x b' ev :
    inner_poll b x = (b', ev) -> issued b' = issued b /\ accepts b' = accepts b;
  poll_live b x b' ev :
    inner_poll b x = (b', ev) ->
    match ev with
    | Some (InboundMessage _ id _ _) =>
        accepts b = true /\ id ∉ live b /\ live b' = {[id]} ∪ live b
    | Some (ResponseSent _ id) => id ∈ live b /\ live b' = live b ∖ {[id]}
    | Some (InboundFailed _ id _) => live b' = live b ∖ {[id]}
    | _ => live b' = live b
    end;
}.

Module RequestResponses.
Section behaviour.
Context `{InnerBehaviour}.

(** ** Configuration *)

(** [ProtocolConfig]; [inbound_queue] names the queue. *)
Record ProtocolConfig : Type := {
  name : ProtocolName;
  fallback_names : list ProtocolName;
  max_request_size : Z;
  max_response_size : Z;
  cfg_request_timeout : Z;
  cfg_inbound_queue : option nat;
}.

(** [ProtocolConfig::new]; times are in milliseconds. *)
Definition ProtocolConfig_new (n : ProtocolName) (q : option nat) : ProtocolConfig := {|
  name := n; fallback_names := []; max_request_size := 8 * 1024 * 1024;
  max_response_size := 10 * 1024; cfg_request_timeout := 30000; cfg_inbound_queue := q |}.

Inductive IfDisconnected : Type := TryConnect | ImmediateError.

(** [IfDisconnected::should_connect]. *)
Definition should_connect (c : IfDisconnected) : bool :=
  match c with TryConnect => true | ImmediateError => false end.

(** ** State *)

(** Who waits for the answer to a request: the holder of a oneshot channel, or a
    channel of answers to which a task passes the answer on with the name of the
    peer ([send_request_with_context] spawns it). *)
Inductive caller : Type :=
  | Oneshot (tx : nat)
  | Bridge (tx : nat) (target : PeerId).

Record PendingRequest : Type := {
  started_at : Z;
  response_tx : option caller;
  fallback_request : option (bytes * ProtocolName);
}.

Record ProtocolDetails : Type := {
  behaviour : Inner;
  inbound_queue : option nat;
  request_timeout : Z;
}.

(** A future of [pending_responses]: it waits for the answer on the channel
    [rx] that was sent along with the request. *)
Record PendingResponse : Type := {
  pr_rx : nat;
  pr_peer : PeerId;
  pr_request_id : Z;
  pr_protocol : ProtocolName;
  pr_channel : nat;
}.

(** [RequestResponsesBehaviour]; [fresh] is the first unused channel name. *)
Record t : Type := {
  protocols : gmap ProtocolName ProtocolDetails;
  pending_requests : gmap (ProtocolName * Z) PendingRequest;
  pending_responses : list PendingResponse;
  pending_responses_arrival_time : gmap (ProtocolName * Z) Z;
  send_feedback : gmap (ProtocolName * Z) nat;
  fresh : nat;
}.

(** [Event]; no code emits reputation changes. *)
Inductive Event : Type :=
  | InboundRequest (peer : PeerId) (protocol : ProtocolName) (result : outcome InboundFailure Z)
  | RequestFinished (peer : PeerId) (protocol : ProtocolName) (duration : Z)
      (result : outcome RequestFailure unit).

Inductive action : Type :=
  | Answer (c : caller) (r : outcome RequestFailure (bytes * ProtocolName))
      (** the caller gets its answer. *)
  | Forget (c : caller)
      (** the caller's channel is dropped. *)
  | SendWire (protocol : ProtocolName) (target : PeerId) (m : WireMessage)
      (** a request is handed to a protocol. *)
  | Enqueue (queue : nat) (m : IncomingRequest)
      (** a remote's request is put into the queue of its room. *)
  | Overflow (queue : nat) (m : IncomingRequest)
      (** the queue does not take it; its response channel is dropped. *)
  | SendBack (protocol : ProtocolName) (channel : nat) (payload : bytes)
      (** a response is handed to a protocol. *)
  | Feedback (tx : nat).
      (** the response has been sent. *)

(** ** Updates *)

Definition with_behaviour (p : ProtocolName) (d : ProtocolDetails) (b : Inner) (s : t) : t :=
  {| protocols := <[p := {| behaviour := b; inbound_queue := inbound_queue d;
                            request_timeout := request_timeout d |}]> (protocols s);
     pending_requests := pending_requests s; pending_responses := pending_responses s;
     pending_responses_arrival_time := pending_responses_arrival_time s;
     send_feedback := send_feedback s; fresh := fresh s |}.

Definition with_requests (r : gmap (ProtocolName * Z) PendingRequest) (s : t) : t :=
  {| protocols := protocols s; pending_requests := r;
     pending_responses := pending_responses s;
     pending_responses_arrival_time := pending_responses_arrival_time s;
     send_feedback := send_feedback s; fresh := fresh s |}.

Definition with_responses (rs : list PendingResponse) (k : nat) (s : t) : t :=
  {| protocols := protocols s; pending_requests := pending_requests s;
     pending_responses := rs;
     pending_responses_arrival_time := pending_responses_arrival_time s;
     send_feedback := send_feedback s; fresh := k |}.

Definition with_inbound (arrival : gmap (ProtocolName * Z) Z)
  (feedback : gmap (ProtocolName * Z) nat) (s : t) : t :=
  {| protocols := protocols s; pending_requests := pending_requests s;
     pending_responses := pending_responses s;
     pending_responses_arrival_time := arrival; send_feedback := feedback; fresh := fresh s |}.

(** ** [new] *)

Definition details (c : ProtocolConfig) : ProtocolDetails := {|
  behaviour :=
    inner_new {| GenericCodec.max_request_size := max_request_size c;
                 GenericCodec.max_response_size := max_response_size c |}
      (name c :: fallback_names c) (bool_decide (is_Some (cfg_inbound_queue c)))
      (cfg_request_timeout c);
  inbound_queue := cfg_inbound_queue c;
  request_timeout := cfg_request_timeout c |}.

(** The loop of [new]; the error is [DuplicateProtocol]. *)
Fixpoint register (cs : list ProtocolConfig) (ps : gmap ProtocolName ProtocolDetails) :
  outcome ProtocolName (gmap ProtocolName ProtocolDetails) :=
  match cs with
  | [] => Ok ps
  | c :: cs =>
      if ps !! name c is Some _ then Err (name c)
      else register cs (<[name c := details c]> ps)
  end.

Definition new (cs : list ProtocolConfig) : outcome ProtocolName t :=
  ps ← register cs ∅;
  Ok {| protocols := ps; pending_requests := ∅; pending_responses := [];
        pending_responses_arrival_time := ∅; send_feedback := ∅; fresh := 0 |}.

(** ** Sending requests *)

(** What [send_request_inner] and [send_request_with_context] share: hand the
    message to the protocol and note who waits for the answer. *)
Definition dispatch (p : ProtocolName) (d : ProtocolDetails) (target : PeerId) (m : WireMessage)
  (c : caller) (fallback : option (bytes * ProtocolName)) (connect : IfDisconnected) (now : Z)
  (s : t) : outcome Empty_set (t * list action) :=
  if is_connected (behaviour d) target || should_connect connect then
    let '(b, id) := inner_send_request (behaviour d) target m in
    if pending_requests s !! (p, id) is Some _ then Panic "Expect request id to be unique."
    else
      Ok (with_requests
            (<[(p, id) := {| started_at := now; response_tx := Some c;
                             fallback_request := fallback |}]> (pending_requests s))
            (with_behaviour p d b s),
          [SendWire p target m])
  else Ok (s, [Answer c (Err NotConnected)]).

(** The message [send_request_inner] wraps around bare bytes. *)
Definition default_message (request : bytes) : WireMessage :=
  {| wm_context := {| message_type := Computation; protocol_id := 0;
                      session_id := NO_SESSION_ID; message_id := 0 |};
     wm_payload := request; wm_is_broadcast := false |}.

(** [send_request_inner]. *)
Definition send_request_inner (p : ProtocolName) (d : ProtocolDetails) (target : PeerId)
  (request : bytes) (fallback : option (bytes * ProtocolName)) (c : caller)
  (connect : IfDisconnected) (now : Z) (s : t) : outcome Empty_set (t * list action) :=
  dispatch p d target (default_message request) c fallback connect now s.

(** [send_request]. *)
Definition send_request (target : PeerId) (p : ProtocolName) (request : bytes)
  (fallback : option (bytes * ProtocolName)) (tx : nat) (connect : IfDisconnected) (now : Z)
  (s : t) : outcome Empty_set (t * list action) :=
  match protocols s !! p with
  | Some d => send_request_inner p d target request fallback (Oneshot tx) connect now s
  | None => Ok (s, [Answer (Oneshot tx) (Err UnknownProtocol)])
  end.

(** [send_request_with_context]. *)
Definition send_request_with_context (target : PeerId) (p : ProtocolName) (ctx : MessageContext)
  (payload : bytes) (is_broadcast : bool) (tx : nat) (connect : IfDisconnected) (now : Z)
  (s : t) : outcome Empty_set (t * list action) :=
  let m := {| wm_context := ctx; wm_payload := payload; wm_is_broadcast := is_broadcast |} in
  match protocols s !! p with
  | Some d => dispatch p d target m (Bridge tx target) None connect now s
  | None => Ok (s, [Answer (Bridge tx target) (Err UnknownProtocol)])
  end.

(** [broadcast_message]; without a caller the answers go to a channel nobody
    reads, a new one for every target. *)
Fixpoint broadcast_message (targets : list PeerId) (p : ProtocolName) (ctx : MessageContext)
  (payload : bytes) (tx : option nat) (connect : IfDisconnected) (now : Z) (s : t) :
  outcome Empty_set (t * list action) :=
  match targets with
  | [] => Ok (s, [])
  | target :: targets =>
      let '(k, s) :=
        match tx with
        | Some tx => (tx, s)
        | None => (fresh s, with_responses (pending_responses s) (S (fresh s)) s)
        end in
      '(s, a) ← send_request_with_context target p ctx payload true k connect now s;
      '(s, a') ← broadcast_message targets p ctx payload tx connect now s;
      Ok (s, a ++ a')
  end.

(** What a caller with a bridge finds in its channel. *)
Definition bridged (a : action) : option (nat * outcome RequestFailure (PeerId * bytes)) :=
  match a with
  | Answer (Bridge tx target) (Ok (payload, _)) => Some (tx, Ok (target, payload))
  | Answer (Bridge tx target) (Err e) => Some (tx, Err e)
  | _ => None
  end.

(** ** One turn of [poll] *)

(** What a turn observes: the clock, whether the periodic check is due, the
    answers that are ready ([None] for a channel that was dropped), what the
    network feeds to the protocols in the order they are polled, whether the
    queues take another request, and which callers still listen. *)
Record obs : Type := {
  now : Z;
  tick : bool;
  ready : list (nat * option OutgoingResponse);
  inputs : list (ProtocolName * input);
  accepting : nat -> bool;
  listening : caller -> bool;
}.

(** *** The periodic check *)

(** Why a pending request is given up, if it is. *)
Definition overdue (s : t) (now : Z) (id : ProtocolName * Z) (req : PendingRequest) :
  option RequestFailure :=
  match protocols s !! id.1 with
  | None => Some UnknownProtocol
  | Some d =>
      if request_timeout d <? now - started_at req then Some (Network OutboundTimeout) else None
  end.

Definition periodic_check (now : Z) (s : t) : t * list action :=
  (with_requests (filter (fun x => overdue s now x.1 x.2 = None) (pending_requests s)) s,
   omap (fun x => match overdue s now x.1 x.2, response_tx x.2 with
                  | Some e, Some c => Some (Answer c (Err e))
                  | _, _ => None
                  end) (map_to_list (pending_requests s))).

(** *** Responses that are ready *)

Fixpoint take_response (rx : nat) (rs : list PendingResponse) :
  option (PendingResponse * list PendingResponse) :=
  match rs with
  | [] => None
  | x :: rs =>
      if decide (pr_rx x = rx) then Some (x, rs)
      else '(y, rest) ← take_response rx rs; Some (y, x :: rest)
  end.

Definition send_ready (s : t) (x : nat * option OutgoingResponse) : t * list action :=
  match take_response x.1 (pending_responses s) with
  | None => (s, [])
  | Some (pr, rest) =>
      let s := with_responses rest (fresh s) s in
      match x.2 with
      | Some {| result := Some payload; sent_feedback := feedback |} =>
          match protocols s !! pr_protocol pr with
          | None => (s, [])
          | Some d =>
              let '(b, ok) := inner_send_response (behaviour d) (pr_channel pr) payload in
              let s := with_behaviour (pr_protocol pr) d b s in
              (if ok then
                 match feedback with
                 | Some tx =>
                     with_inbound (pending_responses_arrival_time s)
                       (<[(pr_protocol pr, pr_request_id pr) := tx]> (send_feedback s)) s
                 | None => s
                 end
               else s,
               [SendBack (pr_protocol pr) (pr_channel pr) payload])
          end
      | _ => (s, [])
      end
  end.

Fixpoint send_all_ready (s : t) (xs : list (nat * option OutgoingResponse)) : t * list action :=
  match xs with
  | [] => (s, [])
  | x :: xs =>
      let '(s, a) := send_ready s x in
      let '(s, a') := send_all_ready s xs in
      (s, a ++ a')
  end.

(** *** Events of the protocols *)

Variable peer_reputation : PeerId -> Z.

(** [71 * (i32::MIN / 100)], whose division truncates. *)
Definition BANNED_THRESHOLD : Z := 71 * Z.quot (- 2 ^ 31) 100.

(** A request that failed and is tried on another protocol. *)
Abbreviation fallback := (PeerId * ProtocolName * bytes * caller)%type.

Inductive handled : Type :=
  | Continue (s : t) (acts : list action) (fb : list fallback)
      (** the next event of the protocols. *)
  | Again (s : t) (acts : list action)
      (** [continue 'poll_all]. *)
  | Return (s : t) (acts : list action) (ev : option Event)
      (** [return Poll::Ready(..)]; [None] for events passed through. *)
  | Crash (why : string).

Definition receive_request (p : ProtocolName) (d : ProtocolDetails) (from : PeerId) (id : Z)
  (m : WireMessage) (channel : nat) (ob : obs) (s : t) : handled :=
  let s := with_inbound (<[(p, id) := now ob]> (pending_responses_arrival_time s))
             (send_feedback s) s in
  if peer_reputation from <? BANNED_THRESHOLD then Continue s [] []
  else
    match inbound_queue d with
    | None => Crash "Received message on outbound-only protocol."
    | Some q =>
        let tx := fresh s in
        let msg := {| context := wm_context m; peer := from; peer_id := from;
                      is_broadcast := wm_is_broadcast m; peer_index := 0;
                      payload := wm_payload m; pending_response := tx |} in
        Again (with_responses
                 (pending_responses s ++
                  [{| pr_rx := tx; pr_peer := from; pr_request_id := id; pr_protocol := p;
                      pr_channel := channel |}]) (S tx) s)
              [if accepting ob q then Enqueue q msg else Overflow q msg]
    end.

Definition receive_response (p : ProtocolName) (from : PeerId) (id : Z) (r : option bytes)
  (ob : obs) (s : t) : handled :=
  let req := pending_requests s !! (p, id) in
  let s := with_requests (delete (p, id) (pending_requests s)) s in
  match req with
  | Some {| started_at := started; response_tx := Some c |} =>
      Return s
        [Answer c (match r with Some b => Ok (b, p) | None => Err Refused end)]
        (Some (RequestFinished from p (now ob - started)
                 (if listening ob c then Ok tt else Err Obsolete)))
  | _ => Continue s [] []
  end.

Definition receive_failure (p : ProtocolName) (from : PeerId) (id : Z) (e : OutboundFailure)
  (ob : obs) (s : t) : handled :=
  let req := pending_requests s !! (p, id) in
  let s := with_requests (delete (p, id) (pending_requests s)) s in
  match req with
  | Some {| started_at := started; response_tx := Some c; fallback_request := fb |} =>
      match e, fb with
      | OutboundUnsupportedProtocols, Some (request, fp) => Continue s [] [(from, fp, request, c)]
      | _, _ =>
          Return s [Answer c (Err (Network e))]
            (Some (RequestFinished from p (now ob - started) (Err (Network e))))
      end
  | _ => Continue s [] []
  end.

(** An inbound request ended with a failure: while it was read, or while its response was
    sent. *)
Definition inbound_failed (p : ProtocolName) (from : PeerId) (id : Z) (e : InboundFailure) (s : t) :
  handled :=
  Return (with_inbound (delete (p, id) (pending_responses_arrival_time s))
            (delete (p, id) (send_feedback s)) s) []
    (Some (InboundRequest from p (Err e))).

(** The response to an inbound request has been sent. *)
Definition response_sent (p : ProtocolName) (from : PeerId) (id : Z) (ob : obs) (s : t) : handled :=
  match pending_responses_arrival_time s !! (p, id) with
  | None => Crash "Time is added for each inbound request on arrival"
  | Some at_ =>
      Return (with_inbound (delete (p, id) (pending_responses_arrival_time s))
                (delete (p, id) (send_feedback s)) s)
        (if send_feedback s !! (p, id) is Some tx then [Feedback tx] else [])
        (Some (InboundRequest from p (Ok (now ob - at_))))
  end.

Definition handle (p : ProtocolName) (d : ProtocolDetails) (ev : InnerEvent) (ob : obs) (s : t) :
  handled :=
  match ev with
  | InboundMessage from id m channel => receive_request p d from id m channel ob s
  | ResponseMessage from id r => receive_response p from id r ob s
  | OutboundFailed from id e => receive_failure p from id e ob s
  | InboundFailed from id e => inbound_failed p from id e s
  | ResponseSent from id => response_sent p from id ob s
  | PassThrough => Return s [] None
  end.

Definition forget (fb : list fallback) : list action := (fun x => Forget x.2) <$> fb.

(** The loop over the protocols.  A [Return] or an [Again] leaves the function,
    or the turn, with the fallback requests collected so far, which are dropped. *)
Fixpoint poll_protocols (xs : list (ProtocolName * input)) (ob : obs) (fb : list fallback)
  (s : t) : handled :=
  match xs with
  | [] => Continue s [] fb
  | (p, x) :: xs =>
      match protocols s !! p with
      | None => poll_protocols xs ob fb s
      | Some d =>
          let '(b, ev) := inner_poll (behaviour d) x in
          let s := with_behaviour p d b s in
          match ev with
          | None => poll_protocols xs ob fb s
          | Some ev =>
              match handle p d ev ob s with
              | Continue s acts new =>
                  match poll_protocols xs ob (fb ++ new) s with
                  | Continue s acts' fb => Continue s (acts ++ acts') fb
                  | Again s acts' => Again s (acts ++ acts')
                  | Return s acts' ev => Return s (acts ++ acts') ev
                  | Crash why => Crash why
                  end
              | Again s acts => Again s (acts ++ forget fb)
              | Return s acts ev => Return s (acts ++ forget fb) ev
              | Crash why => Crash why
              end
          end
      end
  end.

(** *** Fallback requests *)

Fixpoint send_fallbacks (fb : list fallback) (now : Z) (s : t) :
  outcome Empty_set (t * list action) :=
  match fb with
  | [] => Ok (s, [])
  | (target, p, request, c) :: fb =>
      '(s, a) ← match protocols s !! p with
                | Some d => send_request_inner p d target request None c ImmediateError now s
                | None => Ok (s, [Forget c])
                end;
      '(s, a') ← send_fallbacks fb now s;
      Ok (s, a ++ a')
  end.

(** *** The turn *)

Inductive turn_result : Type :=
  | Pending (s : t) (acts : list action)
  | Repeat (s : t) (acts : list action)
  | Ready (s : t) (acts : list action) (ev : option Event)
  | Panicked (why : string).

Definition turn (ob : obs) (s : t) : turn_result :=
  let '(s, a1) := if tick ob then periodic_check (now ob) s else (s, []) in
  let '(s, a2) := send_all_ready s (ready ob) in
  match poll_protocols (inputs ob) ob [] s with
  | Again s a3 => Repeat s (a1 ++ a2 ++ a3)
  | Return s a3 ev => Ready s (a1 ++ a2 ++ a3) ev
  | Crash why => Panicked why
  | Continue s a3 fb =>
      match send_fallbacks fb (now ob) s with
      | Ok (s, a4) => Pending s (a1 ++ a2 ++ a3 ++ a4)
      | Err e => match e with end
      | Panic why => Panicked why
      end
  end.

(** [poll]: turns until one does not repeat.  When the observations end, the loop
    is still running. *)
Fixpoint poll (obs : list obs) (s : t) : turn_result :=
  match obs with
  | [] => Repeat s []
  | ob :: obs =>
      match turn ob s with
      | Repeat s acts =>
          match poll obs s with
          | Pending s acts' => Pending s (acts ++ acts')
          | Repeat s acts' => Repeat s (acts ++ acts')
          | Ready s acts' ev => Ready s (acts ++ acts') ev
          | Panicked why => Panicked why
          end
      | r => r
      end
  end.

(** ** Runs *)

(** What the node does with the behaviour: requests of its own, and polls. *)
Inductive op : Type :=
  | Send (target : PeerId) (p : ProtocolName) (request : bytes)
      (fallback : option (bytes * ProtocolName)) (tx : nat) (connect : IfDisconnected) (now : Z)
  | SendWithContext (target : PeerId) (p : ProtocolName) (ctx : MessageContext) (payload : bytes)
      (is_broadcast : bool) (tx : nat) (connect : IfDisconnected) (now : Z)
  | BroadcastTo (targets : list PeerId) (p : ProtocolName) (ctx : MessageContext)
      (payload : bytes) (tx : option nat) (connect : IfDisconnected) (now : Z)
  | Poll (obs : list obs).

Definition step (o : op) (s : t) : outcome Empty_set (t * list action) :=
  match o with
  | Send target p request fallback tx connect now =>
      send_request target p request fallback tx connect now s
  | SendWithContext target p ctx payload b tx connect now =>
      send_request_with_context target p ctx payload b tx connect now s
  | BroadcastTo targets p ctx payload tx connect now =>
      broadcast_message targets p ctx payload tx connect now s
  | Poll obs =>
      match poll obs s with
      | Pending s acts | Repeat s acts | Ready s acts _ => Ok (s, acts)
      | Panicked why => Panic why
      end
  end.

(** The callers an operation brings. *)
Definition asked (o : op) (s : t) : list caller :=
  match o with
  | Send _ _ _ _ tx _ _ => [Oneshot tx]
  | SendWithContext target _ _ _ _ tx _ _ => [Bridge tx target]
  | BroadcastTo targets _ _ _ (Some tx) _ _ => Bridge tx <$> targets
  | BroadcastTo targets _ _ _ None _ _ => imap (fun j => Bridge (fresh s + j)) targets
  | Poll _ => []
  end.

Fixpoint run (os : list op) (s : t) : outcome Empty_set (t * list action) :=
  match os with
  | [] => Ok (s, [])
  | o :: os =>
      '(s, a) ← step o s;
      '(s, a') ← run os s;
      Ok (s, a ++ a')
  end.

Fixpoint asked_run (os : list op) (s : t) : list caller :=
  match os with
  | [] => []
  | o :: os =>
      asked o s ++ match step o s with Ok (s, _) => asked_run os s | _ => [] end
  end.

(** ** Accounting for callers *)

Definition held (s : t) : list caller :=
  omap (fun x => response_tx x.2) (map_to_list (pending_requests s)).

Definition settles (a : action) : option caller :=
  match a with Answer c _ | Forget c => Some c | _ => None end.
Definition settled (acts : list action) : list caller := omap settles acts.

Definition callers (fb : list fallback) : list caller := fb.*2.

Lemma rr_settled_app a b : settled (a ++ b) = settled a ++ settled b.
Proof. apply omap_app. Qed.

(** Two steps one after the other. *)
Lemma accounted_app {A} (h h' h'' a b c d : list A) :
  h' ++ a ≡ₚ h ++ c -> h'' ++ b ≡ₚ h' ++ d -> h'' ++ a ++ b ≡ₚ h ++ c ++ d.
Proof.
  intros H1 H2. transitivity (a ++ (h'' ++ b)); [solve_Permutation|].
  rewrite H2. transitivity ((h' ++ a) ++ d); [solve_Permutation|].
  rewrite H1. solve_Permutation.
Qed.

Lemma settled_forget fb : settled (forget fb) = callers fb.
Proof. induction fb as [|x fb IH]; cbn; [done|]. by f_equal. Qed.

Lemma omap_insert_perm {A} (f : (ProtocolName * Z) * PendingRequest -> option A) (k : ProtocolName * Z) (x : PendingRequest)
    (m : gmap (ProtocolName * Z) PendingRequest) :
  m !! k = None ->
  omap f (map_to_list (<[k := x]> m)) ≡ₚ
  (if f (k, x) is Some c then [c] else []) ++ omap f (map_to_list m).
Proof.
  intros Hk. rewrite map_to_list_insert by done. cbn. by destruct (f (k, x)).
Qed.

Lemma held_insert (k : ProtocolName * Z) (x : PendingRequest) m s :
  m !! k = None ->
  held (with_requests (<[k := x]> m) s) ≡ₚ
  (if response_tx x is Some c then [c] else []) ++ held (with_requests m s).
Proof. apply omap_insert_perm. Qed.

Lemma held_delete k s :
  held s ≡ₚ (if pending_requests s !! k ≫= response_tx is Some c then [c] else []) ++
            held (with_requests (delete k (pending_requests s)) s).
Proof.
  destruct (pending_requests s !! k) as [x|] eqn:Hk; cbn [mbind option_bind].
  - rewrite <- held_insert by apply lookup_delete_eq.
    unfold held. cbn [pending_requests with_requests]. by rewrite insert_delete_id.
  - unfold held. cbn [pending_requests with_requests]. by rewrite delete_id.
Qed.

Lemma dispatch_accounted p d target m c fb connect now s s' a :
  dispatch p d target m c fb connect now s = Ok (s', a) ->
  held s' ++ settled a ≡ₚ held s ++ [c].
Proof.
  unfold dispatch. case_match; [|intros [= <- <-]; done].
  destruct (inner_send_request _ _ _) as [b id]. case_match eqn:Hk; [done|].
  intros [= <- <-]. rewrite held_insert by done. cbn [response_tx settled omap app].
  rewrite app_nil_r. rewrite Permutation_cons_append. done.
Qed.

Lemma send_request_accounted target p request fb tx connect now s s' a :
  send_request target p request fb tx connect now s = Ok (s', a) ->
  held s' ++ settled a ≡ₚ held s ++ [Oneshot tx].
Proof.
  unfold send_request. case_match; [apply dispatch_accounted|]. by intros [= <- <-].
Qed.

Lemma send_with_context_accounted target p ctx payload b tx connect now s s' a :
  send_request_with_context target p ctx payload b tx connect now s = Ok (s', a) ->
  held s' ++ settled a ≡ₚ held s ++ [Bridge tx target].
Proof.
  unfold send_request_with_context. case_match; [apply dispatch_accounted|].
  by intros [= <- <-].
Qed.

Lemma send_with_context_fresh target p ctx payload b tx connect now s s' a :
  send_request_with_context target p ctx payload b tx connect now s = Ok (s', a) ->
  fresh s' = fresh s.
Proof.
  unfold send_request_with_context, dispatch. repeat case_match; try done; naive_solver.
Qed.

Lemma broadcast_accounted targets p ctx payload tx connect now s s' a :
  broadcast_message targets p ctx payload tx connect now s = Ok (s', a) ->
  held s' ++ settled a ≡ₚ held s ++ asked (BroadcastTo targets p ctx payload tx connect now) s.
Proof.
  revert s s' a. induction targets as [|target targets IH]; intros s s' a; cbn [broadcast_message].
  { intros [= <- <-]. cbn. by destruct tx. }
  destruct tx as [tx|]; intros Hb; inv_ok; rewrite rr_settled_app;
    pose proof (send_with_context_fresh _ _ _ _ _ _ _ _ _ _ _ Ha) as Hf;
    apply send_with_context_accounted in Ha; specialize (IH _ _ _ Ha0); cbn in IH |- *.
  - by apply (accounted_app _ _ _ _ _ [_] _ Ha).
  - cbn in Hf. rewrite Hf in IH. rewrite Nat.add_0_r.
    rewrite (imap_ext (_ ∘ S) (fun j => Bridge (S (fresh s) + j)))
      by (intros; cbn; by rewrite Nat.add_succ_r).
    by apply (accounted_app _ _ _ _ _ [_] _ Ha).
Qed.

Lemma filter_accounted {E} (abandon : (ProtocolName * Z) -> PendingRequest -> option E)
    (answer : caller -> E -> action) (m : gmap (ProtocolName * Z) PendingRequest) :
  (forall c e, settles (answer c e) = Some c) ->
  omap (fun x => response_tx x.2) (map_to_list (filter (fun x => abandon x.1 x.2 = None) m)) ++
  settled (omap (fun x => match abandon x.1 x.2, response_tx x.2 with
                          | Some e, Some c => Some (answer c e)
                          | _, _ => None
                          end) (map_to_list m)) ≡ₚ
  omap (fun x => response_tx x.2) (map_to_list m).
Proof.
  intros Hans. induction m as [|k x m Hk IH] using map_ind; [by rewrite map_filter_empty|].
  unfold settled. rewrite !omap_insert_perm by done. rewrite omap_app. cbn [fst snd].
  destruct (abandon k x) as [e|] eqn:Hg.
  - rewrite map_filter_insert_False by (cbn; by rewrite Hg).
    rewrite map_filter_delete, delete_id.
    + destruct (response_tx x) as [c|]; cbn; [|done].
      rewrite Hans. cbn. rewrite <- Permutation_middle. by f_equiv.
    + apply map_lookup_filter_None. by left.
  - rewrite map_filter_insert_True by done. rewrite omap_insert_perm.
    + cbn [fst snd]. destruct (response_tx x); cbn; by rewrite <- IH.
    + apply map_lookup_filter_None. by left.
Qed.

Lemma periodic_check_accounted now s s' a :
  periodic_check now s = (s', a) -> held s' ++ settled a ≡ₚ held s.
Proof.
  unfold periodic_check. intros [= <- <-].
  by apply (filter_accounted (overdue s now) (fun c e => Answer c (Err e))).
Qed.

Lemma send_ready_accounted s x s' a :
  send_ready s x = (s', a) ->
  pending_requests s' = pending_requests s /\ settled a = [].
Proof. unfold send_ready. repeat case_match; intros; by simplify_eq. Qed.

Lemma send_all_ready_accounted xs s s' a :
  send_all_ready s xs = (s', a) ->
  pending_requests s' = pending_requests s /\ settled a = [].
Proof.
  revert s s' a. induction xs as [|x xs IH]; intros s s' a; cbn; [by intros [= <- <-]|].
  destruct (send_ready s x) as [s1 a1] eqn:H1. destruct (send_all_ready s1 xs) as [s2 a2] eqn:H2.
  intros [= <- <-]. apply send_ready_accounted in H1 as [H1 E1]. apply IH in H2 as [H2 E2].
  rewrite rr_settled_app, E1, E2. split; [congruence|done].
Qed.

(** Where the callers are after an event has been handled. *)
Definition accounted (h : handled) : list caller :=
  match h with
  | Continue s a fb => held s ++ settled a ++ callers fb
  | Again s a | Return s a _ => held s ++ settled a
  | Crash _ => []
  end.

Lemma handle_accounted p d ev ob s :
  (forall why, handle p d ev ob s <> Crash why) -> accounted (handle p d ev ob s) ≡ₚ held s.
Proof.
  intros Hc. destruct ev as [from id m ch|from id r|from id e|from id e|from id|];
    cbn [handle] in *; unfold inbound_failed, response_sent in *.
  - unfold receive_request in *. case_match; [cbn; by rewrite app_nil_r|].
    destruct (inbound_queue d) as [q|]; [|naive_solver]. cbn. case_match; by rewrite app_nil_r.
  - unfold receive_response. rewrite (held_delete (p, id) s).
    destruct (_ !! _) as [[st [c|] fb]|]; cbn; rewrite ?app_nil_r; [|done..].
    symmetry. apply Permutation_cons_append.
  - unfold receive_failure. rewrite (held_delete (p, id) s).
    destruct (_ !! _) as [[st [c|] fb]|]; cbn; rewrite ?app_nil_r; [|done..].
    destruct e, fb as [[req fp]|]; symmetry; apply Permutation_cons_append.
  - cbn. by rewrite app_nil_r.
  - case_match; [|naive_solver]. cbn. case_match; by rewrite app_nil_r.
  - cbn. by rewrite app_nil_r.
Qed.

Lemma callers_app a b : callers (a ++ b) = callers a ++ callers b.
Proof. apply fmap_app. Qed.

Lemma poll_protocols_accounted xs ob fb s :
  (forall why, poll_protocols xs ob fb s <> Crash why) ->
  accounted (poll_protocols xs ob fb s) ≡ₚ held s ++ callers fb.
Proof.
  revert fb s. induction xs as [|[p x] xs IH]; intros fb s Hc; cbn [poll_protocols] in *; [done|].
  destruct (protocols s !! p) as [d|] eqn:Hp; [|by apply IH].
  destruct (inner_poll (behaviour d) x) as [b [ev|]]; [|by apply (IH fb (with_behaviour p d b s))].
  pose proof (handle_accounted p d ev ob (with_behaviour p d b s)) as Ha.
  change (held (with_behaviour p d b s)) with (held s) in Ha.
  destruct (handle p d ev ob (with_behaviour p d b s)) as [s1 a1 new|s1 a1|s1 a1 ev1|why];
    cbn [accounted] in *.
  - specialize (IH (fb ++ new) s1). specialize (Ha ltac:(done)).
    assert (accounted (poll_protocols xs ob (fb ++ new) s1) ≡ₚ held s1 ++ callers (fb ++ new))
      as IH' by (apply IH; intros why Hw; by apply (Hc why); rewrite Hw).
    rewrite callers_app in IH'. rewrite <- Ha.
    destruct (poll_protocols xs ob (fb ++ new) s1) as [s2 a2 fb2|s2 a2|s2 a2 ev2|why];
      cbn [accounted] in *; [..|naive_solver]; rewrite rr_settled_app.
    + transitivity (settled a1 ++ (held s2 ++ settled a2 ++ callers fb2)); [solve_Permutation|].
      rewrite IH'. solve_Permutation.
    + transitivity (settled a1 ++ (held s2 ++ settled a2)); [solve_Permutation|].
      rewrite IH'. solve_Permutation.
    + transitivity (settled a1 ++ (held s2 ++ settled a2)); [solve_Permutation|].
      rewrite IH'. solve_Permutation.
  - rewrite rr_settled_app, settled_forget, <- (Ha ltac:(done)). by rewrite app_assoc.
  - rewrite rr_settled_app, settled_forget, <- (Ha ltac:(done)). by rewrite app_assoc.
  - naive_solver.
Qed.

Lemma send_fallbacks_accounted fb now s s' a :
  send_fallbacks fb now s = Ok (s', a) -> held s' ++ settled a ≡ₚ held s ++ callers fb.
Proof.
  revert s s' a. induction fb as [|[[[target p] request] c] fb IH]; intros s s' a;
    cbn [send_fallbacks]; [by intros [= <- <-]|].
  intros Hb. inv_ok. rewrite rr_settled_app. specialize (IH _ _ _ Ha0).
  assert (held t0 ++ settled l ≡ₚ held s ++ [c]) as Ha'.
  { case_match; [by eapply dispatch_accounted|by injection Ha as <- <-]. }
  by apply (accounted_app _ _ _ _ _ [_] _ Ha').
Qed.

Definition result_accounted (r : turn_result) : list caller :=
  match r with
  | Pending s a | Repeat s a | Ready s a _ => held s ++ settled a
  | Panicked _ => []
  end.

Lemma turn_accounted ob s :
  (forall why, turn ob s <> Panicked why) -> result_accounted (turn ob s) ≡ₚ held s.
Proof.
  unfold turn. intros Hc.
  destruct (if tick ob then _ else _) as [s1 a1] eqn:H1.
  assert (held s1 ++ settled a1 ≡ₚ held s) as Ha1.
  { destruct (tick ob); [by eapply periodic_check_accounted|].
    injection H1 as <- <-. by rewrite app_nil_r. }
  destruct (send_all_ready s1 (ready ob)) as [s2 a2] eqn:H2.
  apply send_all_ready_accounted in H2 as [H2 E2].
  assert (held s2 = held s1) as Hs2 by (unfold held; by rewrite H2).
  pose proof (poll_protocols_accounted (inputs ob) ob [] s2) as Hp.
  destruct (poll_protocols (inputs ob) ob [] s2) as [s3 a3 fb|s3 a3|s3 a3 ev|why];
    cbn [accounted] in Hp; [..|naive_solver]; specialize (Hp ltac:(done));
    rewrite Hs2, app_nil_r in Hp.
  - destruct (send_fallbacks fb (now ob) s3) as [[s4 a4]|[]|why] eqn:H4; [|naive_solver].
    apply send_fallbacks_accounted in H4. cbn [result_accounted].
    rewrite !rr_settled_app, E2. cbn [app]. rewrite <- Ha1, <- Hp.
    transitivity (settled a1 ++ settled a3 ++ (held s4 ++ settled a4)); [solve_Permutation|].
    rewrite H4. solve_Permutation.
  - cbn [result_accounted]. rewrite !rr_settled_app, E2, <- Ha1, <- Hp. solve_Permutation.
  - cbn [result_accounted]. rewrite !rr_settled_app, E2, <- Ha1, <- Hp. solve_Permutation.
Qed.

Lemma poll_accounted obs s :
  (forall why, poll obs s <> Panicked why) -> result_accounted (poll obs s) ≡ₚ held s.
Proof.
  revert s. induction obs as [|ob obs IH]; intros s Hc; cbn [poll] in *.
  { cbn. by rewrite app_nil_r. }
  pose proof (turn_accounted ob s) as Ht.
  destruct (turn ob s) as [s1 a1|s1 a1|s1 a1 ev|why]; cbn [result_accounted] in *;
    try (by apply Ht).
  rewrite <- Ht by done. specialize (IH s1).
  destruct (poll obs s1) as [s2 a2|s2 a2|s2 a2 ev|why]; cbn [result_accounted] in *;
    [..|naive_solver]; rewrite rr_settled_app, <- IH by done; solve_Permutation.
Qed.

Lemma step_accounted o s s' a :
  step o s = Ok (s', a) -> held s' ++ settled a ≡ₚ held s ++ asked o s.
Proof.
  destruct o as [| | |obs]; cbn [step];
    eauto using send_request_accounted, send_with_context_accounted, broadcast_accounted.
  pose proof (poll_accounted obs s) as Hp. cbn [asked]. rewrite app_nil_r.
  destruct (poll obs s); intros [= <- <-]; by apply Hp.
Qed.

Lemma run_accounted os s s' a :
  run os s = Ok (s', a) -> held s' ++ settled a ≡ₚ held s ++ asked_run os s.
Proof.
  revert s s' a. induction os as [|o os IH]; intros s s' a; cbn; [by intros [= <- <-]|].
  intros Hr. inv_ok. rewrite rr_settled_app, Ha. specialize (IH _ _ _ Ha0).
  eapply accounted_app; [by apply step_accounted|done].
Qed.

(** ** Only fallback requests can be forgotten *)

Definition no_fallbacks (s : t) : Prop :=
  map_Forall (fun _ r => fallback_request r = None) (pending_requests s).

Definition answers (a : action) : Prop := forall c, a <> Forget c.

(** An operation without a fallback. *)
Definition plain (o : op) : Prop :=
  match o with Send _ _ _ (Some _) _ _ _ => False | _ => True end.

Lemma dispatch_plain p d target m c connect now s s' a :
  dispatch p d target m c None connect now s = Ok (s', a) -> no_fallbacks s ->
  no_fallbacks s' /\ Forall answers a.
Proof.
  unfold dispatch, no_fallbacks. intros Hd Hs. repeat case_match; simplify_eq; cbn;
    (split; [|by repeat constructor]); [|done].
  by apply map_Forall_insert_2.
Qed.

Lemma send_with_context_plain target p ctx payload b tx connect now s s' a :
  send_request_with_context target p ctx payload b tx connect now s = Ok (s', a) ->
  no_fallbacks s -> no_fallbacks s' /\ Forall answers a.
Proof.
  unfold send_request_with_context. case_match; [apply dispatch_plain|].
  intros [= <- <-] Hs. split; [done|]. by repeat constructor.
Qed.

Lemma broadcast_plain targets p ctx payload tx connect now s s' a :
  broadcast_message targets p ctx payload tx connect now s = Ok (s', a) ->
  no_fallbacks s -> no_fallbacks s' /\ Forall answers a.
Proof.
  revert s s' a. induction targets as [|target targets IH]; intros s s' a; cbn [broadcast_message].
  { by intros [= <- <-]. }
  intros Hb Hs. destruct tx as [tx|]; inv_ok;
    apply send_with_context_plain in Ha as [Hs1 Ha1]; try done;
    destruct (IH _ _ _ Ha0 Hs1) as [??]; rewrite Forall_app; done.
Qed.

Definition plain_handled (h : handled) : Prop :=
  match h with
  | Continue s a fb => no_fallbacks s /\ Forall answers a /\ fb = []
  | Again s a | Return s a _ => no_fallbacks s /\ Forall answers a
  | Crash _ => True
  end.

Lemma handle_plain p d ev ob s : no_fallbacks s -> plain_handled (handle p d ev ob s).
Proof.
  intros Hs.
  assert (forall k, no_fallbacks (with_requests (delete k (pending_requests s)) s)) as Hdel
    by (intros k; by apply map_Forall_delete).
  destruct ev as [from id m ch|from id r|from id e|from id e|from id|]; cbn [handle];
    unfold inbound_failed, response_sent.
  - unfold receive_request. repeat case_match; by repeat constructor.
  - unfold receive_response. destruct (_ !! _) as [[st [c|] fb]|]; cbn; auto.
    split; [done|]. by repeat constructor.
  - unfold receive_failure. destruct (pending_requests s !! (p, id)) as [[st [c|] fb]|] eqn:Hk;
      cbn; auto.
    apply (map_Forall_lookup_1 _ _ _ _ Hs) in Hk. cbn in Hk. subst fb.
    destruct e; cbn; (split; [done|]); by repeat constructor.
  - done.
  - repeat case_match; cbn; auto. split; [done|]. by repeat constructor.
  - done.
Qed.

Lemma poll_protocols_plain xs ob s :
  no_fallbacks s -> plain_handled (poll_protocols xs ob [] s).
Proof.
  revert s. induction xs as [|[p x] xs IH]; intros s Hs; cbn [poll_protocols]; [done|].
  destruct (protocols s !! p) as [d|]; [|by apply IH].
  destruct (inner_poll (behaviour d) x) as [b [ev|]]; [|by apply (IH (with_behaviour p d b s))].
  pose proof (handle_plain p d ev ob (with_behaviour p d b s) Hs) as Hh.
  destruct (handle _ _ _ _ _) as [s1 a1 new|s1 a1|s1 a1 ev1|why]; cbn in Hh |- *; try done.
  - destruct Hh as (Hs1 & Ha1 & ->). specialize (IH s1 Hs1).
    destruct (poll_protocols xs ob [] s1); cbn in IH |- *; rewrite ?Forall_app; naive_solver.
  - by rewrite app_nil_r.
  - by rewrite app_nil_r.
Qed.

Lemma send_all_ready_plain xs s s' a :
  send_all_ready s xs = (s', a) -> Forall answers a.
Proof.
  revert s s' a. induction xs as [|x xs IH]; intros s s' a; cbn; [by intros [= <- <-]|].
  destruct (send_ready s x) as [s1 a1] eqn:H1. destruct (send_all_ready s1 xs) as [s2 a2] eqn:H2.
  intros [= <- <-]. apply IH in H2. rewrite Forall_app. split; [|done].
  revert H1. unfold send_ready. repeat case_match; intros; simplify_eq; by repeat constructor.
Qed.

Definition plain_result (r : turn_result) : Prop :=
  match r with
  | Pending s a | Repeat s a | Ready s a _ => no_fallbacks s /\ Forall answers a
  | Panicked _ => True
  end.

Lemma turn_plain ob s : no_fallbacks s -> plain_result (turn ob s).
Proof.
  intros Hs. unfold turn. destruct (if tick ob then _ else _) as [s1 a1] eqn:H1.
  assert (no_fallbacks s1 /\ Forall answers a1) as [Hs1 Ha1].
  { destruct (tick ob); injection H1 as <- <-; [|done]. split.
    { intros k x [Hx _]%map_lookup_filter_Some. by apply (Hs k). }
    apply Forall_forall. intros a (x & _ & Hx)%list_elem_of_omap. by repeat case_match; simplify_eq. }
  destruct (send_all_ready s1 (ready ob)) as [s2 a2] eqn:H2.
  pose proof (send_all_ready_plain _ _ _ _ H2) as Ha2.
  apply send_all_ready_accounted in H2 as [H2 _].
  assert (no_fallbacks s2) as Hs2 by (unfold no_fallbacks; by rewrite H2).
  pose proof (poll_protocols_plain (inputs ob) ob s2 Hs2) as Hp.
  destruct (poll_protocols (inputs ob) ob [] s2) as [s3 a3 fb|s3 a3|s3 a3 ev|why];
    cbn in Hp |- *; rewrite ?Forall_app; try naive_solver.
  destruct Hp as (Hs3 & Ha3 & ->). cbn. rewrite !Forall_app. done.
Qed.

Lemma poll_plain obs s : no_fallbacks s -> plain_result (poll obs s).
Proof.
  revert s. induction obs as [|ob obs IH]; intros s Hs; cbn [poll]; [done|].
  pose proof (turn_plain ob s Hs) as Ht.
  destruct (turn ob s) as [s1 a1|s1 a1|s1 a1 ev|why]; cbn in Ht |- *; try done.
  destruct Ht as [Hs1 Ha1]. specialize (IH s1 Hs1).
  destruct (poll obs s1); cbn in IH |- *; rewrite ?Forall_app; naive_solver.
Qed.

Lemma step_plain o s s' a :
  step o s = Ok (s', a) -> plain o -> no_fallbacks s -> no_fallbacks s' /\ Forall answers a.
Proof.
  destruct o as [target p request [fb|] tx connect now| | |obs]; cbn [step plain]; try done;
    eauto using send_with_context_plain, broadcast_plain.
  - intros Hr _ Hs. unfold send_request in Hr. case_match; [by eapply dispatch_plain|].
    injection Hr as <- <-. split; [done|]. by repeat constructor.
  - intros Hr _ Hs. pose proof (poll_plain obs s Hs) as Hp.
    destruct (poll obs s); simplify_eq; done.
Qed.

Lemma run_plain os s s' acts :
  run os s = Ok (s', acts) -> no_fallbacks s -> Forall plain os ->
  no_fallbacks s' /\ Forall answers acts.
Proof.
  revert s s' acts. induction os as [|o os IH]; intros s s' acts; cbn; [by intros [= <- <-]|].
  intros Hr Hs Hos. inv_ok. apply Forall_cons in Hos as [Ho Hos].
  apply step_plain in Ha as [Hs1 Ha1]; [|done..]. rewrite Forall_app.
  edestruct IH as [? ?]; eauto.
Qed.

(** every caller of the network gets at most one answer, and none is lost:
    after any sequence of requests and polls, the callers that came are, each
    exactly once, still waiting or settled; and as long as no request has a
    fallback (the network worker sends none), to be settled is to get an answer:
    a response, a refusal, or the reason of the failure. *)
Theorem callers_answered_once os s s' acts :
  run os s = Ok (s', acts) ->
  held s' ++ settled acts ≡ₚ held s ++ asked_run os s /\
  (no_fallbacks s -> Forall plain os -> Forall answers acts).
Proof.
  intros Hr. split; [by apply run_accounted|].
  intros Hs Hos. by apply (run_plain os s s' acts).
Qed.

(** ** Fan-out *)

Lemma run_app os1 os2 s s1 a1 :
  run os1 s = Ok (s1, a1) -> run (os1 ++ os2) s = ('(s2, a2) ← run os2 s1; Ok (s2, a1 ++ a2)).
Proof.
  revert s a1. induction os1 as [|o os1 IH]; intros s a1; cbn.
  { intros [= <- <-]. by destruct (run os2 s) as [[]| |]. }
  intros Hr. inv_ok. rewrite Ha. cbn. rewrite (IH _ _ Ha0).
  destruct (run os2 s1) as [[]| |]; cbn; by rewrite ?app_assoc.
Qed.

(** What a request to a peer puts on the wire, or the answer its caller gets when
    the protocol is not known. *)
Definition requested (known : bool) (p : ProtocolName) (m : WireMessage) (tx : nat)
  (target : PeerId) : action :=
  if known then SendWire p target m else Answer (Bridge tx target) (Err UnknownProtocol).

Lemma send_with_context_sends target p ctx payload b tx now s s' a :
  send_request_with_context target p ctx payload b tx TryConnect now s = Ok (s', a) ->
  (forall q, is_Some (protocols s' !! q) <-> is_Some (protocols s !! q)) /\
  a = [requested (bool_decide (is_Some (protocols s !! p))) p
         {| wm_context := ctx; wm_payload := payload; wm_is_broadcast := b |} tx target].
Proof using Type.
  unfold send_request_with_context, requested. destruct (protocols s !! p) as [d|] eqn:Hp.
  - rewrite bool_decide_true by eauto. unfold dispatch. rewrite orb_true_r.
    destruct (inner_send_request _ _ _) as [b' id]. case_match; [done|].
    intros [= <- <-]. split; [|done]. intros q. cbn. rewrite lookup_insert_is_Some.
    destruct (decide (p = q)) as [<-|]; [rewrite Hp|]; split; eauto; by intros [|[]].
  - rewrite bool_decide_false by (by intros [? ?]). by intros [= <- <-].
Qed.

Lemma broadcast_sends targets p ctx payload tx now s s' acts :
  broadcast_message targets p ctx payload tx TryConnect now s = Ok (s', acts) ->
  exists txs, length txs = length targets /\ (forall t, tx = Some t -> Forall (eq t) txs) /\
    acts = zip_with (requested (bool_decide (is_Some (protocols s !! p))) p
             {| wm_context := ctx; wm_payload := payload; wm_is_broadcast := true |}) txs targets.
Proof using Type.
  revert s s' acts. induction targets as [|target targets IH]; intros s s' acts; cbn.
  { intros [= <- <-]. by exists []. }
  destruct tx as [tx|]; intros Hr; inv_ok;
    apply send_with_context_sends in Ha as [Hps ->]; cbn in Hps;
    apply IH in Ha0 as (txs & Hl & Htx & ->);
    rewrite (bool_decide_ext _ _ (Hps p)); cbn [protocols with_responses].
  - exists (tx :: txs). cbn. rewrite Hl. split_and!; [done| |done].
    intros t' [= <-]. constructor; [done|]. by apply Htx.
  - exists (fresh s :: txs). cbn. rewrite Hl. split_and!; done.
Qed.

(** ** The loss of a fallback *)

(** C39: a request that is to be tried on its fallback protocol is forgotten,
    and its caller never gets an answer, when any other event ends the turn: the
    list of fallback requests does not outlive the turn. *)
Theorem fallback_lost p d x b from id started c fb q dq y bq rest ob s :
  tick ob = false -> ready ob = [] -> inputs ob = (p, x) :: (q, y) :: rest ->
  protocols s !! p = Some d ->
  inner_poll (behaviour d) x = (b, Some (OutboundFailed from id OutboundUnsupportedProtocols)) ->
  pending_requests s !! (p, id) =
    Some {| started_at := started; response_tx := Some c; fallback_request := Some fb |} ->
  protocols (with_behaviour p d b s) !! q = Some dq ->
  inner_poll (behaviour dq) y = (bq, Some PassThrough) ->
  exists s', turn ob s = Ready s' [Forget c] None /\
    pending_requests s' = delete (p, id) (pending_requests s).
Proof.
  intros Ht Hr Hi Hp Hx Hreq Hq Hy. unfold turn. rewrite Ht, Hr, Hi.
  cbn [send_all_ready poll_protocols]. rewrite Hp, Hx. cbn [handle].
  unfold receive_failure. cbn [pending_requests with_behaviour]. rewrite Hreq.
  destruct fb as [request fp]. cbn [app poll_protocols].
  change (protocols (with_requests _ ?x)) with (protocols x). rewrite Hq, Hy. cbn. eauto.
Qed.

(** ** Timeouts *)

Definition timeouts (s : t) : gmap ProtocolName Z := request_timeout <$> protocols s.

(** No pending request is older than the timeout of its protocol. *)
Definition on_time (now : Z) (s : t) : Prop :=
  map_Forall (fun id r => exists d, timeouts s !! id.1 = Some d /\ now - started_at r <= d)
    (pending_requests s).

Definition timeouts_ok (s : t) : Prop := map_Forall (fun _ d => 0 <= d) (timeouts s).

Lemma with_behaviour_timeouts p d b s :
  protocols s !! p = Some d -> timeouts (with_behaviour p d b s) = timeouts s.
Proof.
  intros Hp. unfold timeouts. cbn. rewrite fmap_insert. cbn. apply insert_id.
  by rewrite lookup_fmap, Hp.
Qed.

(** A state with fewer pending requests and the same timeouts. *)
Definition shrinks (s s' : t) : Prop :=
  timeouts s' = timeouts s /\ pending_requests s' ⊆ pending_requests s.

Lemma shrinks_on_time now s s' : shrinks s s' -> on_time now s -> on_time now s'.
Proof.
  intros [Ht Hp] Hs k r Hk. rewrite Ht. apply (Hs k r). by eapply lookup_weaken.
Qed.

#[local] Instance shrinks_preorder : PreOrder shrinks.
Proof.
  split; [done|]. intros s1 s2 s3 [H1 H2] [H3 H4]. split; [congruence|by etransitivity].
Qed.

Lemma dispatch_on_time p d target m c fb connect now s s' a :
  dispatch p d target m c fb connect now s = Ok (s', a) -> protocols s !! p = Some d ->
  timeouts_ok s -> timeouts s' = timeouts s /\ (on_time now s -> on_time now s').
Proof.
  unfold dispatch. intros Hd Hp Ht. repeat case_match; simplify_eq; [|done].
  pose proof (with_behaviour_timeouts p d i s Hp) as Hb. split; [done|].
  intros Hs. apply map_Forall_insert_2; cbn [started_at fst].
  - exists (request_timeout d). unfold timeouts, with_requests. cbn [protocols].
    fold (timeouts (with_behaviour p d i s)). rewrite Hb. unfold timeouts.
    rewrite lookup_fmap, Hp. split; [done|]. rewrite Z.sub_diag.
    apply (Ht p). unfold timeouts. by rewrite lookup_fmap, Hp.
  - intros k r Hk. unfold timeouts, with_requests. cbn [protocols].
    fold (timeouts (with_behaviour p d i s)). rewrite Hb. by apply (Hs k).
Qed.

Lemma send_all_ready_shrinks xs s s' a : send_all_ready s xs = (s', a) -> shrinks s s'.
Proof.
  revert s s' a. induction xs as [|x xs IH]; intros s s' a; cbn; [by intros [= <- <-]|].
  destruct (send_ready s x) as [s1 a1] eqn:H1. destruct (send_all_ready s1 xs) as [s2 a2] eqn:H2.
  intros [= <- <-]. transitivity s1; [|by eapply IH].
  revert H1. unfold send_ready. repeat case_match; intros; simplify_eq; try done;
    (split; [|done]); unfold timeouts; cbn; rewrite fmap_insert; apply insert_id;
    cbn in *; rewrite lookup_fmap; by simplify_map_eq.
Qed.

Definition handled_from (s : t) (h : handled) : Prop :=
  match h with Continue s' _ _ | Again s' _ | Return s' _ _ => shrinks s s' | Crash _ => True end.

Lemma handle_shrinks p d ev ob s : handled_from s (handle p d ev ob s).
Proof.
  destruct ev; cbn [handle];
    unfold receive_request, receive_response, receive_failure, inbound_failed, response_sent;
    repeat case_match; cbn; try done; (split; [done|]); cbn; apply delete_subseteq.
Qed.

Lemma poll_protocols_shrinks xs ob fb s : handled_from s (poll_protocols xs ob fb s).
Proof.
  revert fb s. induction xs as [|[p x] xs IH]; intros fb s; cbn [poll_protocols]; [done|].
  destruct (protocols s !! p) as [d|] eqn:Hp; [|by apply IH].
  destruct (inner_poll (behaviour d) x) as [b ev].
  assert (shrinks s (with_behaviour p d b s)) as Hb by (split; [by apply with_behaviour_timeouts|done]).
  destruct ev as [ev|].
  - pose proof (handle_shrinks p d ev ob (with_behaviour p d b s)) as Hh.
    destruct (handle _ _ _ _ _) as [s1 a1 new|s1 a1|s1 a1 ev1|why]; cbn in Hh |- *;
      try (by etransitivity); [|done].
    specialize (IH (fb ++ new) s1).
    destruct (poll_protocols xs ob (fb ++ new) s1); cbn in IH |- *; try done;
      (etransitivity; [done|]); by etransitivity.
  - specialize (IH fb (with_behaviour p d b s)).
    destruct (poll_protocols _ _ _ _); cbn in IH |- *; try done; by etransitivity.
Qed.

Lemma send_fallbacks_on_time fb now s s' a :
  send_fallbacks fb now s = Ok (s', a) -> timeouts_ok s -> on_time now s -> on_time now s'.
Proof.
  revert s s' a. induction fb as [|[[[target p] request] c] fb IH]; intros s s' a;
    cbn [send_fallbacks]; [by intros [= <- <-]|].
  intros Hb Ht Hs. inv_ok. destruct (protocols s !! p) as [d|] eqn:Hp.
  - apply dispatch_on_time in Ha as [Ht' Hs']; [|done..].
    eapply IH; [done| |auto]. unfold timeouts_ok. by rewrite Ht'.
  - injection Ha as <- <-. eauto.
Qed.

Lemma periodic_check_on_time now s s' a :
  periodic_check now s = (s', a) -> timeouts s' = timeouts s /\ on_time now s'.
Proof.
  intros [= <- <-]. split; [done|]. intros [p id] r [_ Hr]%map_lookup_filter_Some. cbn in Hr |- *.
  unfold overdue in Hr. cbn in Hr. unfold timeouts. cbn. rewrite lookup_fmap.
  destruct (protocols s !! p) as [d|]; [|done]. exists (request_timeout d). split; [done|].
  destruct (Z.ltb_spec (request_timeout d) (now - started_at r)); [done|lia].
Qed.

Definition result_state (r : turn_result) : option (t * list action) :=
  match r with
  | Pending s a | Repeat s a | Ready s a _ => Some (s, a)
  | Panicked _ => None
  end.

(** C30: the periodic check leaves no request waiting for longer than its
    protocol's timeout, even if [libp2p] reports none: after a turn with the check,
    every pending request is within its timeout, and the callers of those that
    were not have been told of it. *)
Theorem overdue_answered ob s s' acts :
  tick ob = true -> timeouts_ok s -> result_state (turn ob s) = Some (s', acts) ->
  on_time (now ob) s' /\
  (forall p d id r c, protocols s !! p = Some d -> pending_requests s !! (p, id) = Some r ->
     response_tx r = Some c -> request_timeout d < now ob - started_at r ->
     Answer c (Err (Network OutboundTimeout)) ∈ acts).
Proof.
  intros Htick Hto Hr. unfold turn in Hr. rewrite Htick in Hr.
  destruct (periodic_check (now ob) s) as [s1 a1] eqn:H1.
  destruct (send_all_ready s1 (ready ob)) as [s2 a2] eqn:H2.
  pose proof (periodic_check_on_time _ _ _ _ H1) as [Ht1 Hs1].
  apply send_all_ready_shrinks in H2.
  pose proof (poll_protocols_shrinks (inputs ob) ob [] s2) as H3.
  assert (exists rest, acts = a1 ++ rest /\ on_time (now ob) s') as (rest & -> & Hs').
  { destruct (poll_protocols (inputs ob) ob [] s2) as [s3 a3 fb|s3 a3|s3 a3 ev|why];
      cbn in H3, Hr; simplify_eq;
      [|eauto using shrinks_on_time..].
    destruct (send_fallbacks fb (now ob) s3) as [[s4 a4]|[]|why] eqn:H4; simplify_eq.
    injection Hr as <- <-. eexists. split; [done|].
    eapply send_fallbacks_on_time; [done| |eauto using shrinks_on_time].
    unfold timeouts_ok. by rewrite (proj1 H3), (proj1 H2), Ht1. }
  split; [done|]. intros p d id r c Hp Hreq Hc Hlate. apply elem_of_app. left.
  injection H1 as <- <-. apply list_elem_of_omap. exists ((p, id), r).
  rewrite elem_of_map_to_list. split; [done|]. cbn. unfold overdue. cbn. rewrite Hp, Hc.
  by rewrite (proj2 (Z.ltb_lt _ _)).
Qed.
End behaviour.

(** ** The behaviour does not panic *)

Section laws.
Context `{InnerLaws}.

(** Pending requests have ids that were issued, inbound requests that have not
    ended have an arrival time, and a protocol that accepts requests has a
    queue. *)
Record inv (s : t) : Prop := {
  inv_pending : forall p id, is_Some (pending_requests s !! (p, id)) ->
    exists d, protocols s !! p = Some d /\ id ∈ issued (behaviour d);
  inv_arrival : forall p d id, protocols s !! p = Some d -> id ∈ live (behaviour d) ->
    is_Some (pending_responses_arrival_time s !! (p, id));
  inv_queue : forall p d, protocols s !! p = Some d -> accepts (behaviour d) = true ->
    is_Some (inbound_queue d);
}.

(** Requests, responses and feedback do not matter to the invariant, except that
    pending requests may only go. *)
Lemma inv_fewer s s' :
  inv s -> protocols s' = protocols s -> pending_requests s' ⊆ pending_requests s ->
  pending_responses_arrival_time s' = pending_responses_arrival_time s -> inv s'.
Proof.
  intros [Hp Ha Hq] Eprot Epend Earr. split; rewrite ?Eprot, ?Earr; [|done..].
  intros p id [r Hr]. apply Hp. exists r. by eapply lookup_weaken.
Qed.

(** A protocol's behaviour and the arrival times of its requests change. *)
Lemma inv_inbound p d b arrival fb s :
  inv s -> protocols s !! p = Some d -> issued (behaviour d) ⊆ issued b ->
  accepts b = accepts (behaviour d) ->
  (forall id, id ∈ live b -> is_Some (arrival !! (p, id))) ->
  (forall p' id, p' <> p -> arrival !! (p', id) = pending_responses_arrival_time s !! (p', id)) ->
  inv (with_inbound arrival fb (with_behaviour p d b s)).
Proof.
  intros [Hp Ha Hq] Hpd Hi Hacc Hl Hother. split; cbn.
  - intros p' id Hr. destruct (Hp _ _ Hr) as (d' & Hd' & Hid).
    destruct (decide (p = p')) as [<-|]; [|rewrite lookup_insert_ne by done; eauto].
    rewrite lookup_insert_eq. eexists. split; [done|]. cbn. set_solver.
  - intros p' d' id. destruct (decide (p = p')) as [<-|].
    + rewrite lookup_insert_eq. intros [= <-]. apply Hl.
    + rewrite lookup_insert_ne by done. rewrite Hother by done. apply Ha.
  - intros p' d'. destruct (decide (p = p')) as [<-|].
    + rewrite lookup_insert_eq. intros [= <-]. cbn. rewrite Hacc. by apply (Hq p).
    + rewrite lookup_insert_ne by done. apply Hq.
Qed.

(** The same when no request of a remote peer is concerned. *)
Lemma inv_behaviour p d b s :
  inv s -> protocols s !! p = Some d -> issued (behaviour d) ⊆ issued b ->
  live b = live (behaviour d) -> accepts b = accepts (behaviour d) ->
  inv (with_behaviour p d b s).
Proof.
  intros Hi Hpd Hiss Hl Hacc.
  apply (inv_fewer (with_inbound (pending_responses_arrival_time s) (send_feedback s)
    (with_behaviour p d b s))); [|done..].
  apply inv_inbound; [done..| |done]. intros id. rewrite Hl. by apply (inv_arrival _ Hi p d).
Qed.

Lemma dispatch_inv p d target m c fb connect now s :
  inv s -> protocols s !! p = Some d ->
  exists s' a, dispatch p d target m c fb connect now s = Ok (s', a) /\ inv s'.
Proof.
  intros Hi Hp. unfold dispatch. destruct (is_connected _ _ || _); [|eauto].
  destruct (inner_send_request (behaviour d) target m) as [b id] eqn:Hs.
  apply send_issued in Hs as (Hid & Hiss & Hlive & Hacc).
  destruct (pending_requests s !! (p, id)) as [r|] eqn:Hr.
  { destruct (inv_pending _ Hi p id) as (d' & Hd' & Hin); [by eexists|]. by simplify_eq. }
  do 2 eexists. split; [done|].
  destruct (inv_behaviour p d b s Hi Hp) as [Hpend Harr Hq]; [set_solver|done|done|].
  split; cbn; [|exact Harr|exact Hq].
  intros p' id' Hr'. destruct (decide ((p, id) = (p', id'))) as [[= <- <-]|Hne].
  - exists {| behaviour := b; inbound_queue := inbound_queue d;
              request_timeout := request_timeout d |}.
    rewrite lookup_insert_eq. split; [done|]. cbn. set_solver.
  - rewrite lookup_insert_ne in Hr' by done. by apply Hpend.
Qed.

Lemma send_with_context_inv target p ctx payload b tx connect now s :
  inv s -> exists s' a,
    send_request_with_context target p ctx payload b tx connect now s = Ok (s', a) /\ inv s'.
Proof.
  intros Hi. unfold send_request_with_context. case_match; [by apply dispatch_inv|eauto].
Qed.

Lemma broadcast_inv targets p ctx payload tx connect now s :
  inv s -> exists s' a,
    broadcast_message targets p ctx payload tx connect now s = Ok (s', a) /\ inv s'.
Proof.
  revert s. induction targets as [|target targets IH]; intros s Hi; cbn [broadcast_message]; [eauto|].
  destruct tx as [tx|].
  - destruct (send_with_context_inv target p ctx payload true tx connect now s Hi)
      as (s1 & a1 & -> & Hi1). cbn [mbind outcome_bind].
    destruct (IH s1 Hi1) as (s2 & a2 & -> & Hi2). cbn. eauto.
  - destruct (send_with_context_inv target p ctx payload true (fresh s) connect now
      (with_responses (pending_responses s) (S (fresh s)) s)) as (s1 & a1 & -> & Hi1).
    { by eapply inv_fewer. }
    cbn [mbind outcome_bind]. destruct (IH s1 Hi1) as (s2 & a2 & -> & Hi2). cbn. eauto.
Qed.

Lemma send_all_ready_inv xs s s' a : send_all_ready s xs = (s', a) -> inv s -> inv s'.
Proof.
  revert s s' a. induction xs as [|x xs IH]; intros s s' a; cbn; [by intros [= <- <-]|].
  destruct (send_ready s x) as [s1 a1] eqn:Hy1. destruct (send_all_ready s1 xs) as [s2 a2] eqn:Hy2.
  intros [= <- <-] Hi. eapply IH; [done|]. revert Hy1. unfold send_ready.
  destruct (take_response x.1 (pending_responses s)) as [[pr rest]|]; [|by intros [= <- <-]].
  assert (inv (with_responses rest (fresh s) s)) as Hi0 by (by eapply inv_fewer).
  destruct (x.2) as [[[payload|] feedback]|]; [|by intros [= <- <-]..].
  case_match eqn:Hp; [|by intros [= <- <-]].
  destruct (inner_send_response _ _ _) as [b ok] eqn:Hs. intros [= <- <-].
  apply respond_issued in Hs as (E1 & E2 & E3).
  assert (inv (with_behaviour (pr_protocol pr) p b (with_responses rest (fresh s) s))) as Hi1
    by (apply inv_behaviour; rewrite ?E1, ?E2, ?E3; done).
  destruct ok, feedback; try done. by eapply inv_fewer.
Qed.

Definition inv_handled (h : handled) : Prop :=
  match h with Continue s _ _ | Again s _ | Return s _ _ => inv s | Crash _ => False end.

(** One event of a protocol. *)
Lemma handle_inv rep p d x b ev ob s :
  inv s -> protocols s !! p = Some d -> inner_poll (behaviour d) x = (b, Some ev) ->
  inv_handled (handle rep p d ev ob (with_behaviour p d b s)).
Proof.
  intros Hi Hp Hx. pose proof (poll_issued _ _ _ _ Hx) as [E1 E3].
  pose proof (poll_live _ _ _ _ Hx) as E2.
  destruct ev as [from id m ch|from id r|from id e|from id e|from id|]; cbn [handle];
    unfold inbound_failed, response_sent.
  - destruct E2 as (Hacc & Hid & Hlive).
    destruct (inv_queue _ Hi p d Hp Hacc) as [q Hq]. unfold receive_request. rewrite Hq.
    assert (inv (with_inbound (<[(p, id) := now ob]> (pending_responses_arrival_time s))
              (send_feedback s) (with_behaviour p d b s))) as Hi1.
    { apply inv_inbound; [done|done|by rewrite E1|done| |].
      - intros id' Hin. destruct (decide (id = id')) as [<-|Hne];
          [rewrite lookup_insert_eq; by eexists|].
        rewrite lookup_insert_ne by congruence. apply (inv_arrival _ Hi p d); [done|set_solver].
      - intros p' id' Hne. by rewrite lookup_insert_ne by congruence. }
    case_match; [done|]. by eapply inv_fewer.
  - assert (inv (with_behaviour p d b s)) as Hi1
      by (apply inv_behaviour; rewrite ?E1, ?E2, ?E3; done).
    unfold receive_response. destruct (pending_requests _ !! _) as [[st [c|] fb]|]; cbn;
      (eapply inv_fewer; [done|done|apply delete_subseteq|done]).
  - assert (inv (with_behaviour p d b s)) as Hi1
      by (apply inv_behaviour; rewrite ?E1, ?E2, ?E3; done).
    unfold receive_failure. destruct (pending_requests _ !! _) as [[st [c|] fb]|];
      [destruct e, fb as [[??]|]|..]; cbn;
      (eapply inv_fewer; [done|done|apply delete_subseteq|done]).
  - apply inv_inbound; [done|done|by rewrite E1|done| |].
    + intros id' Hin. rewrite lookup_delete_ne by set_solver.
      apply (inv_arrival _ Hi p d); [done|set_solver].
    + intros p' id' Hne. by rewrite lookup_delete_ne by congruence.
  - destruct E2 as [Hid Hlive].
    destruct (inv_arrival _ Hi p d id Hp Hid) as [at_ Hat]. cbn. rewrite Hat. cbn.
    apply inv_inbound; [done|done|by rewrite E1|done| |].
    + intros id' Hin. rewrite lookup_delete_ne by set_solver.
      apply (inv_arrival _ Hi p d); [done|set_solver].
    + intros p' id' Hne. by rewrite lookup_delete_ne by congruence.
  - cbn. apply inv_behaviour; rewrite ?E1, ?E2, ?E3; done.
Qed.

Lemma poll_protocols_inv rep xs ob fb s : inv s -> inv_handled (poll_protocols rep xs ob fb s).
Proof.
  revert fb s. induction xs as [|[p x] xs IH]; intros fb s Hi; cbn [poll_protocols]; [done|].
  destruct (protocols s !! p) as [d|] eqn:Hp; [|by apply IH].
  destruct (inner_poll (behaviour d) x) as [b [ev|]] eqn:Hx.
  - pose proof (handle_inv rep p d x b ev ob s Hi Hp Hx) as Hh.
    destruct (handle rep p d ev ob (with_behaviour p d b s)) as [s1 a1 new|s1 a1|s1 a1 ev1|why];
      cbn in Hh |- *; try done.
    specialize (IH (fb ++ new) s1 Hh). by destruct (poll_protocols _ xs ob (fb ++ new) s1).
  - apply IH. pose proof (poll_issued _ _ _ _ Hx) as [E1 E3].
    pose proof (poll_live _ _ _ _ Hx) as E2. apply inv_behaviour; rewrite ?E1, ?E2, ?E3; done.
Qed.

Lemma send_fallbacks_inv fb now s :
  inv s -> exists s' a, send_fallbacks fb now s = Ok (s', a) /\ inv s'.
Proof.
  revert s. induction fb as [|[[[target p] request] c] fb IH]; intros s Hi;
    cbn [send_fallbacks]; [eauto|].
  destruct (protocols s !! p) as [d|] eqn:Hp.
  - destruct (dispatch_inv p d target (default_message request) c None ImmediateError now s Hi Hp)
      as (s1 & a1 & Hd & Hi1).
    unfold send_request_inner. rewrite Hd. cbn [mbind outcome_bind].
    destruct (IH s1 Hi1) as (s2 & a2 & -> & Hi2). cbn. eauto.
  - cbn [mbind outcome_bind]. destruct (IH s Hi) as (s2 & a2 & -> & Hi2). cbn. eauto.
Qed.

Lemma turn_inv rep ob s :
  inv s -> exists s' a, result_state (turn rep ob s) = Some (s', a) /\ inv s'.
Proof.
  intros Hi. unfold turn. destruct (if tick ob then _ else _) as [s1 a1] eqn:Hy1.
  assert (inv s1) as Hi1.
  { destruct (tick ob); injection Hy1 as <- <-; [|done].
    eapply inv_fewer; [done|done|apply map_filter_subseteq|done]. }
  destruct (send_all_ready s1 (ready ob)) as [s2 a2] eqn:Hy2.
  pose proof (send_all_ready_inv _ _ _ _ Hy2 Hi1) as Hi2.
  pose proof (poll_protocols_inv rep (inputs ob) ob [] s2 Hi2) as Hp.
  destruct (poll_protocols rep (inputs ob) ob [] s2) as [s3 a3 fb|s3 a3|s3 a3 ev|why];
    cbn in Hp |- *; [|eauto..|done].
  destruct (send_fallbacks_inv fb (now ob) s3 Hp) as (s4 & a4 & -> & Hi4). cbn. eauto.
Qed.

Lemma rr_poll_inv rep obs s :
  inv s -> exists s' a, result_state (poll rep obs s) = Some (s', a) /\ inv s'.
Proof.
  revert s. induction obs as [|ob obs IH]; intros s Hi; cbn [poll]; [cbn; eauto|].
  destruct (turn_inv rep ob s Hi) as (s1 & a1 & Hr & Hi1).
  destruct (turn rep ob s) as [s1' a1'|s1' a1'|s1' a1' ev|why]; cbn in Hr |- *; simplify_eq; eauto.
  destruct (IH s1 Hi1) as (s2 & a2 & Hr2 & Hi2).
  destruct (poll rep obs s1); cbn in Hr2 |- *; simplify_eq; eauto.
Qed.

Lemma rr_step_inv rep o s : inv s -> exists s' a, step rep o s = Ok (s', a) /\ inv s'.
Proof.
  intros Hi. destruct o as [target p request fb tx connect now| | |obs]; cbn [step].
  - unfold send_request. case_match; [by apply dispatch_inv|eauto].
  - by apply send_with_context_inv.
  - by apply broadcast_inv.
  - destruct (rr_poll_inv rep obs s Hi) as (s' & a & Hr & Hi').
    destruct (poll rep obs s); cbn in Hr; simplify_eq; eauto.
Qed.

(** Registration. *)
Lemma register_ok cs ps :
  (exists ps', register cs ps = Ok ps') <->
  NoDup (name <$> cs) /\ forall c, c ∈ cs -> ps !! name c = None.
Proof.
  revert ps. induction cs as [|c cs IH]; intros ps; cbn [register fmap list_fmap].
  { split; [|eauto]. intros _. split; [constructor|]. by intros c ?%elem_of_nil. }
  destruct (ps !! name c) as [d|] eqn:Hc.
  { split; [by intros [? [=]]|]. intros [_ Hn]. specialize (Hn c ltac:(constructor)). congruence. }
  rewrite IH, NoDup_cons. split.
  - intros [Hnd Hn]. split; [split; [|done]|].
    + intros (c' & Heq & Hc')%list_elem_of_fmap. specialize (Hn c' Hc').
      by rewrite <- Heq, lookup_insert_eq in Hn.
    + intros c' [->|Hc']%elem_of_cons; [done|]. specialize (Hn c' Hc').
      by apply lookup_insert_None in Hn as [??].
  - intros [[Hnotin Hnd] Hn]. split; [done|]. intros c' Hc'. rewrite lookup_insert_ne.
    + apply Hn. by constructor.
    + intros Heq. apply Hnotin. apply list_elem_of_fmap. eauto.
Qed.

Lemma register_details cs ps ps' p d :
  register cs ps = Ok ps' -> ps' !! p = Some d ->
  ps !! p = Some d \/ exists c, c ∈ cs /\ name c = p /\ d = details c.
Proof.
  revert ps. induction cs as [|c cs IH]; intros ps; cbn [register]; [intros [= <-]; auto|].
  case_match; [done|]. intros Hr Hp. destruct (IH _ Hr Hp) as [Hl|(c' & Hc' & Hn & Hd)].
  - apply lookup_insert_Some in Hl as [[Hn Hd]|[_ Hl]]; [|auto]. right. exists c.
    split; [constructor|]. done.
  - right. exists c'. split; [by constructor|done].
Qed.

Lemma rr_new_inv cs s : new cs = Ok s -> inv s.
Proof.
  unfold new. intros Hn. inv_ok.
  assert (forall p d, a !! p = Some d -> exists c, d = details c) as Hd.
  { intros p d Hp. destruct (register_details _ _ _ _ _ Ha Hp) as [?%lookup_empty_Some|(c & _ & _ & ?)];
      [done|eauto]. }
  split; cbn.
  - intros p id [r Hr]. by rewrite lookup_empty in Hr.
  - intros p d id Hp. destruct (Hd p d Hp) as [c ->]. cbn.
    rewrite (proj1 (proj2 (new_issued _ _ _ _))). set_solver.
  - intros p d Hp. destruct (Hd p d Hp) as [c ->]. cbn.
    rewrite (proj2 (proj2 (new_issued _ _ _ _))). by rewrite bool_decide_eq_true.
Qed.

Lemma rr_run_inv rep os s : inv s -> exists s' acts, run rep os s = Ok (s', acts) /\ inv s'.
Proof.
  revert s. induction os as [|o os IH]; intros s Hi; cbn [run]; [eauto|].
  destruct (rr_step_inv rep o s Hi) as (s1 & a1 & -> & Hi1). cbn [mbind outcome_bind].
  destruct (IH s1 Hi1) as (s2 & a2 & -> & Hi2). cbn. eauto.
Qed.

Lemma rr_new_ok cs : (exists s, new cs = Ok s) <-> NoDup (name <$> cs).
Proof.
  pose proof (register_ok cs ∅) as Hr. unfold new. split.
  - intros [s Hs]. inv_ok. apply Hr. eauto.
  - intros Hnd. destruct (proj2 Hr) as [ps ->]; [|cbn; eauto].
    split; [done|]. intros c _. apply lookup_empty.
Qed.

(** the behaviour of the network is set up exactly when the protocols have
    different names, and from then on none of its operations panics, whatever it
    is asked and whatever the network does: the ids of pending requests are
    unique, and every response that has been sent belongs to a request that
    arrived. *)
Theorem behaviour_total rep cs :
  ((exists s, new cs = Ok s) <-> NoDup (name <$> cs)) /\
  (forall s os, new cs = Ok s -> exists s' acts, run rep os s = Ok (s', acts)).
Proof.
  split; [apply rr_new_ok|]. intros s os Hs%rr_new_inv.
  destruct (rr_run_inv rep os s Hs) as (s' & acts & Hr & _). eauto.
Qed.
End laws.
End RequestResponses.
