(* ===== verification/Connections.v ===== *)
(** * Connections

    [Connections] is the part of [NetworkBehaviour for RequestResponsesBehaviour]
    ([crates/client/network/src/request_responses.rs]) that the swarm calls when
    connections are made, close, or have something to say: it passes all of it to the
    behaviours of the protocols, and joins what they run on a new connection in a
    [MultiHandler].  [connections_accepted] says that none of this panics when no two
    protocols share a name, [shared_name_panics] what happens when they do.

    [KadConnections] is the same part of [NetworkBehaviour for DiscoveryBehaviour]
    ([discovery.rs]), which leaves connections to Kademlia when it is on. *)

From Stdlib Require Import ZArith Lia Strings.Byte.
From stdpp Require Import base gmap strings numbers list.
From S2P Require Import Prelude Wire Messages Codec NetConfig Discovery RequestResponses.

Local Open Scope Z_scope.

Module Connections.
Import RequestResponses.

(** ** The rest of the interface of [libp2p] *)

(** What a behaviour of one protocol runs on a connection ([Handler]), what the swarm says
    of connections, and [MultiHandler::try_from_iter]. *)
Class ConnectionBehaviour `{InnerBehaviour} : Type := {
  Handler : Type;
  MultiHandler : Type;
  connection : Type;
  swarm_event : Type;
  handler_event : Type;
  (** [handle_established_inbound_connection] and [.._outbound_connection]; [None] is
      [ConnectionDenied]. *)
  inner_inbound_connection : Inner -> PeerId -> connection -> Inner * option Handler;
  inner_outbound_connection : Inner -> PeerId -> connection -> Inner * option Handler;
  inner_on_swarm_event : Inner -> swarm_event -> Inner;
  inner_on_handler_event : Inner -> PeerId -> handler_event -> Inner;
  try_from_iter : list (ProtocolName * Handler) -> option MultiHandler;
}.

(** What an event of the network leaves alone: the ids it has given out and the requests
    of remote peers that have not ended are those the last poll has told of. *)
Definition same_requests `{InnerLaws} (b b' : Inner) : Prop :=
  issued b' = issued b /\ live b' = live b /\ accepts b' = accepts b.

(** What is documented of it: a handler listens to the names its behaviour was made with, if
    it accepts requests, and it is an error for two handlers to share a name. *)
Class ConnectionLaws `{InnerLaws} `{!ConnectionBehaviour} : Type := {
  serves : Inner -> list ProtocolName;
  listens : Handler -> list ProtocolName;
  new_serves c names full t : serves (inner_new c names full t) = if full then names else [];
  send_serves b p m b' id : inner_send_request b p m = (b', id) -> serves b' = serves b;
  respond_serves b c m b' ok : inner_send_response b c m = (b', ok) -> serves b' = serves b;
  poll_serves b x b' ev : inner_poll b x = (b', ev) -> serves b' = serves b;
  inbound_connection_law b p c b' h :
    inner_inbound_connection b p c = (b', h) ->
    same_requests b b' /\ serves b' = serves b /\ (forall h', h = Some h' -> listens h' = serves b);
  outbound_connection_law b p c b' h :
    inner_outbound_connection b p c = (b', h) ->
    same_requests b b' /\ serves b' = serves b /\ (forall h', h = Some h' -> listens h' = serves b);
  swarm_event_law b ev :
    same_requests b (inner_on_swarm_event b ev) /\ serves (inner_on_swarm_event b ev) = serves b;
  handler_event_law b p ev :
    same_requests b (inner_on_handler_event b p ev) /\
    serves (inner_on_handler_event b p ev) = serves b;
  try_from_iter_law l : is_Some (try_from_iter l) <-> NoDup (l ≫= fun x => listens x.2);
}.

(** ** The operations *)

Section operations.
Context `{ConnectionBehaviour} `{!Multiaddrs}.

Definition with_inner (f : Inner -> Inner) (d : ProtocolDetails) : ProtocolDetails :=
  {| behaviour := f (behaviour d); inbound_queue := inbound_queue d;
     request_timeout := request_timeout d |}.

(** All behaviours change. *)
Definition with_inners (f : Inner -> Inner) (s : t) : t :=
  {| protocols := with_inner f <$> protocols s; pending_requests := pending_requests s;
     pending_responses := pending_responses s;
     pending_responses_arrival_time := pending_responses_arrival_time s;
     send_feedback := send_feedback s; fresh := fresh s |}.

(** The handlers of the protocols that do not deny the connection. *)
Definition handlers (make : Inner -> Inner * option Handler) (s : t) : list (ProtocolName * Handler) :=
  omap (fun x => h ← (make (behaviour x.2)).2; Some (x.1, h)) (map_to_list (protocols s)).

Definition only_possible_error : string :=
  "Protocols are in a HashMap and there can be at most one handler per protocol name, which is the only possible error; qed".

Definition establish (make : Inner -> Inner * option Handler) (s : t) :
  outcome Empty_set (t * MultiHandler) :=
  m ← expect only_possible_error (try_from_iter (handlers make s));
  Ok (with_inners (fun b => (make b).1) s, m).

(** [handle_pending_inbound_connection] and [handle_pending_outbound_connection]: nothing is
    denied, and no address is known. *)
Definition handle_pending_inbound_connection (c : connection) (s : t) : t * bool := (s, true).
Definition handle_pending_outbound_connection (p : option PeerId) (addresses : list Multiaddr)
  (s : t) : t * option (list Multiaddr) := (s, Some []).

(** [handle_established_inbound_connection]. *)
Definition handle_established_inbound_connection (p : PeerId) (c : connection) (s : t) :
  outcome Empty_set (t * MultiHandler) :=
  establish (fun b => inner_inbound_connection b p c) s.

(** [handle_established_outbound_connection]. *)
Definition handle_established_outbound_connection (p : PeerId) (c : connection) (s : t) :
  outcome Empty_set (t * MultiHandler) :=
  establish (fun b => inner_outbound_connection b p c) s.

(** [on_swarm_event]. *)
Definition on_swarm_event (ev : swarm_event) (s : t) : t :=
  with_inners (fun b => inner_on_swarm_event b ev) s.

(** [on_connection_handler_event]: the event names the protocol whose handler it is from. *)
Definition on_connection_handler_event (p : PeerId) (p_name : ProtocolName) (ev : handler_event)
  (s : t) : t :=
  match protocols s !! p_name with
  | Some d => with_behaviour p_name d (inner_on_handler_event (behaviour d) p ev) s
  | None => s
  end.

(** ** All that happens to the behaviour *)

Inductive event : Type :=
  | Own (o : op)
  | Inbound (p : PeerId) (c : connection)
  | Outbound (p : PeerId) (c : connection)
  | Swarm (ev : swarm_event)
  | FromHandler (p : PeerId) (p_name : ProtocolName) (ev : handler_event).

Variable peer_reputation : PeerId -> Z.

Definition on_event (e : event) (s : t) : outcome Empty_set (t * list action) :=
  match e with
  | Own o => step peer_reputation o s
  | Inbound p c => '(s, _) ← handle_established_inbound_connection p c s; Ok (s, [])
  | Outbound p c => '(s, _) ← handle_established_outbound_connection p c s; Ok (s, [])
  | Swarm ev => Ok (on_swarm_event ev s, [])
  | FromHandler p p_name ev => Ok (on_connection_handler_event p p_name ev s, [])
  end.

Fixpoint on_events (es : list event) (s : t) : outcome Empty_set (t * list action) :=
  match es with
  | [] => Ok (s, [])
  | e :: es =>
      '(s, a) ← on_event e s;
      '(s, a') ← on_events es s;
      Ok (s, a ++ a')
  end.
End operations.
(** ** The names that the protocols serve *)

Section laws.
Context `{CL : ConnectionLaws}.

Definition served (s : t) : gmap ProtocolName (list ProtocolName) :=
  (fun d => serves (behaviour d)) <$> protocols s.

Lemma served_with_behaviour p d b s :
  protocols s !! p = Some d -> serves b = serves (behaviour d) ->
  served (with_behaviour p d b s) = served s.
Proof.
  intros Hp Hb. unfold served. cbn. rewrite fmap_insert. cbn. apply insert_id.
  by rewrite lookup_fmap, Hp, Hb.
Qed.

Lemma dispatch_served p d target m c fb connect now s s' a :
  protocols s !! p = Some d -> dispatch p d target m c fb connect now s = Ok (s', a) ->
  served s' = served s.
Proof.
  intros Hp. unfold dispatch. destruct (is_connected _ _ || _); [|by intros [= <- <-]].
  destruct (inner_send_request (behaviour d) target m) as [b id] eqn:Hs.
  destruct (pending_requests s !! (p, id)); [done|]. intros [= <- <-].
  apply (served_with_behaviour p d b s Hp). by eapply send_serves.
Qed.

Lemma send_context_served target p ctx payload b tx connect now s s' a :
  send_request_with_context target p ctx payload b tx connect now s = Ok (s', a) ->
  served s' = served s.
Proof.
  unfold send_request_with_context. destruct (protocols s !! p) as [d|] eqn:Hp; [|by intros [= <- <-]].
  by apply dispatch_served.
Qed.

Lemma broadcast_served targets p ctx payload tx connect now s s' a :
  broadcast_message targets p ctx payload tx connect now s = Ok (s', a) -> served s' = served s.
Proof.
  revert s s' a. induction targets as [|target targets IH]; intros s s' a; cbn [broadcast_message];
    [by intros [= <- <-]|].
  destruct tx as [tx|]; intros Hb; inv_ok; apply IH in Ha0 as ->;
    by apply send_context_served in Ha as ->.
Qed.

Lemma send_ready_served s x s' a : send_ready s x = (s', a) -> served s' = served s.
Proof.
  unfold send_ready. destruct (take_response x.1 (pending_responses s)) as [[pr rest]|];
    [|by intros [= <- <-]].
  destruct x.2 as [[[payload|] feedback]|]; [|by intros [= <- <-]..].
  destruct (protocols _ !! _) as [d|] eqn:Hd; [|by intros [= <- <-]].
  destruct (inner_send_response _ _ _) as [b ok] eqn:Hr. intros [= <- <-].
  apply respond_serves in Hr. pose proof (served_with_behaviour _ _ _ _ Hd Hr) as Hs.
  destruct ok; [destruct feedback|]; exact Hs.
Qed.

Lemma send_all_ready_served xs s s' a : send_all_ready s xs = (s', a) -> served s' = served s.
Proof.
  revert s s' a. induction xs as [|x xs IH]; intros s s' a; cbn; [by intros [= <- <-]|].
  destruct (send_ready s x) as [s1 a1] eqn:Hy1. destruct (send_all_ready s1 xs) as [s2 a2] eqn:Hy2.
  intros [= <- <-]. rewrite (IH _ _ _ Hy2). by eapply send_ready_served.
Qed.

Definition handled_served (s : t) (h : handled) : Prop :=
  match h with Continue s' _ _ | Again s' _ | Return s' _ _ => served s' = served s | Crash _ => True end.

Lemma handle_served rep p d ev ob s : handled_served s (handle rep p d ev ob s).
Proof.
  destruct ev; cbn [handle];
    unfold receive_request, receive_response, receive_failure, inbound_failed, response_sent;
    by repeat case_match.
Qed.

Lemma poll_protocols_served rep xs ob fb s : handled_served s (poll_protocols rep xs ob fb s).
Proof.
  revert fb s. induction xs as [|[p x] xs IH]; intros fb s; cbn [poll_protocols]; [done|].
  destruct (protocols s !! p) as [d|] eqn:Hp; [|by apply IH].
  destruct (inner_poll (behaviour d) x) as [b ev] eqn:Hx. apply poll_serves in Hx.
  pose proof (served_with_behaviour _ _ _ _ Hp Hx) as Hb. destruct ev as [ev|].
  - pose proof (handle_served rep p d ev ob (with_behaviour p d b s)) as Hh.
    destruct (handle _ _ _ _ _ _) as [s1 a1 new|s1 a1|s1 a1 ev1|why]; cbn [handled_served] in Hh |- *;
      [|congruence..|done].
    specialize (IH (fb ++ new) s1).
    destruct (poll_protocols rep xs ob (fb ++ new) s1); cbn [handled_served] in IH |- *;
      congruence || done.
  - specialize (IH fb (with_behaviour p d b s)).
    destruct (poll_protocols _ _ _ _ _); cbn [handled_served] in IH |- *;
      congruence || done.
Qed.

Lemma send_fallbacks_served fb now s s' a :
  send_fallbacks fb now s = Ok (s', a) -> served s' = served s.
Proof.
  revert s s' a. induction fb as [|[[[target p] request] c] fb IH]; intros s s' a;
    cbn [send_fallbacks]; [by intros [= <- <-]|].
  intros Hb. inv_ok. apply IH in Ha0 as ->. destruct (protocols s !! p) as [d|] eqn:Hp.
  - by eapply dispatch_served.
  - by injection Ha as <- <-.
Qed.

Lemma turn_served rep ob s s' a :
  result_state (turn rep ob s) = Some (s', a) -> served s' = served s.
Proof.
  unfold turn. destruct (if tick ob then _ else _) as [s1 a1] eqn:Hy1.
  destruct (send_all_ready s1 (ready ob)) as [s2 a2] eqn:Hy2. apply send_all_ready_served in Hy2.
  assert (served s1 = served s) as Hs1 by (destruct (tick ob); by injection Hy1 as <- <-).
  pose proof (poll_protocols_served rep (inputs ob) ob [] s2) as Hy3.
  destruct (poll_protocols _ _ _ _ _) as [s3 a3 fb|s3 a3|s3 a3 ev|why]; cbn [handled_served result_state] in Hy3 |- *;
    [|intros [= <- _]; congruence..|done].
  destruct (send_fallbacks fb (now ob) s3) as [[s4 a4]|[]|why] eqn:Hy4; [|done].
  apply send_fallbacks_served in Hy4. intros [= <- _]. congruence.
Qed.

Lemma poll_served rep obs s s' a :
  result_state (poll rep obs s) = Some (s', a) -> served s' = served s.
Proof.
  revert s s' a. induction obs as [|ob obs IH]; intros s s' a; cbn [poll]; [by intros [= <- _]|].
  destruct (turn rep ob s) as [s1 a1|s1 a1|s1 a1 ev|why] eqn:Ht;
    pose proof (turn_served rep ob s) as Hy1; rewrite Ht in Hy1; cbn in Hy1;
    [by apply Hy1| |by apply Hy1|done].
  specialize (Hy1 s1 a1 eq_refl). specialize (IH s1).
  destruct (poll rep obs s1) as [s2 a2|s2 a2|s2 a2 ev|why]; cbn in IH |- *;
    [intros [= <- _]; rewrite <- Hy1; by eapply IH..|done].
Qed.

Lemma step_served rep o s s' a : step rep o s = Ok (s', a) -> served s' = served s.
Proof.
  destruct o as [target p request fb tx connect now| | |obs]; cbn [step].
  - unfold send_request. destruct (protocols s !! p) as [d|] eqn:Hp; [|by intros [= <- <-]].
    by apply dispatch_served.
  - apply send_context_served.
  - apply broadcast_served.
  - pose proof (poll_served rep obs s) as Hp. destruct (poll rep obs s); cbn in Hp;
      intros [= <- <-]; by eapply Hp.
Qed.
(** ** Connections *)

Lemma with_inners_served f s :
  (forall b, serves (f b) = serves b) -> served (with_inners f s) = served s.
Proof.
  intros Hf. unfold served, with_inners. cbn. rewrite <- map_fmap_compose.
  apply map_fmap_ext. intros p d _. cbn. apply Hf.
Qed.

Lemma with_inners_inv f s :
  (forall b, same_requests b (f b)) -> inv s -> inv (with_inners f s).
Proof.
  intros Hf [Hp Ha Hq]. split; cbn.
  - intros p id Hr. destruct (Hp p id Hr) as (d & Hd & Hid). exists (with_inner f d).
    rewrite lookup_fmap, Hd. split; [done|]. cbn. by rewrite (proj1 (Hf (behaviour d))).
  - intros p d' id Hd. rewrite lookup_fmap in Hd. apply fmap_Some in Hd as (d & Hd & ->). cbn.
    rewrite (proj1 (proj2 (Hf (behaviour d)))). by apply (Ha p).
  - intros p d' Hd. rewrite lookup_fmap in Hd. apply fmap_Some in Hd as (d & Hd & ->). cbn.
    rewrite (proj2 (proj2 (Hf (behaviour d)))). by apply (Hq p).
Qed.

(** A way to make handlers as the behaviours do it. *)
Definition lawful (make : Inner -> Inner * option Handler) : Prop :=
  forall b, same_requests b (make b).1 /\ serves (make b).1 = serves b /\
    (forall h, (make b).2 = Some h -> listens h = serves b).

Lemma inbound_lawful p c : lawful (fun b => inner_inbound_connection b p c).
Proof.
  intros b. destruct (inner_inbound_connection b p c) as [b' h] eqn:Hb.
  exact (inbound_connection_law _ _ _ _ _ Hb).
Qed.

Lemma outbound_lawful p c : lawful (fun b => inner_outbound_connection b p c).
Proof.
  intros b. destruct (inner_outbound_connection b p c) as [b' h] eqn:Hb.
  exact (outbound_connection_law _ _ _ _ _ Hb).
Qed.

(** The names the handlers of a connection listen to are among those that are served. *)
Lemma handlers_names make s :
  lawful make ->
  (handlers make s ≫= fun x => listens x.2) `sublist_of`
  (map_to_list (protocols s) ≫= fun x => serves (behaviour x.2)).
Proof.
  intros Hm. unfold handlers. induction (map_to_list (protocols s)) as [|[p d] l IH]; [done|].
  cbn. destruct (Hm (behaviour d)) as (_ & _ & Hl). destruct (make (behaviour d)).2 as [h|]; cbn.
  - rewrite (Hl h eq_refl). by apply sublist_app.
  - by apply sublist_inserts_l.
Qed.

(** No two protocols serve the same name. *)
Definition distinct (names : gmap ProtocolName (list ProtocolName)) : Prop :=
  NoDup (map_to_list names ≫= snd).

Lemma served_names s :
  (map_to_list (protocols s) ≫= fun x => serves (behaviour x.2)) ≡ₚ (map_to_list (served s) ≫= snd).
Proof.
  unfold served. rewrite map_to_list_fmap.
  induction (map_to_list (protocols s)) as [|[p d] l IH]; [done|]. cbn. by rewrite IH.
Qed.

Lemma establish_ok make s :
  lawful make -> distinct (served s) -> inv s ->
  exists s' m, establish make s = Ok (s', m) /\ served s' = served s /\ inv s'.
Proof.
  intros Hm Hd Hi. unfold establish.
  destruct (proj2 (try_from_iter_law (handlers make s))) as [m ->].
  - eapply sublist_NoDup; [|by apply handlers_names]. by rewrite served_names.
  - cbn [expect mbind outcome_bind]. do 2 eexists. split; [done|]. split.
    + apply with_inners_served. intros b. apply Hm.
    + apply with_inners_inv; [|done]. intros b. apply Hm.
Qed.

Lemma on_event_ok rep e s :
  distinct (served s) -> inv s ->
  exists s' a, on_event rep e s = Ok (s', a) /\ served s' = served s /\ inv s'.
Proof.
  intros Hd Hi. destruct e as [o|p c|p c|ev|p p_name ev]; cbn [on_event].
  - destruct (rr_step_inv rep o s Hi) as (s' & a & Hs & Hi'). exists s', a.
    split; [done|]. split; [by eapply step_served|done].
  - destruct (establish_ok _ s (inbound_lawful p c) Hd Hi) as (s' & m & Hs & ? & ?).
    exists s', []. unfold handle_established_inbound_connection. by rewrite Hs.
  - destruct (establish_ok _ s (outbound_lawful p c) Hd Hi) as (s' & m & Hs & ? & ?).
    exists s', []. unfold handle_established_outbound_connection. by rewrite Hs.
  - do 2 eexists. split; [done|]. split.
    + apply with_inners_served. intros b. apply swarm_event_law.
    + apply with_inners_inv; [|done]. intros b. apply swarm_event_law.
  - do 2 eexists. split; [done|]. unfold on_connection_handler_event.
    destruct (protocols s !! p_name) as [d|] eqn:Hp; [|done].
    destruct (handler_event_law (behaviour d) p ev) as [(Hiss & Hlive & Hacc) Hs]. split.
    + by apply served_with_behaviour.
    + apply inv_behaviour; [done|done|by rewrite Hiss|done|done].
Qed.

Lemma on_events_ok rep es s :
  distinct (served s) -> inv s ->
  exists s' acts, on_events rep es s = Ok (s', acts) /\ served s' = served s /\ inv s'.
Proof.
  revert s. induction es as [|e es IH]; intros s Hd Hi; cbn [on_events]; [eauto|].
  destruct (on_event_ok rep e s Hd Hi) as (s1 & a1 & -> & Hs1 & Hi1). cbn [mbind outcome_bind].
  rewrite <- Hs1 in Hd. destruct (IH s1 Hd Hi1) as (s2 & a2 & -> & Hs2 & Hi2). cbn.
  do 2 eexists. split; [done|]. split; [congruence|done].
Qed.

(** ** Registration *)

(** The names a protocol is registered with that requests of remote peers can use. *)
Definition registered (c : ProtocolConfig) : list ProtocolName :=
  if bool_decide (is_Some (cfg_inbound_queue c)) then name c :: fallback_names c else [].

Lemma details_serves c : serves (behaviour (details c)) = registered c.
Proof. unfold registered. cbn. by rewrite new_serves. Qed.

Lemma register_served cs ps ps' :
  register cs ps = Ok ps' ->
  ((map_to_list ps' ≫= fun x => serves (behaviour x.2)) ≡ₚ
   (cs ≫= registered) ++ (map_to_list ps ≫= fun x => serves (behaviour x.2))).
Proof.
  revert ps. induction cs as [|c cs IH]; intros ps; cbn [register]; [by intros [= <-]|].
  destruct (ps !! name c) eqn:Hc; [done|]. intros Hr. rewrite (IH _ Hr).
  assert (forall l : list (ProtocolName * ProtocolDetails), forall l', l ≡ₚ l' ->
    (l ≫= fun x => serves (behaviour x.2)) ≡ₚ (l' ≫= fun x => serves (behaviour x.2))) as Hperm
    by (intros l l' ->; done).
  rewrite (Hperm _ _ (map_to_list_insert ps (name c) (details c) Hc)). cbn [mbind list_bind snd].
  rewrite details_serves. solve_Permutation.
Qed.

Lemma new_served cs s :
  new cs = Ok s -> (map_to_list (served s) ≫= snd) ≡ₚ (cs ≫= registered).
Proof.
  unfold new. intros Hn. inv_ok. rewrite <- served_names. cbn.
  rewrite (register_served _ _ _ Ha), map_to_list_empty. cbn. by rewrite app_nil_r.
Qed.

(** When the protocols have different names, fallback names included, the behaviour never
    panics: not in its own operations, and not when connections are made, however many
    protocols accept them; the callers that wait are not touched by what happens to
    connections. *)
Theorem connections_accepted rep cs s es :
  new cs = Ok s -> NoDup (cs ≫= registered) ->
  exists s' acts, on_events rep es s = Ok (s', acts).
Proof.
  intros Hs Hnd. destruct (on_events_ok rep es s) as (s' & acts & Hr & _).
  - unfold distinct. by rewrite (new_served cs s Hs).
  - by eapply rr_new_inv.
  - eauto.
Qed.

(** The names need to be different: [new] refuses a protocol that is given twice, but not
    a fallback name that is the name of another protocol.  Then the first connection that
    all protocols accept panics, whatever has happened before. *)
Theorem shared_name_panics rep cs s os s' acts p c :
  new cs = Ok s -> run rep os s = Ok (s', acts) -> ~ NoDup (cs ≫= registered) ->
  (forall b, is_Some (inner_inbound_connection b p c).2) ->
  handle_established_inbound_connection p c s' = Panic only_possible_error.
Proof.
  intros Hs Hr Hdup Hall. unfold handle_established_inbound_connection, establish.
  assert (served s' = served s) as Hserved.
  { clear Hs. revert s acts Hr. induction os as [|o os IH]; intros s acts; cbn [run];
      [by intros [= <- _]|].
    intros Hr. inv_ok. rewrite (IH _ _ Ha0). by eapply step_served. }
  destruct (try_from_iter (handlers _ s')) as [m|] eqn:Hm; [|done]. exfalso.
  assert (is_Some (try_from_iter (handlers (fun b => inner_inbound_connection b p c) s'))) as Hok
    by (rewrite Hm; by eexists).
  apply try_from_iter_law in Hok. apply Hdup.
  rewrite <- (new_served cs s Hs), <- Hserved, <- served_names.
  assert ((handlers (fun b => inner_inbound_connection b p c) s' ≫= fun x => listens x.2) =
    (map_to_list (protocols s') ≫= fun x => serves (behaviour x.2))) as <-; [|done].
  unfold handlers. clear -Hall. induction (map_to_list (protocols s')) as [|[q d] l IH]; [done|].
  cbn. destruct (inbound_lawful p c (behaviour d)) as (_ & _ & Hl).
  destruct (Hall (behaviour d)) as [h Hh]. rewrite Hh in *. cbn. by rewrite (Hl h eq_refl), IH.
Qed.
End laws.
End Connections.

(** ** Connections of the discovery behaviour *)

Module KadConnections.
Import Discovery.

(** What Kademlia does with connections; [None] is [ConnectionDenied].  mDNS is not asked. *)
Class KadConnections `{KademliaDht} : Type := {
  KadHandler : Type;
  kad_connection : Type;
  kad_handler_event : Type;
  kad_inbound_connection : Kad -> PeerId -> kad_connection -> Kad * option KadHandler;
  kad_outbound_connection : Kad -> PeerId -> kad_connection -> Kad * option KadHandler;
  (** [Ok] or [ConnectionDenied], before the peer is known. *)
  kad_pending_inbound : Kad -> kad_connection -> Kad * bool;
  kad_on_handler_event : Kad -> PeerId -> kad_handler_event -> Kad;
}.

Section operations.
Context `{KadConnections}.

(** [Toggle]: a disabled behaviour takes every connection, with no handler. *)
Definition toggle {R} (f : Kad -> Kad * R) (off : R) (s : t) : t * R :=
  match kademlia s with
  | Some k => let '(k, r) := f k in (with_dht (Some k) (mdns s) s, r)
  | None => (s, off)
  end.

(** [ToggleConnectionHandler]: the handler, unless Kademlia is off. *)
Definition enabled (r : Kad * option KadHandler) : Kad * option (option KadHandler) :=
  (r.1, Some <$> r.2).

Definition handle_established_inbound_connection (p : PeerId) (c : kad_connection) (s : t) :
  t * option (option KadHandler) :=
  toggle (fun k => enabled (kad_inbound_connection k p c)) (Some None) s.

Definition handle_established_outbound_connection (p : PeerId) (c : kad_connection) (s : t) :
  t * option (option KadHandler) :=
  toggle (fun k => enabled (kad_outbound_connection k p c)) (Some None) s.

Definition handle_pending_inbound_connection (c : kad_connection) (s : t) : t * bool :=
  toggle (fun k => kad_pending_inbound k c) true s.

Definition on_connection_handler_event (p : PeerId) (ev : kad_handler_event) (s : t) : t :=
  (toggle (fun k => (kad_on_handler_event k p ev, tt)) tt s).1.

Lemma toggle_calm {R} (f : Kad -> Kad * R) off s : calm s (toggle f off s).1.
Proof.
  unfold toggle. destruct (kademlia s) as [k|]; [|done]. destruct (f k) as [k' r]. done.
Qed.

(** Connections only change Kademlia: the addresses that were learnt, the count of
    connections (which follows the events of the swarm) and the timer of the random walk
    stay; without Kademlia every connection is taken and nothing at all changes. *)
Theorem kad_connections_inv s p c ev :
  inv s ->
  (forall s', s' = (handle_established_inbound_connection p c s).1 \/
     s' = (handle_established_outbound_connection p c s).1 \/
     s' = (handle_pending_inbound_connection c s).1 \/
     s' = on_connection_handler_event p ev s ->
   inv s' /\ num_connections s' = num_connections s) /\
  (kademlia s = None ->
   handle_established_inbound_connection p c s = (s, Some None) /\
   handle_established_outbound_connection p c s = (s, Some None) /\
   handle_pending_inbound_connection c s = (s, true) /\
   on_connection_handler_event p ev s = s).
Proof.
  intros Hi. split.
  - intros s' Hs'. apply calm_inv; [|done].
    destruct Hs' as [->|[->|[->| ->]]]; apply toggle_calm.
  - unfold handle_established_inbound_connection, handle_established_outbound_connection,
      handle_pending_inbound_connection, on_connection_handler_event, toggle. by intros ->.
Qed.
End operations.
End KadConnections.
