(* ===== verification/Network.v ===== *)
(** * The network worker

    [Behaviour] of [crates/client/network/src/behaviour.rs], which puts discovery
    and the request-response protocols together, and [NetworkWorker] and
    [NetworkService] of [crates/client/network/src/service.rs]: the loop that dials
    the boot nodes, keeps track of connected peers, and carries out what the service
    layer asks for.

    The swarm is [libp2p]'s.  Between two events it reports to the worker it calls
    its behaviour any number of times; these calls are part of the event. *)

From Stdlib Require Import ZArith Lia Strings.Byte.
From stdpp Require Import base gmap strings numbers list.
From S2P Require Import Prelude Wire Messages Codec Wallet NetConfig Names NodeSetup Discovery RequestResponses.

Local Open Scope Z_scope.

(** [MockPeerStore]: no peer is banned. *)
Definition mock_peer_reputation `{PeerIds} (p : PeerId) : Z := 0.

Module Behaviour.
Section behaviour.
Context `{PI : PeerIds} `{!InnerBehaviour} `{!Multiaddrs} `{!KademliaDht}.

(** [Behaviour]; [ping] and [identify] have no state the code looks at. *)
Record t : Type := {
  discovery : Discovery.t;
  request_responses : RequestResponses.t;
}.

(** The configuration of discovery [Behaviour::new] makes of the parameters. *)
Definition discovery_config (local : PeerId) (params : Params) : Discovery.DiscoveryConfig :=
  let permanent_addresses :=
    (fun a => (MultiaddrWithPeerId.peer_id a, MultiaddrWithPeerId.multiaddr a)) <$>
      mjoin (rc_boot_nodes <$> rooms params) in
  let c := Discovery.with_mdns (mdns params)
             (Discovery.with_permanent_addresses permanent_addresses
                (Discovery.config_new local)) in
  if kademlia params then Discovery.with_kademlia "/ipfs/kad/1.0.0" c else c.

(** [Behaviour::new]. *)
Definition new (local : PeerId) (protocols : list RequestResponses.ProtocolConfig)
  (params : Params) (now : Z) : outcome ProtocolName t :=
  rr ← RequestResponses.new protocols;
  Ok {| request_responses := rr;
        discovery := Discovery.finish (discovery_config local params) now |}.

Definition with_requests (b : t) (r : outcome Empty_set (RequestResponses.t * list RequestResponses.action)) :
  outcome Empty_set (t * list RequestResponses.action) :=
  '(rr, a) ← r;
  Ok ({| discovery := discovery b; request_responses := rr |}, a).

(** [send_request]. *)
Definition send_request (target : PeerId) (request : bytes) (room_id : RoomId)
  (ctx : MessageContext) (tx : nat) (connect : RequestResponses.IfDisconnected) (now : Z) (b : t) :
  outcome Empty_set (t * list RequestResponses.action) :=
  with_requests b
    (RequestResponses.send_request_with_context target (protocol_name room_id) ctx request false
       tx connect now (request_responses b)).

(** [broadcast_message]. *)
Definition broadcast_message (targets : list PeerId) (payload : bytes) (room_id : RoomId)
  (ctx : MessageContext) (tx : option nat) (connect : RequestResponses.IfDisconnected) (now : Z)
  (b : t) : outcome Empty_set (t * list RequestResponses.action) :=
  with_requests b
    (RequestResponses.broadcast_message targets (protocol_name room_id) ctx payload tx connect now
       (request_responses b)).

(** [bootstrap]. *)
Definition bootstrap (b : t) : t * outcome string QueryId :=
  let '(d, r) := Discovery.bootstrap (discovery b) in
  ({| discovery := d; request_responses := request_responses b |}, r).

(** [peers]; the room does not matter. *)
Definition peers (room_id : RoomId) (b : t) : gset PeerId := Discovery.known_peers (discovery b).

(** What the swarm calls. *)
Inductive call : Type :=
  | PollRequests (obs : list RequestResponses.obs)
  | CallDiscovery (o : Discovery.op).

Definition run_call (c : call) (b : t) :
  outcome Empty_set (t * list RequestResponses.action * list Discovery.DiscoveryOut) :=
  match c with
  | PollRequests obs =>
      '(rr, a) ← RequestResponses.step mock_peer_reputation (RequestResponses.Poll obs)
                   (request_responses b);
      Ok ({| discovery := discovery b; request_responses := rr |}, a, [])
  | CallDiscovery o =>
      '(d, evs) ← Discovery.step o (discovery b);
      Ok ({| discovery := d; request_responses := request_responses b |}, [], evs)
  end.

Fixpoint run_calls (cs : list call) (b : t) :
  outcome Empty_set (t * list RequestResponses.action * list Discovery.DiscoveryOut) :=
  match cs with
  | [] => Ok (b, [], [])
  | c :: cs =>
      '(b, a, e) ← run_call c b;
      '(b, a', e') ← run_calls cs b;
      Ok (b, a ++ a', e ++ e')
  end.
End behaviour.
End Behaviour.

Module NetworkWorker.
Section worker.
Context `{PI : PeerIds} `{!InnerBehaviour} `{!Multiaddrs} `{!KademliaDht} `{!Ed25519Keys}.

(** ** State and messages *)

(** [MessageIntent], with the channels on which answers are expected. *)
Inductive MessageIntent : Type :=
  | Broadcast (payload : bytes) (tx : option nat)
  | Multicast (peers : list PeerId) (payload : bytes) (tx : option nat)
  | SendDirect (peer : PeerId) (payload : bytes) (tx : nat).

(** [ServicetoWorkerMsg]. *)
Inductive ServicetoWorkerMsg : Type :=
  | Request (room_id : RoomId) (context : MessageContext) (message : MessageIntent)
  | GetConnectedPeers (response : nat).

(** [NetworkWorker] and the variables of its [run]. *)
Record t : Type := {
  local_peer_id : PeerId;
  network_service : Behaviour.t;
  boot_nodes : list MultiaddrWithPeerId.t;
  connected_peers : gset PeerId;
  connected_boot_nodes : gset PeerId;
  last_bootstrap_time : Z;
}.

Inductive Error : Type :=
  | Io (e : io_error)
  | DuplicateBroadcastProtocol (protocol : ProtocolName).

Inductive action : Type :=
  | Requests (a : RequestResponses.action)
  | Discovered (ev : Discovery.DiscoveryOut)
  | Dial (addr : Multiaddr)
  | ReplyPeers (tx : nat) (peers : gset PeerId).

Definition with_network (b : Behaviour.t) (w : t) : t :=
  {| local_peer_id := local_peer_id w; network_service := b; boot_nodes := boot_nodes w;
     connected_peers := connected_peers w; connected_boot_nodes := connected_boot_nodes w;
     last_bootstrap_time := last_bootstrap_time w |}.

Definition with_connected (ps bs : gset PeerId) (w : t) : t :=
  {| local_peer_id := local_peer_id w; network_service := network_service w;
     boot_nodes := boot_nodes w; connected_peers := ps; connected_boot_nodes := bs;
     last_bootstrap_time := last_bootstrap_time w |}.

Definition with_bootstrap_time (now : Z) (w : t) : t :=
  {| local_peer_id := local_peer_id w; network_service := network_service w;
     boot_nodes := boot_nodes w; connected_peers := connected_peers w;
     connected_boot_nodes := connected_boot_nodes w; last_bootstrap_time := now |}.

(** ** [new] *)

(** The protocols of the rooms. *)
Definition protocols_of (params : Params) : list RequestResponses.ProtocolConfig :=
  (fun rc => RequestResponses.ProtocolConfig_new (protocol_name (rc_id rc)) (rc_inbound_queue rc))
    <$> rooms params.

(** Listening is up to the transport: a failure is only logged. *)
Definition new (node_key : NodeKeyConfig.t) (params : Params) (generated : SecretKey)
  (fs : files) (o : fs_obs) (now : Z) : files * outcome Error t :=
  match NodeKeyConfig.into_keypair node_key generated fs o with
  | (fs, Ok keypair) =>
      let local := keypair_peer_id keypair in
      (fs, b ← map_err DuplicateBroadcastProtocol
                 (Behaviour.new local (protocols_of params) params now);
           Ok {| local_peer_id := local; network_service := b;
                 boot_nodes := NodeSetup.boot_nodes params; connected_peers := ∅;
                 connected_boot_nodes := ∅; last_bootstrap_time := now |})
  | (fs, Err e) => (fs, Err (Io e))
  | (fs, Panic w) => (fs, Panic w)
  end.

(** ** [run] *)

(** Before the loop: every boot node is dialled, and Kademlia bootstraps. *)
Definition start (now : Z) (w : t) : t * list action :=
  (with_bootstrap_time now (with_network (Behaviour.bootstrap (network_service w)).1 w),
   (fun bn => Dial (MultiaddrWithPeerId.concat bn)) <$> boot_nodes w).

Inductive SwarmEvent : Type :=
  | BehaviourEvent
      (** an event of the behaviours, which is only logged. *)
  | NewListenAddr
  | ConnectionEstablished (p : PeerId)
  | ConnectionClosed (p : PeerId)
  | OtherSwarmEvent.

(** What [select!] yields; [None] is the end of a stream. *)
Inductive event : Type :=
  | RetryTick
  | SwarmNext (calls : list Behaviour.call) (ev : option SwarmEvent) (now : Z)
  | ServiceNext (msg : option ServicetoWorkerMsg) (now : Z).

(** The order in which a set of peers is gone through is that of a [HashSet]. *)
Variable peers_order : gset PeerId -> list PeerId.

Definition is_boot_node (p : PeerId) (w : t) : bool :=
  existsb (fun bn => bool_decide (MultiaddrWithPeerId.peer_id bn = p)) (boot_nodes w).

Definition retry_boot_nodes (w : t) : list action :=
  (fun bn => Dial (MultiaddrWithPeerId.concat bn)) <$>
    filter (fun bn => MultiaddrWithPeerId.peer_id bn ∉ connected_boot_nodes w) (boot_nodes w).

Definition on_swarm_event (ev : SwarmEvent) (now : Z) (w : t) : t :=
  match ev with
  | ConnectionEstablished p =>
      let ps := {[p]} ∪ connected_peers w in
      if is_boot_node p w then
        let w := with_connected ps ({[p]} ∪ connected_boot_nodes w) w in
        if 2000 <=? now - last_bootstrap_time w then
          match Behaviour.bootstrap (network_service w) with
          | (b, Ok _) => with_bootstrap_time now (with_network b w)
          | (b, _) => with_network b w
          end
        else w
      else with_connected ps (connected_boot_nodes w) w
  | ConnectionClosed p =>
      with_connected (connected_peers w ∖ {[p]}) (connected_boot_nodes w ∖ {[p]}) w
  | BehaviourEvent | NewListenAddr | OtherSwarmEvent => w
  end.

(** A request of the service layer. *)
Definition on_request (room_id : RoomId) (ctx : MessageContext) (message : MessageIntent) (now : Z)
  (b : Behaviour.t) : outcome Empty_set (Behaviour.t * list RequestResponses.action) :=
  match message with
  | Broadcast payload tx =>
      Behaviour.broadcast_message (peers_order (Behaviour.peers room_id b)) payload room_id ctx tx
        RequestResponses.TryConnect now b
  | Multicast peers payload tx =>
      Behaviour.broadcast_message peers payload room_id ctx tx RequestResponses.TryConnect now b
  | SendDirect peer payload tx =>
      Behaviour.send_request peer payload room_id ctx tx RequestResponses.TryConnect now b
  end.

(** One turn of the loop: the new state, what was done, and whether it goes on. *)
Definition step (ev : event) (w : t) : outcome Empty_set (t * list action * bool) :=
  match ev with
  | RetryTick => Ok (w, retry_boot_nodes w, true)
  | SwarmNext calls ev now =>
      '(b, acts, evs) ← Behaviour.run_calls calls (network_service w);
      let w := with_network b w in
      let acts : list action := (Requests <$> acts) ++ (Discovered <$> evs) in
      Ok (match ev with
          | Some ev => (on_swarm_event ev now w, acts, true)
          | None => (w, acts, false)
          end)
  | ServiceNext (Some (GetConnectedPeers tx)) _ =>
      Ok (w, [ReplyPeers tx (connected_peers w)], true)
  | ServiceNext (Some (Request room_id ctx message)) now =>
      '(b, acts) ← on_request room_id ctx message now (network_service w);
      Ok (with_network b w, (Requests <$> acts : list action), true)
  | ServiceNext None _ => Ok (w, [], false)
  end.

(** The loop, as long as it goes on. *)
Fixpoint run (evs : list event) (w : t) : outcome Empty_set (t * list action) :=
  match evs with
  | [] => Ok (w, [])
  | ev :: evs =>
      '(w, a, continue) ← step ev w;
      if (continue : bool) then '(w, a') ← run evs w; Ok (w, a ++ a') else Ok (w, a)
  end.

(** ** [NetworkService] *)

(** Every method sends one message to the worker, and panics when the worker is
    gone; the owned variants do the same. *)
Definition send_to_worker (worker_alive : bool) (m : ServicetoWorkerMsg) :
  outcome Empty_set ServicetoWorkerMsg :=
  if worker_alive then Ok m else Panic "expected worker worker channel to not be full".

Definition service_broadcast (alive : bool) (room_id : RoomId) (ctx : MessageContext)
  (payload : bytes) (tx : option nat) : outcome Empty_set ServicetoWorkerMsg :=
  send_to_worker alive (Request room_id ctx (Broadcast payload tx)).

Definition service_multicast (alive : bool) (room_id : RoomId) (peers : list PeerId)
  (ctx : MessageContext) (payload : bytes) (tx : option nat) :
  outcome Empty_set ServicetoWorkerMsg :=
  send_to_worker alive (Request room_id ctx (Multicast peers payload tx)).

Definition service_send (alive : bool) (room_id : RoomId) (peer : PeerId) (ctx : MessageContext)
  (payload : bytes) (tx : nat) : outcome Empty_set ServicetoWorkerMsg :=
  send_to_worker alive (Request room_id ctx (SendDirect peer payload tx)).

(** [get_connected_peers]: the answer, or nothing when the channel was dropped. *)
Definition get_connected_peers (alive : bool) (tx : nat) (answer : option (gset PeerId)) :
  outcome Empty_set (ServicetoWorkerMsg * gset PeerId) :=
  m ← send_to_worker alive (GetConnectedPeers tx);
  Ok (m, default ∅ answer).

(** ** What the worker asks of the protocols *)

Definition rr (w : t) : RequestResponses.t := Behaviour.request_responses (network_service w).
Definition disc (w : t) : Discovery.t := Behaviour.discovery (network_service w).

Definition polls (calls : list Behaviour.call) : list RequestResponses.op :=
  omap (fun c => if c is Behaviour.PollRequests obs then Some (RequestResponses.Poll obs) else None)
    calls.

Definition requests_of (ev : event) (w : t) : list RequestResponses.op :=
  match ev with
  | SwarmNext calls _ _ => polls calls
  | ServiceNext (Some (Request room ctx msg)) now =>
      [match msg with
       | Broadcast payload tx =>
           RequestResponses.BroadcastTo (peers_order (Behaviour.peers room (network_service w)))
             (protocol_name room) ctx payload tx RequestResponses.TryConnect now
       | Multicast peers payload tx =>
           RequestResponses.BroadcastTo peers (protocol_name room) ctx payload tx
             RequestResponses.TryConnect now
       | SendDirect peer payload tx =>
           RequestResponses.SendWithContext peer (protocol_name room) ctx payload false tx
             RequestResponses.TryConnect now
       end]
  | _ => []
  end.

Fixpoint requests_run (evs : list event) (w : t) : list RequestResponses.op :=
  match evs with
  | [] => []
  | ev :: evs =>
      requests_of ev w ++
      match step ev w with Ok (w, _, true) => requests_run evs w | _ => [] end
  end.

(** The actions of the protocols among those of the worker. *)
Definition requests_in (acts : list action) : list RequestResponses.action :=
  omap (fun a => if a is Requests a then Some a else None) acts.

Lemma requests_in_app a b : requests_in (a ++ b) = requests_in a ++ requests_in b.
Proof. apply omap_app. Qed.

Lemma requests_in_map l evs : requests_in ((Requests <$> l) ++ (Discovered <$> evs)) = l.
Proof.
  rewrite requests_in_app. unfold requests_in.
  induction l as [|a l IH]; cbn.
  - induction evs; cbn; done.
  - f_equal. exact IH.
Qed.

Lemma run_calls_requests calls b b' acts evs :
  Behaviour.run_calls calls b = Ok (b', acts, evs) ->
  RequestResponses.run mock_peer_reputation (polls calls) (Behaviour.request_responses b) =
    Ok (Behaviour.request_responses b', acts).
Proof.
  revert b acts evs. induction calls as [|c calls IH]; intros b acts evs; cbn [Behaviour.run_calls].
  { by intros [= <- <- <-]. }
  intros Hr. inv_ok. match goal with H : Behaviour.run_calls _ _ = _ |- _ => apply IH in H end.
  destruct c as [obs|o]; cbn [Behaviour.run_call] in Ha; inv_ok; [|done].
  change (polls _) with (RequestResponses.Poll obs :: polls calls). cbn [RequestResponses.run].
  match goal with H : RequestResponses.step _ _ _ = _ |- _ => rewrite H end. cbn in *.
  match goal with H : RequestResponses.run _ _ _ = _ |- _ => by rewrite H end.
Qed.

Lemma on_swarm_event_rr ev now w : rr (on_swarm_event ev now w) = rr w.
Proof.
  destruct ev; cbn; try done. destruct (is_boot_node p w); [|done]. case_match; [|done].
  unfold Behaviour.bootstrap. destruct (Discovery.bootstrap _) as [d [q|e|y]]; done.
Qed.

Lemma step_requests ev w w' acts continue :
  step ev w = Ok (w', acts, continue) ->
  RequestResponses.run mock_peer_reputation (requests_of ev w) (rr w) = Ok (rr w', requests_in acts).
Proof.
  destruct ev as [|calls ev now|[[room ctx msg|tx]|] now]; cbn [step requests_of].
  - intros [= <- <- <-]. cbn. unfold retry_boot_nodes.
    do 2 f_equal. generalize (boot_nodes w). intros l.
    induction (filter _ l); cbn; done.
  - intros Hr. inv_ok. apply run_calls_requests in Ha. etrans; [exact Ha|].
    destruct ev; simplify_eq; by rewrite requests_in_map, ?on_swarm_event_rr.
  - intros Hr. inv_ok. rewrite <- (app_nil_r (Requests <$> _)), (requests_in_map _ []).
    unfold on_request, Behaviour.broadcast_message, Behaviour.send_request,
      Behaviour.with_requests in Ha.
    destruct msg; inv_ok; cbn [RequestResponses.run RequestResponses.step]; unfold rr;
      match goal with H : _ = Ok (_, _) |- _ => rewrite H end; cbn; by rewrite app_nil_r.
  - by intros [= <- <- <-].
  - by intros [= <- <- <-].
Qed.

Lemma run_requests evs w w' acts :
  run evs w = Ok (w', acts) ->
  RequestResponses.run mock_peer_reputation (requests_run evs w) (rr w) = Ok (rr w', requests_in acts).
Proof.
  revert w acts. induction evs as [|ev evs IH]; intros w acts; cbn; [by intros [= <- <-]|].
  intros Hr. inv_ok. pose proof (step_requests _ _ _ _ _ Ha) as Hs. rewrite Ha.
  destruct b; inv_ok; [|by rewrite app_nil_r].
  rewrite (RequestResponses.run_app _ _ _ _ _ _ Hs), (IH _ _ Ha0). cbn.
  by rewrite requests_in_app.
Qed.

Lemma requests_run_plain evs w : Forall RequestResponses.plain (requests_run evs w).
Proof.
  revert w. induction evs as [|ev evs IH]; intros w; cbn; [done|]. rewrite Forall_app. split.
  - destruct ev as [|calls ev now|[[room ctx msg|tx]|] now]; cbn; try done.
    + induction calls as [|[] calls IHc]; cbn; [done|constructor|]; done.
    + by destruct msg; repeat constructor.
  - destruct (step ev w) as [[[w' a] []]| |]; done.
Qed.

(** C11: whoever asks the network worker for an answer gets exactly one per
    target, or still waits for it: after any events since the worker was made, the
    callers of all broadcasts, multicasts and direct messages (one for every
    target) are, each exactly once, waiting or settled, and settled always means
    answered: with the payload of the response or the reason of the failure. *)
Theorem worker_answers node_key params generated fs o t0 fs' w evs w' acts :
  new node_key params generated fs o t0 = (fs', Ok w) ->
  run evs (start t0 w).1 = Ok (w', acts) ->
  RequestResponses.held (rr w') ++ RequestResponses.settled (requests_in acts) ≡ₚ
    RequestResponses.asked_run mock_peer_reputation (requests_run evs (start t0 w).1) (rr w) /\
  Forall RequestResponses.answers (requests_in acts).
Proof.
  intros Hn Hr.
  assert (rr (start t0 w).1 = rr w) as Hst.
  { unfold start, Behaviour.bootstrap, rr. cbn. by destruct (Discovery.bootstrap _). }
  apply run_requests in Hr. rewrite Hst in Hr.
  assert (RequestResponses.held (rr w) = [] /\ RequestResponses.no_fallbacks (rr w)) as [Hh Hf].
  { unfold new in Hn. destruct (NodeKeyConfig.into_keypair _ _ _ _) as [fs1 [kp|e|y]]; [|done..].
    injection Hn as _ Hn. inv_ok. unfold Behaviour.new, RequestResponses.new in Ha. inv_ok.
    split; [done|]. intros k r. cbn. by rewrite lookup_empty. }
  split.
  - pose proof (RequestResponses.run_accounted _ _ _ _ _ Hr) as Hacc. by rewrite Hh in Hacc.
  - by eapply RequestResponses.run_plain in Hr as [_ Ha]; [| |apply requests_run_plain].
Qed.

(** ** Fan-out *)

(** The peers a message goes to, and whether it counts as a broadcast. *)
Definition targets (msg : MessageIntent) (w : t) : list PeerId :=
  match msg with
  | Broadcast _ _ => peers_order (Discovery.known_peers (disc w))
  | Multicast peers _ _ => peers
  | SendDirect peer _ _ => [peer]
  end.

Definition intent_payload (msg : MessageIntent) : bytes :=
  match msg with Broadcast p _ | Multicast _ p _ | SendDirect _ p _ => p end.

Definition intent_is_broadcast (msg : MessageIntent) : bool :=
  if msg is SendDirect _ _ _ then false else true.

Definition intent_sender (msg : MessageIntent) : option nat :=
  match msg with Broadcast _ tx | Multicast _ _ tx => tx | SendDirect _ _ tx => Some tx end.

(** A message of the service layer goes to the right peers, each once and in
    order, over the protocol of its room: a broadcast to all peers discovery knows,
    a multicast to the peers it names, a direct message to its peer; what goes over
    the wire is the context and payload as given, marked as a broadcast unless it
    is direct.  For a room this node has no protocol for, every target is answered
    with [UnknownProtocol] instead. *)
Lemma fan_out room ctx msg now w w' acts continue :
  step (ServiceNext (Some (Request room ctx msg)) now) w = Ok (w', acts, continue) ->
  continue = true /\
  exists txs, length txs = length (targets msg w) /\
    (forall tx, intent_sender msg = Some tx -> Forall (eq tx) txs) /\
    requests_in acts = zip_with
      (RequestResponses.requested
         (bool_decide (is_Some (RequestResponses.protocols (rr w) !! protocol_name room)))
         (protocol_name room)
         {| wm_context := ctx; wm_payload := intent_payload msg;
            wm_is_broadcast := intent_is_broadcast msg |}) txs (targets msg w).
Proof.
  cbn [step]. intros Hr. inv_ok. split; [done|].
  rewrite <- (app_nil_r (Requests <$> _)), (requests_in_map _ []).
  unfold on_request, Behaviour.broadcast_message, Behaviour.send_request,
    Behaviour.with_requests in Ha.
  destruct msg as [payload tx|peers payload tx|peer payload tx]; inv_ok.
  - by apply RequestResponses.broadcast_sends in Ha0.
  - by apply RequestResponses.broadcast_sends in Ha0.
  - apply RequestResponses.send_with_context_sends in Ha0 as [_ ->].
    exists [tx]. split_and!; [done| |done]. intros tx' [= <-]. by repeat constructor.
Qed.

(** ** Connections *)

(** Whether the last the swarm said of a peer is that a connection was
    established. *)
Fixpoint last_established (p : PeerId) (evs : list event) (before : bool) : bool :=
  match evs with
  | [] => before
  | SwarmNext _ (Some (ConnectionEstablished q)) _ :: evs =>
      last_established p evs (before || bool_decide (p = q))
  | SwarmNext _ (Some (ConnectionClosed q)) _ :: evs =>
      last_established p evs (before && negb (bool_decide (p = q)))
  | SwarmNext _ None _ :: _ | ServiceNext None _ :: _ => before
  | _ :: evs => last_established p evs before
  end.

Definition tracked (w : t) : Prop :=
  forall p, p ∈ connected_boot_nodes w <-> p ∈ connected_peers w /\ is_boot_node p w = true.

Lemma is_boot_node_in bn w :
  bn ∈ boot_nodes w -> is_boot_node (MultiaddrWithPeerId.peer_id bn) w = true.
Proof.
  intros Hbn. unfold is_boot_node. apply existsb_exists. exists bn.
  rewrite bool_decide_true by done. by apply list_elem_of_In in Hbn.
Qed.

Lemma on_swarm_event_sets ev now w :
  boot_nodes (on_swarm_event ev now w) = boot_nodes w /\
  connected_peers (on_swarm_event ev now w) =
    match ev with
    | ConnectionEstablished p => {[p]} ∪ connected_peers w
    | ConnectionClosed p => connected_peers w ∖ {[p]}
    | _ => connected_peers w
    end /\
  connected_boot_nodes (on_swarm_event ev now w) =
    match ev with
    | ConnectionEstablished p =>
        if is_boot_node p w then {[p]} ∪ connected_boot_nodes w else connected_boot_nodes w
    | ConnectionClosed p => connected_boot_nodes w ∖ {[p]}
    | _ => connected_boot_nodes w
    end.
Proof.
  destruct ev; cbn; try done. destruct (is_boot_node p w); [|done]. case_match; [|done].
  unfold Behaviour.bootstrap. destruct (Discovery.bootstrap _) as [d [q|e|y]]; done.
Qed.

Lemma step_connections ev w w' acts continue p :
  step ev w = Ok (w', acts, continue) ->
  boot_nodes w' = boot_nodes w /\ (tracked w -> tracked w') /\
  forall evs, last_established p (ev :: evs) (bool_decide (p ∈ connected_peers w)) =
    if continue then last_established p evs (bool_decide (p ∈ connected_peers w'))
    else bool_decide (p ∈ connected_peers w').
Proof.
  destruct ev as [|calls ev now|[[room ctx msg|tx]|] now]; cbn [step];
    try (by intros [= <- <- <-]); [|by intros Hr; inv_ok].
  intros Hr. inv_ok. destruct ev as [ev|]; simplify_eq; [|done].
  match goal with |- context [on_swarm_event ev now ?x] => set (w1 := x) end.
  destruct (on_swarm_event_sets ev now w1) as (Hb & Hp & Hc). split; [done|]. split.
  - intros Ht q. specialize (Ht q). unfold is_boot_node in *. rewrite Hb, Hp, Hc. cbn in *.
    destruct ev as [| |r|r|]; try done.
    + unfold is_boot_node. cbn. destruct (existsb _ (boot_nodes w)) eqn:He; [|].
      * rewrite !elem_of_union, !elem_of_singleton. destruct (decide (q = r)) as [->|]; naive_solver.
      * rewrite elem_of_union, elem_of_singleton. destruct (decide (q = r)) as [->|]; [|naive_solver].
        rewrite He. rewrite He in Ht. naive_solver.
    + rewrite !elem_of_difference, !elem_of_singleton. naive_solver.
  - intros evs. rewrite Hp. destruct ev as [| |r|r|]; cbn; try done; f_equal; symmetry.
    + rewrite (bool_decide_ext _ (p ∈ connected_peers w \/ p = r)) by set_solver.
      by rewrite bool_decide_or.
    + rewrite (bool_decide_ext _ (p ∈ connected_peers w /\ ~ p = r)) by set_solver.
      by rewrite bool_decide_and, bool_decide_not.
Qed.

Lemma run_connections evs w w' acts p :
  run evs w = Ok (w', acts) ->
  boot_nodes w' = boot_nodes w /\ (tracked w -> tracked w') /\
  bool_decide (p ∈ connected_peers w') =
    last_established p evs (bool_decide (p ∈ connected_peers w)).
Proof.
  revert w acts. induction evs as [|ev evs IH]; intros w acts; [by intros [= <- <-]|].
  cbn [run]. intros Hr. inv_ok. apply (step_connections _ _ _ _ _ p) in Ha as (Hb & Ht & Hl).
  rewrite Hl. destruct b; inv_ok; [|done].
  match goal with H : run _ _ = _ |- _ => apply IH in H as (Hb' & Ht' & ->) end.
  rewrite Hb'. auto.
Qed.

(** C33: the worker reports as connected exactly the peers of which the last
    event of the swarm was an established connection; the boot nodes it considers
    connected are those among them, and every retry dials exactly the boot nodes
    that are not, in the order of the configuration.  (A peer with two connections of
    which one is closed therefore counts as not connected.) *)
Theorem connections_tracked node_key params generated fs o t0 fs' w evs w' acts p :
  new node_key params generated fs o t0 = (fs', Ok w) ->
  run evs (start t0 w).1 = Ok (w', acts) ->
  (p ∈ connected_peers w' <-> last_established p evs false = true) /\
  (p ∈ connected_boot_nodes w' <-> p ∈ connected_peers w' /\ is_boot_node p w' = true) /\
  step RetryTick w' =
    Ok (w', (fun bn => Dial (MultiaddrWithPeerId.concat bn)) <$>
          filter (fun bn => MultiaddrWithPeerId.peer_id bn ∉ connected_peers w')
            (NodeSetup.boot_nodes params), true).
Proof.
  intros Hn Hr. assert (connected_peers w = ∅ /\ connected_boot_nodes w = ∅ /\
    boot_nodes w = NodeSetup.boot_nodes params) as (Hp & Hc & Hb).
  { unfold new in Hn. destruct (NodeKeyConfig.into_keypair _ _ _ _) as [fs1 [kp|e|y]]; [|done..].
    injection Hn as _ Hn. by inv_ok. }
  apply (run_connections _ _ _ _ p) in Hr as (Hb' & Ht & Hl). cbn in Hb', Hl.
  assert (tracked w') as Ht'.
  { apply Ht. intros q. cbn. rewrite Hp, Hc, !elem_of_empty. tauto. }
  split; [|split; [apply Ht'|]].
  - rewrite Hp, (bool_decide_false (p ∈ ∅)) in Hl by apply not_elem_of_empty.
    by rewrite <- (bool_decide_eq_true (p ∈ connected_peers w')), Hl.
  - cbn. unfold retry_boot_nodes. rewrite Hb', Hb. do 4 f_equal.
    apply list_filter_iff_in. intros bn Hbn.
    rewrite (Ht' (MultiaddrWithPeerId.peer_id bn)), is_boot_node_in by (by rewrite Hb', Hb).
    naive_solver.
Qed.

(** a peer with two connections is forgotten when one of them is closed:
    the worker no longer counts it among the connected peers, and dials it again
    at every retry if it is a boot node, although a connection remains. *)
Theorem second_connection_forgotten p t1 t2 t3 t4 tx w :
  exists w' ps, run [SwarmNext [] (Some (ConnectionEstablished p)) t1;
                     SwarmNext [] (Some (ConnectionEstablished p)) t2;
                     SwarmNext [] (Some (ConnectionClosed p)) t3;
                     ServiceNext (Some (GetConnectedPeers tx)) t4] w
                = Ok (w', [ReplyPeers tx ps]) /\ p ∉ ps /\
    forall bn, bn ∈ boot_nodes w -> MultiaddrWithPeerId.peer_id bn = p ->
      Dial (MultiaddrWithPeerId.concat bn) ∈ retry_boot_nodes w'.
Proof.
  assert (forall ev t w1, step (SwarmNext [] (Some ev) t) w1 =
    Ok (on_swarm_event ev t (with_network (network_service w1) w1), [], true)) as Hs by done.
  cbn [run]. do 3 (rewrite Hs; cbn [mbind outcome_bind]).
  match goal with |- context [on_swarm_event (ConnectionClosed p) t3 ?x] => set (w2 := x) end.
  destruct (on_swarm_event_sets (ConnectionClosed p) t3 w2) as (Hb & Hp & Hc).
  do 2 eexists. split; [done|]. rewrite Hp. split; [set_solver|].
  intros bn Hbn <-. apply list_elem_of_fmap. exists bn. split; [done|].
  apply list_elem_of_filter. rewrite Hb, Hc. split; [set_solver|]. subst w2. cbn [boot_nodes with_network].
  rewrite (proj1 (on_swarm_event_sets _ _ _)). cbn [boot_nodes with_network].
  by rewrite (proj1 (on_swarm_event_sets _ _ _)).
Qed.

(** ** The worker does not panic *)

Definition discovery_ops (calls : list Behaviour.call) : list Discovery.op :=
  omap (fun c => if c is Behaviour.CallDiscovery o then Some o else None) calls.

(** What the swarm calls on discovery in a run. *)
Definition discovery_run (evs : list event) : list Discovery.op :=
  evs ≫= (fun ev => if ev is SwarmNext calls _ _ then discovery_ops calls else []).

Section total.
Context `{!InnerLaws} (no_dial : Discovery.mdns_never_dials).

Record inv (w : t) : Prop := {
  inv_requests : RequestResponses.inv (rr w);
  inv_discovery : Discovery.inv (disc w);
}.

Definition net_change (os : list Discovery.op) : Z :=
  foldr (fun o n => Discovery.connection_change o + n) 0 os.

Lemma connections_ok_app n os1 os2 :
  Discovery.connections_ok n (os1 ++ os2) ->
  Discovery.connections_ok n os1 /\ Discovery.connections_ok (n + net_change os1) os2.
Proof.
  revert n. induction os1 as [|o os1 IH]; intros n; cbn; [by rewrite Z.add_0_r|].
  intros [Ho [? ?]%IH]. rewrite Z.add_assoc. auto.
Qed.

Lemma run_calls_total calls b :
  RequestResponses.inv (Behaviour.request_responses b) ->
  Discovery.inv (Behaviour.discovery b) ->
  Forall Discovery.iterates (discovery_ops calls) ->
  Discovery.connections_ok (Discovery.num_connections (Behaviour.discovery b)) (discovery_ops calls) ->
  exists b' acts evs, Behaviour.run_calls calls b = Ok (b', acts, evs) /\
    RequestResponses.inv (Behaviour.request_responses b') /\
    Discovery.inv (Behaviour.discovery b') /\
    Discovery.num_connections (Behaviour.discovery b') =
      Discovery.num_connections (Behaviour.discovery b) + net_change (discovery_ops calls).
Proof.
  revert b. induction calls as [|[obs|o] calls IH]; intros b Hr Hd; cbn -[RequestResponses.step].
  - intros _ _. rewrite Z.add_0_r. eauto 10.
  - intros Hit Hok.
    destruct (RequestResponses.rr_step_inv mock_peer_reputation (RequestResponses.Poll obs) _ Hr)
      as (r1 & a1 & -> & Hr1).
    edestruct (IH {| Behaviour.discovery := Behaviour.discovery b;
                     Behaviour.request_responses := r1 |}) as (b2 & a2 & e2 & Hb2 & ? & ? & ?);
      [done..|]. cbn in Hb2 |- *. rewrite Hb2. cbn. eauto 10.
  - intros [Ho Hit]%Forall_cons [Hn Hok].
    destruct (Discovery.discovery_step_inv no_dial o _ Hd Ho Hn) as (d1 & e1 & -> & Hd1 & Hn1).
    cbn. rewrite <- Hn1 in Hok.
    edestruct (IH {| Behaviour.discovery := d1;
                     Behaviour.request_responses := Behaviour.request_responses b |})
      as (b2 & a2 & e2 & -> & ? & ? & Hn2); [done..|].
    cbn in *. do 3 eexists. split; [done|]. split; [done|]. split; [done|].
    rewrite Hn2, Hn1. symmetry. apply Z.add_assoc.
Qed.

Lemma bootstrap_calm b :
  Discovery.inv (Behaviour.discovery b) ->
  Discovery.inv (Behaviour.discovery (Behaviour.bootstrap b).1) /\
  Discovery.num_connections (Behaviour.discovery (Behaviour.bootstrap b).1) =
    Discovery.num_connections (Behaviour.discovery b).
Proof.
  intros Hd. unfold Behaviour.bootstrap, Discovery.bootstrap.
  destruct (Discovery.kademlia _) as [k|]; [|done]. destruct (kad_bootstrap k) as [k' r].
  split; [|done]. destruct Hd. by split.
Qed.

Lemma on_swarm_event_total ev now w :
  inv w -> inv (on_swarm_event ev now w) /\
  Discovery.num_connections (disc (on_swarm_event ev now w)) =
    Discovery.num_connections (disc w).
Proof.
  intros [Hr Hd]. rewrite <- (on_swarm_event_rr ev now w) in Hr.
  enough (Discovery.inv (disc (on_swarm_event ev now w)) /\
    Discovery.num_connections (disc (on_swarm_event ev now w)) =
      Discovery.num_connections (disc w)) as [? ?] by (split; [by split|done]).
  destruct ev; cbn; try done. destruct (is_boot_node p w); [|done]. case_match; [|done].
  pose proof (bootstrap_calm (network_service w) Hd) as Hb.
  destruct (Behaviour.bootstrap _) as [b [q|e|y]]; exact Hb.
Qed.

Lemma step_total ev w :
  inv w -> Forall Discovery.iterates (discovery_run [ev]) ->
  Discovery.connections_ok (Discovery.num_connections (disc w)) (discovery_run [ev]) ->
  exists w' acts continue, step ev w = Ok (w', acts, continue) /\ inv w' /\
    Discovery.num_connections (disc w') =
      Discovery.num_connections (disc w) + net_change (discovery_run [ev]).
Proof.
  intros Hi. pose proof Hi as [Hr Hd]. unfold discovery_run. cbn [mbind list_bind].
  rewrite app_nil_r. destruct ev as [|calls ev now|[[room ctx msg|tx]|] now]; cbn [step].
  - intros _ _. rewrite Z.add_0_r. eauto 10.
  - intros Hit Hok.
    destruct (run_calls_total calls _ Hr Hd Hit Hok) as (b & acts & es & -> & Hr' & Hd' & Hn).
    cbn [mbind outcome_bind].
    assert (inv (with_network b w)) as Hi' by (by split).
    destruct ev as [ev|]; do 3 eexists; (split; [done|]); [|done].
    destruct (on_swarm_event_total ev now _ Hi') as [? ->]. done.
  - intros _ _. rewrite Z.add_0_r.
    assert (exists r acts, on_request room ctx msg now (network_service w) =
      Ok ({| Behaviour.discovery := disc w; Behaviour.request_responses := r |}, acts) /\
      RequestResponses.inv r) as (r & acts & -> & Hr1).
    { destruct msg as [payload tx|peers payload tx|peer payload tx]; cbn;
        unfold Behaviour.broadcast_message, Behaviour.send_request, Behaviour.with_requests.
      - edestruct RequestResponses.broadcast_inv as (r & a & -> & ?); [exact Hr|]. cbn. eauto.
      - edestruct RequestResponses.broadcast_inv as (r & a & -> & ?); [exact Hr|]. cbn. eauto.
      - edestruct RequestResponses.send_with_context_inv as (r & a & -> & ?); [exact Hr|].
        cbn. eauto. }
    cbn. do 3 eexists. split; [done|]. split; [by split|done].
  - intros _ _. rewrite Z.add_0_r. eauto 10.
  - intros _ _. rewrite Z.add_0_r. eauto 10.
Qed.

Lemma run_total evs w :
  inv w -> Forall Discovery.iterates (discovery_run evs) ->
  Discovery.connections_ok (Discovery.num_connections (disc w)) (discovery_run evs) ->
  exists w' acts, run evs w = Ok (w', acts) /\ inv w'.
Proof.
  revert w. induction evs as [|ev evs IH]; intros w Hi; cbn [run]; [eauto|].
  change (discovery_run (ev :: evs)) with (discovery_run ([ev] ++ evs)).
  unfold discovery_run. rewrite bind_app. fold (discovery_run [ev]) (discovery_run evs).
  intros [Hit Hits]%Forall_app [Hok Hoks]%connections_ok_app.
  destruct (step_total ev w Hi Hit Hok) as (w1 & a1 & c & -> & Hi1 & Hn1).
  cbn. destruct c; [|eauto]. rewrite <- Hn1 in Hoks.
  destruct (IH w1 Hi1 Hits Hoks) as (w2 & a2 & -> & Hi2). cbn. eauto.
Qed.

(** C22: given a key, the network worker is made exactly when its rooms are
    different, and then neither the worker nor the behaviours under it panic,
    whatever the service layer asks for and whatever the network does, as long as
    the swarm closes no connection it did not establish. *)
Theorem worker_total node_key params generated fs o t0 fs' kp :
  NodeKeyConfig.into_keypair node_key generated fs o = (fs', Ok kp) ->
  ((exists w, new node_key params generated fs o t0 = (fs', Ok w)) <->
     NoDup (rc_id <$> rooms params)) /\
  forall w evs, new node_key params generated fs o t0 = (fs', Ok w) ->
    Forall Discovery.iterates (discovery_run evs) ->
    Discovery.connections_ok 0 (discovery_run evs) ->
    exists w' acts, run evs (start t0 w).1 = Ok (w', acts).
Proof.
  intros Hkp. unfold new. rewrite Hkp. unfold Behaviour.new.
  pose proof (RequestResponses.rr_new_ok (protocols_of params)) as Hok.
  assert (NoDup (RequestResponses.name <$> protocols_of params) <->
    NoDup (rc_id <$> rooms params)) as Hnames.
  { unfold protocols_of. rewrite <- list_fmap_compose. cbn.
    replace (_ <$> rooms params) with (protocol_name <$> (rc_id <$> rooms params))
      by (by rewrite <- list_fmap_compose).
    split; [apply NoDup_fmap_1|apply NoDup_fmap_2]. intros a b. apply protocol_name_inj. }
  rewrite Hnames in Hok. split.
  - rewrite <- Hok. split.
    + intros [w Hw]. injection Hw as Hw. inv_ok. eauto.
    + intros [s Hs]. rewrite Hs. cbn. eauto.
  - intros w evs Hw Hit Hc. injection Hw as Hw. inv_ok.
    match goal with H : RequestResponses.new _ = _ |- _ => apply RequestResponses.rr_new_inv in H end.
    match goal with |- context [start t0 ?x] => set (w0 := x) end.
    destruct (bootstrap_calm (network_service w0)) as [Hd Hn]; [apply Discovery.finish_inv|].
    destruct (run_total evs (start t0 w0).1) as (w' & acts & -> & _); [..|by eauto].
    + split; [|done]. cbn. unfold Behaviour.bootstrap, rr. cbn.
      by destruct (Discovery.bootstrap _).
    + done.
    + change (disc (start t0 w0).1) with (Behaviour.discovery (Behaviour.bootstrap (network_service w0)).1).
      rewrite Hn. exact Hc.
Qed.
End total.

(** ** From node to node *)

(** A message that one node puts on the wire is delivered as it was sent: within
    the limit of 8 MiB, the codec of the receiving node reads the bytes back, and
    its behaviour puts a request into the queue of the room with the context, the
    payload and the mark of a broadcast that were sent, and the peer it came from;
    the answer is awaited on a channel of its own. *)
Lemma delivered `{UnsignedVarintLaws} p ctx data broadcast q d x b from id ch
    rest more ob (s : RequestResponses.t) :
  context_wf ctx -> Z.of_nat (length data) <= 8 * 1024 * 1024 ->
  let m := {| wm_context := ctx; wm_payload := data; wm_is_broadcast := broadcast |} in
  let cfg := RequestResponses.ProtocolConfig_new p (Some q) in
  let codec := {| GenericCodec.max_request_size := RequestResponses.max_request_size cfg;
                  GenericCodec.max_response_size := RequestResponses.max_response_size cfg |} in
  RequestResponses.protocols s !! p = Some d -> RequestResponses.inbound_queue d = Some q ->
  RequestResponses.tick ob = false -> RequestResponses.ready ob = [] ->
  RequestResponses.inputs ob = (p, x) :: more ->
  (forall m', GenericCodec.read_request codec (GenericCodec.write_request m ++ rest) = Ok m' ->
     inner_poll (RequestResponses.behaviour d) x = (b, Some (InboundMessage from id m' ch))) ->
  RequestResponses.accepting ob q = true ->
  let tx := RequestResponses.fresh s in
  exists s', RequestResponses.turn mock_peer_reputation ob s =
    RequestResponses.Repeat s' [RequestResponses.Enqueue q
      {| context := ctx; peer := from; peer_id := from; is_broadcast := broadcast;
         peer_index := 0; payload := data; pending_response := tx |}] /\
    RequestResponses.pending_responses s' = RequestResponses.pending_responses s ++
      [{| RequestResponses.pr_rx := tx; RequestResponses.pr_peer := from;
          RequestResponses.pr_request_id := id; RequestResponses.pr_protocol := p;
          RequestResponses.pr_channel := ch |}].
Proof.
  intros Hwf Hlen m cfg codec Hd Hq Ht Hr Hi Hx Ha tx.
  specialize (Hx m (GenericCodec.request_read codec m rest Hwf Hlen ltac:(done))).
  unfold RequestResponses.turn. rewrite Ht, Hr, Hi.
  cbn [RequestResponses.send_all_ready RequestResponses.poll_protocols]. rewrite Hd, Hx.
  cbn [RequestResponses.handle]. unfold RequestResponses.receive_request.
  replace (mock_peer_reputation from <? RequestResponses.BANNED_THRESHOLD) with false by done.
  rewrite Hq, Ha. cbn. eauto.
Qed.
End worker.
End NetworkWorker.
