(* ===== verification/Benchmark.v ===== *)
(** * The benchmark

    [crates/apps/cli/src/commands/benchmark.rs]: the loops that run key generations
    or signatures one after the other, what they count, and the statistics they
    print.  The client is an observation: for every run, how the call ended and how
    long it took.

    A [Duration] is its nanoseconds; integers are [u64] and overflow panics. *)

From Stdlib Require Import ZArith Lia Strings.Byte.
From stdpp Require Import base gmap sorting strings numbers list pretty.
From S2P Require Import Prelude Wallet.

Local Open Scope Z_scope.

#[local] Arguments str : simpl never.

(** ** Numbers and strings *)

Definition u64_add {E} (a b : Z) : outcome E Z :=
  if a + b <=? u64_max then Ok (a + b) else Panic "attempt to add with overflow".
Definition u64_mul {E} (a b : Z) : outcome E Z :=
  if a * b <=? u64_max then Ok (a * b) else Panic "attempt to multiply with overflow".
Definition u64_sub {E} (a b : Z) : outcome E Z :=
  if b <=? a then Ok (a - b) else Panic "attempt to subtract with overflow".

(** [u64::to_string]. *)
Definition to_string (n : Z) : chars := str (pretty (Z.to_N n)).

(** [{value:<width}]. *)
Definition pad (width : nat) (s : chars) : chars := s ++ replicate (width - length s) 32.

(** [Iterator::sum] of [u64]. *)
Fixpoint sum {E} (l : list Z) (acc : Z) : outcome E Z :=
  match l with
  | [] => Ok acc
  | x :: l => acc ← u64_add acc x; sum l acc
  end.

(** ** Arguments *)

Definition ensure_total (total : Z) : outcome string unit :=
  if total =? 0 then Err "--total must be greater than 0" else Ok tt.

Definition ensure_non_empty (name : string) (value : chars) : outcome string unit :=
  match trim value with
  | [] => Err ("--" ++ name ++ " cannot be empty")%string
  | _ => Ok tt
  end.

(** ** Failures and progress *)

Definition push_failure (failures : list chars) (failure : chars) : list chars :=
  (if (10 <=? length failures)%nat then drop 1 failures else failures) ++ [failure].

(** The line [print_progress] prints, if any. *)
Definition print_progress (run total success fail progress_every : Z) : option chars :=
  if (0 <? progress_every) && (run mod progress_every =? 0) then
    Some (str "progress: " ++ to_string run ++ str "/" ++ to_string total ++ str ", success=" ++
          to_string success ++ str ", fail=" ++ to_string fail)
  else None.

(** ** Statistics *)

Record BenchmarkStats : Type := {
  total : Z;
  success : Z;
  fail : Z;
  min_ms : option Z;
  p50_ms : option Z;
  p95_ms : option Z;
  p99_ms : option Z;
  max_ms : option Z;
  avg_ms : option Z;
}.

(** [u64::div_ceil]. *)
Definition div_ceil (a b : Z) : Z := (a + b - 1) / b.

(** [percentile], of sorted times. *)
Definition percentile {E} (times : list Z) (percentile : Z) : outcome E (option Z) :=
  match times with
  | [] => Ok None
  | _ =>
      product ← u64_mul (Z.of_nat (length times)) percentile;
      index ← u64_sub (div_ceil product 100) 1;
      Ok (times !! Z.to_nat (Z.min index (Z.of_nat (length times) - 1)))
  end.

(** [duration.as_millis() as u64]. *)
Definition as_millis (d : Z) : Z := (d / 1000000) mod 2 ^ 64.

(** [sort_unstable] of integers; equal ones are the same. *)
Definition sort_unstable (l : list Z) : list Z := sort_by_key Z.leb id l.

Definition from_latencies {E} (total success fail : Z) (latencies : list Z) :
  outcome E BenchmarkStats :=
  let times := sort_unstable (as_millis <$> latencies) in
  avg ← match times with
        | [] => Ok None
        | _ => s ← sum times 0; Ok (Some (s / Z.of_nat (length times)))
        end;
  p50 ← percentile times 50;
  p95 ← percentile times 95;
  p99 ← percentile times 99;
  Ok {| total := total; success := success; fail := fail; min_ms := head times;
        p50_ms := p50; p95_ms := p95; p99_ms := p99; max_ms := last times; avg_ms := avg |}.

Definition format_optional_ms (value : option Z) : chars :=
  match value with
  | Some ms => to_string ms ++ str "ms"
  | None => str "n/a"
  end.

Definition newline : chars := [10].

Definition render_row (row : string * chars) : chars :=
  str "| " ++ pad 7 (str row.1) ++ str " | " ++ pad 5 row.2 ++ str " |" ++ newline.

Definition rows (s : BenchmarkStats) : list (string * chars) :=
  [("total", to_string (total s)); ("success", to_string (success s));
   ("fail", to_string (fail s)); ("min", format_optional_ms (min_ms s));
   ("p50", format_optional_ms (p50_ms s)); ("p95", format_optional_ms (p95_ms s));
   ("p99", format_optional_ms (p99_ms s)); ("max", format_optional_ms (max_ms s));
   ("avg", format_optional_ms (avg_ms s))].

Definition render_summary_table (s : BenchmarkStats) : chars :=
  str "+---------+-------+" ++ newline ++ str "| metric  | value |" ++ newline ++
  str "+---------+-------+" ++ newline ++ mjoin (render_row <$> rows s) ++
  str "+---------+-------+".

(** ** The loops *)

(** How a call of the client ended, and how long it took. *)
Record call : Type := { answer : outcome chars unit; elapsed : Z }.

Record progress : Type := {
  latencies : list Z;
  failures : list chars;
  n_success : Z;
  n_fail : Z;
  lines : list chars;
}.

Definition begin : progress :=
  {| latencies := []; failures := []; n_success := 0; n_fail := 0; lines := [] |}.

(** One run: [describe] makes the message of a failure of the error. *)
Definition one_run (total progress_every run : Z) (describe : chars -> chars) (c : call)
  (p : progress) : outcome string progress :=
  p ← match answer c with
      | Ok _ =>
          n ← u64_add (n_success p) 1;
          Ok {| latencies := latencies p ++ [elapsed c]; failures := failures p; n_success := n;
                n_fail := n_fail p; lines := lines p |}
      | Err e =>
          n ← u64_add (n_fail p) 1;
          Ok {| latencies := latencies p; failures := push_failure (failures p) (describe e);
                n_success := n_success p; n_fail := n; lines := lines p |}
      | Panic w => Panic w
      end;
  Ok {| latencies := latencies p; failures := failures p; n_success := n_success p;
        n_fail := n_fail p;
        lines := lines p ++
          option_list (print_progress run total (n_success p) (n_fail p) progress_every) |}.

Fixpoint runs (total progress_every run : Z) (describe : Z -> chars -> chars) (cs : list call)
  (p : progress) : outcome string progress :=
  match cs with
  | [] => Ok p
  | c :: cs =>
      p ← one_run total progress_every run (describe run) c p;
      runs total progress_every (run + 1) describe cs p
  end.

(** [Vec::with_capacity] of durations, which take 16 bytes each. *)
Definition with_capacity (n : Z) : outcome string unit :=
  if 16 * n <=? isize_max then Ok tt else Panic "capacity overflow".

(** What the two commands share: [calls] has an entry for each of the [total] runs,
    and what it returns is the lines of the progress, the statistics and the recent
    failures. *)
Definition benchmark (total progress_every : Z) (describe : Z -> chars -> chars)
  (calls : list call) : outcome string (list chars * BenchmarkStats * list chars) :=
  with_capacity total;;
  p ← runs total progress_every 1 describe calls begin;
  stats ← from_latencies total (n_success p) (n_fail p) (latencies p);
  Ok (lines p, stats, failures p).

(** The lines [print_summary] prints of the statistics. *)
Definition print_summary (stats : BenchmarkStats) (failures : list chars) : list chars :=
  [[]; render_summary_table stats] ++
  match failures with
  | [] => []
  | _ => [[]; str "Recent failures:"] ++ ((fun f => str "- " ++ f) <$> failures)
  end.

Record KeygenCommand : Type := {
  bk_address : chars;
  bk_threshold : Z;
  bk_parties : Z;
  bk_total : Z;
  bk_wallet_prefix : chars;
  bk_progress_every : Z;
}.

(** [KeygenCommand::execute]: the lines it prints. [connected] is the result of
    [new_client], [uuid] gives the random identifier of each run, and [keygen] how
    the call of a run ends and how long it takes. *)
Definition execute_keygen (c : KeygenCommand) (connected : chars -> outcome string unit)
  (uuid : Z -> chars) (keygen : Z -> chars -> Z -> Z -> call) : outcome string (list chars) :=
  ensure_total (bk_total c);;
  ensure_non_empty "wallet-prefix" (bk_wallet_prefix c);;
  connected (bk_address c);;
  let wallet_id run := bk_wallet_prefix c ++ str "-" ++ uuid run in
  '(lines, stats, failures) ← benchmark (bk_total c) (bk_progress_every c)
    (fun run e => str "run " ++ to_string run ++ str ", wallet " ++ wallet_id run ++ str ": " ++ e)
    ((fun run => keygen run (wallet_id run) (bk_parties c) (bk_threshold c)) <$>
       seqZ 1 (bk_total c));
  Ok ((str "Running " ++ to_string (bk_total c) ++ str " keygen requests...") ::
      lines ++ print_summary stats failures).

Record KeysignCommand : Type := {
  bs_wallet_id : chars;
  bs_address : chars;
  bs_threshold : Z;
  bs_total : Z;
  bs_message : bytes;
  bs_progress_every : Z;
}.

(** [KeysignCommand::execute]; the message is kept as its UTF-8 bytes
    ([into_bytes]). *)
Definition execute_keysign (c : KeysignCommand) (connected : chars -> outcome string unit)
  (sign : Z -> chars -> Z -> bytes -> call) : outcome string (list chars) :=
  ensure_total (bs_total c);;
  ensure_non_empty "wallet-id" (bs_wallet_id c);;
  connected (bs_address c);;
  '(lines, stats, failures) ← benchmark (bs_total c) (bs_progress_every c)
    (fun run e => str "run " ++ to_string run ++ str ": " ++ e)
    ((fun run => sign run (bs_wallet_id c) (bs_threshold c) (bs_message c)) <$>
       seqZ 1 (bs_total c));
  Ok ((str "Running " ++ to_string (bs_total c) ++ str " signing requests for wallet " ++
       bs_wallet_id c ++ str "...") :: lines ++ print_summary stats failures).

(** ** Percentiles *)

(** The [p]-th percentile by the nearest-rank method: at least [p] percent of the
    times are at most [v], and fewer are less. *)
Definition count (P : Z -> bool) (l : list Z) : Z := Z.of_nat (length (filter (fun x => P x = true) l)).

Definition nearest_rank (p : Z) (times : list Z) (v : Z) : Prop :=
  v ∈ times /\
  p * Z.of_nat (length times) <= 100 * count (fun x => x <=? v) times /\
  100 * count (fun x => x <? v) times < p * Z.of_nat (length times).

Lemma sorted_lookup l i j x y :
  StronglySorted (key_le Z.leb id) l -> (i <= j)%nat -> l !! i = Some x -> l !! j = Some y -> x <= y.
Proof.
  intros Hs. revert i j. induction Hs as [|z l Hs IH Hz]; intros [|i] [|j] Hij Hi Hj; cbn in *;
    try done; try lia.
  - by simplify_eq.
  - simplify_eq. rewrite Forall_lookup in Hz. apply Hz in Hj. by apply Z.leb_le in Hj.
  - eapply (IH i j); [lia|done..].
Qed.

Lemma count_app P a b : count P (a ++ b) = count P a + count P b.
Proof. unfold count. rewrite filter_app, length_app. lia. Qed.

Lemma count_le P l : 0 <= count P l <= Z.of_nat (length l).
Proof. unfold count. pose proof (length_filter (fun x => P x = true) l). lia. Qed.

Lemma count_all P l : Forall (fun x => P x = true) l -> count P l = Z.of_nat (length l).
Proof.
  unfold count. induction 1 as [|x l Hx _ IH]; [done|].
  rewrite filter_cons_True by done. cbn [length]. lia.
Qed.

Lemma count_none P l : Forall (fun x => P x = false) l -> count P l = 0.
Proof.
  unfold count. induction 1 as [|x l Hx _ IH]; [done|].
  rewrite filter_cons_False by congruence. done.
Qed.

Lemma sorted_counts l i v :
  StronglySorted (key_le Z.leb id) l -> l !! i = Some v ->
  Z.of_nat i + 1 <= count (fun x => x <=? v) l /\ count (fun x => x <? v) l <= Z.of_nat i.
Proof.
  intros Hs Hi. pose proof (lookup_lt_Some _ _ _ Hi) as Hlt.
  split.
  - rewrite <- (take_drop (S i) l), count_app, (count_all _ (take (S i) l)).
    { rewrite length_take. pose proof (count_le (fun x => x <=? v) (drop (S i) l)). lia. }
    apply Forall_lookup. intros j x [Hx Hj]%lookup_take_Some.
    apply Z.leb_le. eapply sorted_lookup; [done| |done|done]. lia.
  - rewrite <- (take_drop i l), count_app, (count_none _ (drop i l)).
    { pose proof (count_le (fun x => x <? v) (take i l)). rewrite length_take in *. lia. }
    apply Forall_lookup. intros j x Hx. rewrite lookup_drop in Hx.
    apply Z.ltb_ge. eapply sorted_lookup; [done| |done|done]. lia.
Qed.

Lemma percentile_ok {E} times p :
  StronglySorted (key_le Z.leb id) times -> times <> [] -> 1 <= p <= 100 ->
  Z.of_nat (length times) * p <= u64_max ->
  exists i v, percentile (E:=E) times p = Ok (Some v) /\ times !! i = Some v /\
    Z.of_nat i = div_ceil (Z.of_nat (length times) * p) 100 - 1 /\ (i < length times)%nat.
Proof.
  intros Hs Hne Hp Hmax. set (n := Z.of_nat (length times)) in *.
  assert (1 <= n) as Hn by (destruct times; [done|]; subst n; cbn [length]; lia).
  assert (1 <= div_ceil (n * p) 100 <= n) as Hc.
  { unfold div_ceil. split.
    - apply Z.div_le_lower_bound; nia.
    - apply Z.lt_succ_r, Z.div_lt_upper_bound; nia. }
  assert (is_Some (times !! Z.to_nat (div_ceil (n * p) 100 - 1))) as [v Hv].
  { apply lookup_lt_is_Some. subst n. lia. }
  exists (Z.to_nat (div_ceil (n * p) 100 - 1)), v. split_and!; [|done|lia|subst n; lia].
  unfold percentile. destruct times as [|t0 ts]; [done|].
  change (Z.of_nat (length (t0 :: ts))) with n. unfold u64_mul, u64_sub. rewrite (proj2 (Z.leb_le _ _)) by done. cbn.
  rewrite (proj2 (Z.leb_le _ _)) by lia. cbn. rewrite Z.min_l by lia. by rewrite Hv.
Qed.

(** [percentile] computes percentiles by the nearest-rank method: of sorted
    times, as long as a hundred times their number is a [u64], it returns a time such
    that at least that share of the times is no greater and less than that share is
    smaller; it is [None] exactly for no times. *)
Theorem percentile_nearest_rank p times :
  StronglySorted (key_le Z.leb id) times -> 1 <= p <= 100 ->
  Z.of_nat (length times) * p <= u64_max ->
  match times with
  | [] => percentile (E:=Empty_set) times p = Ok None
  | _ => exists v, percentile (E:=Empty_set) times p = Ok (Some v) /\ nearest_rank p times v
  end.
Proof.
  intros Hs Hp Hmax. destruct times as [|t0 ts] eqn:Et; [done|]. rewrite <- Et in *.
  destruct (percentile_ok (E:=Empty_set) times p Hs ltac:(congruence) Hp Hmax)
    as (i & v & Hr & Hi & Hc & Hlt).
  exists v. split; [done|]. destruct (sorted_counts _ _ _ Hs Hi) as [Hle Hless].
  split; [by eapply list_elem_of_lookup_2|]. unfold div_ceil in Hc.
  pose proof (Z.mul_div_le (Z.of_nat (length times) * p + 100 - 1) 100 ltac:(lia)).
  pose proof (Z.mul_succ_div_gt (Z.of_nat (length times) * p + 100 - 1) 100 ltac:(lia)).
  split; lia.
Qed.

(** ** The statistics as a whole *)

Lemma sum_ok {E} l acc :
  Forall (fun x => 0 <= x) l -> 0 <= acc -> acc + foldr Z.add 0 l <= u64_max ->
  sum (E:=E) l acc = Ok (acc + foldr Z.add 0 l).
Proof.
  intros Hl. revert acc. induction Hl as [|x l Hx Hl IH]; intros acc Hacc Hmax; cbn in *.
  { by rewrite Z.add_0_r. }
  assert (0 <= foldr Z.add 0 l) by (clear -Hl; induction Hl; cbn; lia).
  unfold u64_add. rewrite (proj2 (Z.leb_le _ _)) by lia. cbn. rewrite IH by lia. f_equal. lia.
Qed.

Lemma as_millis_range d : 0 <= as_millis d < 2 ^ 64.
Proof. apply Z.mod_pos_bound. done. Qed.

Lemma sum_bounds a b (l : list Z) :
  Forall (fun x => a <= x <= b) l ->
  a * Z.of_nat (length l) <= foldr Z.add 0 l <= b * Z.of_nat (length l).
Proof. induction 1; cbn [length foldr]; lia. Qed.

Lemma sum_permutation (l l' : list Z) : l ≡ₚ l' -> foldr Z.add 0 l = foldr Z.add 0 l'.
Proof. induction 1; cbn; lia. Qed.

Lemma sorted_times latencies :
  let times := sort_unstable (as_millis <$> latencies) in
  StronglySorted (key_le Z.leb id) times /\ length times = length latencies /\
  Forall (fun x => 0 <= x) times /\
  foldr Z.add 0 times = foldr Z.add 0 (as_millis <$> latencies).
Proof.
  cbn. unfold sort_unstable. split_and!.
  - apply sort_by_key_sorted. apply _.
  - by rewrite sort_by_key_length, length_fmap.
  - rewrite sort_by_key_perm. apply Forall_fmap, Forall_true. intros d. cbn. apply as_millis_range.
  - apply sum_permutation, sort_by_key_perm.
Qed.

Lemma sort_unstable_permutation l l' : l ≡ₚ l' -> sort_unstable l = sort_unstable l'.
Proof. intros Hp. apply sort_by_key_canonical; [apply _|done|done]. Qed.

Lemma div_ceil_mono a b : a <= b -> div_ceil a 100 <= div_ceil b 100.
Proof. intros Hab. unfold div_ceil. apply Z.div_le_mono; lia. Qed.

(** The average of sorted times lies between the first and the last. *)
Lemma average_between times lo hi :
  StronglySorted (key_le Z.leb id) times -> head times = Some lo -> last times = Some hi ->
  lo <= foldr Z.add 0 times / Z.of_nat (length times) <= hi.
Proof.
  intros Hs Hlo Hhi. rewrite head_lookup in Hlo. rewrite last_lookup in Hhi.
  destruct (sum_bounds lo hi times) as [H1 H2].
  { apply Forall_lookup. intros i x Hx. pose proof (lookup_lt_Some _ _ _ Hx).
    split; [apply (sorted_lookup times 0 i)|apply (sorted_lookup times i (pred (length times)))];
      done || lia. }
  assert (0 < length times)%nat by (destruct times; [done|cbn; lia]).
  split; [apply Z.div_le_lower_bound|apply Z.div_le_upper_bound]; lia.
Qed.

(** What the statistics of no times, and of some, are like. *)
Definition no_times (s : BenchmarkStats) : Prop :=
  min_ms s = None /\ p50_ms s = None /\ p95_ms s = None /\ p99_ms s = None /\
  max_ms s = None /\ avg_ms s = None.

Definition ordered (s : BenchmarkStats) : Prop :=
  exists lo m a b hi avg,
    min_ms s = Some lo /\ p50_ms s = Some m /\ p95_ms s = Some a /\ p99_ms s = Some b /\
    max_ms s = Some hi /\ avg_ms s = Some avg /\
    lo <= m /\ m <= a /\ a <= b /\ b <= hi /\ lo <= avg <= hi.

(** The three percentiles of some times exist, at positions in order. *)
Lemma percentiles_ok {E} times :
  StronglySorted (key_le Z.leb id) times -> times <> [] ->
  Z.of_nat (length times) * 99 <= u64_max ->
  exists i j k m a b, percentile (E:=E) times 50 = Ok (Some m) /\
    percentile (E:=E) times 95 = Ok (Some a) /\ percentile (E:=E) times 99 = Ok (Some b) /\
    times !! i = Some m /\ times !! j = Some a /\ times !! k = Some b /\
    (i <= j)%nat /\ (j <= k)%nat /\ (k < length times)%nat.
Proof.
  intros Hs Hne Hmax. set (n := Z.of_nat (length times)) in *.
  assert (0 <= n) as Hn by lia.
  destruct (percentile_ok (E:=E) times 50 Hs Hne) as (i & m & ? & ? & Ci & Li); [lia|lia|].
  destruct (percentile_ok (E:=E) times 95 Hs Hne) as (j & a & ? & ? & Cj & Lj); [lia|lia|].
  destruct (percentile_ok (E:=E) times 99 Hs Hne) as (k & b & ? & ? & Ck & Lk); [lia|lia|].
  pose proof (div_ceil_mono (n * 50) (n * 95) ltac:(lia)).
  pose proof (div_ceil_mono (n * 95) (n * 99) ltac:(lia)).
  fold n in Ci, Cj, Ck. exists i, j, k, m, a, b. split_and!; try done; lia.
Qed.

Lemma from_latencies_ok {E} total success fail latencies :
  foldr Z.add 0 (as_millis <$> latencies) <= u64_max ->
  Z.of_nat (length latencies) * 99 <= u64_max ->
  exists s, from_latencies (E:=E) total success fail latencies = Ok s /\
    if decide (latencies = []) then no_times s else ordered s.
Proof.
  intros Hsum Hlen. destruct (sorted_times latencies) as (Hs & Hl & Hpos & Hf).
  unfold from_latencies. remember (sort_unstable _) as times eqn:Et. clear Et.
  rewrite <- Hf in Hsum. rewrite <- Hl in Hlen.
  destruct latencies as [|l0 ls], times as [|t0 ts]; try discriminate Hl.
  { eexists. split; [done|]. by rewrite decide_True. }
  pose proof (sum_ok (E:=E) (t0 :: ts) 0 Hpos ltac:(done) ltac:(lia)) as ->.
  remember (t0 :: ts) as times eqn:Et. assert (times <> []) as Hne by congruence.
  assert (head times = Some t0) as Hlo by (by rewrite Et). clear Et Hl.
  destruct (percentiles_ok (E:=E) times Hs Hne Hlen)
    as (i & j & k & m & a & b & -> & -> & -> & Hi & Hj & Hk & Hij & Hjk & Hlt).
  destruct (last times) as [hi|] eqn:Hhi; [|by apply last_None in Hhi].
  eexists. split; [done|]. rewrite decide_False by done.
  exists t0, m, a, b, hi, (foldr Z.add 0 times / Z.of_nat (length times)).
  pose proof (average_between times t0 hi Hs Hlo Hhi).
  rewrite last_lookup in Hhi. pose proof Hlo as Hfirst. rewrite head_lookup in Hfirst.
  split_and!; try done; try lia.
  - apply (sorted_lookup times 0 i); done || lia.
  - apply (sorted_lookup times i j); done || lia.
  - apply (sorted_lookup times j k); done || lia.
  - apply (sorted_lookup times k (pred (length times))); done || lia.
Qed.

(** the statistics are ordered as they should be, and do not depend on the order
    of the runs: with any latencies (whose sum and number are in range) the least
    is at most the median, that at most the 95th and the 99th percentile, these at
    most the greatest, and the average lies between the least and the greatest; with
    none there is nothing to report. *)
Theorem stats_ordered total success fail latencies :
  foldr Z.add 0 (as_millis <$> latencies) <= u64_max ->
  Z.of_nat (length latencies) * 99 <= u64_max ->
  exists s,
    (if decide (latencies = []) then no_times s else ordered s) /\
    forall latencies', latencies ≡ₚ latencies' ->
      from_latencies (E:=Empty_set) total success fail latencies' = Ok s.
Proof.
  intros Hsum Hlen. destruct (from_latencies_ok (E:=Empty_set) total success fail latencies Hsum Hlen)
    as (s & Hr & Hs).
  exists s. split; [done|]. intros latencies' Hp. rewrite <- Hr. unfold from_latencies.
  by rewrite (sort_unstable_permutation _ _ (fmap_Permutation as_millis _ _ Hp)).
Qed.

(** ** The counts *)

(** What a run adds to the counts. *)
Definition succeeded (cs : list call) : list call := filter (fun c => is_ok (answer c) = true) cs.

Definition described (describe : Z -> chars -> chars) (run : Z) (cs : list call) : list chars :=
  mjoin (imap (fun i c => if answer c is Err e then [describe (run + Z.of_nat i) e] else []) cs).

Lemma described_cons describe run c cs :
  described describe run (c :: cs) =
  (if answer c is Err e then [describe run e] else []) ++ described describe (run + 1) cs.
Proof.
  unfold described. cbn. rewrite Z.add_0_r. f_equal. f_equal. apply imap_ext.
  intros i x _. cbn. by rewrite Nat2Z.inj_succ, <- Z.add_1_l, Z.add_assoc.
Qed.

(** Calls do not panic. *)
Definition returns (c : call) : Prop := forall w, answer c <> Panic w.

Definition last_ten (l : list chars) : list chars := drop (length l - 10) l.

Lemma last_ten_push fs before f :
  fs = last_ten before -> push_failure fs f = last_ten (before ++ [f]).
Proof.
  intros ->. unfold push_failure, last_ten. rewrite length_drop, length_app. cbn [length].
  destruct (Nat.leb_spec 10 (length before - (length before - 10))) as [Hge|Hlt].
  - rewrite drop_drop, drop_app_le by lia. do 2 f_equal. lia.
  - replace (length before - 10)%nat with 0%nat by lia.
    replace (length before + 1 - 10)%nat with 0%nat by lia. done.
Qed.

Lemma one_run_counts total every run describe c p before :
  returns c -> failures p = last_ten before ->
  0 <= n_success p -> 0 <= n_fail p -> n_success p + n_fail p + 1 <= u64_max ->
  exists p', one_run total every run describe c p = Ok p' /\
    latencies p' = latencies p ++ (elapsed <$> succeeded [c]) /\
    n_success p' = n_success p + Z.of_nat (length (succeeded [c])) /\
    n_success p' + n_fail p' = n_success p + n_fail p + 1 /\ n_fail p <= n_fail p' /\
    failures p' = last_ten (before ++ if answer c is Err e then [describe e] else []).
Proof.
  intros Hc Hf Hs0 Hf0 Hmax. unfold one_run, u64_add, succeeded. rewrite filter_cons, filter_nil.
  destruct (answer c) as [[]|e|w] eqn:Ha; [rewrite decide_True by done|rewrite decide_False by done|by apply Hc in Ha];
    rewrite (proj2 (Z.leb_le _ _)) by lia; cbn; eexists; split; try done; cbn;
    rewrite ?app_nil_r; split_and!; try done; try lia.
  by apply last_ten_push.
Qed.

Lemma runs_counts total every run describe cs p before :
  Forall returns cs -> failures p = last_ten before ->
  0 <= n_success p -> 0 <= n_fail p ->
  n_success p + n_fail p + Z.of_nat (length cs) <= u64_max ->
  exists p', runs total every run describe cs p = Ok p' /\
    latencies p' = latencies p ++ (elapsed <$> succeeded cs) /\
    n_success p' = n_success p + Z.of_nat (length (succeeded cs)) /\
    n_success p' + n_fail p' = n_success p + n_fail p + Z.of_nat (length cs) /\
    failures p' = last_ten (before ++ described describe run cs).
Proof.
  intros Hcs. revert run p before.
  induction Hcs as [|c cs Hc Hcs IH]; intros run p before Hf Hs0 Hf0 Hmax.
  { exists p. cbn. rewrite !app_nil_r, !Z.add_0_r. done. }
  cbn [length] in *.
  destruct (one_run_counts total every run (describe run) c p before)
    as (p1 & H1 & L1 & S1 & T1 & F1 & E1); [done..|lia|].
  destruct (IH (run + 1) p1 _ E1) as (p2 & H2 & L2 & S2 & T2 & E2); [lia..|].
  exists p2. cbn [runs]. rewrite H1. cbn [mbind outcome_bind].
  change (succeeded (c :: cs)) with (succeeded ([c] ++ cs)). unfold succeeded in *.
  rewrite filter_app, fmap_app, length_app, described_cons, E2, L2, L1, !app_assoc.
  split_and!; try done; lia.
Qed.

(** A benchmark counts right: it makes all of its runs and reports as
    successes those whose call returned a result and as failures the others, which
    together are the total; the statistics are those of the latencies of the
    successes, and the failures it lists are the last ten, in order, or all if there
    are fewer. *)
Theorem benchmark_counts total every describe calls :
  Forall returns calls -> Z.of_nat (length calls) = total ->
  16 * total <= isize_max -> total * 99 <= u64_max ->
  foldr Z.add 0 (as_millis <$> (elapsed <$> succeeded calls)) <= u64_max ->
  let n := Z.of_nat (length (succeeded calls)) in
  exists lines stats,
    benchmark total every describe calls =
      Ok (lines, stats, last_ten (described describe 1 calls)) /\
    from_latencies total n (total - n) (elapsed <$> succeeded calls) = Ok (E:=string) stats /\
    success stats = n /\ success stats + fail stats = total.
Proof.
  intros Hret <- Hcap Hmax Hsum n. unfold benchmark, with_capacity.
  rewrite (proj2 (Z.leb_le _ _)) by done. cbn [mbind outcome_bind].
  assert (length (succeeded calls) <= length calls)%nat as Hle by apply length_filter.
  destruct (runs_counts (Z.of_nat (length calls)) every 1 describe calls begin [])
    as (p & -> & Hlat & Hs & Ht & Hf); [done..|cbn; unfold u64_max in *; lia|].
  cbn in Hlat, Hs, Ht. cbn [mbind outcome_bind]. replace (n_fail p) with (Z.of_nat (length calls) - n) by lia.
  rewrite Hlat, Hs, Hf. fold n. rewrite Z.add_0_l.
  destruct (from_latencies_ok (E:=string) (Z.of_nat (length calls)) n (Z.of_nat (length calls) - n)
    (elapsed <$> succeeded calls) Hsum) as (s & Hr & _); [rewrite length_fmap; lia|].
  rewrite Hr. cbn [mbind outcome_bind]. do 2 eexists. split; [done|]. split; [done|].
  unfold from_latencies in Hr. inv_ok. cbn. lia.
Qed.
