(* ===== verification/Peerset.v ===== *)
(** * Peer sets

    [crates/client/service/src/peerset.rs]: the ordered set of peers that run
    one computation, its encoding and its recovery from the cache.  The [tx]
    field, the channel to the runtime that serves the cache, appears as the
    [reply] argument of the two operations that use it. *)

From Stdlib Require Import ZArith Lia Strings.Byte.
From stdpp Require Import base gmap sorting strings numbers list.
From S2P Require Import Prelude Wire Messages.

Local Open Scope Z_scope.

(** A loop that reads [n] items one after the other. *)
Fixpoint read_n {A} (rd : bytes -> outcome io_error (A * bytes)) (n : nat) (io : bytes) :
  outcome io_error (list A * bytes) :=
  match n with
  | O => Ok ([], io)
  | S n => '(x, io) ← rd io; '(xs, io) ← read_n rd n io; Ok (x :: xs, io)
  end.

Lemma read_n_concat {A} rd (enc : A -> bytes) (xs : list A) rest :
  (forall x r, x ∈ xs -> rd (enc x ++ r) = Ok (x, r)) ->
  read_n rd (length xs) (concat (enc <$> xs) ++ rest) = Ok (xs, rest).
Proof.
  induction xs as [|x xs IH]; intros Hrd; cbn; [done|].
  rewrite <- app_assoc, Hrd by constructor. cbn.
  rewrite IH; [done|]. intros y r Hy. apply Hrd. by constructor.
Qed.

Module Peerset.
Section peerset.
Context `{PeerIds} `{UnsignedVarint}.

Record t : Type := {
  local_peer_id : PeerId;
  peers : list PeerId;
  parties : list Z;
}.

(** [Peerset::new]. *)
Definition new (ps : list PeerId) (local : PeerId) : t := {|
  local_peer_id := local;
  peers := sort_by_key bytes_leb peer_to_bytes ps;
  parties := Z.of_nat <$> seq 0 (length ps);
|}.

(** One length-prefixed peer id. *)
Definition read_peer (io : bytes) : outcome io_error (PeerId * bytes) :=
  '(len, io) ← read_uint Usize io;
  '(buf, io) ← read_buffer len io;
  p ← ok_or InvalidInput (peer_from_bytes buf);
  Ok (p, io).

(** [Peerset::from_bytes]: the encoded local peer id is read and dropped in
    favour of the caller's. *)
Definition from_bytes (b : bytes) (local : PeerId) : outcome io_error t :=
  '(_, io) ← read_peer b;
  '(nodes_len, io) ← read_uint Usize io;
  '(nodes, io) ← read_n read_peer (Z.to_nat nodes_len) io;
  '(parties_len, io) ← read_uint Usize io;
  '(parties, io) ← read_n (read_uint Usize) (Z.to_nat parties_len) io;
  Ok {| local_peer_id := local; peers := nodes; parties := parties |}.

Definition write_len (n : nat) : BufWriter.t -> BufWriter.t :=
  BufWriter.write_all (uv_encode Usize (Z.of_nat n)).

Definition write_peer (io : BufWriter.t) (p : PeerId) : BufWriter.t :=
  BufWriter.write_all (peer_to_bytes p)
    (write_len (length (peer_to_bytes p)) io).

(** [Peerset::to_bytes]: what the [BufWriter] still holds at the end. *)
Definition to_bytes (ps : t) : outcome io_error bytes :=
  let io := write_peer BufWriter.new (local_peer_id ps) in
  let io := write_len (length (peers ps)) io in
  let io := foldl write_peer io (peers ps) in
  let io := write_len (length (parties ps)) io in
  let io := foldl (fun io i => BufWriter.write_all (uv_encode Usize i) io) io
                  (parties ps) in
  Ok (BufWriter.buffer io).

(** [Peerset::index_of]. *)
Definition index_of (ps : t) (p : PeerId) : option Z :=
  (fun i => as_u16 (Z.of_nat i)) <$>
    position (fun elem => bool_decide (elem = p)) (peers ps).

(** [Peerset::size] and [Peerset::len]. *)
Definition size (ps : t) : nat := length (peers ps).

(** [Index<u16>]. *)
Definition index {E} (ps : t) (i : Z) : outcome E PeerId :=
  expect "index out of bounds" (peers ps !! Z.to_nat i).

(** [Peerset::remotes_iter]. *)
Definition remotes_iter (ps : t) : list PeerId :=
  filter (fun p => p <> local_peer_id ps) (peers ps).

(** The loop of [recover_from_cache]: the party of every peer the cache
    knows; the others are skipped. *)
Fixpoint recover_parties {E} (cache : t) (ps : list PeerId) : outcome E (list Z) :=
  match ps with
  | [] => Ok []
  | p :: ps =>
      match index_of cache p with
      | Some i =>
          party ← expect "index out of bounds" (parties cache !! Z.to_nat i);
          rest ← recover_parties cache ps;
          Ok (party :: rest)
      | None => recover_parties cache ps
      end
  end.

(** [Peerset::recover_from_cache]; [reply] is what the runtime answers, or
    [None] when it dropped the request. *)
Definition recover_from_cache {E} (ps : t) (reply : option (outcome E t)) : outcome E t :=
  answer ← expect "runtime expected to serve protocol" reply;
  cache ← answer;
  parties ← recover_parties cache (sort_by_key bytes_leb peer_to_bytes (peers ps));
  Ok {| local_peer_id := local_peer_id ps; peers := peers ps; parties := parties |}.

(** [Peerset::save_to_cache]: the peer set handed to the runtime, and the
    runtime's verdict as its result. *)
Definition save_to_cache {E} (ps : t) (serve : t -> option (outcome E unit)) :
  outcome E unit :=
  answer ← expect "runtime expected to serve protocol" (serve ps);
  answer.

(** ** The encoding as a list of writes *)

Definition peer_chunks (p : PeerId) : list bytes :=
  [uv_encode Usize (Z.of_nat (length (peer_to_bytes p))); peer_to_bytes p].

Definition chunks (ps : t) : list bytes :=
  peer_chunks (local_peer_id ps) ++
  uv_encode Usize (Z.of_nat (length (peers ps))) ::
  concat (peer_chunks <$> peers ps) ++
  uv_encode Usize (Z.of_nat (length (parties ps))) ::
  (uv_encode Usize <$> parties ps).

(** The bytes of a peer set, if the writer's buffer held them all. *)
Definition encoding (ps : t) : bytes := concat (chunks ps).

Definition enc_peer (p : PeerId) : bytes := concat (peer_chunks p).

Lemma foldl_write_peer io ps :
  foldl write_peer io ps = BufWriter.write_list (concat (peer_chunks <$> ps)) io.
Proof.
  revert io. induction ps as [|p ps IH]; intros io; [done|].
  cbn [foldl fmap list_fmap concat]. rewrite IH. by rewrite BufWriter.write_list_app.
Qed.

Lemma foldl_write_ints io xs :
  foldl (fun io i => BufWriter.write_all (uv_encode Usize i) io) io xs =
  BufWriter.write_list (uv_encode Usize <$> xs) io.
Proof.
  unfold BufWriter.write_list.
  revert io. induction xs as [|i xs IH]; intros io; cbn; [done|]. apply IH.
Qed.

Lemma to_bytes_chunks ps :
  to_bytes ps = Ok (BufWriter.buffer (BufWriter.write_list (chunks ps) BufWriter.new)).
Proof.
  unfold to_bytes. rewrite foldl_write_peer, foldl_write_ints.
  unfold chunks. rewrite BufWriter.write_list_app.
  change (BufWriter.write_list (?a :: ?l) ?w)
    with (BufWriter.write_list l (BufWriter.write_all a w)).
  rewrite BufWriter.write_list_app. reflexivity.
Qed.
End peerset.

Section laws.
Context `{PeerIdLaws} `{UnsignedVarintLaws}.

(** The parties are [usize] values and the lengths fit in memory. *)
Record encodable (ps : t) : Prop := {
  enc_fits : Z.of_nat (length (encoding ps)) <= BufWriter.capacity;
  enc_parties : Forall (fun i => 0 <= i < 2 ^ 64) (parties ps);
}.

Lemma to_bytes_fits ps :
  Z.of_nat (length (encoding ps)) <= BufWriter.capacity ->
  to_bytes ps = Ok (encoding ps).
Proof.
  intros Hfit. rewrite to_bytes_chunks.
  rewrite (BufWriter.write_list_two_fits _ 0 2
    (uv_encode Usize (Z.of_nat (length (peer_to_bytes (local_peer_id ps)))))
    (uv_encode Usize (Z.of_nat (length (peers ps)))));
    auto using uv_encode_nonempty.
Qed.

Lemma read_peer_enc p rest :
  Z.of_nat (length (peer_to_bytes p)) <= isize_max ->
  read_peer (enc_peer p ++ rest) = Ok (p, rest).
Proof.
  intros Hlen. unfold read_peer, enc_peer, peer_chunks. cbn [concat].
  rewrite app_nil_r, <- app_assoc. unfold isize_max in Hlen.
  rewrite read_uint_encode by (cbn; lia). cbn.
  rewrite read_buffer_app by (unfold isize_max; lia). cbn.
  by rewrite peer_from_to_bytes.
Qed.

Lemma concat_enc_peers ps :
  concat (concat (peer_chunks <$> ps)) = concat (enc_peer <$> ps).
Proof.
  induction ps as [|p ps IH]; [done|].
  cbn [fmap list_fmap concat]. by rewrite concat_app, IH.
Qed.

Lemma encoding_eq ps :
  encoding ps = enc_peer (local_peer_id ps) ++
    uv_encode Usize (Z.of_nat (length (peers ps))) ++
    concat (enc_peer <$> peers ps) ++
    uv_encode Usize (Z.of_nat (length (parties ps))) ++
    concat (uv_encode Usize <$> parties ps).
Proof.
  unfold encoding, chunks. rewrite !concat_app. cbn [concat].
  by rewrite concat_app, concat_enc_peers.
Qed.

(** No part of an encoding is longer than the encoding. *)
Lemma encoding_bounds ps :
  let n := length (encoding ps) in
  (length (peer_to_bytes (local_peer_id ps)) <= n)%nat /\
  (length (peers ps) <= n)%nat /\ (length (parties ps) <= n)%nat /\
  (forall p, p ∈ peers ps -> length (peer_to_bytes p) <= n)%nat.
Proof.
  cbv zeta. rewrite encoding_eq, !length_app.
  assert (forall p, length (peer_to_bytes p) < length (enc_peer p))%nat as Henc.
  { intros p. unfold enc_peer, peer_chunks. cbn [concat]. rewrite !length_app.
    pose proof (uv_encode_length Usize (Z.of_nat (length (peer_to_bytes p)))). lia. }
  assert (forall A (f : A -> bytes) l, (forall x, 0 < length (f x))%nat ->
    length l <= length (concat (f <$> l)))%nat as Hlen.
  { intros A f l Hf. induction l as [|x l IH]; cbn; [lia|].
    rewrite length_app. specialize (Hf x). lia. }
  pose proof (Henc (local_peer_id ps)).
  pose proof (Hlen _ enc_peer (peers ps) (fun p => Nat.lt_lt_0 _ _ (Henc p))).
  pose proof (Hlen _ (uv_encode Usize) (parties ps) (uv_encode_length Usize)).
  repeat split; try lia. intros p [k Hk]%list_elem_of_lookup.
  assert (length (enc_peer p) <= length (concat (enc_peer <$> peers ps)))%nat.
  { apply (concat_lookup_length _ k). by rewrite list_lookup_fmap, Hk. }
  specialize (Henc p). lia.
Qed.

Lemma from_bytes_encoding ps local rest :
  encodable ps ->
  from_bytes (encoding ps ++ rest) local =
  Ok {| local_peer_id := local; peers := peers ps; parties := parties ps |}.
Proof.
  intros [Hfit Hparties]. pose proof (encoding_bounds ps) as (Hb1 & Hb2 & Hb3 & Hb4).
  unfold BufWriter.capacity in Hfit. unfold from_bytes.
  rewrite encoding_eq, <- !app_assoc.
  rewrite read_peer_enc by (unfold isize_max; lia). cbn.
  rewrite read_uint_encode by (cbn; lia). cbn. rewrite Nat2Z.id.
  rewrite read_n_concat; [cbn|].
  - rewrite read_uint_encode by (cbn; lia). cbn. rewrite Nat2Z.id.
    rewrite read_n_concat; [done|]. intros i r Hi. apply read_uint_encode.
    rewrite Forall_forall in Hparties. by apply Hparties.
  - intros p r Hp. apply read_peer_enc. specialize (Hb4 p Hp). unfold isize_max. lia.
Qed.
(** a peer set whose encoding fits the 8 KiB buffer of the writer
    survives [to_bytes] and [from_bytes], with the reader's own local id. *)
Theorem peerset_roundtrip ps local :
  encodable ps ->
  exists b, to_bytes ps = Ok b /\
    from_bytes b local =
    Ok {| local_peer_id := local; peers := peers ps; parties := parties ps |}.
Proof.
  intros Hps. exists (encoding ps). split; [apply to_bytes_fits, Hps|].
  rewrite <- (app_nil_r (encoding ps)). by apply from_bytes_encoding.
Qed.

(** ** Indices *)

Lemma index_of_lookup ps p i :
  NoDup (peers ps) -> Z.of_nat (length (peers ps)) <= 65536 ->
  index_of ps p = Some (Z.of_nat i) -> peers ps !! i = Some p.
Proof.
  intros Hnd Hlen. unfold index_of. rewrite fmap_Some.
  intros (k & Hk & Heq). apply position_some in Hk as [(q & Hq & Hqp) _].
  apply bool_decide_eq_true in Hqp as ->.
  pose proof (lookup_lt_Some _ _ _ Hq).
  cbn in Heq. rewrite as_u16_small in Heq by (unfold u16_max; lia).
  by apply Nat2Z.inj in Heq as ->.
Qed.

Lemma lookup_index_of ps p i :
  NoDup (peers ps) -> Z.of_nat (length (peers ps)) <= 65536 ->
  peers ps !! i = Some p -> index_of ps p = Some (Z.of_nat i).
Proof.
  intros Hnd Hlen Hi. unfold index_of. apply fmap_Some. exists i.
  pose proof (lookup_lt_Some _ _ _ Hi).
  split; [|cbn; rewrite as_u16_small; unfold u16_max; lia].
  apply position_some. split.
  - exists p. by rewrite bool_decide_eq_true.
  - intros j q Hj Hq. apply bool_decide_eq_false. intros ->.
    assert (j = i) by (by eapply NoDup_lookup). lia.
Qed.

(** [index_of] and the [Index] operator are inverse to each other on a
    set of at most 65536 distinct peers. *)
Theorem index_of_inverse ps p (i : nat) :
  NoDup (peers ps) -> Z.of_nat (size ps) <= 65536 ->
  (index_of ps p = Some (Z.of_nat i) <-> index (E:=io_error) ps (Z.of_nat i) = Ok p).
Proof.
  intros Hnd Hlen. unfold index. rewrite Nat2Z.id, expect_ok.
  split; auto using index_of_lookup, lookup_index_of.
Qed.

(** nodes that assembled the same peers, in whatever order their
    answers arrived, number them alike. *)
Theorem new_agreement ps1 ps2 local1 local2 p :
  ps1 ≡ₚ ps2 ->
  peers (new ps1 local1) = peers (new ps2 local2) /\
  parties (new ps1 local1) = parties (new ps2 local2) /\
  index_of (new ps1 local1) p = index_of (new ps2 local2) p.
Proof.
  intros Hp.
  assert (peers (new ps1 local1) = peers (new ps2 local2)) as Heq.
  { cbn. apply (sort_by_key_canonical _ _); [done|].
    intros x y _ _. apply peer_to_bytes_inj. }
  split; [done|]. split; [cbn; by rewrite Hp|]. unfold index_of. by rewrite Heq.
Qed.

Lemma new_size ps local : size (new ps local) = length ps.
Proof. unfold size. cbn. by autorewrite with frost. Qed.

Lemma new_peers_length ps local : length (peers (new ps local)) = length ps.
Proof. cbn. by autorewrite with frost. Qed.

(** Party numbers are positions, so they fit a [usize] when the set is
    encodable at all. *)
Lemma new_parties_range ps local :
  Z.of_nat (length (encoding (new ps local))) <= BufWriter.capacity ->
  Forall (fun i => 0 <= i < 2 ^ 64) (parties (new ps local)).
Proof.
  intros Hfit. pose proof (encoding_bounds (new ps local)) as (_ & Hn & _).
  unfold BufWriter.capacity in Hfit. apply Forall_forall. intros i Hi.
  rewrite new_peers_length in Hn. unfold new in Hi. cbn [parties] in Hi.
  apply list_elem_of_fmap in Hi as (k & -> & Hk). apply elem_of_seq in Hk. lia.
Qed.

Lemma new_nodup ps local : NoDup ps -> NoDup (peers (new ps local)).
Proof. cbn. by rewrite sort_by_key_perm. Qed.

Lemma new_elem_of ps local p : p ∈ peers (new ps local) <-> p ∈ ps.
Proof. cbn. by rewrite sort_by_key_perm. Qed.

(** Every remote peer is addressed by a broadcast, the local one is not. *)
Lemma remotes_iter_length ps :
  NoDup (peers ps) -> local_peer_id ps ∈ peers ps ->
  length (remotes_iter ps) = (size ps - 1)%nat.
Proof.
  unfold remotes_iter, size. generalize (local_peer_id ps) as l.
  induction (peers ps) as [|q l' IH]; intros l Hnd Hl; [by apply elem_of_nil in Hl|].
  apply NoDup_cons in Hnd as [Hq Hnd]. rewrite filter_cons.
  apply elem_of_cons in Hl as [->|Hl].
  - rewrite decide_False by naive_solver.
    cbn. rewrite Nat.sub_0_r. f_equal. clear IH Hnd.
    induction l' as [|r l' IH]; [done|]. rewrite not_elem_of_cons in Hq.
    rewrite filter_cons_True by naive_solver. f_equal. naive_solver.
  - rewrite decide_True by (intros ->; done). cbn. rewrite (IH l) by done.
    assert (0 < length l')%nat by (destruct l'; [by apply elem_of_nil in Hl|cbn; lia]).
    lia.
Qed.
End laws.
End Peerset.
