(* ===== verification/StartMsg.v ===== *)
(** * The start message

    [StartMsg] of [crates/client/service/src/negotiation.rs]: the peer set and
    the request body that the proposer multicasts once enough peers joined. *)

From Stdlib Require Import ZArith Lia Strings.Byte.
From stdpp Require Import base strings numbers list.
From S2P Require Import Prelude Wire Messages Peerset.

Local Open Scope Z_scope.

Module StartMsg.
Section start_msg.
Context `{PeerIds} `{UnsignedVarint}.

Record t : Type := { peerset : Peerset.t; body : bytes }.

(** [StartMsg::from_bytes]. *)
Definition from_bytes (b : bytes) (local : PeerId) : outcome io_error t :=
  '(peerset_len, io) ← read_uint Usize b;
  '(peerset_buffer, io) ← read_buffer peerset_len io;
  '(length, io) ← read_uint Usize io;
  '(body, io) ← read_buffer length io;
  peerset ← Peerset.from_bytes peerset_buffer local;
  Ok {| peerset := peerset; body := body |}.

(** [StartMsg::to_bytes]: what the [BufWriter] still holds at the end. *)
Definition to_bytes (m : t) : outcome io_error bytes :=
  peerset_bytes ← Peerset.to_bytes (peerset m);
  let io := BufWriter.new in
  let io := BufWriter.write_all
              (uv_encode Usize (Z.of_nat (length peerset_bytes))) io in
  let io := BufWriter.write_all peerset_bytes io in
  let io := BufWriter.write_all
              (uv_encode Usize (Z.of_nat (length (body m)))) io in
  let io := BufWriter.write_all (body m) io in
  Ok (BufWriter.buffer io).

(** The four writes, for a given encoding of the peer set. *)
Definition chunks (ps body : bytes) : list bytes :=
  [uv_encode Usize (Z.of_nat (length ps)); ps;
   uv_encode Usize (Z.of_nat (length body)); body].

(** The bytes of a start message, if the buffers held them all. *)
Definition encoding (m : t) : bytes :=
  concat (chunks (Peerset.encoding (peerset m)) (body m)).
End start_msg.

Section laws.
Context `{PeerIdLaws} `{UnsignedVarintLaws}.

Lemma start_encoding_bounds m :
  (length (Peerset.encoding (peerset m)) <= length (encoding m))%nat /\
  (length (body m) <= length (encoding m))%nat.
Proof.
  split.
  - by apply (concat_lookup_length _ 1).
  - by apply (concat_lookup_length _ 3).
Qed.

Lemma start_to_bytes_fits m :
  Z.of_nat (length (encoding m)) <= BufWriter.capacity ->
  to_bytes m = Ok (encoding m).
Proof.
  intros Hfit. destruct (start_encoding_bounds m).
  unfold to_bytes. rewrite Peerset.to_bytes_fits by lia. cbn [mbind outcome_bind].
  rewrite (eq_refl : BufWriter.write_all _ (BufWriter.write_all _ (BufWriter.write_all _
    (BufWriter.write_all _ BufWriter.new))) =
    BufWriter.write_list (chunks (Peerset.encoding (peerset m)) (body m)) BufWriter.new).
  rewrite (BufWriter.write_list_two_fits _ 0 2
    (uv_encode Usize (Z.of_nat (length (Peerset.encoding (peerset m)))))
    (uv_encode Usize (Z.of_nat (length (body m)))));
    auto using uv_encode_nonempty.
Qed.

Lemma start_from_bytes_encoding m local :
  Z.of_nat (length (encoding m)) <= BufWriter.capacity ->
  Forall (fun i => 0 <= i < 2 ^ 64) (Peerset.parties (peerset m)) ->
  from_bytes (encoding m) local =
  Ok {| peerset := {| Peerset.local_peer_id := local;
                      Peerset.peers := Peerset.peers (peerset m);
                      Peerset.parties := Peerset.parties (peerset m) |};
        body := body m |}.
Proof.
  intros Hfit Hparties.
  destruct (start_encoding_bounds m). unfold BufWriter.capacity in Hfit.
  unfold encoding, chunks, from_bytes. cbn [concat].
  rewrite read_uint_encode by (cbn [bits]; lia). cbn [mbind outcome_bind].
  rewrite read_buffer_app by (unfold isize_max; lia). cbn [mbind outcome_bind].
  rewrite read_uint_encode by (cbn [bits]; lia). cbn [mbind outcome_bind].
  rewrite read_buffer_app by (unfold isize_max; lia). cbn [mbind outcome_bind].
  rewrite <- (app_nil_r (Peerset.encoding (peerset m))).
  rewrite Peerset.from_bytes_encoding; [done|].
  split; [unfold BufWriter.capacity; lia|done].
Qed.

(** a start message whose encoding fits the 8 KiB buffer reaches every
    joiner unchanged: the joiner decodes the same peers, parties and body,
    with its own local peer id. *)
Theorem start_msg_roundtrip m local :
  Z.of_nat (length (encoding m)) <= BufWriter.capacity ->
  Forall (fun i => 0 <= i < 2 ^ 64) (Peerset.parties (peerset m)) ->
  exists b, to_bytes m = Ok b /\
    from_bytes b local =
    Ok {| peerset := {| Peerset.local_peer_id := local;
                        Peerset.peers := Peerset.peers (peerset m);
                        Peerset.parties := Peerset.parties (peerset m) |};
          body := body m |}.
Proof.
  intros Hfit Hparties. exists (encoding m).
  split; [by apply start_to_bytes_fits|by apply start_from_bytes_encoding].
Qed.

(** The writers never fail: [to_bytes] is total. *)
Lemma to_bytes_total m : exists b, to_bytes m = Ok b.
Proof. unfold to_bytes. rewrite Peerset.to_bytes_chunks. by eexists. Qed.

(** a body of 8192 bytes or more bypasses the buffer, so [to_bytes]
    returns the empty string and every joiner fails to decode the start
    message. *)
Theorem start_msg_large_body m local :
  BufWriter.capacity <= Z.of_nat (length (body m)) ->
  to_bytes m = Ok [] /\ from_bytes [] local = Err InvalidInput.
Proof.
  intros Hbody. split.
  - unfold to_bytes. rewrite Peerset.to_bytes_chunks. cbn [mbind outcome_bind].
    rewrite BufWriter.write_all_large; [done..|].
    apply BufWriter.write_all_nonempty; [apply uv_encode_nonempty|].
    pose proof (uv_encode_bound Usize (Z.of_nat (length (body m)))).
    unfold BufWriter.capacity. lia.
  - unfold from_bytes, read_uint. by rewrite uv_read_eof.
Qed.
(** a length prefix over [isize::MAX], which the sender of the start
    message chooses, makes the decoder panic when it allocates the buffer. *)
Theorem start_msg_length_panic v rest local :
  isize_max < v < 2 ^ 64 ->
  from_bytes (uv_encode Usize v ++ rest) local = Panic "capacity overflow".
Proof.
  unfold isize_max. intros Hv. unfold from_bytes.
  rewrite read_uint_encode by (cbn [bits]; lia). cbn [mbind outcome_bind].
  unfold read_buffer, vec_zeroed, isize_max.
  by rewrite (proj2 (Z.leb_gt _ _)) by lia.
Qed.
End laws.
End StartMsg.
