(* ===== verification/Room.v ===== *)
(** * What a room's tasks share

    The data of the service crate that its tasks pass to one another: the
    agents that compute ([handler.rs]), local requests and the idle state of a
    room ([Phase1Channel] of [coordination.rs]), and the effects a task has on
    the world.

    - The receiving end of a room's queue of incoming requests moves from task
      to task; it is modelled by its name (a [nat]).  What the owner of the end
      observes on it is an input of the owner's [poll].
    - A [oneshot] channel is modelled by its name too. *)

From Stdlib Require Import ZArith Lia Strings.Byte.
From stdpp Require Import base gmap strings numbers list.
From S2P Require Import Prelude Messages Peerset.

Local Open Scope Z_scope.

(** ** Agents: the interface of [ComputeAgentAsync] and its factory *)

Class ComputeAgents : Type := {
  Agent : Type;
  agent_protocol_id : Agent -> Z;
  (** [ProtocolAgentFactory]: [make], [keygen] and [keysign]. *)
  factory_make : Z -> option Agent;
  factory_keygen : Agent;
  factory_keysign : Agent;
}.

(** What the factory promises to the worker: the agent made for a protocol id
    has that id. *)
Class ComputeAgentLaws `{ComputeAgents} : Prop := {
  make_protocol_id pid a : factory_make pid = Some a -> agent_protocol_id a = pid;
}.

(** ** Observations on channels *)

(** [mpsc::Receiver::try_next]: a message, the end of the channel, or nothing
    yet. *)
Inductive try_next (A : Type) : Type :=
  | NextMsg (a : A)
  | NextClosed
  | NextEmpty.
Arguments NextMsg {A} a.
Arguments NextClosed {A}.
Arguments NextEmpty {A}.

(** [oneshot::Receiver::try_recv]: the value, nothing yet, or the sender is
    gone. *)
Inductive try_recv (A : Type) : Type :=
  | RecvMsg (a : A)
  | RecvEmpty
  | RecvCanceled.
Arguments RecvMsg {A} a.
Arguments RecvEmpty {A}.
Arguments RecvCanceled {A}.

Section room.
Context `{PeerIds} `{ComputeAgents}.

(** ** Effects *)

(** [MessageIntent] of the network service. *)
Inductive MessageIntent : Type :=
  | Broadcast (payload : bytes)
  | Multicast (peers : list PeerId) (payload : bytes)
  | SendDirect (peer : PeerId) (payload : bytes).

Inductive effect : Type :=
  | Respond (to : nat) (r : OutgoingResponse)
      (** [pending_response.send(..)] on an incoming request. *)
  | Discard (to : nat)
      (** the request was dropped with its response channel. *)
  | NetworkRequest (room : RoomId) (ctx : MessageContext) (intent : MessageIntent)
      (** a request handed to the network worker. *)
  | ReplyLocal (to : nat) (r : outcome string bytes)
      (** the answer to a local (RPC) request. *)
  | DropLocal (to : nat).
      (** a local request was dropped with its reply channel. *)

(** The requests an effect settles. *)
Definition settles (e : effect) : list nat :=
  match e with
  | Respond to _ | Discard to => [to]
  | _ => []
  end.

(** ** Local requests and the idle room *)

(** [LocalRpcMsg]. *)
Record LocalRpcMsg : Type := {
  rpc_n : Z;
  rpc_payload : bytes;
  rpc_agent : Agent;
  rpc_pending_response : nat;
}.

(** [Phase1Channel]; [request] names the oneshot channel on which the worker
    passes a local request. *)
Record Phase1Channel : Type := {
  p1_id : RoomId;
  p1_rx : option nat;
  p1_request : nat;
  p1_buffered : list IncomingRequest;
}.

(** [Phase1Channel::new]: the room's receiver and a fresh oneshot channel. *)
Definition Phase1Channel_new (room_id : RoomId) (room_rx : nat) (request : nat) :
  Phase1Channel * nat :=
  ({| p1_id := room_id; p1_rx := Some room_rx; p1_request := request;
      p1_buffered := [] |}, request).

(** [reject_buffered]. *)
Definition reject_buffered (buffered : list IncomingRequest) : list effect :=
  (fun m => Respond (pending_response m) reject) <$> buffered.

Lemma reject_buffered_settles buffered :
  concat (settles <$> reject_buffered buffered) = pending_response <$> buffered.
Proof.
  unfold reject_buffered.
  induction buffered as [|m l IH]; cbn; [done|]. by f_equal.
Qed.
End room.
