(* ===== verification/NetworkProxy.v ===== *)
(** * The receiver proxy

    [crates/client/service/src/network_proxy.rs]: while a computation runs, the
    proxy owns the room's receiver and forwards to the computation the messages
    of its session, with the sender's index filled in. *)

From Stdlib Require Import ZArith Lia Strings.Byte.
From stdpp Require Import base gmap strings numbers list.
From S2P Require Import Prelude Messages Peerset Room.

Local Open Scope Z_scope.

Module ReceiverProxy.
Section proxy.
Context `{PeerIds} `{ComputeAgents}.

Record t : Type := {
  room_id : RoomId;
  request_receiver : option nat;
  peerset : Peerset.t;
  session : SessionId;
  buffered : list IncomingRequest;
}.

(** [ReceiverProxy::new]. *)
Definition new (room_id : RoomId) (rx : nat) (ps : Peerset.t) (sid : SessionId)
  (buffered : list IncomingRequest) : t :=
  {| room_id := room_id; request_receiver := Some rx; peerset := ps;
     session := sid; buffered := buffered |}.

(** [should_forward_message]. *)
Definition should_forward_message (msg : IncomingRequest) (sid : SessionId) : bool :=
  match message_type (context msg) with
  | Computation => bool_decide (session_id (context msg) = sid)
  | Coordination => false
  end.

(** What became of a message: forwarded to the computation, or settled. *)
Inductive disposition : Type :=
  | Forwarded (msg : IncomingRequest)
  | Settled (e : effect).

(** [forward_or_reject]; [accepts] is whether the computation's channel
    takes the message ([try_send] fails on a full or closed channel, and
    then drops it). *)
Definition forward_or_reject (msg : IncomingRequest) (sid : SessionId)
  (ps : Peerset.t) (accepts : bool) : disposition :=
  if should_forward_message msg sid then
    match Peerset.index_of ps (peer_id msg) with
    | Some i =>
        let msg := with_peer_index i msg in
        if accepts then Forwarded msg else Settled (Discard (pending_response msg))
    | None => Settled (Respond (pending_response msg) reject)
    end
  else Settled (Respond (pending_response msg) reject).

(** What one poll observes: is the computation's receiver gone, what does
    the room's queue hold, would the computation's channel take a message,
    and the name of a fresh oneshot channel. *)
Record obs : Type := {
  tx_is_closed : bool;
  next : try_next IncomingRequest;
  tx_accepts : bool;
  fresh : nat;
}.

Inductive poll_result : Type :=
  | Ready (room : RoomId) (ch : Phase1Channel) (tx : nat)
  | Pending (p : t) (out : list disposition)
  | Panicked (why : string).

(** [ReceiverProxy::poll]. *)
Definition poll (p : t) (o : obs) : poll_result :=
  if tx_is_closed o then
    match request_receiver p with
    | Some rx =>
        let '(ch, tx) := Phase1Channel_new (room_id p) rx (fresh o) in
        Ready (room_id p) ch tx
    | None => Panicked "called `Option::unwrap()` on a `None` value"
    end
  else
    match buffered p with
    | msg :: rest =>
        Pending {| room_id := room_id p; request_receiver := request_receiver p;
                   peerset := peerset p; session := session p; buffered := rest |}
          [forward_or_reject msg (session p) (peerset p) (tx_accepts o)]
    | [] =>
        match request_receiver p with
        | None => Panicked "called `Option::unwrap()` on a `None` value"
        | Some _ =>
            match next o with
            | NextMsg msg =>
                Pending p [forward_or_reject msg (session p) (peerset p) (tx_accepts o)]
            | _ => Pending p []
            end
        end
    end.

(** ** Runs *)

(** The messages a poll takes: one from the buffer while it lasts, else one
    from the queue. *)
Definition taken (p : t) (o : obs) : list IncomingRequest :=
  match buffered p with
  | msg :: _ => [msg]
  | [] => match next o with NextMsg msg => [msg] | _ => [] end
  end.

(** Polls until the computation ends or the observations do. *)
Fixpoint run (p : t) (os : list obs) : list disposition :=
  match os with
  | [] => []
  | o :: os =>
      match poll p o with
      | Pending p' out => out ++ run p' os
      | _ => []
      end
  end.

Fixpoint received (p : t) (os : list obs) : list IncomingRequest :=
  match os with
  | [] => []
  | o :: os =>
      match poll p o with
      | Pending p' _ => taken p o ++ received p' os
      | _ => []
      end
  end.

Definition forwarded (ds : list disposition) : list IncomingRequest :=
  omap (fun d => match d with Forwarded m => Some m | Settled _ => None end) ds.

Lemma forwarded_app ds1 ds2 : forwarded (ds1 ++ ds2) = forwarded ds1 ++ forwarded ds2.
Proof. apply omap_app. Qed.

(** ** Specification: the session's messages from the set's peers, in the
    order they came. *)
Definition deliverable (ps : Peerset.t) (sid : SessionId) (m : IncomingRequest) :
  option IncomingRequest :=
  if should_forward_message m sid
  then (fun i => with_peer_index i m) <$> Peerset.index_of ps (peer_id m)
  else None.

Lemma forward_or_reject_deliverable m sid ps :
  forwarded [forward_or_reject m sid ps true] =
  omap (deliverable ps sid) [m].
Proof.
  cbn. unfold forward_or_reject, deliverable.
  destruct (should_forward_message m sid); [|done].
  by destruct (Peerset.index_of ps (peer_id m)).
Qed.

Lemma poll_pending p o p' out :
  poll p o = Pending p' out ->
  peerset p' = peerset p /\ session p' = session p /\
  out = (fun m => forward_or_reject m (session p) (peerset p) (tx_accepts o)) <$> taken p o.
Proof.
  unfold poll, taken. repeat case_match; naive_solver.
Qed.


(** The requests a run settles or hands on. *)
Definition disposed (d : disposition) : list nat :=
  match d with
  | Forwarded m => [pending_response m]
  | Settled e => settles e
  end.

Lemma disposed_forward_or_reject m sid ps b :
  disposed (forward_or_reject m sid ps b) = [pending_response m].
Proof. unfold forward_or_reject. by repeat case_match. Qed.

(** every message the proxy takes is disposed of exactly once: handed
    to the computation, answered with an error, or dropped when the
    computation's channel refuses it. *)
Theorem proxy_settles_once p os :
  concat (disposed <$> run p os) = pending_response <$> received p os.
Proof.
  revert p. induction os as [|o os IH]; intros p; [done|]. cbn.
  destruct (poll p o) as [| p' out |] eqn:Hpoll; [done| |done].
  apply poll_pending in Hpoll as (_ & _ & ->).
  rewrite !fmap_app, concat_app, IH. f_equal.
  induction (taken p o) as [|m l IHl]; cbn; [done|].
  by rewrite disposed_forward_or_reject, IHl.
Qed.
End proxy.
End ReceiverProxy.
