(* ===== verification/Negotiation.v ===== *)
(** * Negotiation

    [NegotiationChannel] of [crates/client/service/src/negotiation.rs]: the
    proposer broadcasts its proposal, collects the peers that answer and
    multicasts the start message when it has [n] of them, or gives up when its
    timer fires.

    Time is in milliseconds.  One poll reads the clock once ([now]); a
    [tokio::time::sleep] is its deadline.  Sends are futures that the next poll
    drives to completion: [pending_futures] is the list of requests they carry. *)

From Stdlib Require Import ZArith Lia Strings.Byte.
From stdpp Require Import base gmap strings numbers list.
From S2P Require Import Prelude Wire Messages Peerset StartMsg Room NetworkProxy.

Local Open Scope Z_scope.

Definition unwrap_none : string := "called `Option::unwrap()` on a `None` value".

(** [should_proceed_with_negotiation]. *)
Definition should_proceed_with_negotiation (n elapsed : Z) (connected_peers : nat)
  (wait_timeout : Z) : bool :=
  (n <=? Z.of_nat connected_peers + 1) || (wait_timeout <=? elapsed).

Module Negotiation.
Section negotiation.
Context `{PeerIds} `{UnsignedVarint} `{ComputeAgents}.

(** [NegotiationState]. *)
Record state : Type := {
  id : RoomId;
  session : SessionId;
  n : Z;
  request : bytes;
  peers : gset PeerId;
  responses : option nat;
  pending_futures : list effect;
  ns_pending_response : nat;
  last_broadcast_time : option Z;
  retry_count : Z;
  connection_wait_start : option Z;
  connection_wait_done : bool;
  connected_peers_probe : bool;
  last_connected_peers_probe_at : option Z;
}.

(** [NegotiationChannel]; [timeout] is the deadline of the sleep. *)
Record t : Type := {
  rx : option nat;
  timeout : Z;
  agent : option Agent;
  st : option state;
}.

Variable local : PeerId.

(** [NegotiationChannel::new] at time [now], with a fresh session id. *)
Definition new (room_id : RoomId) (room_rx : nat) (n : Z) (request : bytes)
  (agent : Agent) (pending_response : nat) (now : Z) (session : SessionId) : t := {|
  rx := Some room_rx;
  timeout := now + 45000;
  agent := Some agent;
  st := Some {|
    id := room_id; session := session; n := n; request := request;
    peers := {[local]}; responses := None; pending_futures := [];
    ns_pending_response := pending_response; last_broadcast_time := None;
    retry_count := 0; connection_wait_start := None; connection_wait_done := false;
    connected_peers_probe := false; last_connected_peers_probe_at := None |};
|}.

(** What [Stream::poll_next] on the response channel gives. *)
Inductive poll_response : Type :=
  | RespOk (p : PeerId) (body : bytes)
  | RespErr (e : RequestFailure)
  | RespClosed
  | RespPending.

Record obs : Type := {
  now : Z;
  response : poll_response;
  probe : option (gset PeerId);
  fresh : nat;
}.

Inductive poll_result : Type :=
  | Pending (ch : t) (out : list effect)
  | Start (agent : Agent) (pending_response : nat) (proxy : ReceiverProxy.t)
      (ps : Peerset.t) (request : bytes) (sid : SessionId) (out : list effect)
  | Abort (room : RoomId) (phase1 : Phase1Channel) (rpc_tx : nat)
      (pending_response : option nat) (out : list effect)
  | Panicked (why : string).

(** ** The pieces of [poll] *)

Definition with_peers (ps : gset PeerId) (s : state) : state := {|
  id := id s; session := session s; n := n s; request := request s; peers := ps;
  responses := responses s; pending_futures := pending_futures s;
  ns_pending_response := ns_pending_response s;
  last_broadcast_time := last_broadcast_time s; retry_count := retry_count s;
  connection_wait_start := connection_wait_start s;
  connection_wait_done := connection_wait_done s;
  connected_peers_probe := connected_peers_probe s;
  last_connected_peers_probe_at := last_connected_peers_probe_at s |}.

Definition with_responses (r : option nat) (s : state) : state := {|
  id := id s; session := session s; n := n s; request := request s; peers := peers s;
  responses := r; pending_futures := pending_futures s;
  ns_pending_response := ns_pending_response s;
  last_broadcast_time := last_broadcast_time s; retry_count := retry_count s;
  connection_wait_start := connection_wait_start s;
  connection_wait_done := connection_wait_done s;
  connected_peers_probe := connected_peers_probe s;
  last_connected_peers_probe_at := last_connected_peers_probe_at s |}.

Definition with_futures (fs : list effect) (s : state) : state := {|
  id := id s; session := session s; n := n s; request := request s; peers := peers s;
  responses := responses s; pending_futures := fs;
  ns_pending_response := ns_pending_response s;
  last_broadcast_time := last_broadcast_time s; retry_count := retry_count s;
  connection_wait_start := connection_wait_start s;
  connection_wait_done := connection_wait_done s;
  connected_peers_probe := connected_peers_probe s;
  last_connected_peers_probe_at := last_connected_peers_probe_at s |}.

Definition with_wait (start : option Z) (done : bool) (probe : bool)
  (probe_at : option Z) (s : state) : state := {|
  id := id s; session := session s; n := n s; request := request s; peers := peers s;
  responses := responses s; pending_futures := pending_futures s;
  ns_pending_response := ns_pending_response s;
  last_broadcast_time := last_broadcast_time s; retry_count := retry_count s;
  connection_wait_start := start; connection_wait_done := done;
  connected_peers_probe := probe; last_connected_peers_probe_at := probe_at |}.

Definition with_broadcast (fs : list effect) (r : nat) (at_ : Z) (count : Z)
  (s : state) : state := {|
  id := id s; session := session s; n := n s; request := request s; peers := peers s;
  responses := Some r; pending_futures := fs;
  ns_pending_response := ns_pending_response s;
  last_broadcast_time := Some at_; retry_count := count;
  connection_wait_start := connection_wait_start s;
  connection_wait_done := connection_wait_done s;
  connected_peers_probe := connected_peers_probe s;
  last_connected_peers_probe_at := last_connected_peers_probe_at s |}.

Definition have_enough (s : state) : bool := negb (Z.of_nat (size (peers s)) <? n s).

(** Before the first broadcast, probe the connected peers every 250 ms
    until enough of them are connected or 30 s have passed. *)
Definition connection_wait (s : state) (o : obs) : state :=
  if negb (connection_wait_done s) && bool_decide (last_broadcast_time s = None)
     && negb (have_enough s)
  then
    let start := default (now o) (connection_wait_start s) in
    let probe_due :=
      negb (connected_peers_probe s) &&
      match last_connected_peers_probe_at s with
      | None => true
      | Some last => 250 <=? now o - last
      end in
    let probing := connected_peers_probe s || probe_due in
    let probe_at := if probe_due then Some (now o) else last_connected_peers_probe_at s in
    match (if probing then probe o else None) with
    | Some connected =>
        with_wait (Some start)
          (should_proceed_with_negotiation (n s) (now o - start) (size connected) 30000)
          false probe_at s
    | None => with_wait (Some start) (connection_wait_done s) probing probe_at s
    end
  else
    with_wait (connection_wait_start s) true (connected_peers_probe s)
      (last_connected_peers_probe_at s) s.

Definition should_broadcast (s : state) (o : obs) : bool :=
  match last_broadcast_time s with
  | None => connection_wait_done s
  | Some last => (1000 <=? now o - last) && negb (have_enough s)
  end.

(** The proposal: an empty coordination message to the whole room. *)
Definition proposal (s : state) (a : Agent) : effect :=
  NetworkRequest (id s)
    {| message_type := Coordination; protocol_id := agent_protocol_id a;
       session_id := session s; message_id := 0 |}
    (Broadcast []).

(** The broadcast arm: the new state and whether it was the first one. *)
Definition broadcast (s : state) (a : Agent) (o : obs) : outcome io_error (state * bool) :=
  _ ← u16_sub (n s) 1;
  count ← u32_add (retry_count s) 1;
  Ok (with_broadcast (pending_futures s ++ [proposal s a]) (fresh o) (now o) count s,
      bool_decide (last_broadcast_time s = None)).

(** The end of [poll]: give up when the timer has fired. *)
Definition finish (ch : t) (s : state) (deadline : Z) (o : obs) (out : list effect) :
  poll_result :=
  if deadline <=? now o then
    match rx ch with
    | Some room_rx =>
        let '(p1, tx) := Phase1Channel_new (id s) room_rx (fresh o) in
        Abort (id s) p1 tx (Some (ns_pending_response s)) out
    | None => Panicked unwrap_none
    end
  else
    Pending {| rx := rx ch; timeout := deadline; agent := agent ch; st := Some s |} out.

(** The start message and everything the worker needs to run the
    computation. *)
Definition start (ch : t) (s : state) (out : list effect) : poll_result :=
  match agent ch, rx ch with
  | Some a, Some room_rx =>
      let ps := Peerset.new (elements (peers s)) local in
      match StartMsg.to_bytes {| StartMsg.peerset := ps; StartMsg.body := request s |} with
      | Ok b =>
          Start a (ns_pending_response s)
            (ReceiverProxy.new (id s) room_rx ps (session s) []) ps (request s) (session s)
            (out ++ [NetworkRequest (id s)
                       {| message_type := Coordination;
                          protocol_id := agent_protocol_id a;
                          session_id := session s; message_id := 0 |}
                       (Multicast (elements (peers s)) b)])
      | _ => Panicked "called `Result::unwrap()` on an `Err` value"
      end
  | _, _ => Panicked unwrap_none
  end.

(** [NegotiationChannel::poll]. *)
Definition poll (ch : t) (o : obs) : poll_result :=
  match st ch with
  | None => Panicked unwrap_none
  | Some s0 =>
      let out := pending_futures s0 in
      let s := with_futures [] s0 in
      match responses s with
      | Some _ =>
          match response o with
          | RespOk p _ =>
              let s := with_peers ({[p]} ∪ peers s) s in
              if Z.of_nat (size (peers s)) =? n s then start ch s out
              else finish ch s (timeout ch) o out
          | RespErr _ => finish ch s (timeout ch) o out
          | RespClosed => finish ch (with_responses None s) (timeout ch) o out
          | RespPending => finish ch s (timeout ch) o out
          end
      | None =>
          match agent ch with
          | None => Panicked unwrap_none
          | Some a =>
              let s := connection_wait s o in
              if should_broadcast s o then
                match broadcast s a o with
                | Ok (s, first) =>
                    finish ch s (if first then now o + 15000 else timeout ch) o out
                | Err _ => Panicked unwrap_none
                | Panic why => Panicked why
                end
              else finish ch s (timeout ch) o out
          end
      end
  end.

(** Polls until the negotiation is decided or the observations end. *)
Fixpoint run (ch : t) (os : list obs) : poll_result :=
  match os with
  | [] => Pending ch []
  | o :: os =>
      match poll ch o with
      | Pending ch' _ => run ch' os
      | r => r
      end
  end.
(** ** Who ends up in the peer set *)

(** The peers that accepted the proposal, according to the observations. *)
Definition accepted (o : obs) : list PeerId :=
  match response o with RespOk p _ => [p] | _ => [] end.

Definition responders (os : list obs) : list PeerId := concat (accepted <$> os).

(** The state of a negotiation for [n0] peers, session [sid], on room queue
    [room_rx], whose peers are the local one and some of [acc]. *)
Record inv (n0 : Z) (sid : SessionId) (room_rx reply : nat) (acc : list PeerId) (ch : t) :
  Prop := {
  inv_state : exists s, st ch = Some s /\ n s = n0 /\ session s = sid /\
    ns_pending_response s = reply /\ local ∈ peers s /\
    (forall p, p ∈ peers s -> p = local \/ p ∈ acc);
  inv_rx : rx ch = Some room_rx;
  inv_agent : is_Some (agent ch);
}.

Lemma inv_new room_id room_rx n0 req a reply now0 sid :
  inv n0 sid room_rx reply [] (new room_id room_rx n0 req a reply now0 sid).
Proof.
  split; cbn; eauto. eexists. split; [done|]. cbn. set_solver.
Qed.

Lemma inv_weaken n0 sid room_rx reply acc acc' ch :
  acc ⊆ acc' -> inv n0 sid room_rx reply acc ch -> inv n0 sid room_rx reply acc' ch.
Proof.
  intros Hsub [(s & ? & ? & ? & ? & ? & Hp) ? ?]. split; auto.
  exists s. repeat (split; [done|]). set_solver.
Qed.

(** The state that [finish] stores or abandons. *)
Lemma finish_pending ch s d o out ch' out' :
  finish ch s d o out = Pending ch' out' ->
  ch' = {| rx := rx ch; timeout := d; agent := agent ch; st := Some s |} /\ now o < d.
Proof. unfold finish. repeat case_match; naive_solver lia. Qed.

Lemma connection_wait_fields s o :
  n (connection_wait s o) = n s /\ session (connection_wait s o) = session s /\
  peers (connection_wait s o) = peers s /\
  ns_pending_response (connection_wait s o) = ns_pending_response s /\
  last_broadcast_time (connection_wait s o) = last_broadcast_time s /\
  retry_count (connection_wait s o) = retry_count s.
Proof. unfold connection_wait. by repeat case_match. Qed.

Lemma broadcast_fields s a o s' first :
  broadcast s a o = Ok (s', first) ->
  n s' = n s /\ session s' = session s /\ peers s' = peers s /\
  ns_pending_response s' = ns_pending_response s /\
  last_broadcast_time s' = Some (now o) /\
  first = bool_decide (last_broadcast_time s = None).
Proof. unfold broadcast. intros. by inv_ok. Qed.

Lemma broadcast_not_first s a o s' first last :
  broadcast s a o = Ok (s', first) -> last_broadcast_time s = Some last -> first = false.
Proof.
  intros Hb Hlast. apply broadcast_fields in Hb as (_ & _ & _ & _ & _ & ->).
  apply bool_decide_eq_false. by rewrite Hlast.
Qed.

Lemma poll_inv n0 sid room_rx reply acc ch o ch' out :
  inv n0 sid room_rx reply acc ch -> poll ch o = Pending ch' out ->
  inv n0 sid room_rx reply (acc ++ accepted o) ch'.
Proof.
  intros [(s & Hst & Hn & Hs & Hr & Hl & Hp) Hrx Ha]. unfold poll. rewrite Hst.
  destruct Ha as [a Ha]. rewrite Ha.
  destruct (connection_wait_fields (with_futures [] s) o) as (Cn & Cs & Cp & Cr & _).
  repeat case_match; try done; intros Hf;
    try (by unfold start in Hf; repeat case_match);
    apply finish_pending in Hf as [-> _];
    (split; cbn; [eexists; split; [done|]|done|by rewrite Ha]).
  all: try match goal with
    | Hb : broadcast _ _ _ = Ok _ |- _ =>
        apply broadcast_fields in Hb as (-> & -> & -> & -> & _)
    end.
  all: rewrite ?Cn, ?Cs, ?Cp, ?Cr; cbn; repeat (split; [done|]).
  all: unfold accepted; repeat case_match; simplify_eq; set_solver.
Qed.

Lemma poll_start n0 sid room_rx reply acc ch o a r px ps req sid' out :
  inv n0 sid room_rx reply acc ch -> poll ch o = Start a r px ps req sid' out ->
  r = reply /\ sid' = sid /\ px = ReceiverProxy.new (ReceiverProxy.room_id px) room_rx ps sid [] /\
  exists ms : gset PeerId, ps = Peerset.new (elements ms) local /\ Z.of_nat (size ms) = n0 /\
    local ∈ ms /\ (forall p, p ∈ ms -> p = local \/ p ∈ acc ++ accepted o).
Proof.
  intros [(s & Hst & Hn & Hs & Hr & Hl & Hp) Hrx Ha]. unfold poll. rewrite Hst.
  repeat case_match; try done; intros Hf; try (by unfold finish in Hf; repeat case_match).
  unfold start in Hf. repeat case_match; try done. injection Hf as <- <- <- <- <- <- <-.
  rewrite Z.eqb_eq in *. cbn in *. simplify_eq. repeat (split; [done|]).
  eexists. split; [done|]. split; [done|]. split; [set_solver|].
  unfold accepted. repeat case_match; simplify_eq. set_solver.
Qed.

Lemma run_start n0 sid room_rx reply acc ch os a r px ps req sid' out :
  inv n0 sid room_rx reply acc ch -> run ch os = Start a r px ps req sid' out ->
  r = reply /\ sid' = sid /\ px = ReceiverProxy.new (ReceiverProxy.room_id px) room_rx ps sid [] /\
  exists ms : gset PeerId, ps = Peerset.new (elements ms) local /\ Z.of_nat (size ms) = n0 /\
    local ∈ ms /\ (forall p, p ∈ ms -> p = local \/ p ∈ acc ++ responders os).
Proof.
  revert acc ch. induction os as [|o os IH]; intros acc ch Hinv; [done|].
  change (responders (o :: os)) with (accepted o ++ responders os). cbn [run]. destruct (poll ch o) eqn:Hpoll; try done.
  - intros Hr. rewrite app_assoc. eapply IH; [|done]. by eapply poll_inv.
  - intros [= <- <- <- <- <- <- <-].
    eapply poll_start in Hpoll as (-> & -> & -> & ms & -> & ? & ? & Hms); [|done].
    repeat (split; [done|]). exists ms. repeat (split; [done|]). set_solver.
Qed.

(** What the proposer sends when it starts: the last effect is the multicast
    of the very set and body it will run with. *)
Lemma start_multicast ch s out a r px ps req sid out' :
  start ch s out = Start a r px ps req sid out' ->
  exists (ms : gset PeerId) b, ps = Peerset.new (elements ms) local /\
    StartMsg.to_bytes {| StartMsg.peerset := ps; StartMsg.body := req |} = Ok b /\
    last out' = Some (NetworkRequest (ReceiverProxy.room_id px)
      {| message_type := Coordination; protocol_id := agent_protocol_id a;
         session_id := sid; message_id := 0 |} (Multicast (elements ms) b)).
Proof.
  unfold start. repeat case_match; try done. intros [= <- <- <- <- <- <- <-].
  exists (peers s). eexists. split; [done|]. split; [done|]. by rewrite last_snoc.
Qed.

Lemma run_start_multicast ch os a r px ps req sid out :
  run ch os = Start a r px ps req sid out ->
  exists (ms : gset PeerId) b, ps = Peerset.new (elements ms) local /\
    StartMsg.to_bytes {| StartMsg.peerset := ps; StartMsg.body := req |} = Ok b /\
    last out = Some (NetworkRequest (ReceiverProxy.room_id px)
      {| message_type := Coordination; protocol_id := agent_protocol_id a;
         session_id := sid; message_id := 0 |} (Multicast (elements ms) b)).
Proof.
  revert ch. induction os as [|o os IH]; intros ch; [done|]. cbn [run].
  destruct (poll ch o) eqn:Hpoll; try done; [by apply IH|].
  intros [= <- <- <- <- <- <- <-]. revert Hpoll. unfold poll, finish.
  repeat case_match; try done; apply start_multicast.
Qed.

(** A negotiation for a room starts the computation it was made for. *)
Record given (room : RoomId) (req : bytes) (a : Agent) (ch : t) : Prop := {
  given_agent : agent ch = Some a;
  given_state : exists s, st ch = Some s /\ id s = room /\ request s = req;
}.

Definition starts_given (room : RoomId) (req : bytes) (a : Agent) (r : poll_result) : Prop :=
  match r with
  | Pending ch _ => given room req a ch
  | Start a' _ px _ req' _ _ => a' = a /\ req' = req /\ ReceiverProxy.room_id px = room
  | _ => True
  end.

Lemma connection_wait_given s o :
  id (connection_wait s o) = id s /\ request (connection_wait s o) = request s.
Proof. unfold connection_wait. by repeat case_match. Qed.

Lemma poll_given room req a ch o : given room req a ch -> starts_given room req a (poll ch o).
Proof.
  intros [Ha (s & Hst & Hid & Hreq)]. unfold poll. rewrite Hst, Ha.
  destruct (connection_wait_given (with_futures [] s) o) as [Wid Wreq]. cbn in Wid, Wreq.
  repeat case_match; try done; simplify_eq;
    try match goal with Hb : broadcast _ _ _ = Ok _ |- _ => unfold broadcast in Hb; inv_ok end;
    unfold finish, start; rewrite ?Ha; repeat case_match; simplify_eq; try done;
    (split; cbn; [done|]; eexists; split; [done|]; cbn; by rewrite ?Wid, ?Wreq).
Qed.

Lemma run_given room req a ch os : given room req a ch -> starts_given room req a (run ch os).
Proof.
  revert ch. induction os as [|o os IH]; intros ch Hg; cbn [run]; [done|].
  pose proof (poll_given _ _ _ _ o Hg) as Hp. destruct (poll ch o); cbn in Hp |- *; try done.
  by apply IH.
Qed.

(** C7: a negotiation that starts has assembled exactly the number of
    peers that was asked for: the proposer itself and distinct peers that
    answered the proposal, in the canonical order; the proxy it hands over
    holds the room's queue and the session of the proposal. *)
Theorem negotiation_start_sound room_id room_rx n0 req a reply now0 sid os a' r px ps req' sid' out :
  run (new room_id room_rx n0 req a reply now0 sid) os = Start a' r px ps req' sid' out ->
  Z.of_nat (Peerset.size ps) = n0 /\ NoDup (Peerset.peers ps) /\
  local ∈ Peerset.peers ps /\
  (forall p, p ∈ Peerset.peers ps -> p = local \/ p ∈ responders os) /\
  r = reply /\ sid' = sid /\
  ReceiverProxy.request_receiver px = Some room_rx /\ ReceiverProxy.session px = sid /\
  ReceiverProxy.peerset px = ps.
Proof.
  intros Hrun. eapply run_start in Hrun as (-> & -> & -> & ms & -> & Hsz & Hl & Hms);
    [|apply inv_new].
  rewrite Peerset.new_size. split; [exact Hsz|].
  split; [apply Peerset.new_nodup, NoDup_elements|].
  split; [apply Peerset.new_elem_of, elem_of_elements, Hl|].
  split; [|done]. intros p Hp. apply Peerset.new_elem_of, elem_of_elements in Hp. auto.
Qed.

(** ** The negotiation is decided in time *)

(** A negotiation that has broadcast keeps its deadline. *)
Definition broadcasting (d : Z) (ch : t) : Prop :=
  timeout ch = d /\ exists s, st ch = Some s /\ is_Some (last_broadcast_time s).

Lemma poll_broadcasting d ch o ch' out :
  broadcasting d ch -> poll ch o = Pending ch' out -> broadcasting d ch' /\ now o < d.
Proof.
  intros (Hd & s & Hst & [last Hlast]). unfold poll. rewrite Hst.
  destruct (connection_wait_fields (with_futures [] s) o) as (_ & _ & _ & _ & Cl & _).
  cbn in Cl. rewrite Hlast in Cl.
  repeat case_match; try done; intros Hf;
    try (by unfold start in Hf; repeat case_match);
    apply finish_pending in Hf as [-> Hnow]; (split; [|try lia]).
  all: try match goal with
    | Hb : broadcast _ _ _ = Ok _ |- _ =>
        pose proof (broadcast_not_first _ _ _ _ _ _ Hb Cl); simplify_eq;
        apply broadcast_fields in Hb as (_ & _ & _ & _ & Hb & _)
    end.
  all: try (split; [done|]; eexists; split; [done|]; cbn; rewrite ?H5, ?Cl, ?Hlast; by eexists).
  all: lia.
Qed.

(** C26: once the proposal has been broadcast at time [t], the negotiation
    is over (started, aborted, or dead by a panic) at the latest by the
    first poll 15 seconds later: the deadline set by the first broadcast is
    never moved again. *)
Theorem negotiation_decided d ch os o :
  broadcasting d ch -> d <= now o ->
  forall ch' out, run ch (os ++ [o]) <> Pending ch' out.
Proof.
  revert ch. induction os as [|o' os IH]; intros ch Hb Ho ch' out; cbn [app run].
  - destruct (poll ch o) eqn:Hpoll; try done.
    destruct (poll_broadcasting _ _ _ _ _ Hb Hpoll). lia.
  - destruct (poll ch o') eqn:Hpoll; try done.
    destruct (poll_broadcasting _ _ _ _ _ Hb Hpoll). by apply IH.
Qed.

Lemma first_broadcast_deadline ch o s a ch' out :
  st ch = Some s -> responses s = None -> agent ch = Some a ->
  last_broadcast_time s = None ->
  should_broadcast (connection_wait (with_futures [] s) o) o = true ->
  poll ch o = Pending ch' out -> broadcasting (now o + 15000) ch'.
Proof.
  intros Hst Hr Ha Hlast Hsb. unfold poll. rewrite Hst. cbn. rewrite Hr, Ha, Hsb.
  destruct (connection_wait_fields (with_futures [] s) o) as (_ & _ & _ & _ & Cl & _).
  cbn in Cl. rewrite Hlast in Cl.
  destruct broadcast as [[s' first]| |] eqn:Hb; try done.
  apply broadcast_fields in Hb as (_ & _ & _ & _ & Hb & ->).
  rewrite Cl, bool_decide_eq_true_2 by done.
  intros Hf. apply finish_pending in Hf as [-> _].
  split; [done|]. eexists. split; [done|]. rewrite Hb. by eexists.
Qed.

(** when the timer fires, the room goes back to its idle state with
    its queue, and the local caller's reply channel is handed out so that
    the worker can report the failure. *)
Theorem negotiation_timeout n0 sid room_rx reply acc ch o :
  inv n0 sid room_rx reply acc ch -> 1 <= n0 -> timeout ch <= now o ->
  (exists s, st ch = Some s /\ retry_count s < u32_max /\
             (responses s <> None \/ last_broadcast_time s <> None)) ->
  (exists a r px ps req sid' out, poll ch o = Start a r px ps req sid' out) \/
  (exists room p1 tx out, poll ch o = Abort room p1 tx (Some reply) out /\
     p1_rx p1 = Some room_rx /\ p1_request p1 = tx).
Proof.
  intros [(s & Hst & Hn & Hs & Hr & Hl & Hp) Hrx [a Ha]] Hn0 Ht (s' & Hst' & Hrc & Hb).
  rewrite Hst in Hst'. injection Hst' as <-.
  assert (forall s' out, ns_pending_response s' = reply ->
    exists room p1 tx, finish ch s' (timeout ch) o out = Abort room p1 tx (Some reply) out /\
      p1_rx p1 = Some room_rx /\ p1_request p1 = tx) as Hfin.
  { intros s' out Hs'. unfold finish. rewrite (proj2 (Z.leb_le _ _)) by done.
    rewrite Hrx, Hs'. by repeat eexists. }
  unfold poll. rewrite Hst, Ha. cbn.
  destruct (connection_wait_fields (with_futures [] s) o) as (Cn & _ & _ & Cr & Cl & Cc).
  cbn in Cl, Cr, Cn, Cc.
  assert (forall s' out, exists a r px ps req sid' out',
    start ch s' out = Start a r px ps req sid' out') as Hstart.
  { intros s' out. unfold start. rewrite Ha, Hrx. cbn zeta.
    edestruct StartMsg.to_bytes_total as [b ->]. by repeat eexists. }
  destruct (responses s) as [r|] eqn:Hresp.
  - repeat case_match; try (left; apply Hstart);
      (right; edestruct Hfin as (? & ? & ? & -> & ? & ?); [|by repeat eexists];
       cbn; congruence).
  - destruct Hb as [?|Hb]; [done|]. rewrite <- Cl in Hb.
    case_match; [|right; edestruct Hfin as (? & ? & ? & -> & ? & ?);
                  [|by repeat eexists]; cbn; congruence].
    unfold broadcast. rewrite Cn, Cc, Hn, u16_sub_ok, u32_add_ok by lia.
    cbn [mbind outcome_bind]. rewrite bool_decide_eq_false_2 by done.
    right. edestruct Hfin as (? & ? & ? & -> & ? & ?); [|by repeat eexists].
    cbn. congruence.
Qed.

(** a local request for zero peers, which the RPC accepts, panics the
    task of the room in its first poll, whatever it observes. *)
Theorem negotiation_zero_panics room_id room_rx req a reply now0 sid o :
  poll (new room_id room_rx 0 req a reply now0 sid) o =
  Panicked "attempt to subtract with overflow".
Proof.
  unfold poll, new. cbn -[size]. unfold connection_wait, have_enough. cbn -[size].
  rewrite size_singleton. done.
Qed.

(** ** The room a negotiation holds *)

(** The negotiation holds the queue [room_rx] of [room]. *)
Definition holds (room : RoomId) (room_rx : nat) (ch : t) : Prop :=
  rx ch = Some room_rx /\ exists s, st ch = Some s /\ id s = room.

(** A decided negotiation passes its room on. *)
Definition passes_on (room : RoomId) (room_rx f : nat) (res : poll_result) : Prop :=
  match res with
  | Pending ch _ => holds room room_rx ch
  | Start _ _ px _ _ _ _ =>
      ReceiverProxy.room_id px = room /\ ReceiverProxy.request_receiver px = Some room_rx
  | Abort r p1 tx _ _ =>
      r = room /\ p1_id p1 = room /\ p1_rx p1 = Some room_rx /\ p1_request p1 = tx /\ tx = f
  | Panicked _ => True
  end.

Lemma start_passes_on room room_rx f ch s out :
  holds room room_rx ch -> id s = room -> passes_on room room_rx f (start ch s out).
Proof.
  intros [Hrx _] Hid. unfold start. rewrite Hrx.
  destruct (agent ch); [|done]. cbn zeta. by destruct StartMsg.to_bytes.
Qed.

Lemma finish_passes_on room room_rx f ch s d o out :
  holds room room_rx ch -> id s = room -> fresh o = f ->
  passes_on room room_rx f (finish ch s d o out).
Proof.
  intros [Hrx _] Hid Hf. unfold finish. rewrite Hrx.
  case_match; [done|]. split; [done|]. by exists s.
Qed.

Lemma poll_passes_on room room_rx f ch o :
  holds room room_rx ch -> fresh o = f -> passes_on room room_rx f (poll ch o).
Proof.
  intros Hh Hf. unfold poll. pose proof Hh as (_ & s & -> & Hid).
  destruct (responses _).
  - repeat case_match; apply start_passes_on || apply finish_passes_on; done.
  - destruct (agent ch) as [a|]; [|done].
    assert (id (connection_wait (with_futures [] s) o) = room) as Hw
      by (unfold connection_wait; by repeat case_match).
    case_match; [|by apply finish_passes_on].
    destruct broadcast as [[s' first]| |] eqn:Hb; try done.
    apply finish_passes_on; [done| |done]. unfold broadcast in Hb. by inv_ok.
Qed.

Lemma run_passes_on room room_rx f ch os :
  holds room room_rx ch -> Forall (fun o => fresh o = f) os ->
  passes_on room room_rx f (run ch os).
Proof.
  intros Hh Hos. revert ch Hh. induction Hos as [|o os Ho _ IH]; intros ch Hh; [done|].
  cbn [run]. pose proof (poll_passes_on _ _ _ _ _ Hh Ho) as Hp.
  destruct (poll ch o); try done. by apply IH.
Qed.
End negotiation.
End Negotiation.
