(* ===== verification/Coordination.v ===== *)
(** * Coordination

    [crates/client/service/src/coordination.rs].  An idle room waits in phase 1
    for a local request or a remote proposal; after a proposal the room waits
    in phase 2 for the start message.  Computation messages that arrive early
    are kept, up to a bound, for the computation they may belong to. *)

From Stdlib Require Import ZArith Lia Strings.Byte.
From stdpp Require Import base gmap strings numbers list.
From S2P Require Import Prelude Wire Messages Peerset StartMsg Room NetworkProxy Negotiation.

Local Open Scope Z_scope.

Definition MAX_EARLY_COMPUTATION_MESSAGES : nat := 1024.

Module Coordination.
Section coordination.
Context `{PeerIds} `{UnsignedVarint} `{ComputeAgents}.

Variable local : PeerId.

(** [Phase2Channel]; [p2_timeout] is the deadline of its sleep. *)
Record Phase2Channel : Type := {
  p2_id : RoomId;
  p2_session : SessionId;
  p2_rx : option nat;
  p2_buffered : list IncomingRequest;
  p2_timeout : Z;
}.

(** [buffer_early_computation]: the buffer, and the answer to a message that
    found it full. *)
Definition buffer_early_computation (buffered : list IncomingRequest)
  (msg : IncomingRequest) : list IncomingRequest * list effect :=
  if (MAX_EARLY_COMPUTATION_MESSAGES <=? length buffered)%nat
  then (buffered, [Respond (pending_response msg) reject])
  else (buffered ++ [msg], []).

(** ** Phase 1 *)

(** What one poll of phase 1 observes: the clock, the room's queue, the
    worker's request channel, and a fresh session id. *)
Record obs1 : Type := {
  now1 : Z;
  next1 : try_next IncomingRequest;
  request1 : try_recv LocalRpcMsg;
  fresh_session : SessionId;
}.

(** [Phase1Msg], or not ready yet. *)
Inductive poll1 : Type :=
  | FromRemote (peer_id : PeerId) (protocol_id : Z) (payload : bytes)
      (response_tx : nat) (channel : Phase2Channel)
  | FromLocal (id : RoomId) (n : Z) (negotiation : Negotiation.t) (out : list effect)
  | Pending1 (ch : Phase1Channel) (out : list effect)
  | Panicked1 (why : string).

(** The second half of [Phase1Channel::poll]: the worker's request. *)
Definition phase1_request (ch : Phase1Channel) (o : obs1) (out : list effect) : poll1 :=
  match request1 o with
  | RecvMsg msg =>
      match p1_rx ch with
      | Some rx =>
          FromLocal (p1_id ch) (rpc_n msg)
            (Negotiation.new local (p1_id ch) rx (rpc_n msg) (rpc_payload msg)
               (rpc_agent msg) (rpc_pending_response msg) (now1 o) (fresh_session o))
            (out ++ reject_buffered (p1_buffered ch))
      | None => Panicked1 unwrap_none
      end
  | RecvEmpty => Pending1 ch out
  | RecvCanceled => Panicked1 "called `Result::unwrap()` on an `Err` value: Canceled"
  end.

(** [Phase1Channel::poll]. *)
Definition phase1_poll (ch : Phase1Channel) (o : obs1) : poll1 :=
  match p1_rx ch with
  | None => Panicked1 unwrap_none
  | Some rx =>
      match next1 o with
      | NextMsg msg =>
          match message_type (context msg) with
          | Coordination =>
              FromRemote (peer_id msg) (protocol_id (context msg)) (payload msg)
                (pending_response msg)
                {| p2_id := p1_id ch; p2_session := session_id (context msg);
                   p2_rx := Some rx; p2_buffered := p1_buffered ch;
                   p2_timeout := now1 o + 15000 |}
          | Computation =>
              let '(b, out) := buffer_early_computation (p1_buffered ch) msg in
              phase1_request
                {| p1_id := p1_id ch; p1_rx := Some rx; p1_request := p1_request ch;
                   p1_buffered := b |} o out
          end
      | _ => phase1_request ch o []
      end
  end.

(** ** Phase 2 *)

(** What one poll of phase 2 observes; [fresh2] names a new oneshot
    channel. *)
Record obs2 : Type := {
  now2 : Z;
  next2 : try_next IncomingRequest;
  fresh2 : nat;
}.

(** [Phase2Msg], or not ready yet. *)
Inductive poll2 : Type :=
  | Start2 (room_id : RoomId) (proxy : ReceiverProxy.t) (ps : Peerset.t)
      (init_body : bytes) (sid : SessionId) (out : list effect)
  | Abort2 (room_id : RoomId) (ch : Phase1Channel) (tx : nat) (out : list effect)
  | Pending2 (ch : Phase2Channel) (out : list effect)
  | Panicked2 (why : string).

(** [reject_buffered] and a new phase 1, the three ways phase 2 gives up. *)
Definition back_to_phase1 (ch : Phase2Channel) (fresh : nat) (out : list effect) : poll2 :=
  match p2_rx ch with
  | Some rx =>
      let '(p1, tx) := Phase1Channel_new (p2_id ch) rx fresh in
      Abort2 (p2_id ch) p1 tx (out ++ reject_buffered (p2_buffered ch))
  | None => Panicked2 unwrap_none
  end.

(** [Phase2Channel::abort], which the worker calls. *)
Definition phase2_abort (ch : Phase2Channel) (fresh : nat) : poll2 :=
  back_to_phase1 ch fresh [].

(** The end of [Phase2Channel::poll]: the timer. *)
Definition phase2_timer (ch : Phase2Channel) (o : obs2) (out : list effect) : poll2 :=
  if p2_timeout ch <=? now2 o then back_to_phase1 ch (fresh2 o) out
  else Pending2 ch out.

(** [Phase2Channel::poll].  The start message itself is never answered: its
    response channel is dropped with it. *)
Definition phase2_poll (ch : Phase2Channel) (o : obs2) : poll2 :=
  match p2_rx ch with
  | None => Panicked2 unwrap_none
  | Some rx =>
      match next2 o with
      | NextMsg msg =>
          match message_type (context msg) with
          | Coordination =>
              if bool_decide (session_id (context msg) = p2_session ch) then
                match StartMsg.from_bytes (payload msg) local with
                | Ok start_msg =>
                    Start2 (p2_id ch)
                      (ReceiverProxy.new (p2_id ch) rx (StartMsg.peerset start_msg)
                         (p2_session ch) (p2_buffered ch))
                      (StartMsg.peerset start_msg) (StartMsg.body start_msg)
                      (p2_session ch) [Discard (pending_response msg)]
                | Err _ => back_to_phase1 ch (fresh2 o) [Discard (pending_response msg)]
                | Panic why => Panicked2 why
                end
              else Pending2 ch [Respond (pending_response msg) reject]
          | Computation =>
              if bool_decide (session_id (context msg) = p2_session ch) then
                let '(b, out) := buffer_early_computation (p2_buffered ch) msg in
                phase2_timer
                  {| p2_id := p2_id ch; p2_session := p2_session ch; p2_rx := p2_rx ch;
                     p2_buffered := b; p2_timeout := p2_timeout ch |} o out
              else phase2_timer ch o [Respond (pending_response msg) reject]
          end
      | _ => phase2_timer ch o []
      end
  end.

(** Polls until phase 2 is over or the observations end. *)
Fixpoint phase2_run (ch : Phase2Channel) (os : list obs2) : poll2 :=
  match os with
  | [] => Pending2 ch []
  | o :: os =>
      match phase2_poll ch o with
      | Pending2 ch' _ => phase2_run ch' os
      | r => r
      end
  end.

(** ** Accounting for requests *)

Definition taken (nx : try_next IncomingRequest) : list IncomingRequest :=
  match nx with NextMsg m => [m] | _ => [] end.

Definition settled (out : list effect) : list nat := concat (settles <$> out).

Definition held (b : list IncomingRequest) : list nat := pending_response <$> b.

(** The response channels a poll has settled or passed on. *)
Definition accounted1 (r : poll1) : list nat :=
  match r with
  | FromRemote _ _ _ tx ch => tx :: held (p2_buffered ch)
  | FromLocal _ _ _ out => settled out
  | Pending1 ch out => settled out ++ held (p1_buffered ch)
  | Panicked1 _ => []
  end.

Definition accounted2 (r : poll2) : list nat :=
  match r with
  | Start2 _ px _ _ _ out => settled out ++ held (ReceiverProxy.buffered px)
  | Abort2 _ ch _ out => settled out ++ held (p1_buffered ch)
  | Pending2 ch out => settled out ++ held (p2_buffered ch)
  | Panicked2 _ => []
  end.

Lemma settled_app o1 o2 : settled (o1 ++ o2) = settled o1 ++ settled o2.
Proof. unfold settled. by rewrite fmap_app, concat_app. Qed.

Lemma settled_reject b : settled (reject_buffered b) = held b.
Proof. apply reject_buffered_settles. Qed.

Lemma buffer_accounted b m :
  let '(b', out) := buffer_early_computation b m in
  settled out ++ held b' ≡ₚ pending_response m :: held b.
Proof.
  unfold buffer_early_computation. destruct (_ <=? _)%nat; cbn; [done|].
  unfold held. rewrite fmap_app. cbn. by rewrite Permutation_app_comm.
Qed.

Lemma phase1_request_accounted ch o out :
  (forall why, phase1_request ch o out <> Panicked1 why) ->
  accounted1 (phase1_request ch o out) = settled out ++ held (p1_buffered ch).
Proof.
  unfold phase1_request. repeat case_match; try naive_solver. intros _. cbn.
  by rewrite settled_app, settled_reject.
Qed.

Lemma back_to_phase1_accounted ch fresh out :
  (forall why, back_to_phase1 ch fresh out <> Panicked2 why) ->
  accounted2 (back_to_phase1 ch fresh out) = settled out ++ held (p2_buffered ch).
Proof.
  unfold back_to_phase1. destruct (p2_rx ch); [|naive_solver]. intros _.
  cbn [Phase1Channel_new accounted2 p1_buffered held fmap list_fmap].
  by rewrite app_nil_r, settled_app, settled_reject.
Qed.

Lemma phase2_timer_accounted ch o out :
  (forall why, phase2_timer ch o out <> Panicked2 why) ->
  accounted2 (phase2_timer ch o out) = settled out ++ held (p2_buffered ch).
Proof.
  unfold phase2_timer. case_match; [apply back_to_phase1_accounted|done].
Qed.

(** C21: in both phases of the coordination no request is lost and none is
    answered twice: after a poll, the requests that were buffered and the
    one taken from the queue are, each exactly once, answered, dropped, or
    still held by the next owner of the room. *)
Theorem coordination_conserves ch1 o1 ch2 o2 :
  ((forall why, phase1_poll ch1 o1 <> Panicked1 why) ->
   accounted1 (phase1_poll ch1 o1) ≡ₚ
   held (taken (next1 o1)) ++ held (p1_buffered ch1)) /\
  ((forall why, phase2_poll ch2 o2 <> Panicked2 why) ->
   accounted2 (phase2_poll ch2 o2) ≡ₚ
   held (taken (next2 o2)) ++ held (p2_buffered ch2)).
Proof.
  split.
  - unfold phase1_poll. destruct (p1_rx ch1) as [rx|] eqn:Hrx; [|naive_solver].
    destruct (next1 o1) as [m| |]; cbn [taken];
      [|intros; by rewrite phase1_request_accounted..].
    destruct (message_type (context m)); [done|].
    pose proof (buffer_accounted (p1_buffered ch1) m) as Hb.
    destruct buffer_early_computation as [b out]. intros Hp.
    by rewrite phase1_request_accounted.
  - unfold phase2_poll. destruct (p2_rx ch2) as [rx|] eqn:Hrx; [|naive_solver].
    destruct (next2 o2) as [m| |]; cbn [taken];
      [|intros; by rewrite phase2_timer_accounted..].
    destruct (message_type (context m)); case_bool_decide; try done.
    + case_match; intros Hp; [done|by rewrite back_to_phase1_accounted|naive_solver].
    + pose proof (buffer_accounted (p2_buffered ch2) m) as Hb.
      destruct buffer_early_computation as [b out]. intros Hp.
      by rewrite phase2_timer_accounted.
    + intros Hp. by rewrite phase2_timer_accounted.
Qed.

(** ** The room a phase holds *)

(** What a phase 1 passes on of the room it holds. *)
Definition passes_on1 (ch : Phase1Channel) (o : obs1) (r : poll1) : Prop :=
  match r with
  | FromRemote _ _ _ _ ch2 => p2_id ch2 = p1_id ch /\ p2_rx ch2 = p1_rx ch
  | FromLocal id _ ng _ =>
      exists rx, p1_rx ch = Some rx /\ id = p1_id ch /\ Negotiation.holds id rx ng
  | Pending1 ch' _ =>
      p1_id ch' = p1_id ch /\ p1_rx ch' = p1_rx ch /\ p1_request ch' = p1_request ch /\
      request1 o = RecvEmpty
  | Panicked1 _ => p1_rx ch = None \/ request1 o = RecvCanceled
  end.

Lemma phase1_request_room ch b o out :
  passes_on1 ch o (phase1_request
    {| p1_id := p1_id ch; p1_rx := p1_rx ch; p1_request := p1_request ch; p1_buffered := b |}
    o out).
Proof.
  unfold phase1_request. destruct (request1 o) as [msg| |] eqn:Hr; cbn; auto.
  destruct (p1_rx ch) as [rx|] eqn:Hrx; cbn; [|by left].
  exists rx. split; [done|]. split; [done|]. split; [done|]. by eexists.
Qed.

Lemma phase1_poll_room ch o : passes_on1 ch o (phase1_poll ch o).
Proof.
  unfold phase1_poll. destruct (p1_rx ch) as [rx|] eqn:Hrx; [|by left]. rewrite <- Hrx.
  assert (forall out, passes_on1 ch o (phase1_request ch o out)) as Hreq.
  { intros out. pose proof (phase1_request_room ch (p1_buffered ch) o out) as Hr.
    by destruct ch. }
  destruct (next1 o) as [msg| |]; [|apply Hreq..].
  destruct (message_type (context msg)); [by cbn|].
  destruct buffer_early_computation as [b out]. apply phase1_request_room.
Qed.

Definition passes_on2 (ch : Phase2Channel) (f : nat) (r : poll2) : Prop :=
  match r with
  | Start2 room px _ _ _ _ =>
      room = p2_id ch /\ ReceiverProxy.room_id px = p2_id ch /\
      ReceiverProxy.request_receiver px = p2_rx ch
  | Abort2 room p1 tx _ =>
      room = p2_id ch /\ p1_id p1 = p2_id ch /\ p1_rx p1 = p2_rx ch /\
      p1_request p1 = tx /\ tx = f
  | Pending2 ch' _ => p2_id ch' = p2_id ch /\ p2_rx ch' = p2_rx ch
  | Panicked2 _ => True
  end.

Lemma back_to_phase1_room ch f out : passes_on2 ch f (back_to_phase1 ch f out).
Proof. unfold back_to_phase1. by destruct (p2_rx ch) eqn:Hrx; cbn; rewrite ?Hrx. Qed.

Lemma phase2_timer_room ch b o out :
  passes_on2 ch (fresh2 o) (phase2_timer
    {| p2_id := p2_id ch; p2_session := p2_session ch; p2_rx := p2_rx ch; p2_buffered := b;
       p2_timeout := p2_timeout ch |} o out).
Proof.
  unfold phase2_timer. case_match; [|done].
  unfold back_to_phase1. cbn. by destruct (p2_rx ch) eqn:Hrx; cbn; rewrite ?Hrx.
Qed.

Lemma phase2_poll_room ch o : passes_on2 ch (fresh2 o) (phase2_poll ch o).
Proof.
  unfold phase2_poll. destruct (p2_rx ch) as [rx|] eqn:Hrx; [|done]. rewrite <- Hrx.
  assert (forall out, passes_on2 ch (fresh2 o) (phase2_timer ch o out)) as Htimer.
  { intros out. pose proof (phase2_timer_room ch (p2_buffered ch) o out) as Ht.
    by destruct ch. }
  destruct (next2 o) as [msg| |]; [|apply Htimer..].
  destruct (message_type (context msg)); case_bool_decide; [|done| |apply Htimer].
  - destruct StartMsg.from_bytes; [by cbn|apply back_to_phase1_room|done].
  - destruct buffer_early_computation as [b out]. apply phase2_timer_room.
Qed.

Lemma phase2_run_room ch f os :
  Forall (fun o => fresh2 o = f) os -> passes_on2 ch f (phase2_run ch os).
Proof.
  intros Hos. revert ch. induction Hos as [|o os <- _ IH]; intros ch; [done|].
  cbn [phase2_run]. pose proof (phase2_poll_room ch o) as Hp.
  destruct (phase2_poll ch o) as [| |ch' out|]; try done.
  destruct Hp as [Hid Hrx]. specialize (IH ch'). unfold passes_on2 in *.
  destruct (phase2_run ch' os); rewrite <- ?Hid, <- ?Hrx; done.
Qed.

(** ** Early messages *)

(** The messages of the session among those a run of phase 2 takes before
    its last poll. *)
Definition early (sid : SessionId) (os : list obs2) : list IncomingRequest :=
  filter (fun m => message_type (context m) = Computation /\
                   session_id (context m) = sid)
         (concat ((fun o => taken (next2 o)) <$> os)).

Lemma early_cons sid o os :
  early sid (o :: os) = early sid [o] ++ early sid os.
Proof.
  unfold early. rewrite !fmap_cons, fmap_nil, <- filter_app. cbn.
  by rewrite app_nil_r.
Qed.

(** A bounded push is a prefix of the unbounded one. *)
Lemma buffer_take b m :
  (length b <= MAX_EARLY_COMPUTATION_MESSAGES)%nat ->
  (buffer_early_computation b m).1 = take MAX_EARLY_COMPUTATION_MESSAGES (b ++ [m]).
Proof.
  intros Hb. unfold buffer_early_computation.
  case_match eqn:Hl; cbn [fst].
  - apply Nat.leb_le in Hl. rewrite take_app_le by done. by rewrite take_ge.
  - apply Nat.leb_gt in Hl. rewrite take_ge; [done|]. rewrite length_app. cbn. lia.
Qed.

Lemma take_take_app {A} k (l1 l2 : list A) :
  take k (take k l1 ++ l2) = take k (l1 ++ l2).
Proof.
  destruct (decide (length l1 <= k)%nat); [by rewrite (take_ge l1)|].
  rewrite !take_app_le; [by rewrite take_idemp|lia|rewrite length_take; lia].
Qed.

Lemma phase2_poll_pending ch o ch' out :
  (length (p2_buffered ch) <= MAX_EARLY_COMPUTATION_MESSAGES)%nat ->
  phase2_poll ch o = Pending2 ch' out ->
  p2_id ch' = p2_id ch /\ p2_session ch' = p2_session ch /\ p2_rx ch' = p2_rx ch /\
  p2_timeout ch' = p2_timeout ch /\
  p2_buffered ch' =
    take MAX_EARLY_COMPUTATION_MESSAGES (p2_buffered ch ++ early (p2_session ch) [o]).
Proof.
  intros Hb. unfold phase2_poll, phase2_timer, back_to_phase1, early. cbn -[taken MAX_EARLY_COMPUTATION_MESSAGES].
  rewrite app_nil_r.
  destruct (p2_rx ch) as [rx|] eqn:Hrx; [|done].
  destruct (next2 o) as [m| |]; cbn [taken];
    [|rewrite filter_nil, app_nil_r, take_ge by done; repeat case_match; naive_solver..].
  destruct (message_type (context m)) eqn:Ht; case_bool_decide as Hs.
  - repeat case_match; naive_solver.
  - intros [= <- _]. rewrite filter_cons_False, filter_nil, app_nil_r by naive_solver.
    by rewrite take_ge.
  - pose proof (buffer_take (p2_buffered ch) m Hb) as Hbt.
    destruct buffer_early_computation as [b out']. cbn [fst] in Hbt. cbn [p2_timeout p2_rx].
    rewrite filter_cons_True, filter_nil, <- Hbt by done.
    case_match; [by repeat case_match|]. by intros [= <- _].
  - rewrite filter_cons_False, filter_nil, app_nil_r, take_ge by naive_solver.
    case_match; [by repeat case_match|]. by intros [= <- _].
Qed.

Lemma phase2_run_pending ch os ch' out :
  (length (p2_buffered ch) <= MAX_EARLY_COMPUTATION_MESSAGES)%nat ->
  phase2_run ch os = Pending2 ch' out ->
  p2_id ch' = p2_id ch /\ p2_session ch' = p2_session ch /\ p2_rx ch' = p2_rx ch /\
  p2_timeout ch' = p2_timeout ch /\
  p2_buffered ch' =
    take MAX_EARLY_COMPUTATION_MESSAGES (p2_buffered ch ++ early (p2_session ch) os).
Proof.
  revert ch. induction os as [|o os IH]; intros ch Hb; cbn [phase2_run].
  { intros [= <- _]. change (early _ []) with (@nil IncomingRequest).
    by rewrite app_nil_r, take_ge. }
  destruct (phase2_poll ch o) eqn:Hpoll; try done. intros Hrun.
  apply phase2_poll_pending in Hpoll as (Hid & Hs & Hrx & Ht & Hbuf); [|done].
  apply IH in Hrun as (-> & -> & -> & -> & ->);
    [|rewrite Hbuf, length_take; lia].
  rewrite Hid, Hs, Hrx, Ht, Hbuf, take_take_app, <- app_assoc, <- early_cons. done.
Qed.

Lemma phase2_poll_start ch o room px ps body sid out :
  phase2_poll ch o = Start2 room px ps body sid out ->
  sid = p2_session ch /\ room = p2_id ch /\
  ps = ReceiverProxy.peerset px /\ exists rx, p2_rx ch = Some rx /\
  px = ReceiverProxy.new (p2_id ch) rx (ReceiverProxy.peerset px) (p2_session ch)
         (p2_buffered ch).
Proof.
  unfold phase2_poll, phase2_timer, back_to_phase1.
  repeat case_match; try done. intros [= <- <- <- <- <- <-]. naive_solver.
Qed.

(** a joiner that gets its start message begins the computation with
    the early messages of the session, in the order they came, behind those
    phase 1 had kept; the buffer never exceeds 1024 messages, and the
    computation runs with the session of the proposal and the room's
    queue. *)
Theorem phase2_start_keeps_early ch os ch' out' o room px ps body sid out :
  (length (p2_buffered ch) <= MAX_EARLY_COMPUTATION_MESSAGES)%nat ->
  phase2_run ch os = Pending2 ch' out' ->
  phase2_poll ch' o = Start2 room px ps body sid out ->
  ReceiverProxy.buffered px =
    take MAX_EARLY_COMPUTATION_MESSAGES
      (p2_buffered ch ++ early (p2_session ch) os) /\
  sid = p2_session ch /\ room = p2_id ch /\
  ReceiverProxy.session px = sid /\ ReceiverProxy.peerset px = ps /\
  ReceiverProxy.request_receiver px = p2_rx ch.
Proof.
  intros Hb Hrun Hpoll.
  apply phase2_run_pending in Hrun as (Hid & Hs & Hrx & _ & Hbuf); [|done].
  apply phase2_poll_start in Hpoll as (-> & -> & -> & rx & Hrx' & ->).
  cbn [ReceiverProxy.new ReceiverProxy.buffered ReceiverProxy.session
       ReceiverProxy.peerset ReceiverProxy.request_receiver].
  by rewrite <- Hbuf, <- Hs, <- Hid, <- Hrx.
Qed.

(** ** Phase 2 ends *)

(** past its deadline phase 2 is over at the next poll, unless that
    poll takes a proposal of another session, which is rejected before the
    timer is looked at. *)
Theorem phase2_deadline ch o ch' out :
  phase2_poll ch o = Pending2 ch' out -> p2_timeout ch <= now2 o ->
  exists m, next2 o = NextMsg m /\ message_type (context m) = Coordination /\
    session_id (context m) <> p2_session ch /\
    out = [Respond (pending_response m) reject] /\ ch' = ch.
Proof.
  unfold phase2_poll, phase2_timer, back_to_phase1. intros Hp Ht.
  apply Z.leb_le in Ht.
  repeat (case_match || case_bool_decide); simplify_eq; cbn in *; try congruence.
  naive_solver.
Qed.

(** C37: a proposer that repeats its proposal knocks out the peers that
    had already joined: in phase 2 of the session, the repeated proposal (an
    empty coordination message of the session) fails to decode as a start
    message, so the joiner goes back to phase 1, leaves the message
    unanswered and rejects what it had buffered. *)
Theorem retry_aborts_joiner `{!UnsignedVarintLaws} (s : Negotiation.state) (a : Agent) ch rx o m :
  p2_rx ch = Some rx -> p2_session ch = Negotiation.session s ->
  next2 o = NextMsg m ->
  (exists room ctx body, Negotiation.proposal s a = NetworkRequest room ctx (Broadcast body) /\
     context m = ctx /\ payload m = body) ->
  exists p1, phase2_poll ch o =
    Abort2 (p2_id ch) p1 (fresh2 o)
      (Discard (pending_response m) :: reject_buffered (p2_buffered ch)) /\
    p1_rx p1 = Some rx /\ p1_buffered p1 = [].
Proof.
  intros Hrx Hs Hnext (room & ctx & body & Hprop & Hctx & Hpay).
  unfold Negotiation.proposal in Hprop. injection Hprop as <- <- <-.
  unfold phase2_poll. rewrite Hrx, Hnext, Hctx, Hpay. cbn [message_type session_id].
  rewrite bool_decide_eq_true_2 by done.
  unfold StartMsg.from_bytes, read_uint. rewrite uv_read_eof. cbn [mbind outcome_bind map_err].
  unfold back_to_phase1. rewrite Hrx. by eexists.
Qed.
End coordination.

(** ** Proposer and joiner agree *)
Section agreement.
Context `{PeerIdLaws} `{UnsignedVarintLaws} `{ComputeAgents}.

End agreement.
End Coordination.
