(* ===== verification/Echo.v ===== *)
(** * The echo broadcast

    [EchoGadget] of [crates/client/service/src/echo.rs].  For every broadcast
    of the protocol, a node collects its own message and those of the others,
    answers every sender with the hash of all of them, and compares the hashes
    the others answered with its own.

    A run of one round takes its inputs explicitly: [inbox] is what arrives on
    the gadget's channel, [closed] whether the channel is closed after that,
    and [replies] what arrives on the channel of answers to the node's own
    broadcast (with its own [closed] flag).  A round that needs more input than
    there is is [Blocked]. *)

From Stdlib Require Import ZArith Lia Strings.Byte.
From stdpp Require Import base gmap strings numbers list.
From S2P Require Import Prelude Messages Peerset Room.

Local Open Scope Z_scope.

(** [crate::Error] of the service. *)
Inductive Error : Type :=
  | Busy
  | InconsistentEcho (i : Z)
  | EchoFailed (e : RequestFailure)
  | UnknownProtocolId (protocol_id : Z)
  | InternalError (e : string).

#[export] Instance error_eq_dec : EqDecision Error.
Proof. solve_decision. Defined.

(** The hash of the echo: [Blake2s256], a parameter. *)
Class EchoHash : Type := echo_hash : bytes -> bytes.

(** [EchoResponse]: the channel of the answer to a remote's broadcast, or the
    channel of the remotes' answers to ours. *)
Inductive EchoResponse : Type :=
  | Incoming (tx : nat)
  | Outgoing (rx : nat).

Record EchoMessage : Type := {
  em_message_id : Z;
  em_sender : Z;
  em_payload : bytes;
  em_response : EchoResponse;
}.

#[export] Instance echo_response_eq_dec : EqDecision EchoResponse.
Proof. solve_decision. Defined.
#[export] Instance echo_message_eq_dec : EqDecision EchoMessage.
Proof. solve_decision. Defined.

Definition is_outgoing (m : EchoMessage) : bool :=
  match em_response m with Outgoing _ => true | Incoming _ => false end.

Module EchoGadget.
Section echo.
Context `{PeerIds} `{ComputeAgents} `{EchoHash}.

(** The answer of a remote peer to our broadcast. *)
Abbreviation reply := (outcome RequestFailure (PeerId * bytes)).

(** [EchoGadget]; a group is the content of its [BinaryHeap]. *)
Record t : Type := {
  r : Z;
  n : nat;
  msgs : gmap Z (list EchoMessage);
}.

(** [EchoGadget::new]. *)
Definition new (n : nat) : t := {| r := 0; n := n; msgs := ∅ |}.

Definition with_msgs (ms : gmap Z (list EchoMessage)) (g : t) : t :=
  {| r := r g; n := n g; msgs := ms |}.

(** [self.msgs.entry(msg.message_id).or_default().push(msg)]. *)
Definition push (m : EchoMessage) (g : t) : t :=
  with_msgs (<[em_message_id m := default [] (msgs g !! em_message_id m) ++ [m]]> (msgs g)) g.

Definition group_ready (n : nat) (group : list EchoMessage) : bool :=
  bool_decide (length group = n) && existsb is_outgoing group.

(** [ready_message_id]: the least ready id, as the map iterates in order. *)
Definition ready_message_id (g : t) : option Z :=
  head (omap (fun '(mid, group) => if group_ready (n g) group then Some mid else None)
             (sort_by_key Z.leb fst (map_to_list (msgs g)))).

(** The first loop of [proceed_round]. *)
Inductive collected : Type :=
  | Ready (mid : Z) (g : t) (inbox : list EchoMessage)
  | Finished
  | Failed (e : Error)
  | Waiting (g : t).

Fixpoint collect (g : t) (inbox : list EchoMessage) (closed : bool) : collected :=
  match ready_message_id g with
  | Some mid => Ready mid g inbox
  | None =>
      match inbox with
      | m :: inbox => collect (push m g) inbox closed
      | [] =>
          if closed then
            if decide (msgs g = ∅) then Finished
            else Failed (InternalError "echo channel closed with pending messages")
          else Waiting g
      end
  end.

(** The second loop: the group of [mid] is filled up to [n] messages. *)
Inductive completed : Type :=
  | Complete (group : list EchoMessage) (g : t) (inbox : list EchoMessage)
  | Incomplete (e : Error)
  | Starved.

Fixpoint complete (mid : Z) (group : list EchoMessage) (g : t) (inbox : list EchoMessage)
  (closed : bool) : completed :=
  if bool_decide (length group = n g) then Complete group g inbox
  else
    match inbox with
    | m :: inbox =>
        if em_message_id m =? mid then complete mid (group ++ [m]) g inbox closed
        else complete mid group (push m g) inbox closed
    | [] =>
        if closed then Incomplete (InternalError "echo channel closed before message completed")
        else Starved
    end.

(** The pass over the sorted group: the hashed bytes, the channels to
    acknowledge, and the last outgoing channel; or the duplicate sender. *)
Fixpoint scan (senders : list Z) (ms : list EchoMessage) (hashed : bytes) (acks : list nat)
  (out : option nat) : outcome Error (bytes * list nat * option nat) :=
  match ms with
  | [] => Ok (hashed, acks, out)
  | m :: ms =>
      if bool_decide (em_sender m ∈ senders) then Err (InconsistentEcho (em_sender m))
      else
        let senders := em_sender m :: senders in
        let hashed := hashed ++ em_payload m in
        match em_response m with
        | Incoming tx => scan senders ms hashed (acks ++ [tx]) out
        | Outgoing rx => scan senders ms hashed acks (Some rx)
        end
  end.

Definition sorted (group : list EchoMessage) : list EchoMessage :=
  sort_by_key Z.leb em_sender group.

(** What the hash is taken of. *)
Definition transcript (group : list EchoMessage) : bytes :=
  concat (em_payload <$> sorted group).

(** [tx.send(..).expect(..)] on every channel; [alive] says whether its
    receiver still exists.  The effects are those before a panic. *)
Fixpoint acknowledge (alive : nat -> bool) (h : bytes) (acks : list nat) :
  list effect * option string :=
  match acks with
  | [] => ([], None)
  | tx :: acks =>
      if alive tx then
        let '(es, p) := acknowledge alive h acks in (Respond tx (accept h) :: es, p)
      else ([], Some "expected to be able to send acknowledgment with echoing module")
  end.

(** The loop that gathers [n - 1] answers; it pushes before it compares. *)
Inductive gathered : Type :=
  | Gathered (hashes : list reply)
  | GatherPanic
  | GatherBlocked.

Fixpoint gather (n : nat) (acc replies : list reply) (closed : bool) : gathered :=
  match replies with
  | [] => if closed then GatherPanic else GatherBlocked
  | x :: replies =>
      let acc := acc ++ [x] in
      if bool_decide (length acc = (n - 1)%nat) then Gathered acc
      else gather n acc replies closed
  end.

(** The comparison, in the order the answers arrived. *)
Fixpoint compare_hashes (h : bytes) (index : nat) (hashes : list reply) : outcome Error unit :=
  match hashes with
  | [] => Ok tt
  | Ok (_, hash) :: rest =>
      if bool_decide (hash = h) then compare_hashes h (S index) rest
      else Err (InconsistentEcho (as_u16 (Z.of_nat index)))
  | Err e :: _ => Err (EchoFailed e)
  | Panic why :: _ => Panic why
  end.

Inductive round_result : Type :=
  | RoundDone (g : t) (inbox : list EchoMessage) (out : list effect)
  | AllDone
  | RoundErr (e : Error) (out : list effect)
  | RoundPanic (why : string) (out : list effect)
  | Blocked.

(** The part of a round after its group is complete. *)
Definition finish_round (g : t) (group : list EchoMessage) (inbox : list EchoMessage)
  (alive : nat -> bool) (replies : nat -> list reply * bool) : round_result :=
  match scan [] (sorted group) [] [] None with
  | Err e => RoundErr e []
  | Panic why => RoundPanic why []
  | Ok (_, _, None) => RoundPanic "outgoing message was expected" []
  | Ok (hashed, acks, Some rx) =>
      let h := echo_hash hashed in
      match acknowledge alive h acks with
      | (out, Some why) => RoundPanic why out
      | (out, None) =>
          let '(rs, closed) := replies rx in
          match gather (n g) [] rs closed with
          | GatherPanic => RoundPanic "SelectNextSome polled after terminated" out
          | GatherBlocked => Blocked
          | Gathered hashes =>
              match compare_hashes h 0 hashes with
              | Err e => RoundErr e out
              | Panic why => RoundPanic why out
              | Ok tt =>
                  match u16_add (E:=Error) (r g) 1 with
                  | Ok r' => RoundDone {| r := r'; n := n g; msgs := msgs g |} inbox out
                  | Err e => RoundErr e out
                  | Panic why => RoundPanic why out
                  end
              end
          end
      end
  end.

(** [proceed_round]. *)
Definition proceed_round (g : t) (inbox : list EchoMessage) (closed : bool)
  (alive : nat -> bool) (replies : nat -> list reply * bool) : round_result :=
  match collect g inbox closed with
  | Waiting _ => Blocked
  | Finished => AllDone
  | Failed e => RoundErr e []
  | Ready mid g inbox =>
      match msgs g !! mid with
      | None => RoundPanic "ready message group must exist" []
      | Some group =>
          match complete mid group (with_msgs (delete mid (msgs g)) g) inbox closed with
          | Starved => Blocked
          | Incomplete e => RoundErr e []
          | Complete group g inbox => finish_round g group inbox alive replies
          end
      end
  end.

(** ** [wrap_execution] *)

(** What the [select!] observes: a round ended ([Some] for another round to
    come, [None] for the end of the gadget), or the computation did. *)
Inductive wrap_event : Type :=
  | EchoRes (res : outcome Error (option unit))
  | CompRes (res : outcome Error unit).

(** [None] when the events run out before the future is ready.  Once the
    gadget has ended, only the computation is awaited; once the computation has
    succeeded, only the gadget. *)
Fixpoint await_computation (es : list wrap_event) : option (outcome Error unit) :=
  match es with
  | [] => None
  | CompRes res :: _ => Some res
  | EchoRes _ :: es => await_computation es
  end.

Fixpoint await_echo (es : list wrap_event) : option (outcome Error unit) :=
  match es with
  | [] => None
  | EchoRes (Ok (Some _)) :: es => await_echo es
  | EchoRes (Ok None) :: _ => Some (Ok tt)
  | EchoRes (Err e) :: _ => Some (Err e)
  | EchoRes (Panic why) :: _ => Some (Panic why)
  | CompRes _ :: es => await_echo es
  end.

Fixpoint wrap_execution (es : list wrap_event) : option (outcome Error unit) :=
  match es with
  | [] => None
  | EchoRes (Ok (Some _)) :: es => wrap_execution es
  | EchoRes (Ok None) :: es => await_computation es
  | EchoRes (Err e) :: _ => Some (Err e)
  | EchoRes (Panic why) :: _ => Some (Panic why)
  | CompRes (Ok tt) :: es => await_echo es
  | CompRes (Err e) :: _ => Some (Err e)
  | CompRes (Panic why) :: _ => Some (Panic why)
  end.

(** ** What the parts compute *)

Definition incoming (ms : list EchoMessage) : list nat :=
  omap (fun m => match em_response m with Incoming tx => Some tx | Outgoing _ => None end) ms.

Definition outgoing (ms : list EchoMessage) : list nat :=
  omap (fun m => match em_response m with Outgoing rx => Some rx | Incoming _ => None end) ms.

Definition pick (out : option nat) (ms : list EchoMessage) : option nat :=
  match last (outgoing ms) with Some rx => Some rx | None => out end.

Lemma pick_cons out m ms :
  pick out (m :: ms) =
  pick (match em_response m with Outgoing rx => Some rx | Incoming _ => out end) ms.
Proof.
  unfold pick, outgoing. cbn. destruct (em_response m); [done|].
  rewrite last_cons. by destruct (last _).
Qed.

Lemma scan_ok senders ms hashed acks out x :
  scan senders ms hashed acks out = Ok x <->
  NoDup (em_sender <$> ms) /\ (forall m, m ∈ ms -> em_sender m ∉ senders) /\
  x = (hashed ++ concat (em_payload <$> ms), acks ++ incoming ms, pick out ms).
Proof.
  revert senders hashed acks out. induction ms as [|m ms IH]; intros *; cbn [scan].
  { cbn. rewrite !app_nil_r. split; [intros [= <-]|naive_solver].
    split; [constructor|]. split; [set_solver|done]. }
  rewrite pick_cons, fmap_cons, NoDup_cons. cbn [concat fmap list_fmap].
  case_bool_decide as Hin.
  { split; [done|]. intros (_ & Hs & _). destruct (Hs m); [constructor|done]. }
  assert (forall ms, NoDup (em_sender <$> ms) /\
            (forall m0, m0 ∈ ms -> em_sender m0 ∉ em_sender m :: senders) <->
          (em_sender m ∉ em_sender <$> ms /\ NoDup (em_sender <$> ms)) /\
            (forall m0, m0 ∈ m :: ms -> em_sender m0 ∉ senders)) as Hiff.
  { intros ms'. set_solver. }
  specialize (Hiff ms).
  unfold incoming. cbn [omap list_omap]. destruct (em_response m) eqn:Hr; rewrite IH;
    rewrite <- ?app_assoc; cbn [app]; tauto.
Qed.

Lemma acknowledge_all alive h acks :
  Forall (fun tx => alive tx = true) acks ->
  acknowledge alive h acks = ((fun tx => Respond tx (accept h)) <$> acks, None).
Proof. induction 1 as [|tx acks Htx _ IH]; cbn; [done|]. by rewrite Htx, IH. Qed.

Lemma acknowledge_done alive h acks out :
  acknowledge alive h acks = (out, None) ->
  out = (fun tx => Respond tx (accept h)) <$> acks.
Proof.
  revert out. induction acks as [|tx acks IH]; cbn; intros out; [naive_solver|].
  destruct (alive tx); [|done]. destruct acknowledge as [es p]. intros [= <- ->].
  by rewrite (IH es).
Qed.

Lemma acknowledge_out alive h acks tx res :
  Respond tx res ∈ (acknowledge alive h acks).1 -> res = accept h.
Proof.
  induction acks as [|tx' acks IH]; cbn; [set_solver|].
  destruct (alive tx'); [|set_solver]. destruct acknowledge as [es p]. cbn in *. set_solver.
Qed.

Lemma gather_ok n acc replies closed hs :
  (length acc < n - 1)%nat -> gather n acc replies closed = Gathered hs ->
  hs = acc ++ take (n - 1 - length acc) replies /\ length hs = (n - 1)%nat.
Proof.
  revert acc. induction replies as [|x rs IH]; intros acc Hacc; cbn [gather].
  { by case_match. }
  replace (n - 1 - length acc)%nat with (S (n - 1 - length (acc ++ [x])))%nat
    by (rewrite length_app; cbn; lia).
  case_bool_decide as Hl.
  - intros [= <-]. split; [|done]. rewrite Hl, Nat.sub_diag. done.
  - rewrite length_app in Hl. cbn in Hl. intros Hg.
    apply IH in Hg as [Hg Hlen]; [|rewrite length_app; cbn; lia].
    rewrite Hg at 1. rewrite <- app_assoc. done.
Qed.

Lemma gather_enough n acc replies closed :
  (length acc < n - 1)%nat -> (n - 1 - length acc <= length replies)%nat ->
  gather n acc replies closed = Gathered (acc ++ take (n - 1 - length acc) replies).
Proof.
  revert acc. induction replies as [|x rs IH]; intros acc Hacc Hlen; cbn [gather].
  { cbn in Hlen. lia. }
  replace (n - 1 - length acc)%nat with (S (n - 1 - length (acc ++ [x])))%nat
    by (rewrite length_app; cbn; lia).
  case_bool_decide as Hl.
  - by rewrite Hl, Nat.sub_diag.
  - rewrite length_app in Hl. cbn in Hl, Hlen.
    rewrite IH by (rewrite length_app; cbn; lia). by rewrite <- app_assoc.
Qed.

Definition echoes (h : bytes) (x : reply) : Prop := exists p, x = Ok (p, h).

Lemma compare_ok h i hs : compare_hashes h i hs = Ok tt <-> Forall (echoes h) hs.
Proof.
  revert i. induction hs as [|[[p hash]| |] hs IH]; intros i; cbn.
  - by split; [constructor|].
  - rewrite Forall_cons. unfold echoes at 1. case_bool_decide; subst.
    + rewrite IH. naive_solver.
    + split; [done|]. naive_solver.
  - rewrite Forall_cons. unfold echoes at 1. naive_solver.
  - rewrite Forall_cons. unfold echoes at 1. naive_solver.
Qed.

(** ** Which round comes next *)

Lemma ready_message_id_some g mid :
  ready_message_id g = Some mid ->
  exists group, msgs g !! mid = Some group /\ group_ready (n g) group = true.
Proof.
  unfold ready_message_id. intros Hh%head_Some_elem_of.
  apply list_elem_of_omap in Hh as ([k group] & Hin & Heq).
  rewrite sort_by_key_perm in Hin. apply elem_of_map_to_list in Hin.
  destruct group_ready eqn:Hg; naive_solver.
Qed.

Lemma ready_message_id_singleton g mid group :
  msgs g = {[mid := group]} ->
  ready_message_id g = if group_ready (n g) group then Some mid else None.
Proof.
  unfold ready_message_id. intros ->. rewrite map_to_list_singleton. cbn.
  by destruct group_ready.
Qed.

Definition pushes (pre : list EchoMessage) (g : t) : t := foldl (fun g m => push m g) g pre.

Lemma pushes_n pre g : n (pushes pre g) = n g /\ r (pushes pre g) = r g.
Proof. unfold pushes. revert g. induction pre as [|m pre IH]; intros g; cbn; [done|]. apply (IH (push m g)). Qed.

Lemma pushes_lookup pre g mid :
  default [] (msgs (pushes pre g) !! mid) =
  default [] (msgs g !! mid) ++ filter (fun m => em_message_id m = mid) pre.
Proof.
  unfold pushes. revert g. induction pre as [|m pre IH]; intros g; cbn [foldl].
  { by rewrite app_nil_r. }
  rewrite IH, filter_cons. cbn [push with_msgs msgs]. case_decide as Hm.
  - subst. rewrite lookup_insert_eq. cbn. by rewrite <- app_assoc.
  - by rewrite lookup_insert_ne.
Qed.

Lemma collect_ready g inbox closed mid g' inbox' :
  collect g inbox closed = Ready mid g' inbox' ->
  exists pre, inbox = pre ++ inbox' /\ g' = pushes pre g /\ ready_message_id g' = Some mid.
Proof.
  revert g. induction inbox as [|m inbox IH]; intros g; cbn [collect];
    destruct (ready_message_id g) eqn:Hr.
  - intros [= <- <- <-]. by exists [].
  - repeat case_match; done.
  - intros [= <- <- <-]. by exists [].
  - intros Hc. apply IH in Hc as (pre & -> & -> & Hr'). by exists (m :: pre).
Qed.

(** ** Rounds *)

(** The effects of a round. *)
Definition round_out (res : round_result) : list effect :=
  match res with
  | RoundDone _ _ out | RoundErr _ out | RoundPanic _ out => out
  | AllDone | Blocked => []
  end.

Lemma finish_round_done g group inbox alive replies g' inbox' out :
  (2 <= n g)%nat ->
  finish_round g group inbox alive replies = RoundDone g' inbox' out ->
  NoDup (em_sender <$> sorted group) /\
  out = (fun tx => Respond tx (accept (echo_hash (transcript group)))) <$>
          incoming (sorted group) /\
  exists rx, last (outgoing (sorted group)) = Some rx /\
    length (take (n g - 1) (replies rx).1) = (n g - 1)%nat /\
    Forall (echoes (echo_hash (transcript group))) (take (n g - 1) (replies rx).1).
Proof.
  intros Hn. unfold finish_round.
  destruct scan as [[[hashed acks] [rx|]]| |] eqn:Hscan; try done.
  apply scan_ok in Hscan as (Hnd & _ & [= -> -> Hrx]).
  destruct acknowledge as [es [why|]] eqn:Hack; [done|].
  apply acknowledge_done in Hack as ->.
  destruct (replies rx) as [rs closed] eqn:Hrep.
  destruct gather as [hs| |] eqn:Hg; try done.
  apply gather_ok in Hg as [Hg Hlen]; [|cbn; lia]. cbn [app length] in Hg.
  rewrite Nat.sub_0_r in Hg.
  destruct compare_hashes as [[]| |] eqn:Hcmp; try done. apply compare_ok in Hcmp.
  destruct u16_add; try done. intros [= _ _ <-].
  split; [done|]. split; [done|]. exists rx.
  unfold pick in Hrx. destruct (last _) eqn:Hl; [|done]. rewrite Hrep. cbn [fst].
  rewrite <- Hg. naive_solver.
Qed.

Lemma finish_round_acks g group inbox alive replies tx res :
  Respond tx res ∈ round_out (finish_round g group inbox alive replies) ->
  res = accept (echo_hash (transcript group)).
Proof.
  unfold finish_round.
  destruct scan as [[[hashed acks] [rx|]]| |] eqn:Hscan; cbn; try set_solver.
  apply scan_ok in Hscan as (_ & _ & [= -> -> _]). cbn [app].
  fold (sorted group). change (concat _) with (transcript group).
  destruct acknowledge as [es p] eqn:Hack.
  assert (forall o, Respond tx res ∈ o -> o = es -> res = accept (echo_hash (transcript group))) as Hes.
  { intros o Ho ->. eapply acknowledge_out. by rewrite Hack. }
  repeat case_match; cbn; intros Hin; simplify_eq; eauto; set_solver.
Qed.

(** C14: a round of the echo that succeeds has collected one message of the
    same broadcast from each of [n] distinct senders, has acknowledged every
    remote one with the hash of all payloads in the order of the senders, and
    has received that very hash from [n - 1] remotes. *)
Theorem echo_round_sound g inbox closed alive replies g' inbox' out :
  (2 <= n g)%nat ->
  proceed_round g inbox closed alive replies = RoundDone g' inbox' out ->
  exists mid pre group rx,
    inbox = pre ++ inbox' /\
    group = default [] (msgs g !! mid) ++ filter (fun m => em_message_id m = mid) pre /\
    length group = n g /\ NoDup (em_sender <$> group) /\
    out = (fun tx => Respond tx (accept (echo_hash (transcript group)))) <$>
            incoming (sorted group) /\
    rx ∈ outgoing group /\
    length (take (n g - 1) (replies rx).1) = (n g - 1)%nat /\
    Forall (echoes (echo_hash (transcript group))) (take (n g - 1) (replies rx).1).
Proof.
  intros Hn. unfold proceed_round.
  destruct collect as [mid g1 inbox1| | |] eqn:Hc; try done.
  apply collect_ready in Hc as (pre & -> & -> & Hr).
  apply ready_message_id_some in Hr as (group & Hl & Hg). rewrite Hl.
  destruct (pushes_n pre g) as [Hpn _].
  apply andb_true_iff in Hg as [Hlen%bool_decide_eq_true _].
  replace (complete _ _ _ _ _) with
    (Complete group (with_msgs (delete mid (msgs (pushes pre g))) (pushes pre g)) inbox1)
    by (destruct inbox1; cbn; rewrite bool_decide_eq_true_2; done).
  intros Hf. pose proof Hf as Hi. apply finish_round_done in Hf as (Hnd & Hout & rx & Hrx & Hrest);
    cbn [n with_msgs] in *; [|lia].
  assert (inbox' = inbox1) as -> by
    (revert Hi; unfold finish_round; repeat case_match; naive_solver).
  exists mid, pre, group, rx. split; [done|].
  split; [by rewrite <- pushes_lookup, Hl|]. rewrite Hpn in *.
  split; [done|].
  assert (em_sender <$> sorted group ≡ₚ em_sender <$> group) as Hp
    by (unfold sorted; by rewrite sort_by_key_perm).
  rewrite Hp in Hnd. split; [done|]. split; [done|]. split; [|done].
  apply last_Some_elem_of in Hrx. unfold outgoing, sorted in *.
  apply list_elem_of_omap in Hrx as (m & Hm & Hmr). rewrite sort_by_key_perm in Hm.
  apply list_elem_of_omap. eauto.
Qed.

(** ** Progress *)

Lemma collect_fresh g mid pre inbox closed :
  msgs g = (if pre is [] then ∅ else {[mid := pre]}) ->
  Forall (fun m => em_message_id m = mid) inbox ->
  (0 < n g)%nat ->
  length (pre ++ inbox) = n g -> existsb is_outgoing (pre ++ inbox) = true ->
  collect g inbox closed =
  Ready mid {| r := r g; n := n g; msgs := {[mid := pre ++ inbox]} |} [].
Proof.
  revert g pre. induction inbox as [|m inbox IH]; intros g pre Hg Hmid Hn Hlen Hout.
  - rewrite app_nil_r in *. destruct pre as [|x pre]; [cbn in Hlen; lia|].
    cbn [collect]. rewrite (ready_message_id_singleton _ mid (x :: pre)) by done.
    unfold group_ready. rewrite bool_decide_eq_true_2, Hout by done. cbn [andb].
    destruct g. cbn in *. by subst.
  - inversion_clear Hmid as [|? ? Hm Hrest]. cbn [collect].
    assert (ready_message_id g = None) as ->.
    { destruct pre as [|x pre].
      - unfold ready_message_id. by rewrite Hg, map_to_list_empty.
      - rewrite (ready_message_id_singleton _ mid (x :: pre)) by done.
        unfold group_ready. rewrite bool_decide_eq_false_2; [done|].
        rewrite length_app in Hlen. cbn in *. lia. }
    assert (pre ++ m :: inbox = (pre ++ [m]) ++ inbox) as Happ by by rewrite <- app_assoc.
    rewrite Happ in *.
    rewrite (IH (push m g) (pre ++ [m])); cbn [push with_msgs n r msgs]; try done.
    rewrite Hm, Hg.
    assert (default [] ((if pre is [] then ∅ else {[mid := pre]}) !! mid) = pre) as ->.
    { destruct pre; [by rewrite lookup_empty|by rewrite lookup_singleton_eq]. }
    destruct (pre ++ [m]) eqn:Hpm; [by destruct pre|].
    destruct pre; [done|]. by rewrite insert_singleton_eq.
Qed.

(** C13: a round completes, whatever the order in which the messages arrive:
    from a gadget with no message pending, when the node's own broadcast and
    those of the [n - 1] others have come from distinct senders, the
    acknowledgements can be delivered and the remotes answer with the hash of
    the same payloads, the round ends well and acknowledges every remote. *)
Theorem echo_round_complete g mid inbox closed alive replies rx :
  msgs g = ∅ -> (2 <= n g)%nat -> 0 <= r g < u16_max ->
  Forall (fun m => em_message_id m = mid) inbox -> length inbox = n g ->
  NoDup (em_sender <$> inbox) -> outgoing inbox = [rx] ->
  Forall (fun tx => alive tx = true) (incoming inbox) ->
  (n g - 1 <= length (replies rx).1)%nat ->
  Forall (echoes (echo_hash (transcript inbox))) (take (n g - 1) (replies rx).1) ->
  proceed_round g inbox closed alive replies =
  RoundDone {| r := r g + 1; n := n g; msgs := ∅ |} []
    ((fun tx => Respond tx (accept (echo_hash (transcript inbox)))) <$>
       incoming (sorted inbox)).
Proof.
  intros Hg Hn Hr Hmid Hlen Hnd Hout Halive Hrep Hecho.
  assert (inbox ≡ₚ sorted inbox) as Hp by (unfold sorted; by rewrite sort_by_key_perm).
  assert (outgoing (sorted inbox) = [rx]) as Hout'.
  { apply Permutation_singleton_r. rewrite <- Hout. unfold outgoing. by rewrite <- Hp. }
  unfold proceed_round. rewrite (collect_fresh g mid []); try done; [|lia|].
  2: { apply existsb_exists.
       assert (rx ∈ outgoing inbox) as Hin by (rewrite Hout; constructor).
       apply list_elem_of_omap in Hin as (m & Hm & Hmr). exists m.
       split; [by apply list_elem_of_In|]. unfold is_outgoing. by destruct (em_response m). }
  cbn [app msgs with_msgs r n]. rewrite lookup_singleton_eq.
  replace (complete _ _ _ _ _) with
    (Complete inbox {| r := r g; n := n g; msgs := ∅ |} [])
    by (cbn; rewrite bool_decide_eq_true_2 by done; by rewrite delete_singleton_eq).
  unfold finish_round. cbn [n r msgs].
  assert (NoDup (em_sender <$> sorted inbox)) as Hnd' by (by rewrite <- Hp).
  rewrite (proj2 (scan_ok [] (sorted inbox) [] [] None _)
    (conj Hnd' (conj (fun m _ => not_elem_of_nil _) eq_refl))).
  unfold pick. rewrite Hout'. cbn [last app].
  change (concat (em_payload <$> sorted inbox)) with (transcript inbox).
  rewrite acknowledge_all by (unfold incoming; by rewrite <- Hp).
  destruct (replies rx) as [rs c]. cbn [fst] in *.
  rewrite gather_enough by (cbn; lia). cbn [app length]. rewrite Nat.sub_0_r.
  rewrite (proj2 (compare_ok _ _ _)) by done.
  rewrite u16_add_ok by lia. done.
Qed.

(** ** Agreement *)

Lemma concat_same_lengths (l1 l2 : list bytes) :
  Forall2 (fun x y => length x = length y) l1 l2 -> concat l1 = concat l2 -> l1 = l2.
Proof.
  induction 1 as [|x y l1 l2 Hxy _ IH]; cbn; [done|].
  intros Heq. apply app_inj_1 in Heq as [-> Heq]; [|done]. by rewrite IH.
Qed.

(** C12: the echo gives agreement.  If node A ends its round well and one of
    the answers it counted is the acknowledgement node B sent for its own
    group of the broadcast, then A and B saw the same payloads from every
    sender, provided that the payloads of a sender have the same length on both
    sides; otherwise two different byte strings with the same hash are at
    hand. *)
Theorem echo_agreement gA groupA inboxA aliveA repliesA gA' inboxA' outA
    gB groupB inboxB aliveB repliesB tx hB p rx :
  (2 <= n gA)%nat ->
  finish_round gA groupA inboxA aliveA repliesA = RoundDone gA' inboxA' outA ->
  last (outgoing (sorted groupA)) = Some rx ->
  Respond tx (accept hB) ∈ round_out (finish_round gB groupB inboxB aliveB repliesB) ->
  Ok (p, hB) ∈ take (n gA - 1) (repliesA rx).1 ->
  Forall2 (fun a b => em_sender a = em_sender b /\
                      length (em_payload a) = length (em_payload b))
          (sorted groupA) (sorted groupB) ->
  em_payload <$> sorted groupA = em_payload <$> sorted groupB \/
  (transcript groupA <> transcript groupB /\
   echo_hash (transcript groupA) = echo_hash (transcript groupB)).
Proof.
  intros Hn HA Hrx HB Hp Hlen.
  apply finish_round_done in HA as (_ & _ & rx' & Hrx' & _ & Hecho); [|done].
  rewrite Hrx in Hrx'. injection Hrx' as <-.
  apply finish_round_acks in HB. injection HB as ->.
  rewrite Forall_forall in Hecho. apply Hecho in Hp as [q [= _ Heq]].
  destruct (decide (transcript groupA = transcript groupB)) as [Ht|Ht];
    [|by right]. left. apply concat_same_lengths; [|exact Ht].
  apply Forall2_fmap. eapply Forall2_impl; [exact Hlen|]. cbn. naive_solver.
Qed.

(** A group that starts with its two least senders is sorted there. *)
Lemma sorted_pair a b rest :
  em_sender a < em_sender b -> Forall (fun m => em_sender b < em_sender m) rest ->
  sorted (a :: b :: rest) = a :: b :: sorted rest.
Proof.
  intros Hab Hrest. unfold sorted, sort_by_key. cbn [foldr].
  fold (sort_by_key Z.leb em_sender rest).
  assert (Forall (fun m => em_sender b < em_sender m) (sort_by_key Z.leb em_sender rest)) as Hs
    by (by rewrite sort_by_key_perm).
  rewrite (insert_by_key_least _ _ b); [|eapply Forall_impl; [exact Hs|]; cbn; lia].
  rewrite insert_by_key_least; [done|]. constructor; [cbn; lia|].
  eapply Forall_impl; [exact Hs|]. cbn. lia.
Qed.

(** the payloads are hashed one after the other with no length between
    them, so that different messages can have the same echo under every hash:
    two senders that move bytes from one message to the other are not
    detected. *)
Theorem echo_ambiguous :
  exists a b a' b' : EchoMessage,
    em_sender a = em_sender a' /\ em_sender b = em_sender b' /\ em_sender a <> em_sender b /\
    em_payload a <> em_payload a' /\ em_payload b <> em_payload b' /\
    forall rest, Forall (fun m => em_sender b < em_sender m) rest ->
      echo_hash (transcript (a :: b :: rest)) = echo_hash (transcript (a' :: b' :: rest)).
Proof.
  set (m s p := {| em_message_id := 0; em_sender := s; em_payload := p;
                   em_response := Incoming 0 |}).
  exists (m 1 [x61; x62]), (m 2 [x63]), (m 1 [x61]), (m 2 [x62; x63]).
  repeat (split; [done|]). intros rest Hrest. f_equal. unfold transcript.
  by rewrite !sorted_pair by (cbn in *; done || lia).
Qed.

(** the party an inconsistent echo is blamed on is the position of the
    answer in the order of arrival, not the party that sent it. *)
Theorem echo_blames_arrival h p hash before rest :
  Forall (echoes h) before -> Z.of_nat (length before) <= u16_max -> hash <> h ->
  compare_hashes h 0 (before ++ Ok (p, hash) :: rest) =
  Err (InconsistentEcho (Z.of_nat (length before))).
Proof.
  intros Hb Hlen Hne.
  assert (forall i, compare_hashes h i (before ++ Ok (p, hash) :: rest) =
    Err (InconsistentEcho (as_u16 (Z.of_nat (i + length before))))) as ->.
  { clear Hlen. induction Hb as [|x before [q ->] _ IH]; intros i; cbn.
    - rewrite bool_decide_eq_false_2 by done. by rewrite Nat.add_0_r.
    - rewrite bool_decide_eq_true_2, IH by done. by rewrite Nat.add_succ_comm. }
  rewrite as_u16_small; [done|]. lia.
Qed.

(** ** The computation under the echo *)

Definition echo_results (es : list wrap_event) : list (outcome Error (option unit)) :=
  omap (fun e => match e with EchoRes res => Some res | CompRes _ => None end) es.

Definition comp_results (es : list wrap_event) : list (outcome Error unit) :=
  omap (fun e => match e with CompRes res => Some res | EchoRes _ => None end) es.

(** All rounds end well, up to the end of the gadget. *)
Definition rounds_ok (rs : list (outcome Error (option unit))) : Prop :=
  exists k rest, rs = replicate k (Ok (Some tt)) ++ Ok None :: rest.

Lemma rounds_ok_cons x rs :
  rounds_ok (x :: rs) <-> x = Ok None \/ (x = Ok (Some tt) /\ rounds_ok rs).
Proof.
  split.
  - intros ([|k] & rest & [= -> Hrs]); [by left|]. right. split; [done|]. by exists k, rest.
  - intros [->|(-> & k & rest & ->)]; [by exists 0%nat, rs|by exists (S k), rest].
Qed.

Lemma await_computation_head es : await_computation es = head (comp_results es).
Proof. induction es as [|[] es IH]; cbn; auto. Qed.

Lemma await_echo_ok es : await_echo es = Some (Ok tt) <-> rounds_ok (echo_results es).
Proof.
  induction es as [|[[[[]|]| |]|res] es IH]; cbn; rewrite ?rounds_ok_cons; try naive_solver.
  split; [done|]. intros ([] & ? & ?); done.
Qed.

(** an execution succeeds exactly when its computation succeeded and
    every round of the echo ended well up to the end of the gadget, in
    whatever order the two finish. *)
Theorem wrap_execution_ok es :
  wrap_execution es = Some (Ok tt) <->
  rounds_ok (echo_results es) /\ head (comp_results es) = Some (Ok tt).
Proof.
  induction es as [|e es IH].
  { split; [done|]. intros [([] & ? & ?) _]; done. }
  destruct e as [[[[]|]| |]|[[]| |]];
    cbn [wrap_execution echo_results comp_results omap list_omap head];
    fold (echo_results es) (comp_results es);
    rewrite ?rounds_ok_cons, ?await_computation_head, ?await_echo_ok; naive_solver.
Qed.
End echo.
End EchoGadget.
