(* ===== verification/Storage.v ===== *)
(** * The cache of peer sets

    [crates/client/service/src/storage.rs]: an in-memory cache and one that
    keeps a file per room.  The file system is a map from paths to contents;
    whether it lets a directory or a file be written is an observation. *)

From Stdlib Require Import ZArith Lia Strings.Byte.
From stdpp Require Import base gmap sorting strings numbers list.
From S2P Require Import Prelude Wire Messages Peerset.

Local Open Scope Z_scope.

(** ** The interface: [PeersetStorage] *)

Section storage.
Context `{PeerIds}.

(** A storage of peer sets over a state [S]: reads, and writes that may fail or
    panic.  [obs] is what a write observes of the outside world. *)
Class PeersetStorage (S obs : Type) : Type := {
  read_peerset : S -> RoomId -> outcome string Peerset.t;
  write_peerset : S -> RoomId -> Peerset.t -> obs -> outcome string S;
}.
End storage.

(** ** [Ephemeral] *)

Module Ephemeral.
Section ephemeral.
Context `{PeerIds}.

Record t : Type := { storage : gmap RoomId Peerset.t }.

(** [entry(..).and_modify(..).or_insert(..)] is an insertion. *)
Definition read (s : t) (room_id : RoomId) : outcome string Peerset.t :=
  match storage s !! room_id with
  | Some p => Ok p
  | None => Err "no cache exists for room"
  end.

Definition write (s : t) (room_id : RoomId) (ps : Peerset.t) : outcome string t :=
  Ok {| storage := <[room_id := ps]> (storage s) |}.

#[export] Instance ephemeral_storage : PeersetStorage t unit := {|
  read_peerset := read;
  write_peerset s room ps _ := write s room ps;
|}.
End ephemeral.
End Ephemeral.

(** ** [LocalStorage] *)

Module LocalStorage.
Section local.
Context `{PeerIds} `{UnsignedVarint}.

(** [LocalStorage] and the files under its directory. *)
Record t : Type := {
  local_peer_id : PeerId;
  path : string;
  files : gmap string bytes;
}.

(** [LocalStorage::new], on a given file system. *)
Definition new (p : string) (local : PeerId) (fs : gmap string bytes) : t :=
  {| local_peer_id := local; path := p; files := fs |}.

(** [self.path.join(room_id.as_str())]; a room id is a hex digest. *)
Definition file (s : t) (room_id : RoomId) : string := (path s ++ "/" ++ room_id)%string.

Definition read (s : t) (room_id : RoomId) : outcome string Peerset.t :=
  buf ← ok_or "error reading peerset cache file" (files s !! file s room_id);
  map_err (fun _ => "error recover peerset") (Peerset.from_bytes buf (local_peer_id s)).

(** What the file system answers: can the directory be made, can the file be
    written. *)
Record fs_obs : Type := { mkdir_ok : bool; write_ok : bool }.

Definition write (s : t) (room_id : RoomId) (ps : Peerset.t) (o : fs_obs) : outcome string t :=
  match Peerset.to_bytes ps with
  | Ok b =>
      if mkdir_ok o then
        if write_ok o then
          Ok {| local_peer_id := local_peer_id s; path := path s;
                files := <[file s room_id := b]> (files s) |}
        else Err "error writing to file"
      else Panic "called `Result::unwrap()` on an `Err` value"
  | _ => Panic "called `Result::unwrap()` on an `Err` value"
  end.

#[export] Instance local_storage : PeersetStorage t fs_obs := {|
  read_peerset := read;
  write_peerset := write;
|}.
End local.
End LocalStorage.

(** ** What a client of the cache relies on *)

(** A write is read back in its room with the reader's own peer id, and leaves
    the other rooms alone. *)
Definition cached_as `{PeerIds} (local : PeerId) (ps : Peerset.t) : Peerset.t :=
  {| Peerset.local_peer_id := local; Peerset.peers := Peerset.peers ps;
     Peerset.parties := Peerset.parties ps |}.

Class PeersetStorageLaws `{PeerIds} {S obs} (st : PeersetStorage S obs)
  (local : S -> PeerId -> PeerId) (fits : Peerset.t -> Prop) : Prop := {
  read_written s room ps o s' :
    fits ps -> write_peerset s room ps o = Ok s' ->
    read_peerset s' room = Ok (cached_as (local s (Peerset.local_peer_id ps)) ps);
  read_other s room room' ps o s' :
    room <> room' -> write_peerset s room ps o = Ok s' ->
    read_peerset s' room' = read_peerset s room';
}.

#[export] Instance ephemeral_laws `{PeerIds} :
  PeersetStorageLaws Ephemeral.ephemeral_storage (fun _ p => p) (fun _ => True).
Proof.
  split; cbn; unfold Ephemeral.write, Ephemeral.read.
  - intros s room ps _ s' _ [= <-]. cbn. rewrite lookup_insert_eq. by destruct ps.
  - intros s room room' ps _ s' Hne [= <-]. cbn. by rewrite lookup_insert_ne.
Qed.

Lemma string_app_inj (a b c : string) : (a ++ b)%string = (a ++ c)%string -> b = c.
Proof. induction a as [|x a IH]; cbn; [done|]. intros [= Heq]. auto. Qed.

#[export] Instance local_laws `{PeerIdLaws} `{UnsignedVarintLaws} :
  PeersetStorageLaws LocalStorage.local_storage
    (fun s _ => LocalStorage.local_peer_id s) Peerset.encodable.
Proof.
  split; cbn [write_peerset read_peerset LocalStorage.local_storage];
    unfold LocalStorage.write, LocalStorage.read.
  - intros s room ps o s' Hps. rewrite Peerset.to_bytes_fits by apply Hps.
    repeat case_match; try done. intros [= <-].
    cbn [LocalStorage.files LocalStorage.local_peer_id].
    change (LocalStorage.file _ room) with (LocalStorage.file s room) at 1.
    rewrite lookup_insert_eq. cbn [ok_or mbind outcome_bind].
    rewrite <- (app_nil_r (Peerset.encoding ps)). by rewrite Peerset.from_bytes_encoding.
  - intros s room room' ps o s' Hne. repeat case_match; try done. intros [= <-].
    cbn [LocalStorage.files LocalStorage.local_peer_id].
    change (LocalStorage.file _ room') with (LocalStorage.file s room') at 1.
    rewrite lookup_insert_ne; [done|]. unfold LocalStorage.file.
    intros Heq%string_app_inj. cbn in Heq. by injection Heq.
Qed.

(** ** Recovering the parties from the cache *)

Section recover.
Context `{PeerIdLaws} {S obs} (st : PeersetStorage S obs)
  (local : S -> PeerId -> PeerId) (fits : Peerset.t -> Prop)
  `{!PeersetStorageLaws st local fits}.

(** The loop of the recovery, on a suffix of the set. *)
Lemma recover_parties_drop {E} cache k :
  NoDup (Peerset.peers cache) -> Z.of_nat (Peerset.size cache) <= 65536 ->
  length (Peerset.parties cache) = Peerset.size cache -> (k <= Peerset.size cache)%nat ->
  Peerset.recover_parties (E:=E) cache (drop k (Peerset.peers cache)) =
  Ok (drop k (Peerset.parties cache)).
Proof.
  intros Hnd Hlen Hpar Hk. remember (Peerset.size cache - k)%nat as d eqn:Hd.
  revert k Hk Hd. induction d as [|d IH]; intros k Hk Hd.
  { rewrite !drop_ge by (unfold Peerset.size in *; lia). done. }
  destruct (lookup_lt_is_Some_2 (Peerset.peers cache) k) as [p Hp]; [unfold Peerset.size in *; lia|].
  destruct (lookup_lt_is_Some_2 (Peerset.parties cache) k) as [i Hi]; [lia|].
  rewrite (drop_S _ _ _ Hp), (drop_S _ _ _ Hi). cbn [Peerset.recover_parties].
  rewrite (Peerset.lookup_index_of _ _ k) by done. rewrite Nat2Z.id, Hi.
  cbn [expect mbind outcome_bind]. rewrite IH by lia. done.
Qed.

(** Against the interface: whoever assembles the peers of a set that was written
    recovers the party numbers it was saved with. *)
Lemma recover_written s room ps o s' q :
  fits ps -> write_peerset s room ps o = Ok s' ->
  StronglySorted (key_le bytes_leb peer_to_bytes) (Peerset.peers ps) ->
  NoDup (Peerset.peers ps) -> Z.of_nat (Peerset.size ps) <= 65536 ->
  length (Peerset.parties ps) = Peerset.size ps -> Peerset.peers q ≡ₚ Peerset.peers ps ->
  Peerset.recover_from_cache q (Some (read_peerset s' room)) =
  Ok {| Peerset.local_peer_id := Peerset.local_peer_id q; Peerset.peers := Peerset.peers q;
        Peerset.parties := Peerset.parties ps |}.
Proof.
  intros Hfits Hw Hsort Hnd Hlen Hpar Hq. unfold Peerset.recover_from_cache.
  cbn [expect mbind outcome_bind]. rewrite (read_written s room ps o s') by done.
  cbn [mbind outcome_bind].
  rewrite (sort_by_key_canonical _ _ _ (Peerset.peers ps)), sort_by_key_id
    by (try done; intros ? ? _ _; apply peer_to_bytes_inj).
  pose proof (recover_parties_drop (E:=string)
    (cached_as (local s (Peerset.local_peer_id ps)) ps) 0 Hnd Hlen Hpar ltac:(lia)) as Hrec.
  rewrite !drop_0 in Hrec. cbn [cached_as Peerset.peers Peerset.parties] in Hrec.
  by rewrite Hrec.
Qed.
End recover.

