(* ===== verification/Execution.v ===== *)
(** * The execution of a protocol

    [ProtocolExecution] of [crates/client/service/src/execution.rs]: it carries
    the messages of an agent to the network and those of the network to the
    agent, delivers the broadcasts of all parties in the order of their numbers,
    feeds the echo gadget, and reports the agent's result after a quiet period.

    The bounded channels to the agent and to the echo gadget are observed at the
    beginning of a poll: how many messages they still take and whether their
    receiver is gone.  [try_send] on a full or closed channel is an error, which
    the code turns into a panic. *)

From Stdlib Require Import ZArith Lia Strings.Byte.
From stdpp Require Import base gmap strings numbers list.
From S2P Require Import Prelude Wire Messages Peerset Room Echo Storage.

Local Open Scope Z_scope.

Definition COMPLETION_QUIET_PERIOD : Z := 500.

(** ** Bounded channels *)

Record chan : Type := { slots : nat; is_closed : bool }.

(** [try_send(..).expect(why)]. *)
Definition try_send (why : string) (c : chan) : outcome Error chan :=
  if is_closed c then Panic why
  else
    match slots c with
    | O => Panic why
    | S k => Ok {| slots := k; is_closed := false |}
    end.

Definition open_with (k : nat) : chan := {| slots := k; is_closed := false |}.

Lemma try_send_open why k : try_send why (open_with (S k)) = Ok (open_with k).
Proof. done. Qed.

Definition app_closed : string := "application channel is expected to be open".
Definition echo_closed : string := "echo channel is expected to be open".

(** [crate::IncomingRequest], what an agent receives. *)
Record AgentMessage : Type := {
  am_from : Z;
  am_payload : bytes;
  am_to : option Z;
}.

(** [crate::OutgoingResponse], what an agent sends; the feedback channel is a
    name. *)
Record AgentResponse : Type := {
  ar_body : bytes;
  ar_to : option Z;
  ar_sent_feedback : option nat;
}.

Module ProtocolExecution.
Section execution.
Context `{PeerIds} `{UnsignedVarint} `{ComputeAgents}.

(** Where the messages of a poll go: the two channels and what has been sent
    on them. *)
Record io : Type := {
  app_ch : chan;
  echo_ch : chan;
  to_app : list AgentMessage;
  to_echo : list EchoMessage;
}.

Definition send_app (m : AgentMessage) (w : io) : outcome Error io :=
  c ← try_send app_closed (app_ch w);
  Ok {| app_ch := c; echo_ch := echo_ch w; to_app := to_app w ++ [m];
        to_echo := to_echo w |}.

Definition send_echo (m : EchoMessage) (w : io) : outcome Error io :=
  c ← try_send echo_closed (echo_ch w);
  Ok {| app_ch := app_ch w; echo_ch := c; to_app := to_app w;
        to_echo := to_echo w ++ [m] |}.

(** ** Delivery of broadcasts *)

Abbreviation pending := (gmap (Z * Z) IncomingRequest).

(** The senders whose message [mid] has come, in the order of the map's keys. *)
Definition ready_senders (p : pending) (mid : Z) : list Z :=
  sort_by_key Z.leb id (omap (fun k => if k.2 =? mid then Some k.1 else None)
                             (elements (dom p))).

(** One message handed to the echo gadget and to the agent. *)
Definition deliver (mid : Z) (sender : Z) (pw : pending * io) : outcome Error (pending * io) :=
  let '(p, w) := pw in
  m ← expect "ready key must exist" (p !! (sender, mid));
  w ← send_echo {| em_message_id := mid; em_sender := sender; em_payload := payload m;
                   em_response := Incoming (pending_response m) |} w;
  w ← send_app {| am_from := sender; am_payload := payload m; am_to := None |} w;
  Ok (delete (sender, mid) p, w).

Fixpoint deliver_all (mid : Z) (senders : list Z) (pw : pending * io) :
  outcome Error (pending * io) :=
  match senders with
  | [] => Ok pw
  | s :: senders => pw ← deliver mid s pw; deliver_all mid senders pw
  end.

(** [u64] addition in the debug profile. *)
Definition u64_add {E} (a b : Z) : outcome E Z :=
  if a + b <=? u64_max then Ok (a + b) else Panic "attempt to add with overflow".

(** [forward_buffered_messages].  Every turn of the loop but the last removes
    [n - 1] messages; for [n = 1] it removes none and does not end, which the
    fuel shows as [None]. *)
Fixpoint forward_buffered_messages (fuel : nat) (p : pending) (next : Z) (n : Z) (w : io) :
  option (outcome Error (pending * Z * io)) :=
  match fuel with
  | O => None
  | S fuel =>
      match u16_sub (E:=Error) n 1 with
      | Ok k =>
          let senders := ready_senders p next in
          if negb (Z.of_nat (length senders) =? k) then Some (Ok (p, next, w))
          else
            match (pw ← deliver_all next senders (p, w);
                   next ← u64_add next 1;
                   Ok (pw, next)) with
            | Ok ((p, w), next) => forward_buffered_messages fuel p next n w
            | Err e => Some (Err e)
            | Panic why => Some (Panic why)
            end
      | Err e => Some (Err e)
      | Panic why => Some (Panic why)
      end
  end.

(** [forward_direct_message]: the acknowledgement, then the delivery. *)
Definition forward_direct_message (m : IncomingRequest) (local_index : Z) (w : io) :
  outcome Error (io * list effect) :=
  sender ← u16_add (peer_index m) 1;
  to ← u16_add local_index 1;
  w ← send_app {| am_from := sender; am_payload := payload m; am_to := Some to |} w;
  Ok (w, [Respond (pending_response m) (accept [])]).

(** ** The state *)

(** [ProtocolExecState].  [agent_running] says that [agent_future] is there, the computation
    of the agent for [peerset] and [request];
    [completion_delay] is the deadline of the sleep.  The pending futures are
    driven to completion within the poll that makes them, so none is stored. *)
Record t : Type := {
  room_id : RoomId;
  session : SessionId;
  protocol : Z;
  peerset : Peerset.t;
  storage : LocalStorage.t;
  request : bytes;
  agent_running : bool;
  agent_result : option (outcome string bytes);
  completion_delay : option Z;
  reply_to : option nat;
  next_outgoing_broadcast_id : Z;
  next_incoming_broadcast_id : Z;
  pending_incoming : pending;
  i : Z;
  n : Z;
}.

(** [ProtocolExecution::new].  The two channels of the agent are bounded by
    [n - 1]; a bound of zero is refused by the channel library with a panic. *)
Definition new (room : RoomId) (sid : SessionId) (request : bytes) (a : Agent) (ps : Peerset.t)
  (st : LocalStorage.t) (reply : option nat) : outcome Error t :=
  let n := as_u16 (Z.of_nat (Peerset.size ps)) in
  i ← expect "called `Option::unwrap()` on a `None` value"
        (Peerset.index_of ps (Peerset.local_peer_id ps));
  cap ← u16_sub n 1;
  if cap =? 0 then Panic "capacity cannot be zero"
  else
    Ok {| room_id := room; session := sid; protocol := agent_protocol_id a; peerset := ps;
          storage := st; request := request; agent_running := true; agent_result := None;
          completion_delay := None; reply_to := reply; next_outgoing_broadcast_id := 0;
          next_incoming_broadcast_id := 0; pending_incoming := ∅; i := i; n := n |}.

(** ** One poll *)

(** [PeersetMsg]. *)
Inductive PeersetMsg : Type :=
  | ReadFromCache (tx : nat)
  | WriteToCache (ps : Peerset.t) (tx : nat).

(** What a poll observes: the clock, the peer set's requests to the cache, the
    agent's next message, the network's next message, the agent itself, the two
    channels, the file system, and the name of a fresh channel. *)
Record obs : Type := {
  now : Z;
  cache_msg : option PeersetMsg;
  from_protocol : option AgentResponse;
  from_network : option IncomingRequest;
  agent_poll : option (outcome string bytes);
  app : chan;
  echo : chan;
  fs : LocalStorage.fs_obs;
  fresh : nat;
}.

(** What a poll does. *)
Record out : Type := {
  effects : list effect;
  feedback : list nat;
  cache_reads : list (nat * outcome string Peerset.t);
  cache_writes : list (nat * outcome string unit);
  sent : io;
}.

Inductive poll_result : Type :=
  | Ready (res : outcome Error unit) (o : out)
  | Pending (e : t) (o : out)
  | Panicked (why : string)
  | Diverged.

Definition with_storage (st : LocalStorage.t) (e : t) : t :=
  {| room_id := room_id e; session := session e; protocol := protocol e;
     peerset := peerset e; storage := st; request := request e; agent_running := agent_running e;
     agent_result := agent_result e; completion_delay := completion_delay e;
     reply_to := reply_to e; next_outgoing_broadcast_id := next_outgoing_broadcast_id e;
     next_incoming_broadcast_id := next_incoming_broadcast_id e;
     pending_incoming := pending_incoming e; i := i e; n := n e |}.

Definition with_agent (running : bool) (res : option (outcome string bytes))
  (delay : option Z) (e : t) : t :=
  {| room_id := room_id e; session := session e; protocol := protocol e;
     peerset := peerset e; storage := storage e; request := request e; agent_running := running;
     agent_result := res; completion_delay := delay;
     reply_to := reply_to e; next_outgoing_broadcast_id := next_outgoing_broadcast_id e;
     next_incoming_broadcast_id := next_incoming_broadcast_id e;
     pending_incoming := pending_incoming e; i := i e; n := n e |}.

Definition with_broadcasts (next_out next_in : Z) (p : pending) (e : t) : t :=
  {| room_id := room_id e; session := session e; protocol := protocol e;
     peerset := peerset e; storage := storage e; request := request e; agent_running := agent_running e;
     agent_result := agent_result e; completion_delay := completion_delay e;
     reply_to := reply_to e; next_outgoing_broadcast_id := next_out;
     next_incoming_broadcast_id := next_in;
     pending_incoming := p; i := i e; n := n e |}.

Definition add_effects (es : list effect) (o : out) : out :=
  {| effects := effects o ++ es; feedback := feedback o; cache_reads := cache_reads o;
     cache_writes := cache_writes o; sent := sent o |}.

Definition with_sent (w : io) (o : out) : out :=
  {| effects := effects o; feedback := feedback o; cache_reads := cache_reads o;
     cache_writes := cache_writes o; sent := w |}.

(** The requests of the peer set to the cache. *)
Definition serve_cache (e : t) (ob : obs) (o : out) : outcome Error (t * out) :=
  match cache_msg ob with
  | None => Ok (e, o)
  | Some (ReadFromCache tx) =>
      Ok (e, {| effects := effects o; feedback := feedback o;
                cache_reads := cache_reads o ++ [(tx, LocalStorage.read (storage e) (room_id e))];
                cache_writes := cache_writes o; sent := sent o |})
  | Some (WriteToCache ps tx) =>
      match LocalStorage.write (storage e) (room_id e) ps (fs ob) with
      | Ok st =>
          Ok (with_storage st e,
              {| effects := effects o; feedback := feedback o; cache_reads := cache_reads o;
                 cache_writes := cache_writes o ++ [(tx, Ok tt)]; sent := sent o |})
      | Err why =>
          Ok (e, {| effects := effects o; feedback := feedback o; cache_reads := cache_reads o;
                    cache_writes := cache_writes o ++ [(tx, Err why)]; sent := sent o |})
      | Panic why => Panic why
      end
  end.

Definition computation_context (e : t) (mid : Z) : MessageContext :=
  {| message_type := Computation; protocol_id := protocol e; session_id := session e;
     message_id := mid |}.

(** The agent's next message: to one party, or to all of them and to the echo
    gadget. *)
Definition send_outgoing (e : t) (ob : obs) (o : out) : outcome Error (t * out) :=
  match from_protocol ob with
  | None => Ok (e, o)
  | Some m =>
      match ar_to m with
      | Some remote_index =>
          k ← u16_sub remote_index 1;
          p ← Peerset.index (peerset e) k;
          Ok (e,
              {| effects := effects o ++
                   [NetworkRequest (room_id e) (computation_context e 0)
                      (SendDirect p (ar_body m))];
                 feedback := feedback o ++ (if ar_sent_feedback m is Some tx then [tx] else []);
                 cache_reads := cache_reads o; cache_writes := cache_writes o;
                 sent := sent o |})
      | None =>
          let mid := next_outgoing_broadcast_id e in
          next ← u64_add mid 1;
          _ ← u16_sub (n e) 1;
          sender ← u16_add (i e) 1;
          w ← send_echo {| em_message_id := mid; em_sender := sender;
                           em_payload := ar_body m; em_response := Outgoing (fresh ob) |}
                        (sent o);
          Ok (with_broadcasts next (next_incoming_broadcast_id e) (pending_incoming e) e,
              add_effects [NetworkRequest (room_id e) (computation_context e mid)
                             (Multicast (Peerset.remotes_iter (peerset e)) (ar_body m))]
                          (with_sent w o))
      end
  end.

(** A message of the network that belongs to the session: a broadcast waits for
    its turn (a second one with the same number replaces the first, whose
    response channel is dropped), a direct message goes to the agent. *)
Definition accept_incoming (e : t) (m : IncomingRequest) (o : out) (now : Z) :
  outcome Error (t * out) :=
  '(e, o) ← (if is_broadcast m then
               sender ← u16_add (peer_index m) 1;
               let key := (sender, message_id (context m)) in
               Ok (with_broadcasts (next_outgoing_broadcast_id e)
                     (next_incoming_broadcast_id e) (<[key := m]> (pending_incoming e)) e,
                   add_effects (if pending_incoming e !! key is Some old
                                then [Discard (pending_response old)] else []) o)
             else
               '(w, es) ← forward_direct_message m (i e) (sent o);
               Ok (e, add_effects es (with_sent w o)));
  Ok (if agent_result e is Some _
      then with_agent (agent_running e) (agent_result e) (Some (now + COMPLETION_QUIET_PERIOD)) e
      else e, o).

Definition belongs (e : t) (m : IncomingRequest) : bool :=
  bool_decide (session_id (context m) = session e) &&
  bool_decide (message_type (context m) = Computation).

(** The end of a poll: report the agent's result when the quiet period is over,
    or poll the agent. *)
Definition complete (e : t) (ob : obs) (o : out) : poll_result :=
  match completion_delay e with
  | Some deadline =>
      if deadline <=? now ob then
        match agent_result e with
        | None => Panicked "completion delay is only set after agent completion"
        | Some res =>
            let reply := if reply_to e is Some tx then [ReplyLocal tx res] else [] in
            match res with
            | Ok _ => Ready (Ok tt) (add_effects reply o)
            | Err why => Ready (Err (InternalError why)) (add_effects reply o)
            | Panic why => Panicked why
            end
        end
      else Pending e o
  | None =>
      if agent_running e then
        match agent_poll ob with
        | Some (Panic why) => Panicked why
        | Some res =>
            Pending (with_agent false (Some res) (Some (now ob + COMPLETION_QUIET_PERIOD)) e) o
        | None => Pending e o
        end
      else Pending e o
  end.

(** The part of the poll after the network's message has been taken. *)
Definition forward_and_complete (e : t) (ob : obs) (o : out) : poll_result :=
  match forward_buffered_messages (S (base.size (pending_incoming e))) (pending_incoming e)
          (next_incoming_broadcast_id e) (n e) (sent o) with
  | None => Diverged
  | Some (Ok (p, next, w)) =>
      complete (with_broadcasts (next_outgoing_broadcast_id e) next p e) ob (with_sent w o)
  | Some (Err _) => Panicked app_closed
  | Some (Panic why) => Panicked why
  end.

Definition no_out (ob : obs) : out :=
  {| effects := []; feedback := []; cache_reads := []; cache_writes := [];
     sent := {| app_ch := app ob; echo_ch := echo ob; to_app := []; to_echo := [] |} |}.

(** [ProtocolExecution::poll]. *)
Definition poll (e : t) (ob : obs) : poll_result :=
  match ('(e, o) ← serve_cache e ob (no_out ob); send_outgoing e ob o) with
  | Err _ => Panicked app_closed
  | Panic why => Panicked why
  | Ok (e, o) =>
      match from_network ob with
      | None => forward_and_complete e ob o
      | Some m =>
          if belongs e m then
            match accept_incoming e m o (now ob) with
            | Err _ => Panicked app_closed
            | Panic why => Panicked why
            | Ok (e, o) => forward_and_complete e ob o
            end
          else Pending e (add_effects [Respond (pending_response m) reject] o)
      end
  end.

(** ** Delivery in order *)

Lemma elem_of_ready_senders p mid s :
  s ∈ ready_senders p mid <-> is_Some (p !! (s, mid)).
Proof.
  unfold ready_senders. rewrite sort_by_key_perm, list_elem_of_omap, <- elem_of_dom.
  split.
  - intros ([s' k] & Hin & Heq). cbn in Heq. rewrite elem_of_elements in Hin.
    destruct (Z.eqb_spec k mid); naive_solver.
  - intros Hin. exists (s, mid). cbn. rewrite Z.eqb_refl, elem_of_elements. done.
Qed.

Lemma NoDup_ready_senders p mid : NoDup (ready_senders p mid).
Proof.
  unfold ready_senders. rewrite sort_by_key_perm. apply NoDup_omap_inj; [|apply NoDup_elements].
  intros [s1 k1] [s2 k2] s. cbn.
  destruct (Z.eqb_spec k1 mid), (Z.eqb_spec k2 mid); naive_solver.
Qed.

Lemma ready_senders_ext p p' mid :
  (forall s, p !! (s, mid) = p' !! (s, mid)) -> ready_senders p mid = ready_senders p' mid.
Proof.
  intros Heq.
  assert (ready_senders p mid ≡ₚ ready_senders p' mid) as Hp.
  { apply NoDup_Permutation; try apply NoDup_ready_senders.
    intros s. by rewrite !elem_of_ready_senders, Heq. }
  unfold ready_senders in *. rewrite !sort_by_key_perm in Hp.
  apply (sort_by_key_canonical _ _); [done|]. by intros.
Qed.

(** What the agent and the echo gadget get of message [mid] of a sender. *)
Definition agent_copy (p : pending) (mid s : Z) : option AgentMessage :=
  (fun m => {| am_from := s; am_payload := payload m; am_to := None |}) <$> p !! (s, mid).

Definition echo_copy (p : pending) (mid s : Z) : option EchoMessage :=
  (fun m => {| em_message_id := mid; em_sender := s; em_payload := payload m;
               em_response := Incoming (pending_response m) |}) <$> p !! (s, mid).

Lemma deliver_ok mid s p w p' w' :
  deliver mid s (p, w) = Ok (p', w') ->
  exists m, p !! (s, mid) = Some m /\ p' = delete (s, mid) p /\
    to_app w' = to_app w ++ [{| am_from := s; am_payload := payload m; am_to := None |}] /\
    to_echo w' = to_echo w ++ [{| em_message_id := mid; em_sender := s; em_payload := payload m;
                                  em_response := Incoming (pending_response m) |}].
Proof.
  unfold deliver, send_app, send_echo. intros Hd. inv_ok. by exists a.
Qed.

Lemma deliver_all_ok mid senders p w p' w' :
  NoDup senders -> deliver_all mid senders (p, w) = Ok (p', w') ->
  (forall k, p' !! k = if decide (k.2 = mid /\ k.1 ∈ senders) then None else p !! k) /\
  to_app w' = to_app w ++ omap (agent_copy p mid) senders /\
  to_echo w' = to_echo w ++ omap (echo_copy p mid) senders /\
  (base.size p' + length senders = base.size p)%nat.
Proof.
  revert p w. induction senders as [|s senders IH]; intros p w Hnd; cbn [deliver_all].
  { intros [= <- <-]. cbn. rewrite !app_nil_r. split; [|split; [done|split; [done|lia]]].
    intros k. rewrite decide_False by set_solver. done. }
  apply NoDup_cons in Hnd as [Hs Hnd]. intros Hd. apply bind_ok in Hd as ([p1 w1] & Hd & Hrest).
  apply deliver_ok in Hd as (m & Hm & -> & Happ & Hecho).
  apply IH in Hrest as (Hp & Happ' & Hecho' & Hsize); [|done].
  assert (forall s', s' ∈ senders -> delete (s, mid) p !! (s', mid) = p !! (s', mid)) as Hother.
  { intros s' Hs'. apply lookup_delete_ne. naive_solver. }
  assert (forall {B} (f : pending -> Z -> option B) ,
    (forall q q' s', q !! (s', mid) = q' !! (s', mid) -> f q s' = f q' s') ->
    omap (f (delete (s, mid) p)) senders = omap (f p) senders) as Homap.
  { intros B f Hf. clear - Hother Hf. induction senders as [|x l IHl]; [done|]. cbn.
    rewrite (Hf _ p x) by (apply Hother; constructor). rewrite IHl; [done|].
    intros. apply Hother. by constructor. }
  split; [|split; [|split]].
  - intros k. rewrite Hp. destruct k as [s' k]. cbn [fst snd].
    destruct (decide (k = mid /\ s' = s)) as [[-> ->]|Hne].
    + rewrite lookup_delete_eq. symmetry. case_decide as Hk; [by destruct (decide _)|].
      destruct Hk. split; [done|by constructor].
    + rewrite lookup_delete_ne by naive_solver. apply decide_ext.
      rewrite elem_of_cons. naive_solver.
  - rewrite Happ', Happ, <- app_assoc. cbn. unfold agent_copy at 2. rewrite Hm. cbn.
    do 2 f_equal. apply (Homap _ (fun q => agent_copy q mid)).
    unfold agent_copy. by intros * ->.
  - rewrite Hecho', Hecho, <- app_assoc. cbn. unfold echo_copy at 2. rewrite Hm. cbn.
    do 2 f_equal. apply (Homap _ (fun q => echo_copy q mid)).
    unfold echo_copy. by intros * ->.
  - cbn. rewrite map_size_delete_Some in Hsize by done.
    assert (base.size p <> 0%nat) by (intros Hz%map_size_empty_inv; subst; set_solver). lia.
Qed.

(** The broadcasts [next, next + k) of the pending map, as the agent should get
    them: by number, and by sender within a number. *)
Definition in_order (p : pending) (next : Z) (k : Z) : list AgentMessage :=
  concat ((fun mid => omap (agent_copy p mid) (ready_senders p mid)) <$> seqZ next k).

Lemma in_order_ext p p' next k :
  (forall s mid, next <= mid -> p !! (s, mid) = p' !! (s, mid)) ->
  in_order p next k = in_order p' next k.
Proof.
  intros Heq. unfold in_order. f_equal. apply list_fmap_ext. intros j mid Hj.
  apply lookup_seqZ in Hj as [-> _].
  rewrite (ready_senders_ext p p') by (intros; apply Heq; lia).
  assert (forall l, omap (agent_copy p (next + Z.of_nat j)) l = omap (agent_copy p' (next + Z.of_nat j)) l) as ->;
    [|done].
  intros l. induction l as [|x l IH]; [done|]. cbn. rewrite IH.
  unfold agent_copy. by rewrite Heq by lia.
Qed.

(** What a call of [forward_buffered_messages] has done. *)
Record forwarded (p : pending) (next n : Z) (w : io) (p' : pending) (next' : Z) (w' : io) :
  Prop := {
  fwd_next : next <= next';
  fwd_app : to_app w' = to_app w ++ in_order p next (next' - next);
  fwd_pending : forall s mid,
    p' !! (s, mid) = if decide (next <= mid < next') then None else p !! (s, mid);
  fwd_complete : forall mid, next <= mid < next' ->
    Z.of_nat (length (ready_senders p mid)) = n - 1;
  fwd_maximal : Z.of_nat (length (ready_senders p' next')) <> n - 1;
}.

Lemma forward_step p next n w p1 w1 p' next' w' :
  deliver_all next (ready_senders p next) (p, w) = Ok (p1, w1) ->
  Z.of_nat (length (ready_senders p next)) = n - 1 ->
  forwarded p1 (next + 1) n w1 p' next' w' -> forwarded p next n w p' next' w'.
Proof.
  intros Hd Hlen Hf.
  apply deliver_all_ok in Hd as (Hp1 & Happ & _ & _); [|apply NoDup_ready_senders].
  assert (forall s mid, p1 !! (s, mid) = if decide (mid = next) then None else p !! (s, mid)) as Hp.
  { intros s mid. rewrite Hp1. cbn. case_decide as Hd; case_decide; try naive_solver.
    destruct (p !! (s, mid)) eqn:Hl; [|done]. destruct Hd. subst. split; [done|].
    apply elem_of_ready_senders. by eexists. }
  assert (forall s mid, next + 1 <= mid -> p1 !! (s, mid) = p !! (s, mid)) as Hlater.
  { intros s mid Hm. rewrite Hp, decide_False by lia. done. }
  destruct Hf as [Hn Ha Hpend Hc Hm]. split.
  - lia.
  - rewrite Ha, Happ, <- app_assoc. f_equal.
    unfold in_order at 2. rewrite (seqZ_cons next) by lia. cbn [fmap list_fmap concat].
    f_equal. rewrite (in_order_ext _ p) by done. unfold in_order.
    replace (Z.succ next) with (next + 1) by lia.
    by replace (Z.pred (next' - next)) with (next' - (next + 1)) by lia.
  - intros s mid. rewrite Hpend, Hp. repeat case_decide; done || lia.
  - intros mid Hmid. destruct (decide (mid = next)) as [->|]; [done|].
    rewrite <- (ready_senders_ext p1) by (intros; apply Hlater; lia). apply Hc. lia.
  - done.
Qed.

Lemma forward_ok fuel p next n w :
  (base.size p < fuel)%nat -> 2 <= n ->
  exists res, forward_buffered_messages fuel p next n w = Some res /\
    forall p' next' w', res = Ok (p', next', w') -> forwarded p next n w p' next' w'.
Proof.
  revert p next w. induction fuel as [|fuel IH]; intros p next w Hfuel Hn; [lia|].
  cbn [forward_buffered_messages]. rewrite u16_sub_ok by lia.
  case_match eqn:Hk.
  { eexists. split; [done|]. intros p' next' w' [= <- <- <-].
    apply negb_true_iff, Z.eqb_neq in Hk. split; try (lia || done).
    - unfold in_order. rewrite Z.sub_diag. cbn. by rewrite app_nil_r.
    - intros s mid. rewrite decide_False by lia. done. }
  apply negb_false_iff, Z.eqb_eq in Hk.
  destruct (deliver_all next (ready_senders p next) (p, w)) as [[p1 w1]| |] eqn:Hd;
    cbn [mbind outcome_bind]; [|by eexists..].
  pose proof Hd as Hsize. apply deliver_all_ok in Hsize as (_ & _ & _ & Hsize);
    [|apply NoDup_ready_senders].
  unfold u64_add. destruct (next + 1 <=? u64_max); cbn [mbind outcome_bind]; [|by eexists].
  destruct (IH p1 (next + 1) w1) as (res & Hres & Hspec); [lia|done|].
  exists res. split; [done|]. intros p' next' w' ->.
  eapply forward_step; eauto.
Qed.

Lemma deliver_all_room mid senders p w a e :
  NoDup senders -> (forall s, s ∈ senders -> is_Some (p !! (s, mid))) ->
  app_ch w = open_with a -> echo_ch w = open_with e ->
  (length senders <= a)%nat -> (length senders <= e)%nat ->
  exists p' w', deliver_all mid senders (p, w) = Ok (p', w') /\
    app_ch w' = open_with (a - length senders) /\
    echo_ch w' = open_with (e - length senders).
Proof.
  revert p w a e. induction senders as [|s senders IH]; intros p w a e Hnd Hin Ha He La Le.
  { cbn. rewrite !Nat.sub_0_r. eauto. }
  apply NoDup_cons in Hnd as [Hs Hnd]. cbn in La, Le.
  destruct a as [|a], e as [|e]; try lia. destruct (Hin s) as [m Hm]; [constructor|].
  cbn [deliver_all deliver]. rewrite Hm. unfold send_echo, send_app.
  rewrite Ha, He. cbn [expect mbind outcome_bind try_send open_with slots is_closed app_ch echo_ch].
  apply (IH (delete (s, mid) p) _ a e); [done| |done..|lia|lia].
  intros s' Hs'. rewrite lookup_delete_ne by naive_solver. apply Hin. by constructor.
Qed.

Lemma forward_room fuel p next n w a e :
  (base.size p < fuel)%nat -> 2 <= n -> next + Z.of_nat (base.size p) <= u64_max ->
  app_ch w = open_with a -> echo_ch w = open_with e ->
  (base.size p <= a)%nat -> (base.size p <= e)%nat ->
  exists x, forward_buffered_messages fuel p next n w = Some (Ok x).
Proof.
  revert p next w a e. induction fuel as [|fuel IH];
    intros p next w a e Hfuel Hn Hnext Ha He La Le; [lia|].
  cbn [forward_buffered_messages]. rewrite u16_sub_ok by lia.
  case_match eqn:Hk; [by eexists|]. apply negb_false_iff, Z.eqb_eq in Hk.
  assert (length (ready_senders p next) <= base.size p)%nat as Hlen.
  { unfold ready_senders. rewrite sort_by_key_length, <- size_dom. unfold base.size, set_size.
    cbn. induction (elements (dom p)) as [|x l IHl]; cbn; [lia|]. case_match; cbn; lia. }
  edestruct (deliver_all_room next (ready_senders p next) p w) as (p1 & w1 & Hd & Ha1 & He1);
    [apply NoDup_ready_senders|by intros s; rewrite elem_of_ready_senders|eauto|eauto|lia|lia|].
  pose proof Hd as Hsize. apply deliver_all_ok in Hsize as (_ & _ & _ & Hsize);
    [|apply NoDup_ready_senders].
  rewrite Hd. unfold u64_add. cbn [mbind outcome_bind].
  rewrite (proj2 (Z.leb_le (next + 1) u64_max)) by lia. cbn [mbind outcome_bind].
  eapply IH; eauto; lia.
Qed.

(** C8: the agent gets the broadcasts of the other parties in the order of
    their numbers, each one only when all [n - 1] parties have sent theirs, and
    ordered by sender within a number; what is delivered leaves the buffer,
    what is not stays.  The loop ends (with [n] at least 2 and the fuel the
    poll gives it), without a panic when the channels have room for what is
    buffered. *)
Theorem broadcasts_in_order p next n w :
  2 <= n ->
  exists res, forward_buffered_messages (S (base.size p)) p next n w = Some res /\
    (forall p' next' w', res = Ok (p', next', w') -> forwarded p next n w p' next' w') /\
    (forall a e, app_ch w = open_with a -> echo_ch w = open_with e ->
       (base.size p <= a)%nat -> (base.size p <= e)%nat ->
       next + Z.of_nat (base.size p) <= u64_max -> exists x, res = Ok x).
Proof.
  intros Hn. destruct (forward_ok (S (base.size p)) p next n w) as (res & Hres & Hspec);
    [lia|done|].
  exists res. split; [done|]. split; [done|]. intros a e Ha He La Le Hnext.
  destruct (forward_room (S (base.size p)) p next n w a e) as (x & Hx); [lia|done..|].
  exists x. congruence.
Qed.

(** ** The life of an execution *)

(** The invariant of an execution: at least two parties, and the quiet period
    runs exactly when the agent is done. *)
Record inv (e : t) : Prop := {
  inv_n : 2 <= n e <= u16_max;
  inv_i : 0 <= i e < n e;
  inv_running : agent_running e = bool_decide (agent_result e = None);
  inv_delay : completion_delay e = None <-> agent_result e = None;
  inv_result : forall why, agent_result e <> Some (Panic why);
}.

(** an execution is set up exactly when the local peer is in the set and
    the set has two peers or more (of at most 65535, with distinct peers); the
    set-up establishes the invariant. *)
Theorem execution_new room sid request a ps st reply :
  NoDup (Peerset.peers ps) -> Z.of_nat (Peerset.size ps) <= u16_max ->
  ((exists e, new room sid request a ps st reply = Ok e) <->
   Peerset.local_peer_id ps ∈ Peerset.peers ps /\ (2 <= Peerset.size ps)%nat) /\
  (forall e, new room sid request a ps st reply = Ok e -> inv e /\
     n e = Z.of_nat (Peerset.size ps) /\
     Peerset.peers ps !! Z.to_nat (i e) = Some (Peerset.local_peer_id ps)).
Proof.
  intros Hnd Hmax. unfold new. rewrite as_u16_small by (unfold u16_max in *; lia).
  destruct (Peerset.index_of ps (Peerset.local_peer_id ps)) as [k|] eqn:Hk.
  - pose proof Hk as Hk'. unfold Peerset.index_of in Hk'.
    apply fmap_Some in Hk' as (j & Hj & Hjk). apply position_some in Hj as [(q & Hq & Hql) _].
    apply bool_decide_eq_true in Hql as ->. pose proof (lookup_lt_Some _ _ _ Hq) as Hlt.
    unfold Peerset.size in *.
    rewrite as_u16_small in Hjk by lia. subst k.
    assert (Peerset.local_peer_id ps ∈ Peerset.peers ps) as Hin
      by (apply list_elem_of_lookup; eauto).
    cbn [expect mbind outcome_bind]. rewrite u16_sub_ok by lia. cbn [mbind outcome_bind].
    case_match eqn:Hz; [apply Z.eqb_eq in Hz|apply Z.eqb_neq in Hz].
    + split; [|done]. split; [naive_solver|]. lia.
    + split; [split; [|by eexists]; intros _; split; [done|lia]|].
      intros e [= <-]. cbn. rewrite Nat2Z.id. split; [|done].
      split; cbn; try done; lia.
  - split; [|done]. split; [naive_solver|]. intros [Hin _].
    apply list_elem_of_lookup in Hin as [j Hj].
    rewrite (Peerset.lookup_index_of _ _ j) in Hk; [done|done|unfold Peerset.size, u16_max in *; lia|done].
Qed.

(** The fields the stages of a poll leave alone. *)
Definition same_life (e e' : t) : Prop :=
  n e' = n e /\ i e' = i e /\ agent_running e' = agent_running e /\
  agent_result e' = agent_result e /\ completion_delay e' = completion_delay e /\
  reply_to e' = reply_to e /\ session e' = session e.

Definition replies (es : list effect) : list (nat * outcome string bytes) :=
  omap (fun e => match e with ReplyLocal tx r => Some (tx, r) | _ => None end) es.

Lemma replies_app es1 es2 : replies (es1 ++ es2) = replies es1 ++ replies es2.
Proof. apply omap_app. Qed.

Lemma serve_cache_ok e ob o e' o' :
  serve_cache e ob o = Ok (e', o') ->
  same_life e e' /\ replies (effects o') = replies (effects o) /\ sent o' = sent o.
Proof. unfold serve_cache. intros Hs. repeat case_match; simplify_eq; done. Qed.

Lemma send_outgoing_ok e ob o e' o' :
  send_outgoing e ob o = Ok (e', o') ->
  same_life e e' /\ replies (effects o') = replies (effects o) /\
  to_app (sent o') = to_app (sent o).
Proof.
  unfold send_outgoing, send_echo. intros Hs. repeat case_match; simplify_eq; try done; inv_ok;
    cbn; rewrite replies_app; cbn; rewrite app_nil_r; done.
Qed.

Lemma stages_ok e ob e' o' :
  ('(e, o) ← serve_cache e ob (no_out ob); send_outgoing e ob o) = Ok (e', o') ->
  same_life e e' /\ replies (effects o') = [] /\ to_app (sent o') = [].
Proof.
  intros Hs. apply bind_ok in Hs as ([e1 o1] & H1' & H2').
  apply serve_cache_ok in H1' as (L1 & R1 & S1). apply send_outgoing_ok in H2' as (L2 & R2 & S2).
  unfold same_life in *. rewrite R2, R1, S2, S1. split; [|done]. intuition congruence.
Qed.

Lemma accept_incoming_ok e m o t0 e' o' :
  accept_incoming e m o t0 = Ok (e', o') ->
  n e' = n e /\ i e' = i e /\ agent_running e' = agent_running e /\
  agent_result e' = agent_result e /\ reply_to e' = reply_to e /\
  completion_delay e' =
    (if agent_result e is Some _ then Some (t0 + COMPLETION_QUIET_PERIOD)
     else completion_delay e) /\
  replies (effects o') = replies (effects o).
Proof.
  unfold accept_incoming. intros Ha. apply bind_ok in Ha as ([e1 o1] & Ha & Hr). inv_ok.
  assert (same_life e e1 /\ replies (effects o') = replies (effects o)) as [HL ->].
  { destruct (is_broadcast m).
    - inv_ok. split; [done|]. cbn. rewrite replies_app.
      case_match; cbn; by rewrite app_nil_r.
    - inv_ok. split; [done|]. cbn. rewrite replies_app.
      unfold forward_direct_message in *. inv_ok. cbn. by rewrite app_nil_r. }
  destruct HL as (Hn & Hi & Hrun & Hres & Hd & Hrep & _). rewrite <- Hres.
  destruct (agent_result e1) eqn:Hr1; cbn; rewrite ?Hr1; auto 10.
Qed.

Lemma complete_pending e ob o e' o' :
  inv e -> complete e ob o = Pending e' o' -> inv e'.
Proof.
  intros [Hn Hi Hrun Hd Hres]. unfold complete. intros Hc.
  repeat case_match; simplify_eq; try done; split; cbn; try done; naive_solver.
Qed.

Lemma same_life_inv e e' : same_life e e' -> inv e -> inv e'.
Proof.
  intros (Hn & Hi & Hrun & Hres & Hd & _) [? ? ? ? ?]. 
  split; rewrite ?Hn, ?Hi, ?Hrun, ?Hd, ?Hres; done.
Qed.

Lemma forward_and_complete_inv e ob o :
  inv e -> forward_and_complete e ob o <> Diverged /\
  forall e' o', forward_and_complete e ob o = Pending e' o' -> inv e'.
Proof.
  intros Hinv. unfold forward_and_complete.
  destruct (forward_ok (S (base.size (pending_incoming e))) (pending_incoming e)
    (next_incoming_broadcast_id e) (n e) (sent o)) as (res & -> & _); [lia|apply Hinv|].
  destruct res as [[[p next] w]| |]; try done.
  assert (inv (with_broadcasts (next_outgoing_broadcast_id e) next p e)) as Hinv'
    by (eapply same_life_inv; [|exact Hinv]; done).
  split; [|intros e' o'; by apply complete_pending].
  unfold complete. by repeat case_match.
Qed.

Lemma poll_stages e ob :
  inv e ->
  (exists why, poll e ob = Panicked why) \/
  (exists m e1 o1, from_network ob = Some m /\ belongs e1 m = false /\ same_life e e1 /\
     poll e ob = Pending e1 (add_effects [Respond (pending_response m) reject] o1)) \/
  (exists e1 o1, inv e1 /\ replies (effects o1) = [] /\ reply_to e1 = reply_to e /\
     agent_result e1 = agent_result e /\ session e1 = session e1 /\
     (completion_delay e1 = completion_delay e /\
        (from_network ob = None \/ agent_result e = None) \/
      completion_delay e1 = Some (now ob + COMPLETION_QUIET_PERIOD) /\ is_Some (agent_result e)) /\
     poll e ob = forward_and_complete e1 ob o1).
Proof.
  intros Hinv. unfold poll.
  destruct (_ ≫= _) as [[e1 o1]| |] eqn:Hst; [|by left; eexists..].
  apply stages_ok in Hst as (HL & HR & _).
  pose proof (same_life_inv _ _ HL Hinv) as Hinv1.
  pose proof HL as (Hn & Hi & Hrun & Hres & Hd & Hrep & _).
  destruct (from_network ob) as [m|] eqn:Hnet.
  - destruct (belongs e1 m) eqn:Hb; [|right; left; naive_solver].
    destruct accept_incoming as [[e2 o2]| |] eqn:Ha; [|by left; eexists..].
    right; right. apply accept_incoming_ok in Ha as (An & Ai & Arun & Ares & Arep & Ad & AR).
    exists e2, o2.
    assert (inv e2) as Hinv2.
    { destruct Hinv1 as [I1 I2 I3 I4 I5]. rewrite Hres in *.
      split; rewrite ?An, ?Ai, ?Arun, ?Ares, ?Ad; try done.
      destruct (agent_result e); naive_solver. }
    repeat (split; [congruence|]). split; [|done]. rewrite Ad, Hres.
    destruct (agent_result e); [right|left]; naive_solver.
  - right; right. exists e1, o1. repeat (split; [congruence|]). split; [|done]. left. auto.
Qed.

(** C20: the invariant holds through the life of an execution: no poll
    diverges and every poll that leaves the execution pending preserves it.  So
    the quiet period is only ever set after the agent is done. *)
Theorem execution_invariant e ob :
  inv e -> poll e ob <> Diverged /\ (forall e' o, poll e ob = Pending e' o -> inv e').
Proof.
  intros Hinv. destruct (poll_stages e ob Hinv) as
    [(why & ->)|[(m & e1 & o1 & _ & _ & HL & ->)|(e1 & o1 & Hinv1 & _ & _ & _ & _ & _ & ->)]].
  - done.
  - split; [done|]. intros e' o [= <- _]. by eapply same_life_inv.
  - by apply forward_and_complete_inv.
Qed.

(** C19: an execution that ends reports the result its agent returned, once,
    to the local caller if there is one, and only after its quiet period: the
    deadline set when the agent completed, or by the last message of the session
    since, has passed, and no message arrives with the last poll. *)
Theorem result_reported e ob res o :
  inv e -> poll e ob = Ready res o ->
  exists r d, agent_result e = Some r /\ completion_delay e = Some d /\ d <= now ob /\
    from_network ob = None /\
    replies (effects o) = (if reply_to e is Some tx then [(tx, r)] else []) /\
    ((exists b, r = Ok b /\ res = Ok tt) \/
     (exists why, r = Err why /\ res = Err (InternalError why))).
Proof.
  intros Hinv Hp. destruct (poll_stages e ob Hinv) as
    [(why & Hp')|[(m & e1 & o1 & _ & _ & HL & Hp')|
     (e1 & o1 & Hinv1 & HR & Hrep & Hres & _ & Hd & Hp')]]; rewrite Hp' in Hp; try done.
  unfold forward_and_complete in Hp.
  destruct forward_buffered_messages as [[[[p next] w]| |]|]; try done.
  unfold complete in Hp. cbn [with_broadcasts completion_delay agent_result reply_to with_sent effects] in Hp.
  destruct (completion_delay e1) as [d|] eqn:Hd1; [|by repeat case_match].
  destruct (Z.leb_spec d (now ob)) as [Hle|]; [|done].
  destruct (agent_result e1) as [r|] eqn:Hr1; [|done].
  destruct Hd as [[Hde Hnet]|[[= ->] _]]; [|unfold COMPLETION_QUIET_PERIOD in Hle; lia].
  exists r, d. rewrite <- Hres. split; [done|]. split; [done|]. split; [done|].
  split; [destruct Hnet; congruence|]. rewrite <- Hrep.
  destruct r; simplify_eq; cbn [add_effects effects with_sent]; rewrite replies_app, HR;
    (split; [by destruct (reply_to e1)|naive_solver]).
Qed.

(** The same observations with another message of the network. *)
Definition with_network (net : option IncomingRequest) (ob : obs) : obs :=
  {| now := now ob; cache_msg := cache_msg ob; from_protocol := from_protocol ob;
     from_network := net; agent_poll := agent_poll ob; app := app ob; echo := echo ob;
     fs := fs ob; fresh := fresh ob |}.

(** C28: a computation message of another session, or a coordination message,
    never reaches the agent: it is rejected and the execution goes on, except
    for a poll that panics whatever the network brings. *)
Theorem foreign_messages_rejected e ob m :
  from_network ob = Some m ->
  session_id (context m) <> session e \/ message_type (context m) <> Computation ->
  (exists why, forall net, poll e (with_network net ob) = Panicked why) \/
  exists e' o, poll e ob = Pending e' o /\ same_life e e' /\
    Respond (pending_response m) reject ∈ effects o /\ to_app (sent o) = [].
Proof.
  intros Hnet Hm.
  destruct ('(e, o) ← serve_cache e ob (no_out ob); send_outgoing e ob o) as [[e1 o1]| |]
    eqn:Hst; [right|by left; eexists; intros net; unfold poll;
      change (_ ≫= _) with ('(e, o) ← serve_cache e ob (no_out ob); send_outgoing e ob o);
      rewrite Hst..].
  unfold poll. rewrite Hst, Hnet. apply stages_ok in Hst as (HL & _ & HA).
  pose proof HL as (_ & _ & _ & _ & _ & _ & Hs).
  assert (belongs e1 m = false) as ->.
  { unfold belongs. rewrite Hs. apply andb_false_iff.
    rewrite !bool_decide_eq_false. naive_solver. }
  do 2 eexists. split; [done|]. split; [done|]. split; [|done].
  cbn. set_solver.
Qed.

(** ** Messages after the end of the agent *)

Lemma deliver_all_closed mid s senders p w m :
  p !! (s, mid) = Some m -> is_closed (app_ch w) = true ->
  is_closed (echo_ch w) = false -> (0 < slots (echo_ch w))%nat ->
  deliver_all mid (s :: senders) (p, w) = Panic app_closed.
Proof.
  intros Hm Hc He Hs. cbn [deliver_all deliver]. rewrite Hm.
  unfold send_echo, send_app, try_send. rewrite He. cbn [expect mbind outcome_bind].
  destruct (slots (echo_ch w)); [lia|]. cbn [mbind outcome_bind app_ch]. by rewrite Hc.
Qed.

End execution.
End ProtocolExecution.
