(* ===== verification/Worker.v ===== *)
(** * The worker

    [Worker::run] of [crates/client/service/src/worker.rs]: one loop that owns
    the rooms.  A room is idle in phase 1, in coordination (which blocks the
    loop until it is decided), or in computation with a receiver proxy on its
    queue; local requests for a busy room wait in a queue.

    The loop is a step function on the worker's state: an event is a branch of
    the [select!] with what the awaited futures observed.  A step is [Err] when
    the branch is not ready (a future still pending, a task that does not
    exist), and [Panic] when the code panics, which ends the worker. *)

From Stdlib Require Import ZArith Lia Strings.Byte.
From stdpp Require Import base gmap strings numbers list.
From S2P Require Import Prelude Wire Messages Peerset StartMsg Room NetworkProxy.
From S2P Require Import Negotiation Coordination Echo Storage Execution.

Local Open Scope Z_scope.

Module Worker.
Section worker.
Context `{PeerIds} `{UnsignedVarint} `{ComputeAgents}.

Variable local : PeerId.

(** [ServicetoWorkerMsg]. *)
Inductive ServicetoWorkerMsg : Type :=
  | KeySign (n : Z) (room : RoomId) (payload : bytes) (sender : nat)
  | KeyGen (t n : Z) (room : RoomId) (payload : bytes) (sender : nat).

(** [service_msg_room_id]. *)
Definition service_msg_room_id (m : ServicetoWorkerMsg) : RoomId :=
  match m with KeySign _ room _ _ => room | KeyGen _ _ room _ _ => room end.

(** The state of [Worker::run].  A oneshot channel for local requests has a
    name; its receiver is the [p1_request] of a phase 1, its sender is in
    [rooms_rpc] or waits in [restores], and [requests] holds what was sent on
    it.  [fresh] is the first unused name.  [storage] is the cache as a
    computation finds it when it begins. *)
Record t : Type := {
  storage : LocalStorage.t;
  protocol_executions : list (RoomId * ProtocolExecution.t);
  network_proxies : list ReceiverProxy.t;
  rooms_coordination : list Phase1Channel;
  rooms_rpc : gmap RoomId nat;
  requests : gmap nat LocalRpcMsg;
  busy_rooms : gset RoomId;
  pending_room_restores : gmap RoomId (Phase1Channel * nat);
  pending_local : gmap RoomId (list ServicetoWorkerMsg);
  fresh : nat;
}.

(** ** Updates *)

Definition set_tasks (ex : list (RoomId * ProtocolExecution.t)) (px : list ReceiverProxy.t)
  (w : t) : t :=
  {| storage := storage w; protocol_executions := ex; network_proxies := px;
     rooms_coordination := rooms_coordination w; rooms_rpc := rooms_rpc w;
     requests := requests w; busy_rooms := busy_rooms w;
     pending_room_restores := pending_room_restores w; pending_local := pending_local w;
     fresh := fresh w |}.

Definition set_rooms (co : list Phase1Channel) (rpc : gmap RoomId nat)
  (rq : gmap nat LocalRpcMsg) (w : t) : t :=
  {| storage := storage w; protocol_executions := protocol_executions w;
     network_proxies := network_proxies w; rooms_coordination := co; rooms_rpc := rpc;
     requests := rq; busy_rooms := busy_rooms w;
     pending_room_restores := pending_room_restores w; pending_local := pending_local w;
     fresh := fresh w |}.

Definition set_busy (b : gset RoomId) (w : t) : t :=
  {| storage := storage w; protocol_executions := protocol_executions w;
     network_proxies := network_proxies w; rooms_coordination := rooms_coordination w;
     rooms_rpc := rooms_rpc w; requests := requests w; busy_rooms := b;
     pending_room_restores := pending_room_restores w; pending_local := pending_local w;
     fresh := fresh w |}.

Definition set_restores (r : gmap RoomId (Phase1Channel * nat)) (w : t) : t :=
  {| storage := storage w; protocol_executions := protocol_executions w;
     network_proxies := network_proxies w; rooms_coordination := rooms_coordination w;
     rooms_rpc := rooms_rpc w; requests := requests w; busy_rooms := busy_rooms w;
     pending_room_restores := r; pending_local := pending_local w; fresh := fresh w |}.

Definition set_pending (p : gmap RoomId (list ServicetoWorkerMsg)) (w : t) : t :=
  {| storage := storage w; protocol_executions := protocol_executions w;
     network_proxies := network_proxies w; rooms_coordination := rooms_coordination w;
     rooms_rpc := rooms_rpc w; requests := requests w; busy_rooms := busy_rooms w;
     pending_room_restores := pending_room_restores w; pending_local := p; fresh := fresh w |}.

Definition set_fresh (k : nat) (w : t) : t :=
  {| storage := storage w; protocol_executions := protocol_executions w;
     network_proxies := network_proxies w; rooms_coordination := rooms_coordination w;
     rooms_rpc := rooms_rpc w; requests := requests w; busy_rooms := busy_rooms w;
     pending_room_restores := pending_room_restores w; pending_local := pending_local w;
     fresh := k |}.

(** [rooms_coordination.push(ch); rooms_rpc.insert(room_id, tx)]. *)
Definition restore_room (room : RoomId) (ch : Phase1Channel) (tx : nat) (w : t) : t :=
  set_rooms (rooms_coordination w ++ [ch]) (<[room := tx]> (rooms_rpc w)) (requests w) w.

(** ** Dispatch of local requests *)

(** The receivers of local requests that exist. *)
Definition live_requests (w : t) : list nat :=
  (p1_request <$> rooms_coordination w) ++
  ((fun x => p1_request x.2.1) <$> map_to_list (pending_room_restores w)).

(** [dispatch_to_room]: through the room's channel, or through a virtual one
    with no network behind it when the room has none. *)
Definition dispatch_to_room (room : RoomId) (msg : LocalRpcMsg) (w : t) :
  t * bool * list effect :=
  let '(w, tx) :=
    match rooms_rpc w !! room with
    | Some tx => (set_rooms (rooms_coordination w) (delete room (rooms_rpc w)) (requests w) w, tx)
    | None =>
        let '(ch, tx) := Phase1Channel_new room (fresh w) (S (fresh w)) in
        (set_fresh (S (S (fresh w)))
           (set_rooms (rooms_coordination w ++ [ch]) (rooms_rpc w) (requests w) w), tx)
    end in
  if bool_decide (tx ∈ live_requests w) then
    (set_rooms (rooms_coordination w) (rooms_rpc w) (<[tx := msg]> (requests w)) w, true, [])
  else (w, false, [ReplyLocal (rpc_pending_response msg) (Err "sender is canceled")]).

(** [dispatch_local_msg]. *)
Definition dispatch_local_msg (m : ServicetoWorkerMsg) (w : t) : t * bool * list effect :=
  match m with
  | KeyGen _ n room payload sender =>
      dispatch_to_room room
        {| rpc_n := n; rpc_payload := payload; rpc_agent := factory_keygen;
           rpc_pending_response := sender |} w
  | KeySign n room payload sender =>
      dispatch_to_room room
        {| rpc_n := n; rpc_payload := payload; rpc_agent := factory_keysign;
           rpc_pending_response := sender |} w
  end.

(** [dispatch_pending_local]. *)
Definition dispatch_pending_local (room : RoomId) (w : t) : t * list effect :=
  if bool_decide (room ∈ busy_rooms w) then (w, [])
  else
    match pending_local w !! room with
    | None => (w, [])
    | Some [] => (set_pending (delete room (pending_local w)) w, [])
    | Some (msg :: queue) =>
        let w := set_pending (match queue with
                              | [] => delete room (pending_local w)
                              | _ => <[room := queue]> (pending_local w)
                              end) w in
        let '(w, sent, out) := dispatch_local_msg msg w in
        (if sent then set_busy ({[room]} ∪ busy_rooms w) w else w, out)
    end.

(** ** Steps *)

Inductive event : Type :=
  | ServiceMsg (m : ServicetoWorkerMsg)
      (** a local request arrives. *)
  | IdlePoll (k : nat) (now : Z) (next : try_next IncomingRequest) (sid : SessionId)
      (os2 : list Coordination.obs2) (osn : list Negotiation.obs)
      (** phase 1 number [k] is polled; if it takes a remote proposal, [os2] is
          what phase 2 observes, if it takes a local request, [osn] is what the
          negotiation observes. *)
  | ExecutionDone (k : nat) (res : outcome Error unit)
      (** execution number [k] ends. *)
  | ProxyPoll (k : nat) (o : ReceiverProxy.obs).
      (** proxy number [k] is polled. *)

(** What a phase 1 sees of its request channel. *)
Definition request_view (w : t) (ch : Phase1Channel) : try_recv LocalRpcMsg :=
  match requests w !! p1_request ch with
  | Some m => RecvMsg m
  | None =>
      if bool_decide (p1_request ch ∈ (map_to_list (rooms_rpc w)).*2 ++
                        ((fun x => x.2.2) <$> map_to_list (pending_room_restores w)))
      then RecvEmpty else RecvCanceled
  end.

(** A room comes back from a coordination that failed. *)
Definition reopen (room : RoomId) (ch : Phase1Channel) (tx : nat) (w : t) : t * list effect :=
  dispatch_pending_local room
    (restore_room room ch tx (set_busy (busy_rooms w ∖ {[room]}) (set_fresh (S (fresh w)) w))).

(** A computation begins. *)
Definition begin (room : RoomId) (sid : SessionId) (request : bytes) (a : Agent) (px : ReceiverProxy.t)
  (ps : Peerset.t) (reply : option nat) (w : t) : outcome unit t :=
  match ProtocolExecution.new room sid request a ps (storage w) reply with
  | Ok e =>
      Ok (set_busy ({[room]} ∪ busy_rooms w)
            (set_tasks (protocol_executions w ++ [(room, e)]) (network_proxies w ++ [px]) w))
  | Err _ => Panic "ProtocolExecution::new"
  | Panic why => Panic why
  end.

(** The branch of a remote proposal; phase 2 observes [os]. *)
Definition from_remote (protocol_id : Z) (response_tx : nat) (ch : Coordination.Phase2Channel)
  (os : list Coordination.obs2) (w : t) : outcome unit (t * list effect) :=
  let room := Coordination.p2_id ch in
  let w := set_busy ({[room]} ∪ busy_rooms w) w in
  match factory_make protocol_id with
  | None =>
      match Coordination.phase2_abort ch (fresh w) with
      | Coordination.Abort2 id p1 tx out =>
          let '(w, out') := reopen id p1 tx w in Ok (w, out ++ out' ++ [Discard response_tx])
      | Coordination.Panicked2 why => Panic why
      | _ => Err tt
      end
  | Some agent =>
      let ack := Respond response_tx (accept []) in
      match Coordination.phase2_run local ch
              ((fun o => {| Coordination.now2 := Coordination.now2 o;
                            Coordination.next2 := Coordination.next2 o;
                            Coordination.fresh2 := fresh w |}) <$> os) with
      | Coordination.Start2 room_id px ps body sid out =>
          w ← begin room_id sid body agent px ps None w;
          Ok (w, ack :: out)
      | Coordination.Abort2 room_id p1 tx out =>
          let '(w, out') := reopen room_id p1 tx w in Ok (w, ack :: out ++ out')
      | Coordination.Pending2 _ _ => Err tt
      | Coordination.Panicked2 why => Panic why
      end
  end.

Definition aborted : string :=
  "Negotiation aborted: timeout or failed to assemble peerset".

(** The branch of a local request; the negotiation observes [os]. *)
Definition from_local (id : RoomId) (ng : Negotiation.t) (os : list Negotiation.obs) (w : t) :
  outcome unit (t * list effect) :=
  match Negotiation.run local ng
          ((fun o => {| Negotiation.now := Negotiation.now o;
                        Negotiation.response := Negotiation.response o;
                        Negotiation.probe := Negotiation.probe o;
                        Negotiation.fresh := fresh w |}) <$> os) with
  | Negotiation.Start agent reply px ps request sid out =>
      w ← begin id sid request agent px ps (Some reply) w;
      Ok (w, out)
  | Negotiation.Abort room p1 tx reply out =>
      let '(w, out') := reopen room p1 tx w in
      Ok (w, out ++ (if reply is Some r then [ReplyLocal r (Err aborted)] else []) ++ out')
  | Negotiation.Pending _ _ => Err tt
  | Negotiation.Panicked why => Panic why
  end.

(** The requests that vanish with the request channel of a phase 1. *)
Definition dropped_request (w : t) (ch : Phase1Channel) : list effect :=
  if requests w !! p1_request ch is Some m then [DropLocal (rpc_pending_response m)] else [].

(** The branch of the executions: the room is free, and if its proxy has ended already it
    goes back to the idle rooms. *)
Definition execution_done (k : nat) (w : t) : outcome unit (t * list effect) :=
  '(room, _) ← ok_or tt (protocol_executions w !! k);
  let w := set_busy (busy_rooms w ∖ {[room]})
             (set_tasks (delete k (protocol_executions w)) (network_proxies w) w) in
  match pending_room_restores w !! room with
  | Some (p1, tx) =>
      Ok (dispatch_pending_local room
            (restore_room room p1 tx
               (set_restores (delete room (pending_room_restores w)) w)))
  | None => Ok (w, [])
  end.

(** The branch of the proxies: when one ends its room goes back to the idle rooms, or
    waits until its execution has ended. *)
Definition proxy_poll (k : nat) (o : ReceiverProxy.obs) (w : t) : outcome unit (t * list effect) :=
  px ← ok_or tt (network_proxies w !! k);
  match ReceiverProxy.poll px
          {| ReceiverProxy.tx_is_closed := ReceiverProxy.tx_is_closed o;
             ReceiverProxy.next := ReceiverProxy.next o;
             ReceiverProxy.tx_accepts := ReceiverProxy.tx_accepts o;
             ReceiverProxy.fresh := fresh w |} with
  | ReceiverProxy.Pending px' ds =>
      Ok (set_tasks (protocol_executions w) (<[k := px']> (network_proxies w)) w,
          omap (fun d => match d with
                         | ReceiverProxy.Settled e => Some e
                         | ReceiverProxy.Forwarded _ => None
                         end) ds)
  | ReceiverProxy.Panicked why => Panic why
  | ReceiverProxy.Ready room p1 tx =>
      let w := set_fresh (S (fresh w))
                 (set_tasks (protocol_executions w) (delete k (network_proxies w)) w) in
      if bool_decide (room ∈ busy_rooms w) then
        Ok (set_restores (<[room := (p1, tx)]> (pending_room_restores w)) w, [])
      else Ok (dispatch_pending_local room (restore_room room p1 tx w))
  end.

(** One turn of the loop. *)
Definition step (w : t) (ev : event) : outcome unit (t * list effect) :=
  match ev with
  | ServiceMsg m =>
      let room := service_msg_room_id m in
      if bool_decide (room ∈ busy_rooms w) then
        Ok (set_pending (<[room := default [] (pending_local w !! room) ++ [m]]>
                           (pending_local w)) w, [])
      else
        let '(w, sent, out) := dispatch_local_msg m w in
        Ok (if sent then set_busy ({[room]} ∪ busy_rooms w) w else w, out)
  | IdlePoll k now next sid os2 osn =>
      ch ← ok_or tt (rooms_coordination w !! k);
      let rest := delete k (rooms_coordination w) in
      match Coordination.phase1_poll local ch
              {| Coordination.now1 := now; Coordination.next1 := next;
                 Coordination.request1 := request_view w ch;
                 Coordination.fresh_session := sid |} with
      | Coordination.FromRemote _ pid _ tx ch2 =>
          '(w', out) ← from_remote pid tx ch2 os2
                         (set_rooms rest (rooms_rpc w) (delete (p1_request ch) (requests w)) w);
          Ok (w', dropped_request w ch ++ out)
      | Coordination.FromLocal id _ ng out =>
          '(w', out') ← from_local id ng osn
                          (set_rooms rest (rooms_rpc w) (delete (p1_request ch) (requests w)) w);
          Ok (w', out ++ out')
      | Coordination.Pending1 ch' out =>
          Ok (set_rooms (<[k := ch']> (rooms_coordination w)) (rooms_rpc w) (requests w) w, out)
      | Coordination.Panicked1 why => Panic why
      end
  | ExecutionDone k _ => execution_done k w
  | ProxyPoll k o => proxy_poll k o w
  end.

(** [Worker::new] and the beginning of [run]: every room idle, with a channel
    for its local requests. *)
Fixpoint open_rooms (rooms : list (RoomId * nat)) (w : t) : t :=
  match rooms with
  | [] => w
  | (room, rx) :: rooms =>
      let '(ch, tx) := Phase1Channel_new room rx (fresh w) in
      open_rooms rooms (set_fresh (S (fresh w)) (restore_room room ch tx w))
  end.

Definition new (st : LocalStorage.t) (rooms : list (RoomId * nat)) : t :=
  open_rooms rooms
    {| storage := st; protocol_executions := []; network_proxies := [];
       rooms_coordination := []; rooms_rpc := ∅; requests := ∅; busy_rooms := ∅;
       pending_room_restores := ∅; pending_local := ∅;
       fresh := S (foldr Nat.max 0%nat rooms.*2) |}.

(** The states the loop goes through. *)
Inductive reachable (st : LocalStorage.t) (rooms : list (RoomId * nat)) : t -> Prop :=
  | reachable_new : reachable st rooms (new st rooms)
  | reachable_step w ev w' out :
      reachable st rooms w -> step w ev = Ok (w', out) -> reachable st rooms w'.

(** ** Who owns a room's queue *)

(** The rooms and the queues their current owner holds. *)
Definition owned (w : t) : list (RoomId * option nat) :=
  ((fun ch => (p1_id ch, p1_rx ch)) <$> rooms_coordination w) ++
  ((fun px => (ReceiverProxy.room_id px, ReceiverProxy.request_receiver px)) <$>
     network_proxies w) ++
  ((fun x => (x.1, p1_rx x.2.1)) <$> map_to_list (pending_room_restores w)).

Definition executing (w : t) : list RoomId := (protocol_executions w).*1.
Definition proxied (w : t) : list RoomId := ReceiverProxy.room_id <$> network_proxies w.

(** A phase 1 to which a local request has been sent. *)
Definition requested (w : t) (r : RoomId) : Prop :=
  exists ch, ch ∈ rooms_coordination w /\ p1_id ch = r /\
    is_Some (requests w !! p1_request ch).

(** A queue of waiting requests: not empty, and all for its room. *)
Definition wf_queue (r : RoomId) (q : list ServicetoWorkerMsg) : Prop :=
  q <> [] /\ Forall (fun m => service_msg_room_id m = r) q.

(** The invariant of the loop, in four parts.  [hole] is the room whose queue is
    in the hands of the branch that runs, if any.  First, the owners of the
    queues. *)
Record Owners (rooms : list (RoomId * nat)) (hole : option (RoomId * nat)) (w : t) : Prop := {
  own_nodup : NoDup (owned w).*1;
  own_some : forall r x, (r, x) ∈ owned w -> is_Some x;
  own_rooms : forall r rx, (r, rx) ∈ rooms -> (r, Some rx) ∈ owned w \/ hole = Some (r, rx);
  own_hole : forall r rx, hole = Some (r, rx) -> r ∉ (owned w).*1;
}.

(** The tasks: an execution has a proxy or a parked phase 1. *)
Record Tasks (w : t) : Prop := {
  ex_nodup : NoDup (executing w);
  ex_own : forall r, r ∈ executing w -> r ∈ proxied w \/ is_Some (pending_room_restores w !! r);
  rs_ex : forall r, is_Some (pending_room_restores w !! r) -> r ∈ executing w;
  rs_tx : forall r p1 tx, pending_room_restores w !! r = Some (p1, tx) ->
    p1_request p1 = tx /\ p1_id p1 = r;
}.

(** The room has an owner, or is in the hands of the branch. *)
Definition held_by (hole : option (RoomId * nat)) (w : t) (r : RoomId) : Prop :=
  r ∈ (owned w).*1 \/ fst <$> hole = Some r.

(** The channels that carry local requests. *)
Record Channels (hole : option (RoomId * nat)) (w : t) : Prop := {
  rq_live : forall tx, is_Some (requests w !! tx) ->
    exists ch, ch ∈ rooms_coordination w /\ p1_request ch = tx;
  rpc_idle : forall ch, ch ∈ rooms_coordination w -> requests w !! p1_request ch = None ->
    rooms_rpc w !! p1_id ch = Some (p1_request ch);
  rpc_own : forall r tx, rooms_rpc w !! r = Some tx ->
    held_by hole w r /\ (tx < fresh w)%nat /\
    (tx ∈ live_requests w ->
       exists ch, ch ∈ rooms_coordination w /\ p1_id ch = r /\ p1_request ch = tx);
  live_nodup : NoDup (live_requests w);
  live_fresh : forall tx, tx ∈ live_requests w -> (tx < fresh w)%nat;
}.

(** The busy rooms and the requests that wait for them. *)
Record Waits (hole : option (RoomId * nat)) (w : t) : Prop := {
  busy_iff : forall r, fst <$> hole <> Some r ->
    (r ∈ busy_rooms w <-> r ∈ executing w \/ requested w r);
  pl_wait : forall r q, pending_local w !! r = Some q ->
    wf_queue r q /\ (fst <$> hole = Some r \/ r ∈ busy_rooms w \/ r ∈ proxied w);
}.

Record Inv (rooms : list (RoomId * nat)) (hole : option (RoomId * nat)) (w : t) : Prop := {
  inv_owners :> Owners rooms hole w;
  inv_tasks :> Tasks w;
  inv_channels :> Channels hole w;
  inv_waits :> Waits hole w;
}.

#[local] Arguments own_nodup {rooms hole w} _.
#[local] Arguments own_some {rooms hole w} _ {r x} _.
#[local] Arguments own_rooms {rooms hole w} _ {r rx} _.
#[local] Arguments own_hole {rooms hole w} _ {r rx} _.
#[local] Arguments ex_nodup {w} _.
#[local] Arguments ex_own {w} _ {r} _.
#[local] Arguments rs_ex {w} _ {r} _.
#[local] Arguments rs_tx {w} _ {r p1 tx} _.
#[local] Arguments rq_live {hole w} _ {tx} _.
#[local] Arguments rpc_idle {hole w} _ {ch} _ _.
#[local] Arguments rpc_own {hole w} _ {r tx} _.
#[local] Arguments live_nodup {hole w} _.
#[local] Arguments live_fresh {hole w} _ {tx} _.
#[local] Arguments busy_iff {hole w} _ {r} _.
#[local] Arguments pl_wait {hole w} _ {r q} _.

(** ** Moving a room from its owner to a branch and back *)

Lemma owned_rooms w r :
  r ∈ (owned w).*1 <->
  (exists ch, ch ∈ rooms_coordination w /\ p1_id ch = r) \/ r ∈ proxied w \/
  is_Some (pending_room_restores w !! r).
Proof.
  unfold owned, proxied. rewrite !fmap_app, !elem_of_app, <- !list_fmap_compose.
  rewrite !list_elem_of_fmap. cbn. split.
  - intros [(ch & -> & Hc)|[(px & -> & Hp)|([r' x] & -> & Hx)]]; [left; eauto|right; left; eauto|].
    apply elem_of_map_to_list in Hx. right; right. by eexists.
  - intros [(ch & Hc & <-)|[(px & -> & Hp)|[x Hx]]]; [left; eauto|right; left; eauto|].
    right; right. exists (r, x). by rewrite elem_of_map_to_list.
Qed.

(** Two owners of one room are the same. *)
Lemma owner_exclusive rooms hole w r :
  Owners rooms hole w ->
  ((exists ch, ch ∈ rooms_coordination w /\ p1_id ch = r) -> r ∉ proxied w) /\
  ((exists ch, ch ∈ rooms_coordination w /\ p1_id ch = r) ->
     pending_room_restores w !! r = None) /\
  (r ∈ proxied w -> pending_room_restores w !! r = None).
Proof.
  intros Hi. pose proof (own_nodup Hi) as Hnd. unfold owned in Hnd.
  rewrite !fmap_app, <- !list_fmap_compose in Hnd.
  apply NoDup_app in Hnd as (_ & H12 & Hnd). apply NoDup_app in Hnd as (_ & H23 & _).
  assert (is_Some (pending_room_restores w !! r) ->
    r ∈ (fst ∘ (fun x : RoomId * (Phase1Channel * nat) => (x.1, p1_rx x.2.1))) <$>
          map_to_list (pending_room_restores w)) as Hrs.
  { intros [x Hx]. apply list_elem_of_fmap. exists (r, x). by rewrite elem_of_map_to_list. }
  assert (r ∈ proxied w -> r ∈ (fst ∘ (fun px => (ReceiverProxy.room_id px,
    ReceiverProxy.request_receiver px))) <$> network_proxies w) as Hpx by done.
  assert ((exists ch, ch ∈ rooms_coordination w /\ p1_id ch = r) ->
    r ∈ (fst ∘ (fun ch => (p1_id ch, p1_rx ch))) <$> rooms_coordination w) as Hco.
  { intros (ch & Hch & <-). apply list_elem_of_fmap. by exists ch. }
  specialize (H12 r). specialize (H23 r). rewrite elem_of_app in H12.
  split; [|split].
  - intros Hc Hp. apply H12; auto.
  - intros Hc. apply eq_None_not_Some. intros Hs. apply H12; auto.
  - intros Hp. apply eq_None_not_Some. intros Hs. apply H23; auto.
Qed.

Lemma live_coord w ch : ch ∈ rooms_coordination w -> p1_request ch ∈ live_requests w.
Proof. intros Hc. apply elem_of_app. left. by apply list_elem_of_fmap_2. Qed.

Lemma live_restore w r p1 tx :
  pending_room_restores w !! r = Some (p1, tx) -> p1_request p1 ∈ live_requests w.
Proof.
  intros Hr. apply elem_of_app. right. apply list_elem_of_fmap.
  exists (r, (p1, tx)). by rewrite elem_of_map_to_list.
Qed.

(** *** The owners *)

Lemma owners_same rooms hole w w' :
  owned w' ≡ₚ owned w -> Owners rooms hole w -> Owners rooms hole w'.
Proof.
  intros Hp Ho. split.
  - rewrite Hp. apply Ho.
  - intros r x. rewrite Hp. apply Ho.
  - intros r rx. rewrite Hp. apply Ho.
  - intros r rx. rewrite Hp. apply Ho.
Qed.

Lemma owners_take rooms w w' r rx :
  owned w ≡ₚ (r, Some rx) :: owned w' -> Owners rooms None w -> Owners rooms (Some (r, rx)) w'.
Proof.
  intros Hp Ho. pose proof (own_nodup Ho) as Hnd. rewrite Hp in Hnd.
  apply NoDup_cons in Hnd as [Hn Hnd]. split; [done| | |].
  - intros r' x Hx. apply (own_some Ho (r:=r')). rewrite Hp. by constructor.
  - intros r' rx' Hr. destruct (own_rooms Ho Hr) as [Hin|]; [|done].
    rewrite Hp in Hin. apply elem_of_cons in Hin as [[= -> ->]|]; auto.
  - by intros r' rx' [= <- <-].
Qed.

Lemma owners_give rooms w w' r rx :
  owned w' ≡ₚ (r, Some rx) :: owned w -> Owners rooms (Some (r, rx)) w -> Owners rooms None w'.
Proof.
  intros Hp Ho. split; [| | |done].
  - rewrite Hp. apply NoDup_cons. split; [by eapply (own_hole Ho)|apply Ho].
  - intros r' x Hx. rewrite Hp in Hx. apply elem_of_cons in Hx as [[= -> ->]|Hx];
      [by eexists|by apply (own_some Ho) in Hx].
  - intros r' rx' Hr. left. rewrite Hp. destruct (own_rooms Ho Hr) as [|[= -> ->]]; by constructor.
Qed.

Lemma held_take w w' r x r' :
  owned w ≡ₚ (r, Some x) :: owned w' -> held_by None w r' -> held_by (Some (r, x)) w' r'.
Proof.
  intros Hp [Hr|]; [|done]. rewrite Hp in Hr. apply elem_of_cons in Hr as [->|]; [by right|by left].
Qed.

Lemma held_give w w' r x r' :
  owned w' ≡ₚ (r, Some x) :: owned w -> held_by (Some (r, x)) w r' -> held_by None w' r'.
Proof.
  intros Hp Hr. left. rewrite Hp. cbn. rewrite elem_of_cons.
  destruct Hr as [|[= ->]]; auto.
Qed.

Lemma held_same hole w w' r : owned w' ≡ₚ owned w -> held_by hole w r -> held_by hole w' r.
Proof. intros Hp. unfold held_by. by rewrite Hp. Qed.

(** *** What a branch leaves alone *)

(** [w'] has the tasks of [w] and its restores. *)
Definition same_tasks (w w' : t) : Prop :=
  protocol_executions w' = protocol_executions w /\ network_proxies w' = network_proxies w /\
  pending_room_restores w' = pending_room_restores w.

Lemma tasks_same w w' : same_tasks w w' -> Tasks w -> Tasks w'.
Proof.
  intros (Hex & Hpx & Hrs) Ht. unfold executing, proxied in *.
  split; unfold executing, proxied; rewrite ?Hex, ?Hpx, ?Hrs; apply Ht.
Qed.

(** [w'] agrees with [w] on busy rooms and waiting requests, except for [r]. *)
Definition same_off (r : RoomId) (w w' : t) : Prop :=
  (forall r', r' <> r -> (r' ∈ busy_rooms w' <-> r' ∈ busy_rooms w)) /\
  (forall r', r' <> r -> pending_local w' !! r' = pending_local w !! r').

(** If the tasks are the same, and requests sent to other rooms, all rooms but [r]
    wait as before. *)
Lemma waits_off r x hole hole' w w' :
  same_tasks w w' -> same_off r w w' ->
  (forall r', r' <> r -> requested w' r' <-> requested w r') ->
  hole = Some (r, x) \/ hole = None -> hole' = Some (r, x) \/ hole' = None ->
  (hole' = None -> r ∈ busy_rooms w' <-> r ∈ executing w' \/ requested w' r) ->
  (forall q, pending_local w' !! r = Some q ->
     wf_queue r q /\ (fst <$> hole' = Some r \/ r ∈ busy_rooms w')) ->
  Waits hole w -> Waits hole' w'.
Proof.
  intros (Hex & Hpx & Hrs) [Hb Hpl] Hrq Hh Hh' Hr Hq Hw. split.
  - intros r' Hn. destruct (decide (r' = r)) as [->|Hne]; [destruct Hh' as [->| ->]; auto; done|].
    unfold executing. rewrite Hb, Hrq, Hex by done. apply Hw. destruct Hh as [->| ->]; cbn; congruence.
  - intros r' q Hl. destruct (decide (r' = r)) as [->|Hne].
    { destruct (Hq q Hl) as [? [|]]; auto. }
    rewrite Hpl in Hl by done. destruct (pl_wait Hw Hl) as (? & [Hf|[|Hp]]); split; try done.
    + destruct Hh as [->| ->]; [|done]. by injection Hf as ->.
    + right; left. by apply Hb.
    + right; right. unfold proxied. by rewrite Hpx.
Qed.

(** [w'] has the idle rooms of [w], and a later [fresh]. *)
Definition same_rooms (w w' : t) : Prop :=
  rooms_coordination w' = rooms_coordination w /\ rooms_rpc w' = rooms_rpc w /\
  requests w' = requests w /\ (fresh w <= fresh w')%nat.

Lemma same_rooms_requested w w' r : same_rooms w w' -> requested w' r <-> requested w r.
Proof. intros (Hc & _ & Hr & _). unfold requested. by rewrite Hc, Hr. Qed.

(** The channels are in order if all that changes is who owns the rooms, and request
    channels are dropped or made. *)
Lemma channels_same_rooms hole hole' w w' :
  same_rooms w w' -> (forall r, held_by hole w r -> held_by hole' w' r) ->
  NoDup (live_requests w') ->
  (forall tx, tx ∈ live_requests w' ->
     tx ∈ live_requests w \/ (fresh w <= tx)%nat /\ (tx < fresh w')%nat) ->
  Channels hole w -> Channels hole' w'.
Proof.
  intros (Hco & Hrpc & Hreq & Hf) Hheld Hnd Hlive Hc.
  split; rewrite ?Hco, ?Hrpc, ?Hreq; try apply Hc; [|done|].
  - intros r tx Hr. destruct (rpc_own Hc Hr) as (Ho & Hlt & Hl). split; [auto|]. split; [lia|].
    intros [Ht|Ht]%Hlive; [auto|lia].
  - intros tx [Ht%(live_fresh Hc)|Ht]%Hlive; lia.
Qed.

Lemma live_same_rooms w w' :
  rooms_coordination w' = rooms_coordination w ->
  pending_room_restores w' = pending_room_restores w -> live_requests w' = live_requests w.
Proof. intros Hco Hrs. unfold live_requests. by rewrite Hco, Hrs. Qed.

(** The common case: no request channel changes. *)
Lemma channels_kept hole hole' w w' :
  same_rooms w w' -> pending_room_restores w' = pending_room_restores w ->
  (forall r, held_by hole w r -> held_by hole' w' r) ->
  Channels hole w -> Channels hole' w'.
Proof.
  intros Hsr Hrs Hheld Hc. pose proof (live_same_rooms w w' (proj1 Hsr) Hrs) as Hl.
  eapply channels_same_rooms; [done|done|rewrite Hl; apply Hc|rewrite Hl; auto|done].
Qed.

(** *** A phase 1 *)

Lemma owned_take_idle w w' ch :
  rooms_coordination w ≡ₚ ch :: rooms_coordination w' -> same_tasks w w' ->
  owned w ≡ₚ (p1_id ch, p1_rx ch) :: owned w' /\
  live_requests w ≡ₚ p1_request ch :: live_requests w'.
Proof.
  intros Hp (_ & Hn & Hr). unfold owned, live_requests. rewrite Hn, Hr, Hp. done.
Qed.

(** The other idle rooms have other request channels. *)
Lemma other_request w ch ch' :
  p1_request ch ∉ live_requests w -> ch' ∈ rooms_coordination w ->
  p1_request ch' <> p1_request ch.
Proof. intros Hn Hc%live_coord Heq. by rewrite Heq in Hc. Qed.

(** Requests sent to rooms when the idle room [ch] comes or goes. *)
Lemma requested_off w w' ch r :
  rooms_coordination w' ≡ₚ ch :: rooms_coordination w -> p1_request ch ∉ live_requests w ->
  (forall tx, tx <> p1_request ch -> requests w' !! tx = requests w !! tx) ->
  requested w' r <-> requested w r \/ (r = p1_id ch /\ is_Some (requests w' !! p1_request ch)).
Proof.
  intros Hco Hn Hreq. unfold requested. split.
  - intros (ch' & Hc & <- & Hs). rewrite Hco in Hc.
    apply elem_of_cons in Hc as [->|Hc]; [by right|]. left. exists ch'.
    rewrite Hreq in Hs by (by eapply other_request). done.
  - intros [(ch' & Hc & <- & Hs)|[-> Hs]].
    + exists ch'. rewrite Hco, Hreq by (by eapply other_request). split; [by constructor|done].
    + exists ch. rewrite Hco. split; [by constructor|done].
Qed.

Lemma channels_take_idle w w' ch rx :
  rooms_coordination w ≡ₚ ch :: rooms_coordination w' ->
  live_requests w ≡ₚ p1_request ch :: live_requests w' ->
  rooms_rpc w' = rooms_rpc w -> requests w' = delete (p1_request ch) (requests w) ->
  fresh w' = fresh w ->
  (forall r, held_by None w r -> held_by (Some (p1_id ch, rx)) w' r) ->
  Channels None w -> Channels (Some (p1_id ch, rx)) w'.
Proof.
  intros Hco Hlive Hrpc Hreq Hf Hheld Hc.
  pose proof (live_nodup Hc) as Hln. rewrite Hlive in Hln. apply NoDup_cons in Hln as [Hn Hln].
  split; [| | |done|].
  - intros tx. rewrite Hreq. intros [x [Htx Hx]%lookup_delete_Some].
    destruct (rq_live Hc (mk_is_Some _ _ Hx)) as (ch' & Hin & <-). exists ch'. split; [|done].
    rewrite Hco in Hin. by apply elem_of_cons in Hin as [->|].
  - intros ch' Hin Hno. rewrite Hrpc. apply (rpc_idle Hc); [rewrite Hco; by constructor|].
    rewrite Hreq, lookup_delete_ne in Hno; [done|]. apply not_eq_sym. by eapply other_request.
  - intros r tx Hr. rewrite Hrpc in Hr. destruct (rpc_own Hc Hr) as (Ho & Hlt & Hl).
    rewrite Hf. split; [auto|]. split; [done|]. intros Ht.
    destruct Hl as (ch' & Hin & Hid & Htx); [rewrite Hlive; by constructor|].
    exists ch'. rewrite Hco in Hin. apply elem_of_cons in Hin as [->|]; [|done].
    by rewrite <- Htx in Ht.
  - intros tx Ht. rewrite Hf. apply (live_fresh Hc). rewrite Hlive. by constructor.
Qed.

(** The branch of a phase 1 takes its room. *)
Lemma take_idle rooms w w' ch rx :
  Inv rooms None w -> rooms_coordination w ≡ₚ ch :: rooms_coordination w' ->
  p1_rx ch = Some rx -> same_tasks w w' -> same_off (p1_id ch) w w' ->
  (forall q, pending_local w' !! p1_id ch = Some q -> wf_queue (p1_id ch) q) ->
  rooms_rpc w' = rooms_rpc w -> requests w' = delete (p1_request ch) (requests w) ->
  fresh w' = fresh w ->
  Inv rooms (Some (p1_id ch, rx)) w'.
Proof.
  intros Hi Hco Hrx Hst Hoff Hq Hrpc Hreq Hfresh.
  destruct (owned_take_idle w w' ch Hco Hst) as [Hown Hlive]. rewrite Hrx in Hown.
  pose proof (live_nodup Hi) as Hln. rewrite Hlive in Hln. apply NoDup_cons in Hln as [Hn _].
  split.
  - by eapply owners_take, Hi.
  - by eapply tasks_same, Hi.
  - eapply channels_take_idle; eauto using held_take, inv_channels.
  - eapply (waits_off (p1_id ch) rx None); eauto using inv_waits.
    + intros r Hr. rewrite (requested_off w' w ch r Hco Hn); [naive_solver|].
      intros tx Ht. by rewrite Hreq, lookup_delete_ne.
    + done.
Qed.

(** A room with no owner is not executing. *)
Lemma hole_not_executing rooms r rx w :
  Inv rooms (Some (r, rx)) w -> r ∉ executing w /\ r ∉ proxied w /\
  pending_room_restores w !! r = None.
Proof.
  intros Hi. pose proof (own_hole Hi eq_refl) as Hn. rewrite owned_rooms in Hn.
  assert (r ∉ proxied w) by tauto.
  assert (pending_room_restores w !! r = None) by (apply eq_None_not_Some; tauto).
  split; [|done]. intros He%(ex_own Hi). tauto.
Qed.

Lemma channels_give_idle w w' ch rx :
  rooms_coordination w' ≡ₚ ch :: rooms_coordination w ->
  live_requests w' ≡ₚ p1_request ch :: live_requests w ->
  p1_id ch ∉ (owned w).*1 -> p1_id ch ∈ (owned w').*1 ->
  (forall r, held_by (Some (p1_id ch, rx)) w r -> held_by None w' r) ->
  (forall r, r <> p1_id ch -> rooms_rpc w' !! r = rooms_rpc w !! r) ->
  (forall tx, rooms_rpc w' !! p1_id ch = Some tx -> tx = p1_request ch) ->
  (forall tx, tx <> p1_request ch -> requests w' !! tx = requests w !! tx) ->
  (requests w' !! p1_request ch = None -> rooms_rpc w' !! p1_id ch = Some (p1_request ch)) ->
  p1_request ch ∉ live_requests w ->
  (forall r, rooms_rpc w !! r = Some (p1_request ch) -> r = p1_id ch) ->
  (fresh w <= fresh w')%nat -> (p1_request ch < fresh w')%nat ->
  Channels (Some (p1_id ch, rx)) w -> Channels None w'.
Proof.
  intros Hco Hlive Hno Hown Hheld Hrpc Hrpc' Hreq Hidle Hn Huniq Hf Hf' Hc.
  split.
  - intros tx Hs. destruct (decide (tx = p1_request ch)) as [->|Ht].
    + exists ch. rewrite Hco. split; [constructor|done].
    + rewrite Hreq in Hs by done. apply (rq_live Hc) in Hs as (ch' & Hin & <-).
      exists ch'. rewrite Hco. split; [by constructor|done].
  - intros ch' Hin Hnone. rewrite Hco in Hin. apply elem_of_cons in Hin as [->|Hin]; [auto|].
    rewrite Hreq in Hnone by (by eapply other_request). rewrite Hrpc; [by apply (rpc_idle Hc)|].
    intros Heq. apply Hno, owned_rooms. left. eauto.
  - intros r tx Hr. rewrite Hlive. destruct (decide (r = p1_id ch)) as [->|Hne].
    + apply Hrpc' in Hr as ->. split; [by left|]. split; [done|].
      intros _. exists ch. rewrite Hco. split; [constructor|done].
    + rewrite Hrpc in Hr by done. destruct (rpc_own Hc Hr) as (Ho & Hlt & Hl).
      split; [auto|]. split; [lia|]. intros [->|Ht]%elem_of_cons; [by destruct Hne; auto|].
      destruct (Hl Ht) as (ch' & Hin & ? & ?). exists ch'. rewrite Hco.
      split; [by constructor|done].
  - rewrite Hlive. apply NoDup_cons. split; [done|apply Hc].
  - intros tx Ht. rewrite Hlive in Ht. apply elem_of_cons in Ht as [->|Ht]; [done|].
    apply (live_fresh Hc) in Ht. lia.
Qed.

(** The branch gives its room back as a phase 1, either idle or with a local
    request waiting in it. *)
Lemma give_idle rooms w w' ch rx :
  Inv rooms (Some (p1_id ch, rx)) w -> p1_rx ch = Some rx ->
  rooms_coordination w' ≡ₚ ch :: rooms_coordination w -> same_tasks w w' ->
  same_off (p1_id ch) w w' ->
  (forall q, pending_local w' !! p1_id ch = Some q ->
     wf_queue (p1_id ch) q /\ p1_id ch ∈ busy_rooms w') ->
  (forall r, r <> p1_id ch -> rooms_rpc w' !! r = rooms_rpc w !! r) ->
  (forall tx, rooms_rpc w' !! p1_id ch = Some tx -> tx = p1_request ch) ->
  (forall tx, tx <> p1_request ch -> requests w' !! tx = requests w !! tx) ->
  (requests w' !! p1_request ch = None -> rooms_rpc w' !! p1_id ch = Some (p1_request ch)) ->
  (p1_id ch ∈ busy_rooms w' <-> is_Some (requests w' !! p1_request ch)) ->
  p1_request ch ∉ live_requests w ->
  (forall r, rooms_rpc w !! r = Some (p1_request ch) -> r = p1_id ch) ->
  (fresh w <= fresh w')%nat -> (p1_request ch < fresh w')%nat ->
  Inv rooms None w'.
Proof.
  intros Hi Hrx Hco Hst Hoff Hq Hrpc Hrpc' Hreq Hidle Hb Hn Huniq Hf Hf'.
  destruct (hole_not_executing _ _ _ _ Hi) as (Hnex & _ & _).
  pose proof (own_hole Hi eq_refl) as Hnotin.
  assert (same_tasks w' w) as Hst' by (unfold same_tasks in *; intuition congruence).
  destruct (owned_take_idle w' w ch Hco Hst') as [Hown Hlive]. rewrite Hrx in Hown.
  pose proof (requested_off w w' ch) as Hrq.
  assert (~ requested w (p1_id ch)) as Hnrq.
  { intros (ch' & Hc & Hid & _). apply Hnotin, owned_rooms. left. eauto. }
  split.
  - by eapply owners_give, Hi.
  - by eapply tasks_same, Hi.
  - eapply channels_give_idle; eauto using held_give, inv_channels.
    rewrite Hown. constructor.
  - eapply (waits_off (p1_id ch) rx (Some (p1_id ch, rx))); eauto using inv_waits.
    + intros r Hr. rewrite Hrq by done. naive_solver.
    + intros _. rewrite Hb, Hrq by done. destruct Hst as (Hex & _).
      unfold executing in *. rewrite Hex. tauto.
    + intros q Hl. destruct (Hq q Hl). auto.
Qed.

(** *** A proxy *)

(** A proxy whose computation is over gives its room to the branch. *)
Lemma take_proxy rooms w w' px rx :
  Inv rooms None w -> network_proxies w ≡ₚ px :: network_proxies w' ->
  ReceiverProxy.request_receiver px = Some rx ->
  ReceiverProxy.room_id px ∉ busy_rooms w ->
  protocol_executions w' = protocol_executions w ->
  pending_room_restores w' = pending_room_restores w ->
  busy_rooms w' = busy_rooms w -> pending_local w' = pending_local w -> same_rooms w w' ->
  Inv rooms (Some (ReceiverProxy.room_id px, rx)) w'.
Proof.
  intros Hi Hpx Hrx Hnb Hex Hrs Hb Hpl Hsr. set (r := ReceiverProxy.room_id px) in *.
  assert (executing w' = executing w) as Hexe by (unfold executing; by rewrite Hex).
  assert (owned w ≡ₚ (r, Some rx) :: owned w') as Hown.
  { unfold owned. rewrite (proj1 Hsr), Hrs, Hpx. cbn [fmap list_fmap]. rewrite Hrx.
    cbn [app]. by rewrite <- Permutation_middle. }
  assert (forall r', r' ∈ proxied w <-> r' = r \/ r' ∈ proxied w') as Hpr.
  { intros r'. unfold proxied. rewrite Hpx. cbn. by rewrite elem_of_cons. }
  split.
  - by eapply owners_take, Hi.
  - split; rewrite ?Hexe, ?Hrs; try apply Hi.
    intros r' He. destruct (ex_own Hi He) as [[->|]%Hpr|]; auto.
    destruct Hnb. apply (busy_iff Hi); [done|by left].
  - eapply channels_kept; eauto using held_take, inv_channels.
  - split; rewrite ?Hb, ?Hpl, ?Hexe.
    + intros r' _. rewrite (same_rooms_requested w w') by done. by apply (busy_iff Hi).
    + intros r' q Hl. destruct (pl_wait Hi Hl) as (? & [|[|[->|]%Hpr]]); [done|auto..].
Qed.

(** A proxy that ends while its room is busy parks the room's new phase 1 until
    the execution ends. *)
Lemma park_tasks w w' px p1 :
  Tasks w -> network_proxies w ≡ₚ px :: network_proxies w' ->
  p1_id p1 = ReceiverProxy.room_id px -> p1_id p1 ∈ executing w ->
  protocol_executions w' = protocol_executions w ->
  pending_room_restores w' = <[p1_id p1 := (p1, p1_request p1)]> (pending_room_restores w) ->
  Tasks w'.
Proof.
  intros Ht Hpx Hid Hexr Hex Hrs.
  assert (executing w' = executing w) as Hexe by (unfold executing; by rewrite Hex).
  split; rewrite ?Hexe; [apply Ht| | |].
  - intros r He. rewrite Hrs. destruct (decide (r = p1_id p1)) as [->|Hne].
    { right. rewrite lookup_insert_eq. by eexists. }
    rewrite lookup_insert_ne by done. destruct (ex_own Ht He) as [Hp|]; [|by right].
    left. unfold proxied in *. rewrite Hpx in Hp. cbn in Hp.
    apply elem_of_cons in Hp as [->|]; [|done]. by rewrite Hid in Hne.
  - intros r. rewrite Hrs. destruct (decide (r = p1_id p1)) as [->|Hne]; [done|].
    rewrite lookup_insert_ne by done. apply Ht.
  - intros r p1' tx'. rewrite Hrs. intros [[<- [= <- <-]]|[_ Hl]]%lookup_insert_Some; [done|].
    by apply Ht.
Qed.

Lemma park rooms w w' px p1 :
  Inv rooms None w -> network_proxies w ≡ₚ px :: network_proxies w' ->
  is_Some (ReceiverProxy.request_receiver px) ->
  p1_id p1 = ReceiverProxy.room_id px -> p1_rx p1 = ReceiverProxy.request_receiver px ->
  p1_request p1 = fresh w -> fresh w' = S (fresh w) ->
  p1_id p1 ∈ busy_rooms w ->
  protocol_executions w' = protocol_executions w ->
  pending_room_restores w' = <[p1_id p1 := (p1, p1_request p1)]> (pending_room_restores w) ->
  busy_rooms w' = busy_rooms w -> pending_local w' = pending_local w -> same_rooms w w' ->
  Inv rooms None w'.
Proof.
  intros Hi Hpx Hsome Hid Hprx Htx Hfresh Hbusy Hex Hrs Hb Hpl Hsr. set (r := p1_id p1) in *.
  assert (r ∈ proxied w) as Hrp by (unfold proxied; rewrite Hpx, Hid; constructor).
  destruct (owner_exclusive _ _ _ r Hi) as (Hex1 & _ & Hex3). specialize (Hex3 Hrp).
  assert (r ∈ executing w) as Hexr.
  { apply (busy_iff Hi) in Hbusy as [|(ch & Hc & Hch & _)]; [done| |done].
    exfalso. apply Hex1; eauto. }
  assert (map_to_list (pending_room_restores w') ≡ₚ
          (r, (p1, p1_request p1)) :: map_to_list (pending_room_restores w)) as Hml
    by (rewrite Hrs; by apply map_to_list_insert).
  assert (owned w' ≡ₚ owned w) as Hown.
  { unfold owned. rewrite (proj1 Hsr), Hml, Hpx. cbn [fmap list_fmap fst snd].
    rewrite Hprx, Hid. cbn [app]. by rewrite <- Permutation_middle. }
  assert (live_requests w' ≡ₚ p1_request p1 :: live_requests w) as Hlive.
  { unfold live_requests. rewrite (proj1 Hsr), Hml. cbn [fmap list_fmap fst snd].
    by rewrite <- Permutation_middle. }
  split.
  - by eapply owners_same, Hi.
  - by eapply park_tasks; eauto using inv_tasks.
  - eapply channels_same_rooms; eauto using held_same, inv_channels.
    + rewrite Hlive. apply NoDup_cons. split; [|apply Hi].
      intros Hl%(live_fresh Hi). lia.
    + intros tx. rewrite Hlive. intros [->|]%elem_of_cons; [right; lia|by left].
  - split; rewrite ?Hb, ?Hpl; unfold executing; rewrite ?Hex.
    + intros r' Hr. rewrite (same_rooms_requested w w') by done. by apply (busy_iff Hi).
    + intros r' q Hl. destruct (pl_wait Hi Hl) as (Hqq & [|[|Hp]]); [done|auto|].
      split; [done|]. unfold proxied in *. rewrite Hpx in Hp. cbn in Hp.
      apply elem_of_cons in Hp as [->|]; [|auto]. right; left. by rewrite <- Hid.
Qed.

(** *** An execution *)

(** The restores with one entry more or less. *)
Lemma map_to_list_delete_perm (m : gmap RoomId (Phase1Channel * nat)) r x :
  m !! r = Some x -> map_to_list m ≡ₚ (r, x) :: map_to_list (delete r m).
Proof. intros Hr. symmetry. by apply map_to_list_delete. Qed.

(** When the execution of [r] ends, [r] is not busy any more and the others are as
    busy as they were. *)
Lemma waits_end hole w w' r e :
  protocol_executions w ≡ₚ (r, e) :: protocol_executions w' -> r ∉ executing w' ->
  ~ requested w r -> network_proxies w' = network_proxies w ->
  busy_rooms w' = busy_rooms w ∖ {[r]} -> pending_local w' = pending_local w ->
  same_rooms w w' -> r ∈ proxied w \/ fst <$> hole = Some r ->
  Waits None w -> Waits hole w'.
Proof.
  intros Hex Hn Hnr Hpx Hb Hpl Hsr Hr Hw. split; rewrite ?Hb, ?Hpl.
  - intros r' _. rewrite (same_rooms_requested w w'), elem_of_difference, elem_of_singleton,
      (busy_iff Hw) by done.
    assert (executing w ≡ₚ r :: executing w') as -> by (unfold executing; by rewrite Hex).
    rewrite elem_of_cons. naive_solver.
  - intros r' q Hl. unfold proxied in *. rewrite Hpx.
    destruct (pl_wait Hw Hl) as (Hq & [|[Hbr|]]); [done| |auto]. split; [done|].
    destruct (decide (r' = r)) as [->|]; [tauto|]. right; left.
    by rewrite elem_of_difference, elem_of_singleton.
Qed.

Lemma take_restore_tasks w w' r e x :
  Tasks w -> protocol_executions w ≡ₚ (r, e) :: protocol_executions w' ->
  pending_room_restores w !! r = Some x ->
  pending_room_restores w' = delete r (pending_room_restores w) ->
  network_proxies w' = network_proxies w -> Tasks w' /\ r ∉ executing w'.
Proof.
  intros Ht Hex Hr Hrs Hpx.
  assert (executing w ≡ₚ r :: executing w') as Hexe by (unfold executing; by rewrite Hex).
  pose proof (ex_nodup Ht) as Hen. rewrite Hexe in Hen. apply NoDup_cons in Hen as [He Hen].
  split; [|done]. split; [done| | |].
  - intros r' Hr'. unfold proxied. rewrite Hpx, Hrs, lookup_delete_ne by (by intros ->).
    apply (ex_own Ht). rewrite Hexe. by constructor.
  - intros r' [y Hy]. rewrite Hrs in Hy. apply lookup_delete_Some in Hy as [Hne Hy].
    apply mk_is_Some, (rs_ex Ht) in Hy. rewrite Hexe in Hy.
    by apply elem_of_cons in Hy as [->|].
  - intros r' p1' tx'. rewrite Hrs, lookup_delete_Some. intros [_ Hs]. by apply Ht.
Qed.

(** An execution that ends after its proxy takes the parked room. *)
Lemma take_restore rooms w w' r e p1 tx rx :
  Inv rooms None w -> protocol_executions w ≡ₚ (r, e) :: protocol_executions w' ->
  pending_room_restores w !! r = Some (p1, tx) -> p1_rx p1 = Some rx ->
  pending_room_restores w' = delete r (pending_room_restores w) ->
  network_proxies w' = network_proxies w ->
  busy_rooms w' = busy_rooms w ∖ {[r]} -> pending_local w' = pending_local w ->
  same_rooms w w' ->
  Inv rooms (Some (r, rx)) w' /\ p1_request p1 ∉ live_requests w' /\
  (p1_request p1 < fresh w')%nat.
Proof.
  intros Hi Hex Hr Hrx Hrs Hpx Hb Hpl Hsr.
  pose proof (map_to_list_delete_perm _ _ _ Hr) as Hml. rewrite <- Hrs in Hml.
  assert (owned w ≡ₚ (r, Some rx) :: owned w') as Hown.
  { unfold owned. rewrite (proj1 Hsr), Hpx, Hml. cbn [fmap list_fmap fst snd]. rewrite Hrx.
    by rewrite !Permutation_middle. }
  assert (live_requests w ≡ₚ p1_request p1 :: live_requests w') as Hlive.
  { unfold live_requests. rewrite (proj1 Hsr), Hml. cbn [fmap list_fmap fst snd].
    by rewrite <- Permutation_middle. }
  pose proof (live_nodup Hi) as Hln. rewrite Hlive in Hln. apply NoDup_cons in Hln as [Hn Hln].
  assert (p1_request p1 < fresh w)%nat by (eapply (live_fresh Hi), live_restore; eauto).
  destruct (take_restore_tasks w w' r e (p1, tx) Hi Hex Hr Hrs Hpx) as [Ht Hnex].
  destruct (owner_exclusive _ _ _ r Hi) as (_ & Hco & _).
  split; [|split; [done|destruct Hsr as (_ & _ & _ & ?); lia]]. split; [|done| |].
  - by eapply owners_take, Hi.
  - eapply channels_same_rooms; eauto using held_take, inv_channels.
    intros tx' Ht'. left. rewrite Hlive. by constructor.
  - eapply waits_end; eauto using inv_waits. intros (ch & Hc & Hid & _).
    rewrite Hco in Hr; [done|eauto].
Qed.

(** An execution that ends before its proxy leaves the room to the proxy. *)
Lemma execution_first rooms w w' r e :
  Inv rooms None w -> protocol_executions w ≡ₚ (r, e) :: protocol_executions w' ->
  pending_room_restores w !! r = None ->
  pending_room_restores w' = pending_room_restores w -> network_proxies w' = network_proxies w ->
  busy_rooms w' = busy_rooms w ∖ {[r]} -> pending_local w' = pending_local w ->
  same_rooms w w' -> Inv rooms None w'.
Proof.
  intros Hi Hex Hr Hrs Hpx Hb Hpl Hsr.
  assert (owned w' = owned w) as Hown by (unfold owned; by rewrite (proj1 Hsr), Hpx, Hrs).
  assert (executing w ≡ₚ r :: executing w') as Hexe by (unfold executing; by rewrite Hex).
  pose proof (ex_nodup Hi) as Hen. rewrite Hexe in Hen. apply NoDup_cons in Hen as [He Hen].
  assert (r ∈ proxied w) as Hrp.
  { destruct (ex_own Hi (r:=r)) as [|[x Hx]]; [rewrite Hexe; constructor|done|congruence]. }
  destruct (owner_exclusive _ _ _ r Hi) as (Hex1 & _ & _).
  split.
  - eapply owners_same, Hi. by rewrite Hown.
  - split; unfold proxied; rewrite ?Hpx, ?Hrs; try apply Hi; [done| |].
    + intros r' Hr'. apply (ex_own Hi). rewrite Hexe. by constructor.
    + intros r' Hs. pose proof (rs_ex Hi Hs) as Hs'. rewrite Hexe in Hs'.
      apply elem_of_cons in Hs' as [->|]; [|done]. rewrite Hr in Hs. by destruct Hs.
  - eapply channels_kept; eauto using inv_channels. intros r'. unfold held_by. by rewrite Hown.
  - eapply waits_end; eauto using inv_waits. intros (ch & Hc & Hid & _). apply Hex1; eauto.
Qed.

(** The branch gives its room to a computation and its proxy. *)
Lemma give_running rooms w w' r rx e px :
  Inv rooms (Some (r, rx)) w ->
  protocol_executions w' = protocol_executions w ++ [(r, e)] ->
  network_proxies w' = network_proxies w ++ [px] ->
  ReceiverProxy.room_id px = r -> ReceiverProxy.request_receiver px = Some rx ->
  pending_room_restores w' = pending_room_restores w ->
  busy_rooms w' = {[r]} ∪ busy_rooms w -> pending_local w' = pending_local w ->
  same_rooms w w' -> Inv rooms None w'.
Proof.
  intros Hi Hex Hpx Hid Hrx Hrs Hb Hpl Hsr.
  destruct (hole_not_executing _ _ _ _ Hi) as (Hnex & Hnpx & Hnrs).
  assert (owned w' ≡ₚ (r, Some rx) :: owned w) as Hown.
  { unfold owned. rewrite (proj1 Hsr), Hpx, Hrs, fmap_app. cbn [fmap list_fmap].
    rewrite Hid, Hrx. by rewrite <- !app_assoc, !Permutation_middle. }
  assert (executing w' ≡ₚ r :: executing w) as Hexe.
  { unfold executing. rewrite Hex, fmap_app. cbn. by rewrite Permutation_app_comm. }
  assert (forall r', r' ∈ proxied w' <-> r' = r \/ r' ∈ proxied w) as Hpr.
  { intros r'. unfold proxied. rewrite Hpx, fmap_app, elem_of_app. cbn.
    rewrite list_elem_of_singleton, Hid. tauto. }
  split.
  - by eapply owners_give, Hi.
  - split; rewrite ?Hrs; try apply Hi.
    + rewrite Hexe. apply NoDup_cons. split; [done|apply Hi].
    + intros r'. rewrite Hexe, Hpr, elem_of_cons. pose proof (ex_own Hi (r:=r')). tauto.
    + intros r' Hs. rewrite Hexe. constructor. by apply (rs_ex Hi).
  - eapply channels_kept; eauto using held_give, inv_channels.
  - split; rewrite ?Hb, ?Hpl.
    + intros r' _. rewrite (same_rooms_requested w w'), elem_of_union, elem_of_singleton, Hexe,
        elem_of_cons by done.
      destruct (decide (r' = r)) as [->|Hne]; [tauto|].
      rewrite (busy_iff Hi) by (cbn; congruence). tauto.
    + intros r' q Hl. destruct (pl_wait Hi Hl) as (Hqq & Hw). split; [done|]. right.
      rewrite elem_of_union, elem_of_singleton, Hpr. cbn in Hw. naive_solver.
Qed.

(** ** Steps preserve the invariant *)

(** A request dispatched to a room whose channel is live is sent on it. *)
Lemma dispatch_to_room_live room msg w tx :
  rooms_rpc w !! room = Some tx -> tx ∈ live_requests w ->
  dispatch_to_room room msg w =
  (set_rooms (rooms_coordination w) (delete room (rooms_rpc w)) (<[tx := msg]> (requests w)) w,
   true, []).
Proof.
  intros Hr Hl. unfold dispatch_to_room. rewrite Hr.
  rewrite bool_decide_eq_true_2; [done|exact Hl].
Qed.

Lemma dispatch_local_msg_live m w tx :
  rooms_rpc w !! service_msg_room_id m = Some tx -> tx ∈ live_requests w ->
  exists lm, dispatch_local_msg m w =
    (set_rooms (rooms_coordination w) (delete (service_msg_room_id m) (rooms_rpc w))
       (<[tx := lm]> (requests w)) w, true, []).
Proof.
  intros Hr Hl. destruct m; cbn [dispatch_local_msg]; cbn in Hr;
    eexists; by apply dispatch_to_room_live.
Qed.

(** A room that comes back, with the first of its waiting requests. *)
Lemma reopen_inv rooms w ch rx :
  Inv rooms (Some (p1_id ch, rx)) w -> p1_rx ch = Some rx ->
  p1_id ch ∉ busy_rooms w -> p1_request ch ∉ live_requests w ->
  (forall r, rooms_rpc w !! r = Some (p1_request ch) -> r = p1_id ch) ->
  (p1_request ch < fresh w)%nat ->
  Inv rooms None
    (dispatch_pending_local (p1_id ch) (restore_room (p1_id ch) ch (p1_request ch) w)).1.
Proof.
  intros Hi Hrx Hnb Hnl Huniq Hlt. set (r := p1_id ch) in *. set (tx := p1_request ch) in *.
  assert (requests w !! tx = None) as Hrq.
  { apply eq_None_not_Some. intros Hs. apply (rq_live Hi) in Hs as (ch' & Hc & Heq).
    apply Hnl. rewrite <- Heq. by apply live_coord. }
  unfold dispatch_pending_local. cbn [restore_room set_rooms busy_rooms pending_local].
  rewrite bool_decide_eq_false_2 by done.
  assert (rooms_coordination w ++ [ch] ≡ₚ ch :: rooms_coordination w) as Hperm
    by (by rewrite Permutation_app_comm).
  destruct (pending_local w !! r) as [[|msg q]|] eqn:Hpl.
  - by destruct (pl_wait Hi Hpl) as ([? _] & _).
  - destruct (pl_wait Hi Hpl) as ([_ Hq] & _). apply Forall_cons in Hq as [Hm Hq].
    set (w1 := set_pending _ _).
    destruct (dispatch_local_msg_live msg w1 tx) as [lm Hd].
    { rewrite Hm. cbn. by rewrite lookup_insert_eq. }
    { apply live_coord. cbn. apply elem_of_app. right. constructor. }
    rewrite Hd, Hm. cbn [fst].
    assert (forall r', r' <> r -> match q with
      | [] => delete r (pending_local w) | _ :: _ => <[r:=q]> (pending_local w) end !! r' =
      pending_local w !! r') as Hpend.
    { intros r' Hr'. destruct q; [by rewrite lookup_delete_ne|by rewrite lookup_insert_ne]. }
    eapply (give_idle _ _ _ ch rx Hi Hrx); cbn; fold r tx; try done.
    + split; cbn; [|exact Hpend]. intros r' Hr'. set_solver.
    + intros q' Hq'. split; [|set_solver]. destruct q as [|m' q].
      * by rewrite lookup_delete_eq in Hq'.
      * rewrite lookup_insert_eq in Hq'. by injection Hq' as <-.
    + intros r' Hr'. by rewrite lookup_delete_ne, lookup_insert_ne by done.
    + intros tx'. by rewrite lookup_delete_eq.
    + intros tx' Ht. by rewrite lookup_insert_ne.
    + by rewrite lookup_insert_eq.
    + rewrite lookup_insert_eq. split; [by eexists|set_solver].
  - eapply (give_idle _ _ _ ch rx Hi Hrx); cbn; fold r tx; try done.
    + by rewrite Hpl.
    + intros r' Hr'. by rewrite lookup_insert_ne.
    + intros tx'. rewrite lookup_insert_eq. naive_solver.
    + by rewrite lookup_insert_eq.
    + rewrite Hrq. split; [done|]. by intros [? ?].
Qed.

(** The branch that holds a room may change its busy mark and take names. *)
Lemma hole_update rooms r rx w w' :
  Inv rooms (Some (r, rx)) w -> same_tasks w w' -> same_off r w w' -> same_rooms w w' ->
  pending_local w' !! r = pending_local w !! r ->
  Inv rooms (Some (r, rx)) w'.
Proof.
  intros Hi Hst Hoff Hsr Hpl. pose proof Hst as (Hex & Hpx & Hrs).
  assert (owned w' = owned w) as Hown by (unfold owned; by rewrite (proj1 Hsr), Hpx, Hrs).
  split.
  - eapply owners_same, Hi. by rewrite Hown.
  - by eapply tasks_same, Hi.
  - eapply channels_kept; eauto using inv_channels. intros r'. unfold held_by. by rewrite Hown.
  - eapply (waits_off r rx (Some (r, rx))); eauto using inv_waits, same_rooms_requested; [done|].
    rewrite Hpl. intros q Hl. split; [apply (pl_wait Hi Hl)|by left].
Qed.

(** The same for a branch that made a fresh request channel. *)
Lemma reopen_fresh rooms w ch rx :
  Inv rooms (Some (p1_id ch, rx)) w -> p1_rx ch = Some rx -> p1_request ch = fresh w ->
  Inv rooms None (reopen (p1_id ch) ch (p1_request ch) w).1.
Proof.
  intros Hi Hrx Hf. unfold reopen. eapply reopen_inv; [|exact Hrx|..]; cbn.
  - eapply hole_update; [exact Hi|done| |split; [done|split; [done|split; [done|cbn; lia]]]|done].
    split; [|done]. cbn. set_solver.
  - set_solver.
  - intros Hl. apply (live_fresh Hi) in Hl. lia.
  - intros r Hr. destruct (rpc_own Hi Hr) as (_ & Hlt & _). lia.
  - lia.
Qed.

Lemma begin_inv rooms r rx sid request a px ps reply w w' :
  Inv rooms (Some (r, rx)) w -> ReceiverProxy.room_id px = r ->
  ReceiverProxy.request_receiver px = Some rx ->
  begin r sid request a px ps reply w = Ok w' -> Inv rooms None w'.
Proof.
  intros Hi Hid Hrx. unfold begin. destruct ProtocolExecution.new as [e| |]; try done.
  intros [= <-]. eapply (give_running _ _ _ r rx e px Hi); try done.
Qed.

Lemma from_remote_inv rooms pid tx ch os w w' out rx :
  Inv rooms (Some (Coordination.p2_id ch, rx)) w -> Coordination.p2_rx ch = Some rx ->
  from_remote pid tx ch os w = Ok (w', out) -> Inv rooms None w'.
Proof.
  intros Hi Hrx. unfold from_remote.
  set (w1 := set_busy _ w).
  assert (Inv rooms (Some (Coordination.p2_id ch, rx)) w1) as Hi1.
  { eapply hole_update; [exact Hi|done|split; [|done]; cbn; set_solver|done|done]. }
  clearbody w1. destruct (factory_make pid).
  - set (os' := _ <$> os).
    assert (Forall (fun o => Coordination.fresh2 o = fresh w1) os') as Hos
      by (apply Forall_fmap, Forall_true; done).
    pose proof (Coordination.phase2_run_room local ch (fresh w1) os' Hos) as Hp.
    destruct Coordination.phase2_run as [room px ps body sid out'|room p1 tx' out'| |]; try done.
    + destruct Hp as (-> & Hid & Hpr). intros Hb. inv_ok.
      eapply begin_inv; [exact Hi1|done| |done]. by rewrite Hpr.
    + destruct Hp as (-> & Hid & Hpr & <- & Hf). rewrite <- Hid in Hi1 |- *.
      pose proof (reopen_fresh rooms w1 p1 rx Hi1) as Hro.
      destruct reopen as [w2 out2]. intros [= <- _]. apply Hro; congruence.
  - pose proof (Coordination.back_to_phase1_room ch (fresh w1) []) as Hp.
    unfold Coordination.phase2_abort.
    destruct Coordination.back_to_phase1 as [|room p1 tx' out'| |]; try done.
    destruct Hp as (-> & Hid & Hpr & <- & Hf). rewrite <- Hid in Hi1 |- *.
    pose proof (reopen_fresh rooms w1 p1 rx Hi1) as Hro.
    destruct reopen as [w2 out2]. intros [= <- _]. apply Hro; congruence.
Qed.

Lemma from_local_inv rooms id ng os w w' out rx :
  Inv rooms (Some (id, rx)) w -> Negotiation.holds id rx ng ->
  from_local id ng os w = Ok (w', out) -> Inv rooms None w'.
Proof.
  intros Hi Hh. unfold from_local. set (os' := _ <$> os).
  assert (Forall (fun o => Negotiation.fresh o = fresh w) os') as Hos
    by (apply Forall_fmap, Forall_true; done).
  pose proof (Negotiation.run_passes_on local id rx (fresh w) ng os' Hh Hos) as Hp.
  destruct Negotiation.run as [|a reply px ps req sid out'|room p1 tx reply out'|]; try done.
  - destruct Hp as [Hid Hpr]. intros Hb. inv_ok. by eapply begin_inv.
  - destruct Hp as (-> & Hid & Hpr & <- & Hf). rewrite <- Hid in Hi |- *.
    pose proof (reopen_fresh rooms w p1 rx Hi) as Hro.
    destruct reopen as [w2 out2]. intros [= <- _]. apply Hro; congruence.
Qed.
(** A room with no task and no waiting request. *)
Record quiet (w : t) (room : RoomId) : Prop := {
  quiet_ex : room ∉ executing w;
  quiet_rq : ~ requested w room;
  quiet_px : room ∉ proxied w;
  quiet_rs : pending_room_restores w !! room = None;
  quiet_pl : pending_local w !! room = None;
}.

Lemma not_busy_quiet rooms w room :
  Inv rooms None w -> room ∉ busy_rooms w -> room ∉ proxied w -> quiet w room.
Proof.
  intros Hi Hnb Hnp. pose proof Hnb as Hnb'. rewrite (busy_iff Hi) in Hnb' by done.
  split; [tauto|tauto|done| |].
  - apply eq_None_not_Some. intros Hs%(rs_ex Hi). tauto.
  - apply eq_None_not_Some. intros [q Hq]. apply (pl_wait Hi) in Hq. naive_solver.
Qed.

Lemma coord_rx rooms hole w k ch :
  Inv rooms hole w -> rooms_coordination w !! k = Some ch -> exists rx, p1_rx ch = Some rx.
Proof.
  intros Hi Hk. eapply (own_some Hi (r:=p1_id ch)). unfold owned. apply elem_of_app. left.
  apply list_elem_of_fmap. exists ch. split; [done|]. by eapply list_elem_of_lookup_2.
Qed.

(** The branch of a local request for a room in phase 1. *)
Lemma request_idle rooms w m k ch :
  Inv rooms None w -> quiet w (service_msg_room_id m) ->
  rooms_coordination w !! k = Some ch -> p1_id ch = service_msg_room_id m ->
  exists w', dispatch_local_msg m w = (w', true, []) /\
    Inv rooms None (set_busy ({[service_msg_room_id m]} ∪ busy_rooms w') w').
Proof.
  intros Hi [Hnex Hnrq Hnp Hnrs Hnpl] Hk Hid. rewrite <- Hid in *.
  assert (ch ∈ rooms_coordination w) as Hc by by eapply list_elem_of_lookup_2.
  assert (requests w !! p1_request ch = None) as Hrq.
  { apply eq_None_not_Some. intros Hs. apply Hnrq. by exists ch. }
  pose proof (rpc_idle Hi Hc Hrq) as Htx.
  destruct (dispatch_local_msg_live m w (p1_request ch)) as [lm Hlm];
    [by rewrite <- Hid|by apply live_coord|]. rewrite <- Hid in Hlm. eexists. split; [exact Hlm|].
  destruct (coord_rx _ _ _ _ _ Hi Hk) as [rx Hrx].
  pose proof (delete_Permutation _ _ _ Hk) as Hperm.
  set (w1 := set_rooms (delete k (rooms_coordination w)) (rooms_rpc w)
               (delete (p1_request ch) (requests w)) w).
  assert (Inv rooms (Some (p1_id ch, rx)) w1) as Hi1.
  { eapply (take_idle _ w w1); try done. cbn. intros q. by rewrite Hnpl. }
  destruct (owned_take_idle w w1 ch Hperm) as [_ Hlive]; [done|].
  pose proof (live_nodup Hi) as Hln. rewrite Hlive in Hln.
  apply NoDup_cons in Hln as [Hnl _].
  eapply (give_idle rooms w1 _ ch rx Hi1 Hrx); cbn; try done.
  - split; cbn; [|done]. intros r' Hr'. set_solver.
  - by rewrite Hnpl.
  - intros r Hr. by rewrite lookup_delete_ne.
  - intros tx'. by rewrite lookup_delete_eq.
  - intros tx' Ht. by rewrite lookup_insert_ne, lookup_delete_ne.
  - by rewrite lookup_insert_eq.
  - rewrite lookup_insert_eq. split; [by eexists|set_solver].
  - intros r Hr. destruct (rpc_own Hi Hr) as (_ & _ & Hl).
    destruct Hl as (ch' & Hc' & <- & Heq); [rewrite Hlive; constructor|].
    rewrite Hperm in Hc'. apply elem_of_cons in Hc' as [->|Hc']; [done|].
    destruct Hnl. rewrite <- Heq. by apply live_coord.
  - eapply live_fresh; [exact Hi|]. rewrite Hlive. constructor.
Qed.

(** A request for a room that has no channel goes to a virtual one. *)
Lemma dispatch_virtual m w :
  rooms_rpc w !! service_msg_room_id m = None ->
  exists ch lm, Phase1Channel_new (service_msg_room_id m) (fresh w) (S (fresh w)) =
      (ch, S (fresh w)) /\
    dispatch_local_msg m w =
    (set_fresh (S (S (fresh w)))
       (set_rooms (rooms_coordination w ++ [ch]) (rooms_rpc w)
          (<[S (fresh w) := lm]> (requests w)) w), true, []).
Proof.
  intros Hrpc. destruct m; cbn in Hrpc; eexists; eexists; (split; [reflexivity|]);
    cbn [dispatch_local_msg]; unfold dispatch_to_room; rewrite Hrpc;
    cbn [Phase1Channel_new]; (rewrite bool_decide_eq_true_2; [reflexivity|]);
    unfold live_requests; cbn; rewrite fmap_app; apply elem_of_app; left;
    apply elem_of_app; right; constructor.
Qed.

(** A room nobody owns may be in the hands of the branch. *)
Lemma open_hole rooms w r rx :
  Inv rooms None w -> r ∉ (owned w).*1 -> Inv rooms (Some (r, rx)) w.
Proof.
  intros Hi Hno. split.
  - split; [apply Hi|apply Hi| |].
    + intros r' rx' Hr. left. by destruct (own_rooms Hi Hr).
    + by intros r' rx' [= <- <-].
  - apply Hi.
  - eapply channels_kept; [split; done|done| |apply Hi]. intros r' [|]; [by left|done].
  - split.
    + intros r' _. by apply (busy_iff Hi).
    + intros r' q Hq. destruct (pl_wait Hi Hq) as (? & [|]); [done|]. auto.
Qed.

(** The branch of a local request for a room nobody owns. *)
Lemma request_virtual rooms w m :
  Inv rooms None w -> quiet w (service_msg_room_id m) ->
  service_msg_room_id m ∉ (owned w).*1 ->
  exists w', dispatch_local_msg m w = (w', true, []) /\
    Inv rooms None (set_busy ({[service_msg_room_id m]} ∪ busy_rooms w') w').
Proof.
  intros Hi [Hnex Hnrq Hnp Hnrs Hnpl] Hno. set (room := service_msg_room_id m) in *.
  assert (rooms_rpc w !! room = None) as Hrpc.
  { destruct (rooms_rpc w !! room) as [tx|] eqn:Hr; [|done].
    by destruct (rpc_own Hi Hr) as ([|] & _). }
  destruct (dispatch_virtual m w Hrpc) as (ch & lm & Hch & Hd). eexists. split; [exact Hd|].
  injection Hch as <-. fold room.
  set (ch := {| p1_id := room; p1_rx := Some (fresh w); p1_request := S (fresh w);
                p1_buffered := [] |}).
  assert (Inv rooms (Some (room, fresh w)) w) as Hi1.
  { by apply open_hole. }
  eapply (give_idle rooms w _ ch (fresh w) Hi1); cbn; try done.
  - by rewrite Permutation_app_comm.
  - split; cbn; [|done]. intros r' Hr'. set_solver.
  - by rewrite Hnpl.
  - intros tx' Ht'. congruence.
  - intros tx' Ht. by rewrite lookup_insert_ne.
  - by rewrite lookup_insert_eq.
  - rewrite lookup_insert_eq. split; [by eexists|set_solver].
  - intros Hl%(live_fresh Hi). lia.
  - intros r Hr. destruct (rpc_own Hi Hr) as (_ & Hlt & _). lia.
  - lia.
  - lia.
Qed.

Lemma service_msg_idle rooms w m :
  Inv rooms None w -> service_msg_room_id m ∉ busy_rooms w ->
  service_msg_room_id m ∉ proxied w ->
  exists w', dispatch_local_msg m w = (w', true, []) /\
    Inv rooms None (set_busy ({[service_msg_room_id m]} ∪ busy_rooms w') w').
Proof.
  intros Hi Hnb Hnp. pose proof (not_busy_quiet _ _ _ Hi Hnb Hnp) as Hq.
  destruct (decide (service_msg_room_id m ∈ (owned w).*1)) as [Ho|Ho].
  - apply owned_rooms in Ho as [(ch & Hc & Hid)|[|[x Hx]]]; [|done|].
    + apply list_elem_of_lookup in Hc as [k Hk]. by eapply request_idle.
    + destruct Hq. congruence.
  - by apply request_virtual.
Qed.

(** The branch of a local request for a busy room. *)
Lemma service_msg_busy rooms w m :
  Inv rooms None w -> service_msg_room_id m ∈ busy_rooms w ->
  Inv rooms None
    (set_pending (<[service_msg_room_id m :=
        default [] (pending_local w !! service_msg_room_id m) ++ [m]]> (pending_local w)) w).
Proof.
  intros Hi Hb. set (r := service_msg_room_id m) in *.
  split; [by eapply owners_same, Hi|by eapply tasks_same, Hi|by eapply channels_kept, Hi|].
  split; [apply (inv_waits _ _ _ Hi)|]. intros r' q. cbn. destruct (decide (r' = r)) as [->|Hne].
  - rewrite lookup_insert_eq. intros [= <-]. split; [|auto]. split; [by destruct default|].
    apply Forall_app. split; [|by repeat constructor].
    destruct (pending_local w !! r) as [q|] eqn:Hq; cbn; [|constructor].
    apply (pl_wait Hi Hq).
  - rewrite lookup_insert_ne by done. apply (inv_waits _ _ _ Hi).
Qed.

(** A phase 1 that stays idle keeps its room. *)
Lemma idle_pending rooms w k ch ch' :
  Inv rooms None w -> rooms_coordination w !! k = Some ch ->
  p1_id ch' = p1_id ch -> p1_rx ch' = p1_rx ch -> p1_request ch' = p1_request ch ->
  Inv rooms None
    (set_rooms (<[k := ch']> (rooms_coordination w)) (rooms_rpc w) (requests w) w).
Proof.
  intros Hi Hk Hid Hrx Hreq. set (w' := set_rooms _ _ _ w).
  assert (forall {B} (f : Phase1Channel -> B), f ch' = f ch ->
    f <$> rooms_coordination w' = f <$> rooms_coordination w) as Hmap.
  { intros B f Hf. cbn. rewrite list_fmap_insert, list_insert_id; [done|].
    by rewrite list_lookup_fmap, Hk, Hf. }
  assert (owned w' = owned w) as Hown.
  { unfold owned. rewrite (Hmap _ (fun ch => (p1_id ch, p1_rx ch))); [done|]. by rewrite Hid, Hrx. }
  assert (live_requests w' = live_requests w) as Hlive
    by (unfold live_requests; by rewrite (Hmap _ p1_request)).
  assert (forall r tx, (exists c, c ∈ rooms_coordination w' /\ p1_id c = r /\ p1_request c = tx) <->
    (exists c, c ∈ rooms_coordination w /\ p1_id c = r /\ p1_request c = tx)) as Hin.
  { intros r tx. pose proof (Hmap _ (fun c => (p1_id c, p1_request c)) ltac:(cbn; congruence)) as Hm.
    assert (forall l : list Phase1Channel, (exists c, c ∈ l /\ p1_id c = r /\ p1_request c = tx) <->
      (r, tx) ∈ (fun c => (p1_id c, p1_request c)) <$> l) as Hl.
    { intros l. rewrite list_elem_of_fmap. naive_solver. }
    by rewrite !Hl, Hm. }
  assert (forall r, requested w' r <-> requested w r) as Hrq.
  { intros r. unfold requested. split; intros (c & Hc & Hr & Hs).
    - edestruct (proj1 (Hin r (p1_request c))) as (c' & ? & ? & Heq); [by exists c|].
      exists c'. rewrite Heq. done.
    - edestruct (proj2 (Hin r (p1_request c))) as (c' & ? & ? & Heq); [by exists c|].
      exists c'. rewrite Heq. done. }
  split; [eapply owners_same, Hi; by rewrite Hown|by eapply tasks_same, Hi| |].
  - split; unfold held_by; rewrite ?Hown, ?Hlive; try apply (inv_channels _ _ _ Hi).
    + intros tx Hs. apply (rq_live Hi) in Hs as (c & Hc & <-).
      edestruct (proj2 (Hin (p1_id c) (p1_request c))) as (c' & ? & ? & ?); eauto.
    + intros c Hc Hn. edestruct (proj1 (Hin (p1_id c) (p1_request c))) as (c' & Hc' & H1' & H2');
        [by exists c|]. rewrite <- H1', <- H2' in *. by apply (rpc_idle Hi).
    + intros r tx Hr. destruct (rpc_own Hi Hr) as (? & ? & Hl).
      split; [done|]. split; [done|]. intros Ht. apply Hin. by apply Hl.
  - split; [|apply (inv_waits _ _ _ Hi)]. intros r _. rewrite Hrq. by apply (busy_iff Hi).
Qed.

(** A proxy that goes on keeps its room. *)
Lemma proxy_pending rooms w k px px' :
  Inv rooms None w -> network_proxies w !! k = Some px ->
  ReceiverProxy.room_id px' = ReceiverProxy.room_id px ->
  ReceiverProxy.request_receiver px' = ReceiverProxy.request_receiver px ->
  Inv rooms None (set_tasks (protocol_executions w) (<[k := px']> (network_proxies w)) w).
Proof.
  intros Hi Hk Hid Hrx. set (w' := set_tasks _ _ w).
  assert (forall {B} (f : ReceiverProxy.t -> B), f px' = f px ->
    f <$> network_proxies w' = f <$> network_proxies w) as Hmap.
  { intros B f Hf. cbn. rewrite list_fmap_insert, list_insert_id; [done|].
    by rewrite list_lookup_fmap, Hk, Hf. }
  assert (owned w' = owned w) as Hown.
  { unfold owned. rewrite (Hmap _ (fun px => (ReceiverProxy.room_id px,
      ReceiverProxy.request_receiver px))); [done|]. by rewrite Hid, Hrx. }
  assert (proxied w' = proxied w) as Hpx by (by apply Hmap).
  split; [eapply owners_same, Hi; by rewrite Hown| | |].
  - split; rewrite ?Hpx; apply (inv_tasks _ _ _ Hi).
  - apply (channels_kept None None w w'); [done|done| |apply Hi]. intros r. unfold held_by. by rewrite Hown.
  - split; rewrite ?Hpx; apply (inv_waits _ _ _ Hi).
Qed.

(** A local request that arrives between the end of a room's execution and the
    end of its proxy finds the room neither busy nor open; all other steps are
    calm. *)
Definition calm (w : t) (ev : event) : Prop :=
  match ev with
  | ServiceMsg m => service_msg_room_id m ∈ proxied w -> service_msg_room_id m ∈ busy_rooms w
  | _ => True
  end.

Lemma take_channel rooms w k ch rx :
  Inv rooms None w -> rooms_coordination w !! k = Some ch -> p1_rx ch = Some rx ->
  Inv rooms (Some (p1_id ch, rx))
    (set_rooms (delete k (rooms_coordination w)) (rooms_rpc w)
       (delete (p1_request ch) (requests w)) w).
Proof.
  intros Hi Hk Hrx. eapply (take_idle _ w); try done.
  - cbn. by apply delete_Permutation.
  - intros q Hq. apply (pl_wait Hi Hq).
Qed.

Lemma idle_poll_inv rooms w k now next sid os2 osn w' out :
  Inv rooms None w -> step w (IdlePoll k now next sid os2 osn) = Ok (w', out) ->
  Inv rooms None w'.
Proof.
  intros Hi Hs. cbn [step] in Hs. apply bind_ok in Hs as (ch & Hk%ok_or_ok & Hs).
  destruct (coord_rx _ _ _ _ _ Hi Hk) as [rx Hrx].
  pose proof (take_channel _ _ _ _ _ Hi Hk Hrx) as Hi1.
  set (o := {| Coordination.now1 := now; Coordination.next1 := next;
               Coordination.request1 := request_view w ch;
               Coordination.fresh_session := sid |}) in *.
  pose proof (Coordination.phase1_poll_room local ch o) as Hp.
  destruct (Coordination.phase1_poll local ch o) as [p pid pl tx ch2|id n0 ng out'|ch' out'|];
    try done.
  - destruct Hp as [Hid Hr]. rewrite <- Hid in Hi1. inv_ok.
    eapply from_remote_inv; [exact Hi1|congruence|done].
  - destruct Hp as (rx' & Hr & -> & Hh). rewrite Hrx in Hr. injection Hr as <-. inv_ok.
    by eapply from_local_inv.
  - destruct Hp as (Hid & Hr & Hq & _). inv_ok. by eapply idle_pending.
Qed.

Lemma execution_done_inv rooms w k res w' out :
  Inv rooms None w -> step w (ExecutionDone k res) = Ok (w', out) -> Inv rooms None w'.
Proof.
  intros Hi Hs. cbn [step] in Hs. unfold execution_done in Hs. apply bind_ok in Hs as ([r e] & Hk%ok_or_ok & Hs).
  pose proof (delete_Permutation _ _ _ Hk) as Hperm. cbn [set_busy set_tasks pending_room_restores] in Hs.
  destruct (pending_room_restores w !! r) as [[p1 tx]|] eqn:Hr.
  - destruct (rs_tx Hi Hr) as [Htx Hid]. subst tx.
    assert (exists rx, p1_rx p1 = Some rx) as [rx Hrx].
    { apply (own_some Hi (r:=r)). unfold owned. rewrite !elem_of_app. right; right.
      apply list_elem_of_fmap. exists (r, (p1, p1_request p1)).
      by rewrite elem_of_map_to_list. }
    set (w1 := set_restores _ _) in Hs.
    destruct (take_restore rooms w w1 r e p1 (p1_request p1) rx) as (Hi1 & Hnl & Hlt); try done.
    subst r. pose proof (reopen_inv rooms w1 p1 rx Hi1 Hrx) as Hro.
    destruct dispatch_pending_local as [w2 out2]. injection Hs as <- <-. apply Hro; try done.
    + cbn. set_solver.
    + intros r Hrr. destruct (rpc_own Hi Hrr) as (_ & _ & Hl).
      destruct Hl as (ch & Hc & <- & Heq); [by eapply live_restore|].
      pose proof (live_nodup Hi) as Hln. unfold live_requests in Hln.
      apply NoDup_app in Hln as (_ & Hdis & _). exfalso.
      apply (Hdis (p1_request p1)).
      * rewrite <- Heq. by apply list_elem_of_fmap_2.
      * apply list_elem_of_fmap. exists (p1_id p1, (p1, p1_request p1)).
        by rewrite elem_of_map_to_list.
  - injection Hs as <- <-. by eapply (execution_first rooms w _ r e).
Qed.

Lemma proxy_poll_inv rooms w k o w' out :
  Inv rooms None w -> step w (ProxyPoll k o) = Ok (w', out) -> Inv rooms None w'.
Proof.
  intros Hi Hs. cbn [step] in Hs. unfold proxy_poll in Hs. apply bind_ok in Hs as (px & Hk%ok_or_ok & Hs).
  pose proof (delete_Permutation _ _ _ Hk) as Hperm.
  assert (is_Some (ReceiverProxy.request_receiver px)) as [rx Hrx].
  { apply (own_some Hi (r:=ReceiverProxy.room_id px)). unfold owned. rewrite !elem_of_app.
    right; left. apply list_elem_of_fmap. exists px. split; [done|].
    by eapply list_elem_of_lookup_2. }
  unfold ReceiverProxy.poll in Hs. cbn [ReceiverProxy.tx_is_closed ReceiverProxy.fresh
    ReceiverProxy.next ReceiverProxy.tx_accepts] in Hs. rewrite Hrx in Hs.
  destruct (ReceiverProxy.tx_is_closed o); cbn [Phase1Channel_new] in Hs.
  - set (p1 := {| p1_id := ReceiverProxy.room_id px; p1_rx := Some rx;
                  p1_request := fresh w; p1_buffered := [] |}) in Hs.
    cbn [set_fresh set_tasks busy_rooms pending_room_restores] in Hs.
    set (w1 := set_fresh _ _) in Hs. case_bool_decide as Hb.
    + injection Hs as <- <-. eapply (park rooms w _ px p1); try done.
      split; [done|]. split; [done|]. split; [done|]. cbn. lia.
    + assert (Inv rooms (Some (p1_id p1, rx)) w1) as Hi1.
      { eapply (take_proxy rooms w w1 px rx); try done.
        split; [done|]. split; [done|]. split; [done|]. cbn. lia. }
      pose proof (reopen_inv rooms w1 p1 rx Hi1) as Hro. cbn [p1 p1_id p1_request] in Hro.
      destruct dispatch_pending_local as [w2 out2]. injection Hs as <- <-. apply Hro; try done.
      * intros Hl. apply (live_fresh Hi) in Hl. lia.
      * intros r Hr. destruct (rpc_own Hi Hr) as (_ & Hlt & _). lia.
      * cbn. lia.
  - destruct (ReceiverProxy.buffered px) as [|m rest].
    + destruct (ReceiverProxy.next o); injection Hs as <- <-; by eapply proxy_pending.
    + injection Hs as <- <-. by eapply proxy_pending.
Qed.

(** Every calm step preserves the invariant. *)
Lemma step_inv rooms w ev w' out :
  Inv rooms None w -> calm w ev -> step w ev = Ok (w', out) -> Inv rooms None w'.
Proof.
  intros Hi Hcalm Hs. destruct ev; eauto using idle_poll_inv, execution_done_inv, proxy_poll_inv.
  cbn [step calm] in *. case_bool_decide as Hb.
  - injection Hs as <- <-. by apply service_msg_busy.
  - destruct (service_msg_idle rooms w m) as (w1 & Hd & Hi1); auto.
    rewrite Hd in Hs. by injection Hs as <- <-.
Qed.

(** ** The beginning *)

Lemma new_room_inv done_ w room rx :
  Inv done_ None w -> room ∉ (owned w).*1 -> pending_local w = ∅ -> busy_rooms w = ∅ ->
  Inv ((room, rx) :: done_) None
    (set_fresh (S (fresh w))
       (restore_room room (Phase1Channel_new room rx (fresh w)).1 (fresh w) w)).
Proof.
  intros Hi Hno Hpl Hb.
  assert (Inv ((room, rx) :: done_) (Some (room, rx)) w) as Hi1.
  { pose proof (open_hole _ _ _ rx Hi Hno) as Hh. split; [|apply Hh..]. split; try apply Hh.
    intros r rx' [[= -> ->]|Hr]%elem_of_cons; [by right|]. by apply (own_rooms Hh). }
  assert (requests w !! fresh w = None) as Hrq.
  { apply eq_None_not_Some. intros Hs. apply (rq_live Hi) in Hs as (ch' & Hc & Heq).
    apply live_coord, (live_fresh Hi) in Hc. lia. }
  eapply (give_idle _ w _ (Phase1Channel_new room rx (fresh w)).1 rx Hi1); cbn; try done.
  - by rewrite Permutation_app_comm.
  - by rewrite Hpl.
  - intros r Hr. by rewrite lookup_insert_ne.
  - intros tx'. rewrite lookup_insert_eq. naive_solver.
  - by rewrite lookup_insert_eq.
  - rewrite Hrq, Hb. split; [set_solver|]. by intros [? ?].
  - intros Hl%(live_fresh Hi). lia.
  - intros r Hr. destruct (rpc_own Hi Hr) as (_ & Hlt & _). lia.
  - lia.
  - lia.
Qed.

Lemma open_rooms_inv rooms done_ w :
  NoDup rooms.*1 -> (forall r, r ∈ rooms.*1 -> r ∉ (owned w).*1) ->
  Inv done_ None w -> pending_local w = ∅ -> busy_rooms w = ∅ ->
  exists all, (forall x, x ∈ done_ ++ rooms -> x ∈ all) /\ Inv all None (open_rooms rooms w).
Proof.
  revert done_ w. induction rooms as [|[room rx] rooms IH]; intros done_ w Hnd Hno Hi Hpl Hb.
  { exists done_. rewrite app_nil_r. done. }
  cbn in Hnd. apply NoDup_cons in Hnd as [Hr Hnd]. cbn [open_rooms Phase1Channel_new].
  pose proof (new_room_inv done_ w room rx Hi (Hno room ltac:(constructor)) Hpl Hb) as Hi1.
  match type of Hi1 with Inv _ _ ?w1 =>
    destruct (IH ((room, rx) :: done_) w1 Hnd) as (all & Hall & Hinv); [|done..|] end.
  - intros r Hin Ho.
    assert (r ∈ (owned w).*1 \/ r = room) as [Ho'| ->]; [|by eapply Hno; [constructor|]|done].
    revert Ho. unfold owned. cbn. rewrite !fmap_app, !elem_of_app. cbn.
    rewrite list_elem_of_singleton. tauto.
  - exists all. split; [|exact Hinv]. intros x Hx. apply Hall.
    rewrite elem_of_app, elem_of_cons in *. tauto.
Qed.

Lemma new_inv st rooms :
  NoDup rooms.*1 -> exists all, (forall x, x ∈ rooms -> x ∈ all) /\ Inv all None (new st rooms).
Proof.
  intros Hnd. unfold new. apply (open_rooms_inv rooms []); [done| | |done|done].
  - intros r _. unfold owned. cbn. set_solver.
  - split; split; cbn; rewrite ?map_to_list_empty; try done; try (by constructor);
      try (intros ? [? Hx]; by rewrite lookup_empty in Hx); set_solver.
Qed.

(** The states the loop goes through by calm steps. *)
Inductive calmly_reachable (st : LocalStorage.t) (rooms : list (RoomId * nat)) : t -> Prop :=
  | calm_new : calmly_reachable st rooms (new st rooms)
  | calm_step w ev w' out :
      calmly_reachable st rooms w -> calm w ev -> step w ev = Ok (w', out) ->
      calmly_reachable st rooms w'.

Lemma calmly_reachable_inv st rooms w :
  NoDup rooms.*1 -> calmly_reachable st rooms w ->
  exists all, (forall x, x ∈ rooms -> x ∈ all) /\ Inv all None w.
Proof.
  intros Hnd. induction 1 as [|w ev w' out Hr IH Hc Hs]; [by apply new_inv|].
  destruct IH as (all & Hall & Hi). exists all. split; [done|]. by eapply step_inv.
Qed.

(** C9: as long as no local request falls between the end of an execution and
    the end of its proxy, the queue of every room has exactly one owner in
    every state of the loop: its phase 1, its proxy, or the phase 1 parked for
    the end of the execution. *)
Theorem room_has_one_owner st rooms w room rx :
  NoDup rooms.*1 -> calmly_reachable st rooms w -> (room, rx) ∈ rooms ->
  (room, Some rx) ∈ owned w /\ NoDup (owned w).*1.
Proof.
  intros Hnd Hr Hin. destruct (calmly_reachable_inv st rooms w Hnd Hr) as (all & Hall & Hi).
  split; [|apply Hi]. by destruct (own_rooms Hi (Hall _ Hin)).
Qed.

(** C10: in the same states no local request is stranded: one that waits has a
    room that is busy or whose proxy is about to end, a busy room has an
    execution or a request on its way to its phase 1, and an execution has a
    proxy or a parked phase 1 to give the room back. *)
Theorem no_request_stranded st rooms w :
  NoDup rooms.*1 -> calmly_reachable st rooms w ->
  (forall r q, pending_local w !! r = Some q ->
     q <> [] /\ (r ∈ busy_rooms w \/ r ∈ proxied w)) /\
  (forall r, r ∈ busy_rooms w -> r ∈ executing w \/ requested w r) /\
  (forall r, r ∈ executing w -> r ∈ proxied w \/ is_Some (pending_room_restores w !! r)).
Proof.
  intros Hnd Hr. destruct (calmly_reachable_inv st rooms w Hnd Hr) as (all & _ & Hi).
  split; [|split].
  - intros r q Hq. destruct (pl_wait Hi Hq) as ([? _] & [|]); done.
  - intros r. by apply (busy_iff Hi).
  - apply Hi.
Qed.

(** in the same states a phase 1 never finds its request channel
    cancelled, so the [unwrap] in its poll does not panic and the poll ends
    normally. *)
Theorem idle_poll_safe st rooms w k ch now next sid :
  NoDup rooms.*1 -> calmly_reachable st rooms w -> rooms_coordination w !! k = Some ch ->
  forall why, Coordination.phase1_poll local ch
    {| Coordination.now1 := now; Coordination.next1 := next;
       Coordination.request1 := request_view w ch; Coordination.fresh_session := sid |} <>
  Coordination.Panicked1 why.
Proof.
  intros Hnd Hr Hk why Hp. destruct (calmly_reachable_inv st rooms w Hnd Hr) as (all & _ & Hi).
  pose proof (Coordination.phase1_poll_room local ch
    {| Coordination.now1 := now; Coordination.next1 := next;
       Coordination.request1 := request_view w ch; Coordination.fresh_session := sid |}) as Hroom.
  rewrite Hp in Hroom. cbn in Hroom. destruct (coord_rx _ _ _ _ _ Hi Hk) as [rx Hrx].
  destruct Hroom as [|Hv]; [congruence|]. unfold request_view in Hv.
  destruct (requests w !! p1_request ch) eqn:Hrq; [done|].
  assert (ch ∈ rooms_coordination w) as Hc by by eapply list_elem_of_lookup_2.
  rewrite bool_decide_eq_true_2 in Hv; [done|]. apply elem_of_app. left.
  apply list_elem_of_fmap. exists (p1_id ch, p1_request ch). split; [done|].
  apply elem_of_map_to_list. by apply (rpc_idle Hi).
Qed.

(** C36: the step that is not calm.  A local request that arrives when the
    execution of its room has ended and its proxy has not is not queued, as it
    is for a busy room: it is either refused ([sender is canceled]), or sent to
    a virtual channel with no network behind it, and from then on the room has
    two owners. *)
Theorem request_in_the_gap rooms w m :
  Inv rooms None w -> service_msg_room_id m ∈ proxied w ->
  service_msg_room_id m ∉ busy_rooms w ->
  exists w' out, step w (ServiceMsg m) = Ok (w', out) /\
    ((exists tx sender, rooms_rpc w !! service_msg_room_id m = Some tx /\
        out = [ReplyLocal sender (Err "sender is canceled")] /\
        service_msg_room_id m ∉ busy_rooms w') \/
     (rooms_rpc w !! service_msg_room_id m = None /\ out = [] /\
      service_msg_room_id m ∈ busy_rooms w' /\ ~ NoDup (owned w').*1)).
Proof.
  intros Hi Hp Hb. cbn [step]. rewrite bool_decide_eq_false_2 by done.
  destruct (owner_exclusive _ _ _ (service_msg_room_id m) Hi) as (Hex & _ & _).
  destruct (rooms_rpc w !! service_msg_room_id m) as [tx|] eqn:Hrpc.
  - assert (tx ∉ live_requests w) as Hnl.
    { intros Hl. destruct (rpc_own Hi Hrpc) as (_ & _ & Hch).
      destruct (Hch Hl) as (ch & Hc & Hid & _). apply Hex; eauto. }
    destruct m as [n0 room payload sender|t0 n0 room payload sender]; cbn in *;
      unfold dispatch_to_room; rewrite Hrpc, bool_decide_eq_false_2 by done;
      do 2 eexists; (split; [done|]); left; exists tx, sender; done.
  - destruct (dispatch_virtual m w Hrpc) as (ch & lm & Hch & ->). injection Hch as <-.
    do 2 eexists. split; [done|]. right. split; [done|]. split; [done|].
    split; [cbn; set_solver|]. unfold owned. cbn. rewrite !fmap_app, <- app_assoc. cbn.
    intros Hnd. apply NoDup_app in Hnd as (_ & _ & Hnd). apply NoDup_cons in Hnd as [Hni _].
    apply Hni, elem_of_app. left. rewrite <- list_fmap_compose. exact Hp.
Qed.

(** a local request that was sent to an idle room is lost when a remote
    proposal is taken first: phase 1 looks at the network before it looks at
    its request channel, and the channel goes with it.  The caller's reply
    channel is dropped without an answer. *)
Theorem local_request_dropped w k ch lm now m sid os2 osn w' out :
  rooms_coordination w !! k = Some ch -> requests w !! p1_request ch = Some lm ->
  message_type (context m) = Coordination ->
  step w (IdlePoll k now (NextMsg m) sid os2 osn) = Ok (w', out) ->
  DropLocal (rpc_pending_response lm) ∈ out.
Proof.
  intros Hk Hrq Hm Hs. cbn [step] in Hs. rewrite Hk in Hs. cbn [ok_or mbind outcome_bind] in Hs.
  unfold Coordination.phase1_poll in Hs. cbn [Coordination.next1] in Hs. rewrite Hm in Hs.
  destruct (p1_rx ch); [|done]. inv_ok. unfold dropped_request. rewrite Hrq.
  apply elem_of_app. left. constructor.
Qed.
End worker.

Section laws.
Context `{PeerIdLaws} `{UnsignedVarintLaws} `{ComputeAgents}.

(** a start message whose peer set does not contain the node that
    receives it ends the worker: the set-up of the execution looks for the
    node's index and panics.  Nothing but the session id and the sender's
    presence in the room is needed to send one. *)
Theorem foreign_start_kills_worker local w ch rx pid a tx o m sm :
  Coordination.p2_rx ch = Some rx -> factory_make pid = Some a ->
  Coordination.next2 o = NextMsg m -> message_type (context m) = Coordination ->
  session_id (context m) = Coordination.p2_session ch ->
  payload m = StartMsg.encoding sm ->
  Z.of_nat (length (StartMsg.encoding sm)) <= BufWriter.capacity ->
  Forall (fun i => 0 <= i < 2 ^ 64) (Peerset.parties (StartMsg.peerset sm)) ->
  local ∉ Peerset.peers (StartMsg.peerset sm) ->
  from_remote local pid tx ch [o] w =
  Panic "called `Option::unwrap()` on a `None` value".
Proof.
  intros Hrx Hmake Hnext Hm Hs Hpay Hfit Hpar Hno. unfold from_remote. rewrite Hmake.
  cbn [fmap list_fmap Coordination.phase2_run]. unfold Coordination.phase2_poll.
  rewrite Hrx. cbn [Coordination.next2]. rewrite Hnext, Hm, bool_decide_eq_true_2 by done.
  rewrite Hpay, StartMsg.start_from_bytes_encoding by done.
  cbn [StartMsg.peerset StartMsg.body]. unfold begin, ProtocolExecution.new.
  cbn [Peerset.local_peer_id]. unfold Peerset.index_of. cbn [Peerset.peers].
  rewrite (proj2 (position_none _ _)); [done|].
  intros p Hp. apply bool_decide_eq_false. by intros ->.
Qed.
End laws.
End Worker.
