(* ===== verification/Frost.v ===== *)
(** * FROST and the agents that run it

    The cryptography ([frost-core], [frost-ed25519], [frost-secp256k1]) is an
    interface, [Frost]: identifiers, the three parts of the key generation, the
    two rounds of signing and the encodings of what the parties exchange.  The
    random source of a call is an argument, [coins].

    An agent ([KeyGen], [KeySign]) reads its messages from a channel and writes
    to another.  A run of an agent takes the messages that will arrive as a list
    and ends in one of four ways: done, failed with an error, waiting for a
    message that is not there yet, or crashed by a panic.  In every case it has
    sent a list of messages. *)

From Stdlib Require Import ZArith Lia Strings.Byte.
From stdpp Require Import base gmap strings numbers list.
From S2P Require Import Prelude Messages Peerset Room Echo Storage Execution.

Local Open Scope Z_scope.

(** ** The interface of [frost-core] *)

Class Frost : Type := {
  (** [Identifier::try_from(u16)], which refuses zero. *)
  Ident : Type;
  ident_eq_dec :: EqDecision Ident;
  ident_countable :: Countable Ident;
  ident_of : Z -> option Ident;
  (** Key generation: [part1], [part2], [part3]. *)
  coins : Type;
  Round1Secret : Type;
  Round1Package : Type;
  Round2Secret : Type;
  Round2Package : Type;
  KeyPackage : Type;
  PublicKeyPackage : Type;
  part1 : Ident -> Z -> Z -> coins -> option (Round1Secret * Round1Package);
  part2 : Round1Secret -> gmap Ident Round1Package ->
          option (Round2Secret * list (Ident * Round2Package));
  part3 : Round2Secret -> gmap Ident Round1Package -> gmap Ident Round2Package ->
          option (KeyPackage * PublicKeyPackage);
  round1_serialize : Round1Package -> option bytes;
  round1_deserialize : bytes -> option Round1Package;
  round2_serialize : Round2Package -> option bytes;
  round2_deserialize : bytes -> option Round2Package;
  (** The serialised parts of a key package. *)
  signing_share_bytes : KeyPackage -> bytes;
  verifying_share_bytes : KeyPackage -> option bytes;
  group_key_bytes : PublicKeyPackage -> option bytes;
  public_package_bytes : PublicKeyPackage -> option bytes;
  public_package_of : bytes -> option PublicKeyPackage;
  verifying_share_ids : PublicKeyPackage -> gset Ident;
  (** [KeyPackage::new] from the deserialised share, verifying share and group
      key. *)
  key_package_of : Ident -> bytes -> bytes -> bytes -> Z -> outcome string KeyPackage;
  (** Signing: [round1::commit], [round2::sign], [aggregate], [verify]. *)
  Nonces : Type;
  Commitments : Type;
  SigShare : Type;
  SignatureT : Type;
  commit : KeyPackage -> coins -> Nonces * Commitments;
  commitments_serialize : Commitments -> option bytes;
  commitments_deserialize : bytes -> option Commitments;
  sign : gmap Ident Commitments -> bytes -> Nonces -> KeyPackage -> option SigShare;
  share_serialize : SigShare -> bytes;
  share_deserialize : bytes -> option SigShare;
  aggregate : gmap Ident Commitments -> bytes -> gmap Ident SigShare -> PublicKeyPackage ->
              option SignatureT;
  verify : PublicKeyPackage -> bytes -> SignatureT -> bool;
  signature_bytes : SignatureT -> option bytes;
}.

(** What the agents rely on: identifiers of non-zero integers exist and are
    distinct, and what is sent is what is received. *)
Class FrostLaws `(F : Frost) : Prop := {
  ident_of_some u : 1 <= u <= u16_max -> is_Some (ident_of u);
  ident_of_inj u v i : ident_of u = Some i -> ident_of v = Some i -> u = v;
  round1_roundtrip p b : round1_serialize p = Some b -> round1_deserialize b = Some p;
  round2_roundtrip p b : round2_serialize p = Some b -> round2_deserialize b = Some p;
}.

(** ** Runs of agents *)

Inductive run (A : Type) : Type :=
  | Done (a : A) (inbox : list AgentMessage) (out : list AgentResponse)
  | Failed (e : string) (out : list AgentResponse)
  | Waiting (out : list AgentResponse)
  | Crashed (why : string) (out : list AgentResponse).
Arguments Done {A} a inbox out.
Arguments Failed {A} e out.
Arguments Waiting {A} out.
Arguments Crashed {A} why out.

(** The channels of an agent: is the incoming one closed after the messages at
    hand, does the outgoing one still have a receiver. *)
Record channels : Type := { in_closed : bool; out_open : bool }.

(** An agent threads the messages to come and the messages sent. *)
Definition agent (A : Type) : Type :=
  channels -> list AgentMessage -> list AgentResponse -> run A.

#[export] Instance agent_ret : MRet agent := fun A a _ inbox out => Done a inbox out.
#[export] Instance agent_bind : MBind agent :=
  fun A B f m ch inbox out =>
    match m ch inbox out with
    | Done a inbox out => f a ch inbox out
    | Failed e out => Failed e out
    | Waiting out => Waiting out
    | Crashed why out => Crashed why out
    end.

(** A fallible computation inside an agent. *)
Definition lift {A} (m : outcome string A) : agent A :=
  fun _ inbox out =>
    match m with
    | Ok a => Done a inbox out
    | Err e => Failed e out
    | Panic why => Crashed why out
    end.

(** [option.ok_or(..)?]. *)
Definition try {A} (e : string) (o : option A) : agent A := lift (ok_or e o).

Definition fail {A} (e : string) : agent A := lift (Err e).

(** [outgoing.send(..).await?]. *)
Definition send (e : string) (m : AgentResponse) : agent unit :=
  fun ch inbox out =>
    if out_open ch then Done tt inbox (out ++ [m]) else Failed e out.

(** [while !done { let req = incoming.recv().await?; .. }]: the state of the
    loop, and the body for one message. *)
Section recv_while.
Context {S : Type} (done : S -> bool) (body : S -> AgentMessage -> outcome string S).

Fixpoint recv_loop (s : S) (inbox : list AgentMessage) (ch : channels)
  (out : list AgentResponse) : run S :=
  if done s then Done s inbox out
  else
    match inbox with
    | [] => if in_closed ch then Failed "error receiving message" out else Waiting out
    | req :: inbox =>
        match body s req with
        | Ok s => recv_loop s inbox ch out
        | Err e => Failed e out
        | Panic why => Crashed why out
        end
    end.

Definition recv_while (s : S) : agent S := fun ch inbox out => recv_loop s inbox ch out.

(** The same with messages put aside earlier, which come first. *)
Definition recv_while_deferred (deferred : list AgentMessage) (s : S) : agent S :=
  fun ch inbox out => recv_loop s (deferred ++ inbox) ch out.
End recv_while.

(** ** Reading a run backwards *)

Lemma agent_bind_done {A B} (m : agent A) (f : A -> agent B) ch inbox out b inbox' out' :
  (m ≫= f) ch inbox out = Done b inbox' out' ->
  exists a inbox1 out1, m ch inbox out = Done a inbox1 out1 /\
    f a ch inbox1 out1 = Done b inbox' out'.
Proof. unfold mbind, agent_bind. destruct (m ch inbox out); naive_solver. Qed.

Lemma lift_done {A} (m : outcome string A) ch inbox out a inbox' out' :
  lift m ch inbox out = Done a inbox' out' -> m = Ok a /\ inbox' = inbox /\ out' = out.
Proof. unfold lift. destruct m; naive_solver. Qed.

Lemma try_done {A} e (o : option A) ch inbox out a inbox' out' :
  try e o ch inbox out = Done a inbox' out' -> o = Some a /\ inbox' = inbox /\ out' = out.
Proof. unfold try, lift, ok_or. destruct o; naive_solver. Qed.

Lemma send_done e m ch inbox out inbox' out' u :
  send e m ch inbox out = Done u inbox' out' -> inbox' = inbox /\ out' = out ++ [m].
Proof. unfold send. destruct (out_open ch); naive_solver. Qed.

(** Decomposes a successful run of an agent step by step. *)
Ltac inv_run :=
  repeat match goal with
  | H : (_ ≫= _) _ _ _ = Done _ _ _ |- _ =>
      let a := fresh "a" in let Ha := fresh "Ha" in
      apply agent_bind_done in H as (a & ? & ? & Ha & H)
  | H : try _ _ _ _ _ = Done _ _ _ |- _ => apply try_done in H as (H & -> & ->)
  | H : lift _ _ _ _ = Done _ _ _ |- _ => apply lift_done in H as (H & -> & ->)
  | H : send _ _ _ _ _ = Done _ _ _ |- _ => apply send_done in H as (-> & ->)
  | H : fail _ _ _ _ = Done _ _ _ |- _ => by apply lift_done in H as [? _]
  | H : mret _ _ _ _ = Done _ _ _ |- _ => injection H as ? ? ?; subst
  | p : (_ * _)%type |- _ => destruct p
  end.

(** An invariant of the body holds at the end of the loop. *)
Lemma recv_loop_inv {S} (done : S -> bool) body (P : S -> Prop) s inbox ch out s' inbox' out' :
  (forall s m s', P s -> done s = false -> body s m = Ok s' -> P s') -> P s ->
  recv_loop done body s inbox ch out = Done s' inbox' out' ->
  P s' /\ done s' = true /\ out' = out.
Proof.
  intros Hbody. revert s. induction inbox as [|m inbox IH]; intros s Hs; cbn [recv_loop];
    destruct (done s) eqn:Hd.
  - by intros [= <- <- <-].
  - by destruct (in_closed ch).
  - by intros [= <- <- <-].
  - destruct (body s m) eqn:Hb; try done. apply IH. eauto.
Qed.

(** A loop that gets what it needs ends. *)
Lemma recv_loop_app {S} (done : S -> bool) body s inbox1 inbox2 ch out s1 :
  recv_loop done body s inbox1 ch out = Done s1 [] out -> done s1 = true ->
  recv_loop done body s (inbox1 ++ inbox2) ch out = Done s1 inbox2 out.
Proof.
  revert s. induction inbox1 as [|m inbox1 IH]; intros s; cbn [recv_loop app];
    destruct (done s) eqn:Hd; try done.
  - intros [= <-] _. destruct inbox2; cbn [recv_loop]; by rewrite Hd.
  - by destruct (in_closed ch).
  - destruct (body s m); try done. apply IH.
Qed.
