(* ===== verification/Session.v ===== *)
(** * Sessions of agents

    What happens when the agents of [n] parties run against each other.  An agent is
    a function of the messages it has been given so far ([Frost.run]); a session gives
    every message that an agent has sent to the agents it is addressed to, each once,
    in any order and at any time.  The execution of a protocol and the network below
    it deliver in some such order ([broadcasts_in_order] says in which).

    [Streaming] is the class of the agents that read their channel only with
    [recv_while]: what they do with some messages does not change when more follow.
    [complete_or_waiting], [stuck_complete] and [deliveries_bounded] are the three
    facts about a session of streaming agents whose scripts fit together. *)

From Stdlib Require Import ZArith Lia Strings.Byte.
From stdpp Require Import base gmap strings numbers list relations.
From S2P Require Import Prelude Execution Frost.

Local Open Scope Z_scope.

(** The channels of an agent while its session runs. *)
Definition open : channels := {| in_closed := false; out_open := true |}.

Definition out_of {A} (r : run A) : list AgentResponse :=
  match r with
  | Done _ _ out | Failed _ out | Waiting out | Crashed _ out => out
  end.

(** ** Streaming agents *)

(** What becomes of a run when more messages follow: an agent that is done leaves them,
    one that waits goes on, having sent what it has sent. *)
Definition continues {A} (r : run A) (rest : list AgentMessage) (r' : run A) : Prop :=
  match r with
  | Done a unread out => r' = Done a (unread ++ rest) out
  | Waiting out => out `prefix_of` out_of r'
  | Failed e out => r' = Failed e out
  | Crashed why out => r' = Crashed why out
  end.

Class Streaming {A} (m : agent A) : Prop := {
  streaming_continues inbox rest out :
    continues (m open inbox out) rest (m open (inbox ++ rest) out);
  streaming_grows inbox out : out `prefix_of` out_of (m open inbox out);
}.

Lemma continues_out {A} (r : run A) rest r' :
  continues r rest r' -> out_of r `prefix_of` out_of r'.
Proof. by destruct r; cbn; intros Hr; subst. Qed.

(** What an agent sends only grows. *)
Lemma streaming_out `{Streaming A m} inbox rest out :
  out_of (m open inbox out) `prefix_of` out_of (m open (inbox ++ rest) out).
Proof. eapply continues_out, streaming_continues. Qed.

(** An agent that is done with all of some messages was waiting when some of them were
    missing. *)
Lemma streaming_waits `{Streaming A m} inbox rest out a out' :
  m open (inbox ++ rest) out = Done a [] out' -> rest <> [] ->
  exists out1, m open inbox out = Waiting out1 /\ out1 `prefix_of` out'.
Proof.
  intros Hd Hne. pose proof (streaming_continues inbox rest out) as Hc. rewrite Hd in Hc.
  destruct (m open inbox out) as [a1 left out1| |out1|]; cbn in Hc; try done; [|by eexists].
  injection Hc as _ Hl _. symmetry in Hl. by apply app_eq_nil in Hl as [_ ?].
Qed.

#[export] Instance streaming_ret {A} (a : A) : Streaming (mret a : agent A).
Proof. by split. Qed.

#[export] Instance streaming_bind {A B} (m : agent A) (f : A -> agent B) :
  Streaming m -> (forall a, Streaming (f a)) -> Streaming (m ≫= f).
Proof.
  intros Hm Hf. assert (forall inbox out, out `prefix_of` out_of ((m ≫= f) open inbox out)) as Hgrows.
  { intros inbox out. unfold mbind, agent_bind.
    pose proof (streaming_grows (m := m) inbox out) as Hg.
    destruct (m open inbox out) as [a left1 out1| | |]; try done.
    etrans; [exact Hg|]. apply streaming_grows. }
  split; [|exact Hgrows]. intros inbox rest out. unfold mbind, agent_bind.
  pose proof (streaming_continues (m := m) inbox rest out) as Hc.
  destruct (m open inbox out) as [a left1 out1|e out1|out1|w out1]; cbn in Hc |- *;
    [rewrite Hc; apply streaming_continues|by rewrite Hc| |by rewrite Hc].
  etrans; [exact Hc|]. destruct (m open (inbox ++ rest) out); try done. apply streaming_grows.
Qed.

#[export] Instance streaming_lift {A} (m : outcome string A) : Streaming (lift m).
Proof. split; intros *; unfold lift; by destruct m. Qed.

#[export] Instance streaming_try {A} e (o : option A) : Streaming (try e o).
Proof. unfold try. apply _. Qed.

#[export] Instance streaming_fail {A} e : Streaming (fail e : agent A).
Proof. unfold fail. apply _. Qed.

#[export] Instance streaming_send e m : Streaming (send e m).
Proof. split; intros *; [done|]. by apply prefix_app_r. Qed.

Section loops.
Context {S : Type} (done : S -> bool) (body : S -> AgentMessage -> outcome string S).

Lemma recv_loop_out s inbox ch out : out_of (recv_loop done body s inbox ch out) = out.
Proof.
  revert s. induction inbox as [|m inbox IH]; intros s; cbn [recv_loop]; destruct (done s); try done.
  - by destruct (in_closed ch).
  - destruct (body s m); [apply IH|done|done].
Qed.

Lemma recv_loop_continues s inbox rest ch out :
  in_closed ch = false ->
  continues (recv_loop done body s inbox ch out) rest
    (recv_loop done body s (inbox ++ rest) ch out).
Proof.
  intros Hch. revert s. induction inbox as [|m inbox IH]; intros s; cbn [recv_loop app].
  - destruct (done s) eqn:Hd.
    + destruct rest; cbn [recv_loop]; by rewrite Hd.
    + rewrite Hch. cbn. by rewrite recv_loop_out.
  - destruct (done s); [done|]. by destruct (body s m).
Qed.

#[export] Instance streaming_recv_while_deferred deferred s :
  Streaming (recv_while_deferred done body deferred s).
Proof.
  split; intros *; unfold recv_while_deferred; [|by rewrite recv_loop_out].
  rewrite app_assoc. by apply recv_loop_continues.
Qed.

#[export] Instance streaming_recv_while s : Streaming (recv_while done body s).
Proof. exact (streaming_recv_while_deferred [] s). Qed.
End loops.

(** Proves that an agent is streaming by its structure. *)
Ltac streaming :=
  repeat first
    [ apply streaming_bind; [|intros ?] | apply _
    | match goal with |- Streaming (match ?x with _ => _ end) => destruct x end ].

(** ** Deliveries *)

(** What the message [m] of party [from] is for party [to], if it is for it: the
    execution numbers the parties from 1. *)
Definition incoming (from to : nat) (m : AgentResponse) : option AgentMessage :=
  if bool_decide (from = to) then None
  else
    match ar_to m with
    | None => Some {| am_from := Z.of_nat from + 1; am_payload := ar_body m; am_to := None |}
    | Some u =>
        if u =? Z.of_nat to + 1 then
          Some {| am_from := Z.of_nat from + 1; am_payload := ar_body m; am_to := Some u |}
        else None
    end.

(** The [d_seq]-th message of party [d_from], as its addressee gets it. *)
Record delivery : Type := { d_from : nat; d_seq : nat; d_msg : AgentMessage }.

Definition key (d : delivery) : nat * nat := (d_from d, d_seq d).

Section deliveries.
(** What each of [n] parties sends. *)
Variables (n : nat) (script : nat -> list AgentResponse).

(** The deliveries of the messages [ms] of party [from], numbered from [k]. *)
Fixpoint deliveries_of (from to k : nat) (ms : list AgentResponse) : list delivery :=
  match ms with
  | [] => []
  | m :: ms =>
      let ds := deliveries_of from to (S k) ms in
      match incoming from to m with
      | Some x => {| d_from := from; d_seq := k; d_msg := x |} :: ds
      | None => ds
      end
  end.

Definition deliveries_for (i : nat) : list delivery :=
  j ← seq 0 n; deliveries_of j i 0 (script j).

Lemma elem_of_deliveries_of from to k ms d :
  d ∈ deliveries_of from to k ms <->
  d_from d = from /\ exists m, (k <= d_seq d)%nat /\ ms !! (d_seq d - k)%nat = Some m /\
    incoming from to m = Some (d_msg d).
Proof.
  revert k. induction ms as [|m ms IH]; intros k; cbn [deliveries_of].
  { rewrite elem_of_nil. naive_solver. }
  assert (d ∈ deliveries_of from to (S k) ms \/
      (d_seq d = k /\ d_from d = from /\ incoming from to m = Some (d_msg d)) <->
    d_from d = from /\ exists m', (k <= d_seq d)%nat /\ (m :: ms) !! (d_seq d - k)%nat = Some m' /\
      incoming from to m' = Some (d_msg d)) as Hcases.
  { rewrite IH. split.
    - intros [(-> & m' & Hk & Hl & Hi)|(Hk & -> & Hi)]; (split; [done|]).
      + exists m'. replace (d_seq d - k)%nat with (S (d_seq d - S k)) by lia. split; [lia|done].
      + exists m. rewrite Hk, Nat.sub_diag. split; [lia|done].
    - intros (-> & m' & Hk & Hl & Hi). destruct (decide (d_seq d = k)) as [Heq|Hne].
      + right. rewrite Heq, Nat.sub_diag in Hl. injection Hl as ->. done.
      + left. split; [done|]. exists m'.
        replace (d_seq d - k)%nat with (S (d_seq d - S k)) in Hl by lia. split; [lia|done]. }
  rewrite <- Hcases. destruct (incoming from to m) as [x|]; [|naive_solver].
  rewrite elem_of_cons. destruct d as [f q x']; cbn. naive_solver.
Qed.

Lemma elem_of_deliveries_for i d :
  d ∈ deliveries_for i <->
  (d_from d < n)%nat /\ exists m, script (d_from d) !! d_seq d = Some m /\
    incoming (d_from d) i m = Some (d_msg d).
Proof.
  unfold deliveries_for. rewrite list_elem_of_bind. split.
  - intros (j & Hd & Hj). apply elem_of_deliveries_of in Hd as (-> & m & _ & Hm & Hi).
    apply elem_of_seq in Hj. rewrite Nat.sub_0_r in Hm. split; [lia|]. by exists m.
  - intros (Hlt & m & Hm & Hi). exists (d_from d). split; [|apply elem_of_seq; lia].
    apply elem_of_deliveries_of. split; [done|]. exists m. rewrite Nat.sub_0_r. split; [lia|done].
Qed.

(** A message is named by its sender and its number. *)
Lemma key_inj i d d' : d ∈ deliveries_for i -> d' ∈ deliveries_for i -> key d = key d' -> d = d'.
Proof.
  intros (_ & m & Hm & Hi)%elem_of_deliveries_for (_ & m' & Hm' & Hi')%elem_of_deliveries_for.
  destruct d, d'. cbn in *. intros [= <- <-]. simplify_eq. done.
Qed.

Lemma deliveries_for_nodup i : NoDup (deliveries_for i).
Proof.
  apply NoDup_bind; [|intros j _|apply NoDup_seq].
  - intros j j' d _ _ [<- _]%elem_of_deliveries_of [<- _]%elem_of_deliveries_of. done.
  - generalize 0%nat as k. induction (script j) as [|m ms IH]; intros k; cbn; [constructor|].
    destruct (incoming j i m); [|done]. apply NoDup_cons. split; [|done].
    intros (_ & ? & Hk & _)%elem_of_deliveries_of. cbn in Hk. lia.
Qed.
End deliveries.

(** ** The session *)

Section session.
Context {A : Type} (n : nat).

(** The agent of each party, as a function of the messages given to it. *)
Variable machine : nat -> list AgentMessage -> run A.

(** What has been delivered to each party, in order. *)
Definition state : Type := nat -> list delivery.

Definition inbox (s : state) (i : nat) : list AgentMessage := d_msg <$> s i.

Definition party (s : state) (i : nat) : run A := machine i (inbox s i).

Definition start : state := fun _ => [].

Definition give (s : state) (i : nat) (d : delivery) : state :=
  fun j => if decide (i = j) then s j ++ [d] else s j.

(** A message that has been sent is delivered to one more of its addressees. *)
Inductive step : state -> state -> Prop :=
  | deliver s i d m :
      (i < n)%nat -> (d_from d < n)%nat ->
      out_of (party s (d_from d)) !! d_seq d = Some m ->
      incoming (d_from d) i m = Some (d_msg d) ->
      key d ∉ key <$> s i ->
      step s (give s i d).

(** ** Agents that follow a script *)

Variable script : nat -> list AgentResponse.
Abbreviation due := (deliveries_for n script).

(** Given all messages of all scripts, in any order, the agent of party [i] sends its
    script and ends with [result i]; given some of them, it waits and has sent the
    beginning of its script.  The first message it sends whatever it is given, the others
    at the latest when it has the first messages of all others. *)
Record scripted (result : nat -> A) : Prop := {
  scripted_complete i ds : (i < n)%nat -> ds ≡ₚ due i ->
    machine i (d_msg <$> ds) = Done (result i) [] (script i);
  scripted_partial i ds rest : (i < n)%nat -> ds ++ rest ≡ₚ due i -> rest <> [] ->
    exists out, machine i (d_msg <$> ds) = Waiting out /\ out `prefix_of` script i;
  scripted_first i ds : (i < n)%nat -> ds ⊆+ due i ->
    out_of (machine i (d_msg <$> ds)) <> [];
  scripted_rest i ds : (i < n)%nat -> ds ⊆+ due i ->
    (forall d, d ∈ due i -> d_seq d = 0%nat -> d ∈ ds) ->
    out_of (machine i (d_msg <$> ds)) = script i;
}.

Variable result : nat -> A.
Hypothesis Hscripted : scripted result.

(** Every party has got some of the messages there are for it, each once. *)
Definition consistent (s : state) : Prop :=
  forall i, (i < n)%nat -> NoDup (key <$> s i) /\ (forall d, d ∈ s i -> d ∈ due i).

Lemma consistent_part s i : consistent s -> (i < n)%nat -> s i ⊆+ due i.
Proof.
  intros Hs Hi. destruct (Hs i Hi) as [Hnd Hin]. apply NoDup_submseteq; [|done].
  by eapply NoDup_fmap_1.
Qed.

(** A party is done with all its messages, or it waits and has followed its script. *)
Lemma complete_or_waiting s i :
  consistent s -> (i < n)%nat ->
  (s i ≡ₚ due i /\ party s i = Done (result i) [] (script i)) \/
  (exists out, party s i = Waiting out /\ out `prefix_of` script i).
Proof.
  intros Hs Hi. destruct (submseteq_Permutation _ _ (consistent_part s i Hs Hi)) as [rest Hrest].
  destruct (decide (rest = [])) as [->|Hne].
  - rewrite app_nil_r in Hrest. left. split; [done|]. by apply (scripted_complete _ Hscripted).
  - right. by eapply (scripted_partial _ Hscripted).
Qed.

Lemma sent_script s i : consistent s -> (i < n)%nat -> out_of (party s i) `prefix_of` script i.
Proof.
  intros Hs Hi. by destruct (complete_or_waiting s i Hs Hi) as [[_ ->]|(out & -> & Hp)].
Qed.

Lemma step_consistent s s' : consistent s -> step s s' -> consistent s'.
Proof.
  intros Hs Hstep. destruct Hstep as [s i d m Hi Hfrom Hsent Hin Hkey]. intros j Hj.
  destruct (Hs j Hj) as [Hnd Hd]. unfold give. case_decide as Heq; [|done]. subst j.
  rewrite fmap_app. split.
  - apply NoDup_app. split; [done|]. split; [|repeat constructor; set_solver].
    intros k Hk ->%list_elem_of_singleton. done.
  - intros d' [Hd'| ->%list_elem_of_singleton]%elem_of_app; [by apply Hd|].
    apply elem_of_deliveries_for. split; [done|]. exists m. split; [|done].
    by eapply prefix_lookup_Some, sent_script.
Qed.

Lemma reachable_consistent s : rtc step start s -> consistent s.
Proof.
  intros Hr. assert (consistent start) as Hs.
  { intros i _. split; [constructor|]. by intros d Hd%elem_of_nil. }
  revert Hs. induction Hr; [done|]. eauto using step_consistent.
Qed.

(** What has been sent and can not be delivered has been delivered. *)
Lemma stuck_delivered s i d m :
  consistent s -> (forall s', ~ step s s') -> (i < n)%nat ->
  d ∈ due i -> out_of (party s (d_from d)) !! d_seq d = Some m -> d ∈ s i.
Proof.
  intros Hs Hstuck Hi Hd Hm. destruct (decide (key d ∈ key <$> s i)) as [Hk|Hk].
  - apply list_elem_of_fmap in Hk as (d' & Hk & Hd').
    by rewrite (key_inj n script i d d' Hd (proj2 (Hs i Hi) d' Hd') Hk).
  - apply elem_of_deliveries_for in Hd as (Hfrom & m' & Hm' & Hin).
    pose proof (prefix_lookup_Some _ _ _ _ Hm (sent_script s _ Hs Hfrom)) as Hm2. simplify_eq.
    exfalso. by eapply Hstuck, (deliver s i d m').
Qed.

(** When nothing is left to deliver, everything has been delivered. *)
Lemma stuck_all s i :
  consistent s -> (forall s', ~ step s s') -> (i < n)%nat -> s i ≡ₚ due i.
Proof.
  intros Hs Hstuck Hi.
  assert (forall j, (j < n)%nat -> out_of (party s j) = script j) as Hsent.
  { intros j Hj. apply (scripted_rest _ Hscripted); [done|by apply consistent_part|].
    intros d Hd H0. destruct (proj1 (elem_of_deliveries_for n script j d) Hd) as (Hfrom & _).
    pose proof (scripted_first _ Hscripted _ _ Hfrom (consistent_part s _ Hs Hfrom)) as Hfirst.
    unfold party, inbox in *. destruct (out_of _) as [|m out] eqn:Hout in Hfirst; [done|].
    apply (stuck_delivered s j d m); [done..|]. unfold party, inbox. by rewrite Hout, H0. }
  apply NoDup_Permutation.
  - by eapply NoDup_fmap_1, (Hs i Hi).
  - apply deliveries_for_nodup.
  - intros d. split; [apply (Hs i Hi)|]. intros Hd.
    destruct (proj1 (elem_of_deliveries_for n script i d) Hd) as (Hfrom & m & Hm & _).
    apply (stuck_delivered s i d m); [done..|]. by rewrite Hsent.
Qed.

Lemma stuck_complete s i :
  consistent s -> (forall s', ~ step s s') -> (i < n)%nat ->
  party s i = Done (result i) [] (script i).
Proof. intros Hs Hstuck Hi. apply (scripted_complete _ Hscripted); [done|]. by apply stuck_all. Qed.

(** ** How long a session takes *)

Definition total (f : nat -> nat) : nat := sum_list_with f (seq 0 n).

Lemma total_le f g : (forall i, (i < n)%nat -> (f i <= g i)%nat) -> (total f <= total g)%nat.
Proof.
  intros Hle. unfold total. assert (forall i, i ∈ seq 0 n -> (f i <= g i)%nat) as Hl.
  { intros i Hi%elem_of_seq. apply Hle. lia. }
  induction (seq 0 n) as [|i l IH]; cbn; [done|].
  pose proof (Hl i ltac:(constructor)). enough (sum_list_with f l <= sum_list_with g l)%nat by lia.
  apply IH. intros j Hj. apply Hl. by constructor.
Qed.

Lemma total_const f k : (forall i, (i < n)%nat -> f i = k) -> (total f <= n * k)%nat.
Proof.
  intros Hf. etrans; [apply (total_le f (fun _ => k)); intros i Hi; by rewrite Hf|].
  unfold total. rewrite <- (length_seq n 0) at 2. by induction (seq 0 n) as [|j l IH]; cbn; lia.
Qed.

Lemma total_give s i d :
  (i < n)%nat -> total (fun j => length (give s i d j)) = S (total (fun j => length (s j))).
Proof.
  intros Hi. unfold total. assert (i ∈ seq 0 n) as Hin by (apply elem_of_seq; lia).
  pose proof (NoDup_seq 0 n) as Hnd. revert Hin Hnd. generalize (seq 0 n) as l.
  assert (forall l, i ∉ l -> sum_list_with (fun j => length (give s i d j)) l =
    sum_list_with (fun j => length (s j)) l) as Hout.
  { induction l as [|j l IH]; [done|]. intros [Hne Hl]%not_elem_of_cons. cbn.
    rewrite IH by done. unfold give at 1. by rewrite decide_False. }
  induction l as [|j l IH]; [by intros ?%elem_of_nil|].
  intros [<-|Hi']%elem_of_cons [Hj Hnd]%NoDup_cons; cbn.
  - rewrite Hout by done. unfold give at 1. rewrite decide_True, length_app by done. cbn. lia.
  - rewrite IH by done. unfold give at 1. rewrite decide_False by (intros ->; done). lia.
Qed.

Lemma steps_total k s : nsteps step k start s -> total (fun i => length (s i)) = k.
Proof.
  revert s. induction k as [|k IH]; intros s.
  - inversion 1; subst. unfold total, start. by induction (seq 0 n).
  - intros (s0 & Hk & Hstep)%nsteps_inv_r. apply IH in Hk as <-.
    destruct Hstep. by apply total_give.
Qed.

Lemma deliveries_bounded k s :
  nsteps step k start s -> (k <= total (fun i => length (due i)))%nat.
Proof.
  intros Hk. rewrite <- (steps_total k s Hk). apply total_le. intros i Hi.
  apply submseteq_length, consistent_part; [|done].
  eapply reachable_consistent, rtc_nsteps_2. done.
Qed.

(** Whether something is left to deliver can be decided. *)
Definition can_deliver (s : state) (x : nat * delivery) : Prop :=
  key x.2 ∉ key <$> s x.1 /\ is_Some (out_of (party s (d_from x.2)) !! d_seq x.2).

#[local] Instance can_deliver_dec s x : Decision (can_deliver s x).
Proof. unfold can_deliver. apply _. Defined.

Definition open_deliveries : list (nat * delivery) :=
  i ← seq 0 n; d ← due i; [(i, d)].

Lemma elem_of_open i d : (i, d) ∈ open_deliveries <-> (i < n)%nat /\ d ∈ due i.
Proof.
  unfold open_deliveries. rewrite list_elem_of_bind. split.
  - intros (j & Hd & Hj). apply list_elem_of_bind in Hd as (d' & Hx & Hd').
    apply list_elem_of_singleton in Hx. simplify_eq. apply elem_of_seq in Hj. split; [lia|done].
  - intros [Hi Hd]. exists i. split; [|apply elem_of_seq; lia]. apply list_elem_of_bind.
    exists d. split; [by constructor|done].
Qed.

Lemma stuck_or_step s : consistent s -> (forall s', ~ step s s') \/ exists s', step s s'.
Proof.
  intros Hs. destruct (decide (Exists (can_deliver s) open_deliveries)) as [He|Hn].
  - right. apply Exists_exists in He as ([i d] & Hin & Hk & [m Hm]). cbn in *.
    apply elem_of_open in Hin as [Hi (Hfrom & m' & Hm' & Hinc)%elem_of_deliveries_for].
    pose proof (prefix_lookup_Some _ _ _ _ Hm (sent_script s _ Hs Hfrom)). simplify_eq.
    exists (give s i d). by eapply deliver.
  - left. intros s' Hstep. apply Hn, Exists_exists. destruct Hstep as [s i d m Hi Hf Hm Hinc Hk].
    exists (i, d). split; [|by split; eauto]. apply elem_of_open. split; [done|].
    apply elem_of_deliveries_for. split; [done|]. exists m. split; [|done].
    by eapply prefix_lookup_Some, sent_script.
Qed.

(** Every run of a session can be continued to a complete one. *)
Lemma completes k s :
  nsteps step k start s -> exists k' s', nsteps step k' s s' /\ (forall s'', ~ step s' s'').
Proof.
  remember (total (fun i => length (due i)) - k)%nat as left eqn:Hleft.
  revert k s Hleft. induction left as [left IH] using lt_wf_ind. intros k s -> Hk.
  destruct (stuck_or_step s) as [Hstuck|[s1 Hs1]].
  - eapply reachable_consistent, rtc_nsteps_2. done.
  - exists 0%nat, s. split; [constructor|done].
  - pose proof (nsteps_r _ _ _ _ Hk Hs1) as Hk1. pose proof (deliveries_bounded _ _ Hk1).
    destruct (IH (total (fun i => length (due i)) - S k)%nat ltac:(lia) (S k) s1)
      as (k' & s' & Hk' & Hs'); [done..|].
    exists (S k'), s'. split; [|done]. by econstructor.
Qed.

End session.

(** What a session of [n] agents promises: no party fails or panics, at every moment
    each one waits or is done with its result; there are at most [bound] deliveries;
    every session can be continued until nothing is left to deliver, and then every
    party is done. *)
Definition session_completes {A} (n : nat) (machine : nat -> list AgentMessage -> run A)
  (bound : nat) (result : nat -> A) : Prop :=
  let done s i := exists out, party machine s i = Done (result i) [] out in
  let stuck s := forall s', ~ step n machine s s' in
  forall k s, nsteps (step n machine) k start s ->
    (k <= bound)%nat /\
    (forall i, (i < n)%nat -> done s i \/ exists out, party machine s i = Waiting out) /\
    (exists k' s', nsteps (step n machine) k' s s' /\ stuck s') /\
    (stuck s -> forall i, (i < n)%nat -> done s i).

(** Agents that follow scripts, with [m] messages for each of them, do so. *)
Lemma scripted_completes {A} n machine script (result : nat -> A) m :
  scripted n machine script result ->
  (forall i, (i < n)%nat -> length (deliveries_for n script i) = m) ->
  session_completes n machine (n * m) result.
Proof.
  intros Hscr Hm. unfold session_completes. cbv zeta. intros k s Hk.
  assert (consistent n script s) as Hs
    by (by eapply reachable_consistent, rtc_nsteps_2).
  split; [|split; [|split]].
  - etrans; [by eapply deliveries_bounded|]. by apply total_const.
  - intros i Hi. destruct (complete_or_waiting n machine script result Hscr s i Hs Hi)
      as [[_ ?]|(out & ? & _)]; [left|right]; by eexists.
  - by eapply completes.
  - intros Hstuck i Hi. eexists. by eapply stuck_complete.
Qed.

(** Agents that go on when others are done follow the same scripts. *)
Lemma scripted_through {A B} n (machine : nat -> list AgentMessage -> run A)
    (machine' : nat -> list AgentMessage -> run B) script result result' :
  (forall i inbox, (i < n)%nat ->
     (forall left out, machine i inbox = Done (result i) left out ->
        machine' i inbox = Done (result' i) left out) /\
     (forall out, machine i inbox = Waiting out -> machine' i inbox = Waiting out)) ->
  scripted n machine script result -> scripted n machine' script result'.
Proof.
  intros Hm Hs. assert (forall i ds, (i < n)%nat -> ds ⊆+ deliveries_for n script i ->
    out_of (machine' i (d_msg <$> ds)) = out_of (machine i (d_msg <$> ds))) as Hout.
  { intros i ds Hi [rest Hrest]%submseteq_Permutation. destruct (Hm i (d_msg <$> ds) Hi) as [Hd Hw].
    destruct (decide (rest = [])) as [->|Hne].
    - rewrite app_nil_r in Hrest. symmetry in Hrest.
      pose proof (scripted_complete _ _ _ _ Hs i ds Hi Hrest) as Hc. by rewrite Hc, (Hd _ _ Hc).
    - symmetry in Hrest. destruct (scripted_partial _ _ _ _ Hs i ds rest Hi Hrest Hne) as (out & Hp & _).
      by rewrite Hp, (Hw _ Hp). }
  split.
  - intros i ds Hi Hds. apply (Hm i _ Hi). by apply (scripted_complete _ _ _ _ Hs).
  - intros i ds rest Hi Hds Hne. destruct (scripted_partial _ _ _ _ Hs i ds rest Hi Hds Hne)
      as (out & Hp & Hpre). exists out. split; [|done]. by apply (Hm i _ Hi).
  - intros i ds Hi Hds. rewrite Hout by done. by apply (scripted_first _ _ _ _ Hs).
  - intros i ds Hi Hds Hall. rewrite Hout by done. by apply (scripted_rest _ _ _ _ Hs).
Qed.

(** The messages that complete a session complete every other session with these
    scripts. *)
Lemma stuck_through {A B} n (machine : nat -> list AgentMessage -> run A)
    (machine' : nat -> list AgentMessage -> run B) script result result' k s i :
  scripted n machine script result -> scripted n machine' script result' ->
  nsteps (step n machine') k start s -> (forall s', ~ step n machine' s s') -> (i < n)%nat ->
  machine i (inbox s i) = Done (result i) [] (script i).
Proof.
  intros Hs Hs' Hk Hstuck Hi. apply (scripted_complete _ _ _ _ Hs); [done|].
  eapply stuck_all; [exact Hs'| |done|done]. by eapply reachable_consistent, rtc_nsteps_2.
Qed.
