(* ===== verification/System.v ===== *)
(** * The nodes of a session

    [n] nodes that run [ProtocolExecution.poll] ([Execution]) around their agents, and
    the network between them: the composition of [crates/client/service/src/execution.rs]
    with the agents.  The network is reliable and gives a request to the execution of
    its addressee in any order ([Node.message_travels] and [ReceiverProxy] say how it
    gets there).  [system_session] says that everything such nodes do is a session in
    the sense of [Session]: the executions, with their numbering of broadcasts, their
    buffer and their acknowledgements, implement the delivery of every message to
    everyone it is for, exactly once. *)

From Stdlib Require Import ZArith Lia Strings.Byte.
From stdpp Require Import base gmap strings numbers list relations.
From S2P Require Import Prelude Wire Messages Peerset Room Echo Storage Execution Frost Session.

Local Open Scope Z_scope.

(** ** What has been sent *)

(** The broadcasts among some messages, and the number of the broadcast at a position. *)
Definition broadcasts_in (l : list AgentResponse) : nat :=
  length (filter (fun m => ar_to m = None) l).

Definition broadcast_id (l : list AgentResponse) (k : nat) : Z := Z.of_nat (broadcasts_in (take k l)).

Lemma broadcasts_in_app l1 l2 :
  broadcasts_in (l1 ++ l2) = (broadcasts_in l1 + broadcasts_in l2)%nat.
Proof. unfold broadcasts_in. by rewrite filter_app, length_app. Qed.

Lemma broadcast_id_app l l' k : (k <= length l)%nat -> broadcast_id (l ++ l') k = broadcast_id l k.
Proof. intros Hk. unfold broadcast_id. by rewrite take_app_le. Qed.

Lemma broadcast_id_lt l k k' m :
  l !! k = Some m -> ar_to m = None -> (k < k')%nat -> broadcast_id l k < broadcast_id l k'.
Proof.
  intros Hk Hm Hlt. unfold broadcast_id.
  rewrite <- (take_drop k (take k' l)), broadcasts_in_app, take_take, Nat.min_l by lia.
  assert (drop k (take k' l) !! 0%nat = Some m) as H0.
  { rewrite lookup_drop, Nat.add_0_r, lookup_take_lt by lia. done. }
  destruct (drop k (take k' l)) as [|x rest]; [done|]. injection H0 as ->.
  unfold broadcasts_in. rewrite filter_cons_True by done. cbn. lia.
Qed.

(** Different broadcasts have different numbers. *)
Lemma broadcast_id_inj l k k' m m' :
  l !! k = Some m -> ar_to m = None -> l !! k' = Some m' -> ar_to m' = None ->
  broadcast_id l k = broadcast_id l k' -> k = k'.
Proof.
  intros Hk Hm Hk' Hm' Heq. destruct (Nat.lt_trichotomy k k') as [Hlt|[?|Hlt]]; [|done|].
  - pose proof (broadcast_id_lt l k k' m Hk Hm Hlt). lia.
  - pose proof (broadcast_id_lt l k' k m' Hk' Hm' Hlt). lia.
Qed.

Lemma incoming_inv from to m x :
  incoming from to m = Some x ->
  from <> to /\ x = {| am_from := Z.of_nat from + 1; am_payload := ar_body m; am_to := ar_to m |} /\
  (ar_to m = None \/ ar_to m = Some (Z.of_nat to + 1)).
Proof.
  unfold incoming. case_bool_decide; [done|]. destruct (ar_to m) as [u|].
  - destruct (Z.eqb_spec u (Z.of_nat to + 1)) as [->|]; [|done]. intros [= <-]. auto.
  - intros [= <-]. auto.
Qed.

Lemma incoming_broadcast from to m :
  from <> to -> ar_to m = None -> is_Some (incoming from to m).
Proof. intros Hne Hm. unfold incoming. rewrite bool_decide_eq_false_2 by done. rewrite Hm. by eexists. Qed.

(** A party and the others. *)
Lemma seq_others i n : (i < n)%nat -> seq 0 n ≡ₚ i :: filter (fun j => j <> i) (seq 0 n).
Proof.
  intros Hi. apply NoDup_Permutation.
  - apply NoDup_seq.
  - constructor; [|apply NoDup_filter, NoDup_seq]. by intros [? _]%list_elem_of_filter.
  - intros j. rewrite elem_of_cons, list_elem_of_filter, !elem_of_seq.
    destruct (decide (j = i)); naive_solver lia.
Qed.

(** Every number below that of the next broadcast is the number of one. *)
Lemma broadcast_numbered l mid :
  (mid < broadcasts_in l)%nat ->
  exists k m, l !! k = Some m /\ ar_to m = None /\ broadcast_id l k = Z.of_nat mid.
Proof.
  revert mid. induction l as [|x l IH]; intros mid; [cbn; lia|].
  unfold broadcasts_in. rewrite filter_cons. case_decide as Hx; cbn; fold (broadcasts_in l).
  - destruct mid as [|mid]; intros Hmid; [by exists 0%nat, x|].
    destruct (IH mid) as (k & m & Hk & Hm & Hid); [lia|]. exists (S k), m.
    split; [done|]. split; [done|]. unfold broadcast_id, broadcasts_in in *. cbn [take].
    rewrite filter_cons_True by done. cbn. lia.
  - intros Hmid. destruct (IH mid Hmid) as (k & m & Hk & Hm & Hid). exists (S k), m.
    split; [done|]. split; [done|]. unfold broadcast_id, broadcasts_in in *. cbn [take].
    by rewrite filter_cons_False.
Qed.

Lemma broadcasts_in_prefix l l' : l `prefix_of` l' -> (broadcasts_in l <= broadcasts_in l')%nat.
Proof. intros [k ->]. rewrite broadcasts_in_app. lia. Qed.

(** A sum over the parties in which one summand shrinks. *)
Lemma total_drop n f g i k :
  (i < n)%nat -> (forall j, j <> i -> f j = g j) -> (f i + k <= g i)%nat ->
  (total n f + k <= total n g)%nat.
Proof.
  intros Hi Hne Hk. unfold total. replace n with (i + S (n - S i))%nat by lia.
  rewrite seq_app, !sum_list_with_app. cbn [seq sum_list_with Nat.add].
  assert (forall l, i ∉ l -> sum_list_with f l = sum_list_with g l) as Heq.
  { induction l as [|j l IH]; [done|]. intros [Hj Hl]%not_elem_of_cons. cbn.
    rewrite IH, (Hne j); auto. }
  rewrite (Heq (seq 0 i)), (Heq (seq (S _) _)) by (rewrite elem_of_seq; lia). lia.
Qed.

(** Scripts of [n] parties that all begin with a broadcast and broadcast equally often,
    [waves] times, with messages to no one else than the parties. *)
Record in_waves (n waves : nat) (script : nat -> list AgentResponse) : Prop := {
  waves_count i : (i < n)%nat -> broadcasts_in (script i) = waves;
  waves_first i : (i < n)%nat -> exists m, script i !! 0%nat = Some m /\ ar_to m = None;
  waves_address i m u : (i < n)%nat -> m ∈ script i -> ar_to m = Some u -> 1 <= u <= Z.of_nat n;
}.

Module System.
Section system.
Context `{PI : PeerIds} `{UnsignedVarint} `{CA : ComputeAgents}.
Import ProtocolExecution.

(** The peers of the session in the order of their set, and what names the session. *)
Variables (ps : list PeerId) (sid : SessionId) (proto : Z).
Abbreviation n := (length ps).
Abbreviation buffer := (gmap (Z * Z) IncomingRequest).

Definition context_of (mid : Z) : MessageContext :=
  {| message_type := Computation; protocol_id := proto; session_id := sid; message_id := mid |}.

(** A request on its way: the [pk_seq]-th message of the agent of [pk_from]. *)
Record packet : Type := {
  pk_from : nat;
  pk_seq : nat;
  pk_to : nat;
  pk_context : MessageContext;
  pk_broadcast : bool;
  pk_body : bytes;
}.

Definition packet_key (pk : packet) : nat * nat := (pk_from pk, pk_seq pk).

(** ** One receiver

    [logs] are the messages the executions have taken from their agents.  Of those for
    party [i], some are on their way to it ([W]), some broadcasts wait in its buffer
    ([p]) and the others are delivered ([D]); each is in one place. *)

Section receiver.
Variable i : nat.

Definition packet_ok (logs : nat -> list AgentResponse) (pk : packet) : Prop :=
  (pk_from pk < n)%nat /\ exists m, logs (pk_from pk) !! pk_seq pk = Some m /\
    is_Some (incoming (pk_from pk) i m) /\ pk_body pk = ar_body m /\
    pk_broadcast pk = bool_decide (ar_to m = None) /\
    pk_context pk = context_of
      (if bool_decide (ar_to m = None) then broadcast_id (logs (pk_from pk)) (pk_seq pk) else 0).

(** The broadcast at position [k] of party [j] is in the buffer. *)
Definition buffered (logs : nat -> list AgentResponse) (p : buffer) (j k : nat) : Prop :=
  is_Some (p !! (Z.of_nat j + 1, broadcast_id (logs j) k)).

Record ledger (logs : nat -> list AgentResponse) (W : list packet) (p : buffer)
  (D : list delivery) : Prop := {
  led_wire pk : pk ∈ W -> packet_ok logs pk;
  led_buffer s mid req : p !! (s, mid) = Some req ->
    exists j k m, (j < n)%nat /\ j <> i /\ s = Z.of_nat j + 1 /\ logs j !! k = Some m /\
      ar_to m = None /\ mid = broadcast_id (logs j) k /\ payload req = ar_body m;
  led_delivered d : d ∈ D -> (d_from d < n)%nat /\
    exists m, logs (d_from d) !! d_seq d = Some m /\
      incoming (d_from d) i m = Some (d_msg d) /\
      (ar_to m = None -> ~ buffered logs p (d_from d) (d_seq d));
  led_wire_once : NoDup (packet_key <$> W);
  led_wire_fresh pk : pk ∈ W -> packet_key pk ∉ key <$> D /\
    (pk_broadcast pk = true -> ~ buffered logs p (pk_from pk) (pk_seq pk));
  led_complete j k m : (j < n)%nat -> logs j !! k = Some m -> is_Some (incoming j i m) ->
    (j, k) ∈ packet_key <$> W \/ (ar_to m = None /\ buffered logs p j k) \/ (j, k) ∈ key <$> D;
}.

Definition no_logs : nat -> list AgentResponse := fun _ => [].

Lemma ledger_start : ledger no_logs [] ∅ [].
Proof.
  split.
  - by intros pk Hpk%elem_of_nil.
  - intros s mid req Hr. by rewrite lookup_empty in Hr.
  - by intros d Hd%elem_of_nil.
  - constructor.
  - by intros pk Hpk%elem_of_nil.
  - intros j k m _ Hm. unfold no_logs in Hm. by rewrite lookup_nil in Hm.
Qed.

Lemma ledger_perm logs W W' p D : W ≡ₚ W' -> ledger logs W p D -> ledger logs W' p D.
Proof.
  intros HW [L1 L2 L3 L4 L5 L6]. split.
  - intros pk. rewrite <- HW. apply L1.
  - exact L2.
  - exact L3.
  - by rewrite <- HW.
  - intros pk. rewrite <- HW. apply L5.
  - intros j k m. rewrite <- HW. apply L6.
Qed.

(** *** A message is taken from an agent *)

Definition log_more (logs : nat -> list AgentResponse) (j0 : nat) (m : AgentResponse) :
  nat -> list AgentResponse := fun j => if decide (j = j0) then logs j ++ [m] else logs j.

Lemma log_more_old (logs : nat -> list AgentResponse) j0 m j k x :
  logs j !! k = Some x ->
  log_more logs j0 m j !! k = Some x /\ broadcast_id (log_more logs j0 m j) k = broadcast_id (logs j) k.
Proof.
  intros Hk. unfold log_more. case_decide; [|done]. split; [by apply lookup_app_l_Some|].
  apply lookup_lt_Some in Hk. apply broadcast_id_app. lia.
Qed.

Lemma log_more_inv (logs : nat -> list AgentResponse) j0 m j k x :
  log_more logs j0 m j !! k = Some x ->
  logs j !! k = Some x \/ (j = j0 /\ k = length (logs j0) /\ x = m).
Proof.
  unfold log_more. case_decide as Hj; [|auto]. subst j. intros [?|[Hk Hx]]%lookup_app_Some; [auto|].
  right. apply list_lookup_singleton_Some in Hx as [Hk0 ->]. split; [done|]. split; [lia|done].
Qed.

Lemma log_more_new (logs : nat -> list AgentResponse) j0 m :
  log_more logs j0 m j0 !! length (logs j0) = Some m /\
  broadcast_id (log_more logs j0 m j0) (length (logs j0)) = Z.of_nat (broadcasts_in (logs j0)).
Proof.
  unfold log_more. rewrite decide_True by done. split.
  - by rewrite lookup_app_r, Nat.sub_diag by lia.
  - unfold broadcast_id. by rewrite take_app_length.
Qed.

Lemma broadcasts_before (logs : nat -> list AgentResponse) j k m :
  logs j !! k = Some m -> ar_to m = None ->
  broadcast_id (logs j) k < Z.of_nat (broadcasts_in (logs j)).
Proof.
  intros Hk Hm. pose proof (lookup_lt_Some _ _ _ Hk) as Hlt.
  pose proof (broadcast_id_lt (logs j) k (length (logs j)) m Hk Hm Hlt) as Hb.
  unfold broadcast_id in Hb at 2. by rewrite take_ge in Hb by lia.
Qed.

(** The packet of a message that is taken, if it is for [i]. *)
Definition packet_of (logs : nat -> list AgentResponse) (j0 : nat) (m : AgentResponse) : list packet :=
  match incoming j0 i m with
  | Some _ =>
      [{| pk_from := j0; pk_seq := length (logs j0); pk_to := i;
          pk_context := context_of
            (if bool_decide (ar_to m = None) then Z.of_nat (broadcasts_in (logs j0)) else 0);
          pk_broadcast := bool_decide (ar_to m = None); pk_body := ar_body m |}]
  | None => []
  end.

Lemma ledger_take logs W p D j0 m :
  (j0 < n)%nat -> ledger logs W p D ->
  ledger (log_more logs j0 m) (W ++ packet_of logs j0 m) p D.
Proof.
  intros Hj0 [L1 L2 L3 L4 L5 L6]. destruct (log_more_new logs j0 m) as [Hnew Hid].
  assert (forall pk, pk ∈ packet_of logs j0 m -> packet_ok (log_more logs j0 m) pk /\
    packet_key pk = (j0, length (logs j0)) /\ is_Some (incoming j0 i m)) as Hpk.
  { intros pk. unfold packet_of. destruct (incoming j0 i m) as [x|] eqn:Hx; [|by intros ?%elem_of_nil].
    intros ->%list_elem_of_singleton. split; [|by split; [|eexists]]. split; [done|]. exists m. cbn.
    rewrite Hid. split; [done|]. split; [by eexists|done]. }
  assert (forall pk, pk ∈ W -> (pk_seq pk < length (logs (pk_from pk)))%nat) as Hold.
  { intros pk Hin. destruct (L1 pk Hin) as (_ & x & Hx & _). by apply lookup_lt_Some in Hx. }
  assert (forall j k x, logs j !! k = Some x ->
    buffered (log_more logs j0 m) p j k <-> buffered logs p j k) as Hbuf.
  { intros j k x Hx. unfold buffered. by rewrite (proj2 (log_more_old logs j0 m j k x Hx)). }
  split.
  - intros pk [Hin|Hin]%elem_of_app; [|by apply Hpk]. destruct (L1 pk Hin) as (? & x & Hx & Hr).
    destruct (log_more_old logs j0 m _ _ _ Hx) as [Hx' He]. split; [done|]. exists x.
    by rewrite He.
  - intros s mid req Hr. destruct (L2 s mid req Hr) as (j & k & x & Hj & Hne & -> & Hx & Hm & -> & Hpay).
    destruct (log_more_old logs j0 m _ _ _ Hx) as [Hx' He]. exists j, k, x. by rewrite He.
  - intros d Hd. destruct (L3 d Hd) as (Hf & x & Hx & Hinc & Hb). split; [done|]. exists x.
    split; [by apply log_more_old|]. split; [done|]. by rewrite (Hbuf _ _ x).
  - rewrite fmap_app. apply NoDup_app. split; [done|]. split.
    + intros k (pk & -> & Hin)%list_elem_of_fmap (pk' & Heq & Hin')%list_elem_of_fmap.
      destruct (Hpk pk' Hin') as (_ & Hk & _). rewrite Hk in Heq. specialize (Hold pk Hin).
      injection Heq as Hf Hs. rewrite Hf in Hold. lia.
    + unfold packet_of. destruct (incoming j0 i m); [apply NoDup_singleton|constructor].
  - intros pk [Hin|Hin]%elem_of_app.
    + destruct (L5 pk Hin) as [Hk Hb]. split; [done|]. destruct (L1 pk Hin) as (_ & x & Hx & _).
      by rewrite (Hbuf _ _ x).
    + destruct (Hpk pk Hin) as (_ & Hk & _). rewrite Hk. split.
      * intros (d & Heq & Hd)%list_elem_of_fmap. destruct (L3 d Hd) as (_ & x & Hx & _).
        injection Heq as Hf Hs. rewrite <- Hf in Hx. apply lookup_lt_Some in Hx. lia.
      * intros _ [req Hr]. injection Hk as Hf Hs. rewrite Hf, Hs, Hid in Hr.
        destruct (L2 _ _ _ Hr) as (j & k & x & _ & _ & Hj & Hx & Hm & Hmid & _).
        assert (j0 = j) as -> by lia. pose proof (broadcasts_before logs j k x Hx Hm). lia.
  - intros j k x Hj Hx Hinc. rewrite fmap_app, elem_of_app.
    apply log_more_inv in Hx as [Hx|(-> & -> & ->)].
    + rewrite (Hbuf _ _ x) by done. destruct (L6 j k x Hj Hx Hinc) as [?|[?|?]]; auto.
    + left. right. unfold packet_of. destruct Hinc as [y ->]. by constructor.
Qed.

(** *** A request arrives *)

(** A packet that is taken off the wire is nowhere else. *)
Lemma wire_head logs pk W p D :
  ledger logs (pk :: W) p D ->
  packet_key pk ∉ packet_key <$> W /\ NoDup (packet_key <$> W).
Proof. intros [_ _ _ L4 _ _]. by apply NoDup_cons in L4. Qed.

(** A broadcast goes to the buffer, under a key of its own. *)
Lemma ledger_buffer logs pk W p D req :
  ledger logs (pk :: W) p D -> pk_broadcast pk = true -> payload req = pk_body pk ->
  ledger logs W (<[(Z.of_nat (pk_from pk) + 1, message_id (pk_context pk)) := req]> p) D.
Proof.
  intros HL Hbr Hpay. destruct (wire_head _ _ _ _ _ HL) as [Hhead Hnd].
  destruct HL as [L1 L2 L3 L4 L5 L6].
  destruct (L1 pk ltac:(constructor)) as (Hf & m & Hm & Hinc & Hbody & Hb & Hctx).
  rewrite Hbr in Hb. symmetry in Hb. apply bool_decide_eq_true in Hb.
  rewrite Hctx, bool_decide_eq_true_2 by done. cbn [context_of message_id].
  set (key0 := (Z.of_nat (pk_from pk) + 1, broadcast_id (logs (pk_from pk)) (pk_seq pk))).
  assert (forall j k x, logs j !! k = Some x -> ar_to x = None -> (j, k) <> packet_key pk ->
    buffered logs (<[key0 := req]> p) j k <-> buffered logs p j k) as Hother.
  { intros j k x Hx Hxb Hne. unfold buffered. rewrite lookup_insert_ne; [done|].
    unfold key0. intros [= Hj Hk]. assert (j = pk_from pk) as -> by lia. apply Hne.
    unfold packet_key. f_equal. by eapply broadcast_id_inj. }
  split.
  - intros pk' Hin. apply L1. by constructor.
  - intros s mid r [[Hk <-]|[_ Hr]]%lookup_insert_Some; [|by eapply L2].
    injection Hk as <- <-. exists (pk_from pk), (pk_seq pk), m. destruct Hinc as [x Hx].
    pose proof (incoming_inv _ _ _ _ Hx) as (? & _). by rewrite Hpay.
  - intros d Hd. destruct (L3 d Hd) as (Hfd & x & Hx & Hincd & Hbd). split; [done|]. exists x.
    split; [done|]. split; [done|]. intros Hxb. rewrite Hother; [by apply Hbd|done|done|].
    intros Heq. destruct (L5 pk ltac:(constructor)) as [Hk _]. apply Hk. rewrite <- Heq.
    apply list_elem_of_fmap. by exists d.
  - done.
  - intros pk' Hin. destruct (L5 pk' ltac:(by constructor)) as [Hk Hb']. split; [done|].
    intros Hbr'. destruct (L1 pk' ltac:(by constructor)) as (_ & x & Hx & _ & _ & Hxb & _).
    rewrite Hbr' in Hxb. symmetry in Hxb. apply bool_decide_eq_true in Hxb.
    rewrite Hother; [by apply Hb'|done|done|]. intros Heq. apply Hhead.
    rewrite <- Heq. apply list_elem_of_fmap. by exists pk'.
  - intros j k x Hj Hx Hincx. destruct (decide ((j, k) = packet_key pk)) as [Heq|Hne].
    + right. left. injection Heq as -> ->. simplify_eq. split; [done|].
      unfold buffered. fold key0. rewrite lookup_insert_eq. by eexists.
    + destruct (L6 j k x Hj Hx Hincx) as [Hw|[[Hxb Hbuf]|Hd]]; [| |auto].
      * cbn in Hw. apply elem_of_cons in Hw as [?|?]; [done|auto].
      * right. left. split; [done|]. by rewrite Hother.
Qed.

(** A direct message is delivered at once. *)
Lemma ledger_direct logs pk W p D :
  ledger logs (pk :: W) p D -> pk_broadcast pk = false ->
  exists m d, logs (pk_from pk) !! pk_seq pk = Some m /\ (pk_from pk < n)%nat /\
    incoming (pk_from pk) i m = Some (d_msg d) /\ key d = packet_key pk /\
    d_msg d = {| am_from := Z.of_nat (pk_from pk) + 1; am_payload := pk_body pk;
                 am_to := Some (Z.of_nat i + 1) |} /\
    key d ∉ key <$> D /\ ledger logs W p (D ++ [d]).
Proof.
  intros HL Hbr. destruct (wire_head _ _ _ _ _ HL) as [Hhead Hnd].
  destruct HL as [L1 L2 L3 L4 L5 L6].
  destruct (L1 pk ltac:(constructor)) as (Hf & m & Hm & [x Hinc] & Hbody & Hb & _).
  rewrite Hbr in Hb. symmetry in Hb. apply bool_decide_eq_false in Hb.
  destruct (incoming_inv _ _ _ _ Hinc) as (Hne & Hx & [?|Hto]); [done|].
  set (d := {| d_from := pk_from pk; d_seq := pk_seq pk; d_msg := x |}).
  exists m, d. split; [done|]. split; [done|]. split; [done|]. split; [done|].
  split; [cbn; by rewrite Hx, Hbody, Hto|]. split; [by apply (L5 pk); constructor|]. split.
  - intros pk' Hin. apply L1. by constructor.
  - done.
  - intros d' [Hd'| ->%list_elem_of_singleton]%elem_of_app; [by apply L3|].
    split; [done|]. exists m. split; [done|]. split; [done|]. intros ?. congruence.
  - done.
  - intros pk' Hin. destruct (L5 pk' ltac:(by constructor)) as [Hk Hb']. split; [|done].
    rewrite fmap_app. intros [Hold|Hnew%list_elem_of_singleton]%elem_of_app; [done|].
    apply Hhead. apply list_elem_of_fmap. exists pk'. by rewrite Hnew.
  - intros j k y Hj Hy Hincy. rewrite fmap_app, elem_of_app.
    destruct (L6 j k y Hj Hy Hincy) as [Hw|[?|?]]; [|auto..].
    cbn in Hw. apply elem_of_cons in Hw as [Heq|?]; [|auto].
    right. right. right. rewrite Heq. by constructor.
Qed.

(** *** A broadcast is delivered *)

Lemma ledger_deliver logs W p D s mid req :
  ledger logs W p D -> p !! (s, mid) = Some req ->
  exists m d, logs (d_from d) !! d_seq d = Some m /\ (d_from d < n)%nat /\
    incoming (d_from d) i m = Some (d_msg d) /\ ar_to m = None /\
    mid = broadcast_id (logs (d_from d)) (d_seq d) /\
    d_msg d = {| am_from := s; am_payload := payload req; am_to := None |} /\
    key d ∉ key <$> D /\ ledger logs W (delete (s, mid) p) (D ++ [d]).
Proof.
  intros [L1 L2 L3 L4 L5 L6] Hreq.
  destruct (L2 s mid req Hreq) as (j & k & m & Hj & Hne & -> & Hm & Hto & -> & Hpay).
  destruct (incoming_broadcast j i m Hne Hto) as [x Hinc].
  destruct (incoming_inv _ _ _ _ Hinc) as (_ & Hx & _).
  set (d := {| d_from := j; d_seq := k; d_msg := x |}).
  assert (buffered logs p j k) as Hbuf by (by eexists).
  assert (forall j' k' y, logs j' !! k' = Some y -> ar_to y = None -> (j', k') <> (j, k) ->
    buffered logs (delete (Z.of_nat j + 1, broadcast_id (logs j) k) p) j' k' <-> buffered logs p j' k')
    as Hother.
  { intros j' k' y Hy Hyb Hne'. unfold buffered. rewrite lookup_delete_ne; [done|].
    intros [= Hjj Hkk]. assert (j' = j) as -> by lia. apply Hne'. f_equal. by eapply broadcast_id_inj. }
  exists m, d. split; [done|]. split; [done|]. split; [done|]. split; [done|]. split; [done|].
  split; [cbn; by rewrite Hx, Hpay, Hto|]. split.
  { intros (d' & Hk & Hd')%list_elem_of_fmap. destruct (L3 d' Hd') as (_ & y & Hy & _ & Hb).
    injection Hk as Hf Hs. rewrite <- Hf, <- Hs in Hy, Hb. simplify_eq. by apply Hb. }
  split.
  - exact L1.
  - intros s mid r [_ Hr]%lookup_delete_Some. by eapply L2.
  - intros d' [Hd'| ->%list_elem_of_singleton]%elem_of_app.
    + destruct (L3 d' Hd') as (Hf & y & Hy & Hincy & Hb). split; [done|]. exists y.
      split; [done|]. split; [done|]. intros Hyb [r Hr]. apply lookup_delete_Some in Hr as [_ Hr].
      apply Hb; [done|by eexists].
    + split; [done|]. exists m. split; [done|]. split; [done|]. intros _ [r Hr].
      by rewrite lookup_delete_eq in Hr.
  - done.
  - intros pk Hin. destruct (L5 pk Hin) as [Hk Hb]. split.
    + rewrite fmap_app. intros [Hold|Hnew%list_elem_of_singleton]%elem_of_app; [done|].
      destruct (L1 pk Hin) as (_ & y & Hy & _ & _ & Hyb & _). injection Hnew as Hf Hs.
      rewrite Hf, Hs in Hy, Hb. simplify_eq. rewrite bool_decide_eq_true_2 in Hyb by done. by apply Hb.
    + intros Hbr [r Hr]. apply lookup_delete_Some in Hr as [_ Hr]. apply Hb; [done|by eexists].
  - intros j' k' y Hj' Hy Hincy. rewrite fmap_app, elem_of_app.
    destruct (decide ((j', k') = (j, k))) as [[= -> ->]|Hne'].
    + right. right. right. by constructor.
    + destruct (L6 j' k' y Hj' Hy Hincy) as [?|[[Hyb Hbf]|?]]; [auto| |auto].
      right. left. split; [done|]. by rewrite Hother.
Qed.
End receiver.

(** ** Deliveries as steps of a session *)

Section steps.
Context {A : Type} (machine : nat -> list AgentMessage -> run A).
Hypothesis Hgrow : forall i inbox rest,
  out_of (machine i inbox) `prefix_of` out_of (machine i (inbox ++ rest)).

(** What has been taken from the agents are messages they have sent. *)
Definition sends (s : Session.state) (logs : nat -> list AgentResponse) : Prop :=
  forall j, (j < n)%nat -> logs j `prefix_of` out_of (party machine s j).

(** The session goes on with deliveries to party [i]. *)
Record advances (i : nat) (logs : nat -> list AgentResponse) (s s' : Session.state)
  (ds : list delivery) : Prop := {
  adv_steps : rtc (Session.step n machine) s s';
  adv_own : s' i = s i ++ ds;
  adv_others j : j <> i -> s' j = s j;
  adv_sends : sends s' logs;
}.

Lemma advances_refl i logs s : sends s logs -> advances i logs s s [].
Proof. intros Hs. split; [done|by rewrite app_nil_r|done|done]. Qed.

Lemma advances_trans i logs s1 s2 s3 ds1 ds2 :
  advances i logs s1 s2 ds1 -> advances i logs s2 s3 ds2 -> advances i logs s1 s3 (ds1 ++ ds2).
Proof.
  intros [S1 O1 T1 _] [S2 O2 T2 H2]. split; [by etrans| |intros j Hj; by rewrite T2, T1|done].
  by rewrite O2, O1, app_assoc.
Qed.

Lemma advances_one i logs s d m :
  (i < n)%nat -> sends s logs -> (d_from d < n)%nat ->
  logs (d_from d) !! d_seq d = Some m -> incoming (d_from d) i m = Some (d_msg d) ->
  key d ∉ key <$> s i -> advances i logs s (give s i d) [d].
Proof.
  intros Hi Hs Hf Hm Hinc Hk. split.
  - apply rtc_once. eapply Session.deliver; [done|done| |done|done].
    eapply prefix_lookup_Some; [exact Hm|by apply Hs].
  - unfold give. by rewrite decide_True.
  - intros j Hj. unfold give. by rewrite decide_False.
  - intros j Hj. unfold party, inbox, give. case_decide as Heq; [|by apply Hs].
    etrans; [by apply Hs|]. rewrite fmap_app. apply Hgrow.
Qed.

(** The broadcasts delivered to party [i] are those with a number below [next], of all
    others. *)
Record in_turn (i : nat) (logs : nat -> list AgentResponse) (next : Z) (D : list delivery) :
  Prop := {
  turn_next : 0 <= next;
  turn_delivered d m : d ∈ D -> logs (d_from d) !! d_seq d = Some m -> ar_to m = None ->
    broadcast_id (logs (d_from d)) (d_seq d) < next;
  turn_done mid j : 0 <= mid < next -> (j < n)%nat -> j <> i ->
    exists k m, logs j !! k = Some m /\ ar_to m = None /\ broadcast_id (logs j) k = mid /\
      (j, k) ∈ key <$> D;
}.

(** What waits has a number that is not delivered yet. *)
Lemma turn_buffer i logs W p next D s mid req :
  ledger i logs W p D -> in_turn i logs next D -> p !! (s, mid) = Some req -> next <= mid.
Proof.
  intros [_ L2 L3 _ _ _] [_ _ T2] Hreq.
  destruct (L2 s mid req Hreq) as (j & k & m & Hj & Hne & -> & Hm & Hto & -> & _).
  destruct (Z.le_gt_cases next (broadcast_id (logs j) k)) as [?|Hlt]; [done|exfalso].
  destruct (T2 (broadcast_id (logs j) k) j) as (k' & m' & Hm' & Hto' & Hid & Hk);
    [unfold broadcast_id in *; lia|done..|].
  pose proof (broadcast_id_inj _ _ _ _ _ Hm' Hto' Hm Hto Hid) as ->.
  apply list_elem_of_fmap in Hk as (d & Hd & Hin). injection Hd as -> ->.
  destruct (L3 d Hin) as (_ & x & Hx & _ & Hb). rewrite Hx in Hm. injection Hm as ->.
  apply Hb; [done|by eexists].
Qed.

(** The numbers of the others. *)
Definition others (i : nat) : list Z :=
  (fun j => Z.of_nat j + 1) <$> filter (fun j => j <> i) (seq 0 n).

Lemma elem_of_other_numbers i s : s ∈ others i <-> exists j, s = Z.of_nat j + 1 /\ (j < n)%nat /\ j <> i.
Proof.
  unfold others. rewrite list_elem_of_fmap. split; intros (j & -> & Hj); exists j; (split; [done|]).
  - apply list_elem_of_filter in Hj as [? Hj%elem_of_seq]. split; [lia|done].
  - apply list_elem_of_filter. split; [apply Hj|]. apply elem_of_seq. lia.
Qed.

Lemma other_numbers_nodup i : NoDup (others i).
Proof. apply NoDup_fmap_2; [intros ???; lia|]. apply NoDup_filter, NoDup_seq. Qed.

Lemma other_numbers_length i : (i < n)%nat -> Z.of_nat (length (others i)) = Z.of_nat n - 1.
Proof.
  intros Hi. unfold others. rewrite length_fmap. pose proof (seq_others i n Hi) as Hp.
  apply Permutation_length in Hp. rewrite length_seq in Hp. cbn in Hp. lia.
Qed.

Lemma ready_others i logs W p D next :
  ledger i logs W p D -> ready_senders p next ⊆ others i.
Proof.
  intros HL s [req Hreq]%elem_of_ready_senders.
  destruct (led_buffer _ _ _ _ _ HL _ _ _ Hreq) as (j & _ & _ & ? & ? & -> & _).
  apply elem_of_other_numbers. eauto.
Qed.

(** As many senders are ready as there are others exactly when all others are. *)
Lemma all_ready i logs W p D next :
  ledger i logs W p D -> (i < n)%nat ->
  Z.of_nat (length (ready_senders p next)) = Z.of_nat n - 1 <->
  forall j, (j < n)%nat -> j <> i -> Z.of_nat j + 1 ∈ ready_senders p next.
Proof.
  intros HL Hi. pose proof (other_numbers_length i Hi) as Hlen.
  pose proof (ready_others i logs W p D next HL) as Hsub. split.
  - intros Heq j Hj Hne. assert (ready_senders p next ≡ₚ others i) as ->; [|apply elem_of_other_numbers; eauto].
    apply submseteq_length_Permutation; [|lia]. apply NoDup_submseteq; [apply NoDup_ready_senders|done].
  - intros Hall. rewrite <- Hlen. f_equal. apply Permutation_length, NoDup_Permutation.
    + apply NoDup_ready_senders.
    + apply other_numbers_nodup.
    + intros s. split; [apply Hsub|]. intros (j & -> & ? & ?)%elem_of_other_numbers. auto.
Qed.

(** The deliveries of one number. *)
Definition all_numbered (logs : nat -> list AgentResponse) (mid : Z) (ds : list delivery) : Prop :=
  forall d m, d ∈ ds -> logs (d_from d) !! d_seq d = Some m ->
    broadcast_id (logs (d_from d)) (d_seq d) = mid.

Lemma deliver_all_advances i logs W mid senders p w p' w' s :
  (i < n)%nat -> sends s logs -> ledger i logs W p (s i) ->
  deliver_all mid senders (p, w) = Ok (p', w') ->
  exists s' ds, advances i logs s s' ds /\ ledger i logs W p' (s' i) /\
    to_app w' = to_app w ++ (d_msg <$> ds) /\ all_numbered logs mid ds.
Proof.
  intros Hi. revert p w s. induction senders as [|x senders IH]; intros p w s Hs HL; cbn [deliver_all].
  { intros [= <- <-]. exists s, []. split; [by apply advances_refl|]. split; [done|].
    split; [by rewrite app_nil_r|]. by intros d m ?%elem_of_nil. }
  intros ([p1 w1] & Hd & Hrest)%bind_ok.
  apply deliver_ok in Hd as (req & Hreq & -> & Happ & _).
  destruct (ledger_deliver i logs W p (s i) x mid req HL Hreq)
    as (m & d & Hm & Hf & Hinc & _ & Hmid & Hmsg & Hk & HL1).
  pose proof (advances_one i logs s d m Hi Hs Hf Hm Hinc Hk) as Hadv.
  rewrite <- (adv_own _ _ _ _ _ Hadv) in HL1.
  destruct (IH _ _ _ (adv_sends _ _ _ _ _ Hadv) HL1 Hrest) as (s' & ds & Hadv' & HL' & Happ' & Hnum).
  exists s', (d :: ds). split; [by apply (advances_trans _ _ _ _ _ [d] ds Hadv Hadv')|].
  split; [done|]. split.
  - rewrite Happ', Happ, <- app_assoc. cbn. by rewrite Hmsg.
  - intros d' m' [->|Hin]%elem_of_cons Hm'; [done|by eapply Hnum].
Qed.

(** One turn of the loop delivers the broadcasts of one number. *)
Lemma turn_advances i logs W p next w p1 w1 s :
  (i < n)%nat -> sends s logs -> ledger i logs W p (s i) -> in_turn i logs next (s i) ->
  Z.of_nat (length (ready_senders p next)) = Z.of_nat n - 1 ->
  deliver_all next (ready_senders p next) (p, w) = Ok (p1, w1) ->
  exists s' ds, advances i logs s s' ds /\ ledger i logs W p1 (s' i) /\
    in_turn i logs (next + 1) (s' i) /\ to_app w1 = to_app w ++ (d_msg <$> ds).
Proof.
  intros Hi Hs HL Ht Hr Hd.
  destruct (deliver_all_advances i logs W next _ _ _ _ _ s Hi Hs HL Hd)
    as (s1 & ds & Hadv & HL1 & Happ & Hnum).
  apply deliver_all_ok in Hd as (Hp1 & _); [|apply NoDup_ready_senders].
  exists s1, ds. split; [done|]. split; [done|]. split; [|done].
  pose proof (adv_own _ _ _ _ _ Hadv) as Hown. split.
  - pose proof (turn_next _ _ _ _ Ht). lia.
  - rewrite Hown. intros d m [Hin|Hin]%elem_of_app Hm Hto.
    + pose proof (turn_delivered _ _ _ _ Ht d m Hin Hm Hto). lia.
    + rewrite (Hnum d m Hin Hm). lia.
  - intros mid j Hmid Hj Hne. destruct (decide (mid = next)) as [->|Hlt].
    + pose proof (proj1 (all_ready i logs W p _ next HL Hi) Hr j Hj Hne) as Hready.
      pose proof Hready as [req Hreq]%elem_of_ready_senders.
      destruct (led_buffer _ _ _ _ _ HL _ _ _ Hreq) as (j' & k & m & _ & _ & Hjj & Hm & Hto & Hid & _).
      assert (j' = j) as -> by lia. exists k, m. split; [done|]. split; [done|]. split; [done|].
      destruct (led_complete _ _ _ _ _ HL1 j k m Hj Hm (incoming_broadcast j i m Hne Hto))
        as [(pk & Hk & Hpk)%list_elem_of_fmap|[[_ [r Hbuf]]|?]]; [exfalso..|done].
      * destruct (led_wire _ _ _ _ _ HL pk Hpk) as (_ & x & Hx & _ & _ & Hb & _).
        injection Hk as -> ->. rewrite Hx in Hm. injection Hm as ->.
        rewrite bool_decide_eq_true_2 in Hb by done.
        apply (proj2 (led_wire_fresh _ _ _ _ _ HL pk Hpk) Hb). unfold buffered.
        rewrite <- Hid. by eexists.
      * rewrite Hp1, <- Hid in Hbuf. cbn in Hbuf. by rewrite decide_True in Hbuf.
    + destruct (turn_done _ _ _ _ Ht mid j) as (k & m & ? & ? & ? & ?); [lia|done..|].
      exists k, m. rewrite Hown, fmap_app, elem_of_app. auto.
Qed.

(** [forward_buffered_messages] as steps of the session. *)
Lemma forward_advances fuel i logs W p next w p' next' w' s :
  (i < n)%nat -> sends s logs -> ledger i logs W p (s i) -> in_turn i logs next (s i) ->
  forward_buffered_messages fuel p next (Z.of_nat n) w = Some (Ok (p', next', w')) ->
  exists s' ds, advances i logs s s' ds /\ ledger i logs W p' (s' i) /\
    in_turn i logs next' (s' i) /\ to_app w' = to_app w ++ (d_msg <$> ds) /\
    Z.of_nat (length (ready_senders p' next')) <> Z.of_nat n - 1.
Proof.
  intros Hi. revert p next w s. induction fuel as [|fuel IH]; intros p next w s Hs HL Ht; [done|].
  cbn [forward_buffered_messages]. rewrite u16_sub_ok by lia. case_match eqn:Hr.
  { intros [= <- <- <-]. exists s, []. apply negb_true_iff, Z.eqb_neq in Hr.
    split; [by apply advances_refl|]. split; [done|]. split; [done|].
    split; [by rewrite app_nil_r|done]. }
  destruct (deliver_all next (ready_senders p next) (p, w)) as [[p1 w1]| |] eqn:Hd;
    cbn [mbind outcome_bind]; [|done..].
  unfold u64_add. destruct (next + 1 <=? u64_max); cbn [mbind outcome_bind]; [|done].
  apply negb_false_iff, Z.eqb_eq in Hr.
  destruct (turn_advances i logs W p next w p1 w1 s Hi Hs HL Ht Hr Hd)
    as (s1 & ds & Hadv & HL1 & Ht1 & Happ).
  intros Hf. destruct (IH p1 (next + 1) w1 s1 (adv_sends _ _ _ _ _ Hadv) HL1 Ht1 Hf)
    as (s' & ds' & Hadv' & HL' & Ht' & Happ' & Hmax).
  exists s', (ds ++ ds'). split; [by eapply advances_trans|]. split; [done|]. split; [done|].
  split; [|done]. by rewrite Happ', Happ, fmap_app, app_assoc.
Qed.
End steps.

(** ** One poll *)

(** What a poll does not change, and what it changes. *)
Record fixed (e e' : ProtocolExecution.t) : Prop := {
  fixed_session : session e' = session e;
  fixed_protocol : protocol e' = protocol e;
  fixed_peerset : peerset e' = peerset e;
  fixed_n : ProtocolExecution.n e' = ProtocolExecution.n e;
  fixed_i : ProtocolExecution.i e' = ProtocolExecution.i e;
}.

Record same_counters (e e' : ProtocolExecution.t) : Prop := {
  same_out : next_outgoing_broadcast_id e' = next_outgoing_broadcast_id e;
  same_in : next_incoming_broadcast_id e' = next_incoming_broadcast_id e;
  same_pending : pending_incoming e' = pending_incoming e;
}.

Lemma fixed_trans e1 e2 e3 : fixed e1 e2 -> fixed e2 e3 -> fixed e1 e3.
Proof. intros [? ? ? ? ?] [? ? ? ? ?]. split; congruence. Qed.

(** Requests of the network among effects. *)
Definition is_request (e : effect) : bool :=
  match e with NetworkRequest _ _ _ => true | _ => false end.

Definition network_effects (es : list effect) : list effect := filter is_request es.

Lemma serve_cache_fixed e ob o e' o' :
  serve_cache e ob o = Ok (e', o') ->
  fixed e e' /\ same_counters e e' /\ effects o' = effects o /\ sent o' = sent o.
Proof. unfold serve_cache. intros Hs. repeat case_match; simplify_eq; repeat split. Qed.

(** The request that carries the agent's message [m]. *)
Definition outgoing_request (e : ProtocolExecution.t) (m : AgentResponse) (eff : effect) : Prop :=
  match ar_to m with
  | None => exists room, eff = NetworkRequest room
      {| message_type := Computation; protocol_id := protocol e; session_id := session e;
         message_id := next_outgoing_broadcast_id e |}
      (Multicast (Peerset.remotes_iter (peerset e)) (ar_body m))
  | Some u => exists room q, 1 <= u /\ Peerset.peers (peerset e) !! Z.to_nat (u - 1) = Some q /\
      eff = NetworkRequest room
        {| message_type := Computation; protocol_id := protocol e; session_id := session e;
           message_id := 0 |} (SendDirect q (ar_body m))
  end.

Lemma send_outgoing_fixed e ob o e' o' :
  send_outgoing e ob o = Ok (e', o') ->
  fixed e e' /\ next_incoming_broadcast_id e' = next_incoming_broadcast_id e /\
  pending_incoming e' = pending_incoming e /\ to_app (sent o') = to_app (sent o) /\
  match from_protocol ob with
  | None => next_outgoing_broadcast_id e' = next_outgoing_broadcast_id e /\ effects o' = effects o
  | Some m =>
      next_outgoing_broadcast_id e' =
        next_outgoing_broadcast_id e + (if bool_decide (ar_to m = None) then 1 else 0) /\
      exists eff, effects o' = effects o ++ [eff] /\ outgoing_request e m eff
  end.
Proof.
  unfold send_outgoing, outgoing_request. destruct (from_protocol ob) as [m|]; [|by intros [= <- <-]].
  destruct (ar_to m) as [u|]; intros Hs; inv_ok.
  - unfold Peerset.index in *. inv_ok. unfold u16_sub in *.
    destruct (Z.leb_spec 1 u); [|done]. inv_ok. repeat (split; [done|]). split; [cbn; lia|].
    eexists. split; [done|]. by do 2 eexists.
  - unfold send_echo, u64_add in *. inv_ok. destruct (_ <=? u64_max); inv_ok.
    repeat (split; [done|]). eexists. split; [done|]. by eexists.
Qed.

Lemma accept_incoming_fixed e m o t0 e' o' :
  accept_incoming e m o t0 = Ok (e', o') ->
  fixed e e' /\ next_outgoing_broadcast_id e' = next_outgoing_broadcast_id e /\
  next_incoming_broadcast_id e' = next_incoming_broadcast_id e /\
  network_effects (effects o') = network_effects (effects o) /\
  if is_broadcast m
  then pending_incoming e' =
         <[(peer_index m + 1, message_id (context m)) := m]> (pending_incoming e) /\
       to_app (sent o') = to_app (sent o)
  else pending_incoming e' = pending_incoming e /\
       to_app (sent o') = to_app (sent o) ++
         [{| am_from := peer_index m + 1; am_payload := payload m;
             am_to := Some (ProtocolExecution.i e + 1) |}].
Proof.
  unfold accept_incoming. intros Ha. apply bind_ok in Ha as ([e1 o1] & Ha & Hr). inv_ok.
  assert (forall (e2 : ProtocolExecution.t) d,
    fixed e2 (if agent_result e2 is Some _ then with_agent (agent_running e2) (agent_result e2) d e2
              else e2)) as Hfix by (intros e2 d; by destruct (agent_result e2)).
  destruct (is_broadcast m).
  - inv_ok. unfold u16_add in *. destruct (_ <=? u16_max); inv_ok.
    split; [eapply fixed_trans; [|apply Hfix]; done|]. unfold network_effects. cbn.
    rewrite filter_app. split; [by case_match|]. split; [by case_match|].
    split; [case_match; cbn; by rewrite app_nil_r|]. split; [by case_match|done].
  - inv_ok. unfold forward_direct_message, send_app, u16_add in *. inv_ok.
    repeat match goal with
    | Hc : (if ?b then _ else _) = Ok _ |- _ => destruct b; inv_ok
    end.
    split; [apply Hfix|]. unfold network_effects. cbn. rewrite filter_app, app_nil_r.
    split; [by case_match|]. split; [by case_match|]. split; [done|]. split; [by case_match|done].
Qed.

Lemma complete_fixed e ob o e' o' :
  complete e ob o = Pending e' o' -> fixed e e' /\ same_counters e e' /\ o' = o.
Proof. unfold complete. intros Hc. repeat case_match; simplify_eq; repeat split. Qed.

Lemma forward_and_complete_fixed e ob o e' o' :
  forward_and_complete e ob o = Pending e' o' ->
  fixed e e' /\ next_outgoing_broadcast_id e' = next_outgoing_broadcast_id e /\
  effects o' = effects o /\
  exists fuel, forward_buffered_messages fuel (pending_incoming e) (next_incoming_broadcast_id e)
    (ProtocolExecution.n e) (sent o) =
    Some (Ok (pending_incoming e', next_incoming_broadcast_id e', sent o')).
Proof.
  unfold forward_and_complete. intros Hf.
  destruct (forward_buffered_messages _ _ _ _ _) as [[[[p next] w]| |]|] eqn:Hfw; try done.
  apply complete_fixed in Hf as ([F1 F2 F3 F4 F5] & [Ho Hi Hp] & ->).
  cbn [with_broadcasts session protocol peerset ProtocolExecution.n ProtocolExecution.i
    next_outgoing_broadcast_id next_incoming_broadcast_id pending_incoming] in *.
  split; [by split|]. split; [done|]. split; [done|].
  exists (S (base.size (pending_incoming e))). by rewrite Hfw, Hi, Hp.
Qed.

(** A poll that goes on: the agent's message is taken, a message of the network that
    belongs to the session is accepted, and what is complete is forwarded. *)
Lemma poll_parts e ob e' o :
  poll e ob = Pending e' o ->
  (forall m, from_network ob = Some m ->
     session_id (context m) = session e /\ message_type (context m) = Computation) ->
  exists e1 o1 e2 o2 fuel, fixed e e1 /\
    next_incoming_broadcast_id e1 = next_incoming_broadcast_id e /\
    pending_incoming e1 = pending_incoming e /\ to_app (sent o1) = [] /\
    match from_protocol ob with
    | None => next_outgoing_broadcast_id e1 = next_outgoing_broadcast_id e /\ effects o1 = []
    | Some m =>
        next_outgoing_broadcast_id e1 =
          next_outgoing_broadcast_id e + (if bool_decide (ar_to m = None) then 1 else 0) /\
        exists eff, effects o1 = [eff] /\ outgoing_request e m eff
    end /\
    match from_network ob with
    | None => e2 = e1 /\ o2 = o1
    | Some m => exists t0, accept_incoming e1 m o1 t0 = Ok (e2, o2)
    end /\
    fixed e2 e' /\ next_outgoing_broadcast_id e' = next_outgoing_broadcast_id e2 /\
    effects o = effects o2 /\
    forward_buffered_messages fuel (pending_incoming e2) (next_incoming_broadcast_id e2)
      (ProtocolExecution.n e2) (sent o2) =
      Some (Ok (pending_incoming e', next_incoming_broadcast_id e', sent o)).
Proof.
  intros Hp Hnet. unfold poll in Hp.
  destruct (serve_cache e ob (no_out ob)) as [[e0 o0]| |] eqn:Hc; cbn [mbind outcome_bind] in Hp;
    [|done..].
  apply serve_cache_fixed in Hc as (F0 & [Co Ci Cp] & E0 & S0).
  destruct (send_outgoing e0 ob o0) as [[e1 o1]| |] eqn:Hs; [|done..].
  apply send_outgoing_fixed in Hs as (F1 & N1 & P1 & A1 & Htake).
  exists e1, o1.
  assert (forall e2 o2, forward_and_complete e2 ob o2 = Pending e' o ->
    match from_network ob with
    | None => e2 = e1 /\ o2 = o1
    | Some m => exists t0, accept_incoming e1 m o1 t0 = Ok (e2, o2)
    end -> exists fuel, fixed e2 e' /\
    next_outgoing_broadcast_id e' = next_outgoing_broadcast_id e2 /\ effects o = effects o2 /\
    forward_buffered_messages fuel (pending_incoming e2) (next_incoming_broadcast_id e2)
      (ProtocolExecution.n e2) (sent o2) =
      Some (Ok (pending_incoming e', next_incoming_broadcast_id e', sent o))) as Hend.
  { intros e2 o2 Hf _. apply forward_and_complete_fixed in Hf as (? & ? & ? & fuel & ?).
    by exists fuel. }
  assert (exists e2 o2, forward_and_complete e2 ob o2 = Pending e' o /\
    match from_network ob with
    | None => e2 = e1 /\ o2 = o1
    | Some m => exists t0, accept_incoming e1 m o1 t0 = Ok (e2, o2)
    end) as (e2 & o2 & Hf & Hacc).
  { destruct (from_network ob) as [m|]; [|by exists e1, o1].
    destruct (Hnet m eq_refl) as [Hsid Hty]. destruct F0, F1.
    unfold belongs in Hp. rewrite !bool_decide_eq_true_2 in Hp by congruence. cbn [andb] in Hp.
    destruct (accept_incoming e1 m o1 (now ob)) as [[e2 o2]| |] eqn:Ha; [|done..].
    exists e2, o2. split; [done|]. by eexists. }
  destruct (Hend e2 o2 Hf Hacc) as (fuel & Hfix & Hout & Heff & Hfw).
  exists e2, o2, fuel. split; [by eapply fixed_trans|]. split; [congruence|]. split; [congruence|].
  split; [by rewrite A1, S0|]. split; [|by split].
  rewrite E0 in Htake. cbn [no_out effects] in Htake.
  destruct (from_protocol ob) as [m|]; [|rewrite Co in Htake; exact Htake].
  destruct Htake as [Ho (eff & He & Hreq)]. rewrite Co in Ho. split; [exact Ho|]. exists eff.
  split; [exact He|]. unfold outgoing_request in *. destruct F0. by rewrite Co in Hreq;
    rewrite fixed_session0, fixed_protocol0, fixed_peerset0 in Hreq.
Qed.
(** ** The packets of an effect *)

(** Which node this execution is. *)
Record identity (i : nat) (e : ProtocolExecution.t) : Prop := {
  id_session : session e = sid;
  id_protocol : protocol e = proto;
  id_peers : Peerset.peers (peerset e) = ps;
  id_local : ps !! i = Some (Peerset.local_peer_id (peerset e));
  id_n : ProtocolExecution.n e = Z.of_nat n;
  id_i : ProtocolExecution.i e = Z.of_nat i;
}.

Lemma identity_fixed i e e' : fixed e e' -> identity i e -> identity i e'.
Proof. intros [? ? ? ? ?] [? ? ? ? ? ?]. split; congruence. Qed.

(** A request of node [i] to the peers [to], as a packet for each other node among them. *)
Definition packets_to (i k : nat) (ctx : MessageContext) (br : bool) (body : bytes)
  (to : PeerId -> bool) : list packet :=
  omap (fun j => q ← ps !! j;
          if negb (bool_decide (i = j)) && to q then
            Some {| pk_from := i; pk_seq := k; pk_to := j; pk_context := ctx;
                    pk_broadcast := br; pk_body := body |}
          else None) (seq 0 n).

Definition packets_of (i k : nat) (eff : effect) : list packet :=
  match eff with
  | NetworkRequest _ ctx (SendDirect q body) =>
      packets_to i k ctx false body (fun q' => bool_decide (q' = q))
  | NetworkRequest _ ctx (Multicast qs body) =>
      packets_to i k ctx true body (fun q' => bool_decide (q' ∈ qs))
  | _ => []
  end.

Lemma packets_of_requests i k es : es ≫= packets_of i k = network_effects es ≫= packets_of i k.
Proof.
  unfold network_effects. induction es as [|x es IH]; [done|]. rewrite filter_cons.
  destruct x; cbn; by rewrite ?IH.
Qed.

Lemma packets_of_to i k eff pk : pk ∈ packets_of i k eff -> (pk_to pk < n)%nat.
Proof.
  assert (forall ctx br body to, pk ∈ packets_to i k ctx br body to -> (pk_to pk < n)%nat) as Hto.
  { intros ctx br body to (j & Hj & Hpk)%list_elem_of_omap. apply elem_of_seq in Hj.
    apply bind_Some in Hpk as (q & _ & Hpk). destruct (_ && _); [|done]. injection Hpk as <-.
    cbn. lia. }
  destruct eff as [| |room ctx [body|qs body|q body]| |]; cbn [packets_of];
    try apply Hto; by intros ?%elem_of_nil.
Qed.

Lemma packets_of_length i k eff : (length (packets_of i k eff) <= n)%nat.
Proof.
  assert (forall {B} (f : nat -> option B) l, (length (omap f l) <= length l)%nat) as Homap.
  { intros B f l. induction l as [|x l IH]; [done|].
    change (omap f (x :: l)) with (match f x with Some y => y :: omap f l | None => omap f l end).
    destruct (f x); cbn; lia. }
  destruct eff as [| |room ctx [body|qs body|q body]| |]; cbn [packets_of]; try (cbn; lia);
    unfold packets_to; etrans; [apply Homap|by rewrite length_seq|apply Homap|by rewrite length_seq].
Qed.

(** The packets on their way to party [j]. *)
Definition wire_to (j : nat) (w : list packet) : list packet := filter (fun pk => pk_to pk = j) w.

Lemma wire_to_app j w1 w2 : wire_to j (w1 ++ w2) = wire_to j w1 ++ wire_to j w2.
Proof. apply filter_app. Qed.

Lemma wire_to_omap (f : nat -> option packet) a len j :
  (forall k pk, f k = Some pk -> pk_to pk = k) ->
  wire_to j (omap f (seq a len)) =
  if decide (a <= j < a + len)%nat then option_list (f j) else [].
Proof.
  intros Hf. revert a. induction len as [|len IH]; intros a; [case_decide; [lia|done]|].
  cbn [seq].
  change (omap f (a :: seq (S a) len)) with
    (match f a with Some y => y :: omap f (seq (S a) len) | None => omap f (seq (S a) len) end).
  assert (forall l, wire_to j (match f a with Some y => y :: l | None => l end) =
    (if decide (a = j) then option_list (f j) else []) ++ wire_to j l) as ->.
  { intros l. destruct (f a) as [y|] eqn:Hy; [|case_decide; by subst; rewrite ?Hy].
    unfold wire_to. rewrite filter_cons, (Hf _ _ Hy).
    case_decide; [subst; by rewrite Hy|done]. }
  rewrite IH. repeat case_decide; try lia; by rewrite ?app_nil_r.
Qed.

(** The packets for party [j] of the request that carries a message. *)
Lemma packets_for i j logs e m eff :
  NoDup ps -> identity i e -> (j < n)%nat ->
  next_outgoing_broadcast_id e = Z.of_nat (broadcasts_in (logs i)) ->
  outgoing_request e m eff ->
  wire_to j (packets_of i (length (logs i)) eff) = packet_of j logs i m.
Proof.
  intros Hnd [Hs Hp Hps Hl _ _] Hj Hout Hreq. unfold outgoing_request in Hreq.
  destruct (lookup_lt_is_Some_2 ps j Hj) as [q' Hq']. unfold packet_of, incoming.
  assert (forall ctx br to, wire_to j (packets_to i (length (logs i)) ctx br (ar_body m) to) =
    if negb (bool_decide (i = j)) && to q' then
      [{| pk_from := i; pk_seq := length (logs i); pk_to := j; pk_context := ctx;
          pk_broadcast := br; pk_body := ar_body m |}] else []) as Hto.
  { intros ctx br to. unfold packets_to. rewrite wire_to_omap.
    - rewrite decide_True by lia. rewrite Hq'. cbn. by destruct (_ && _).
    - intros k pk (q & _ & Hk)%bind_Some. destruct (_ && _); [|done]. by injection Hk as <-. }
  destruct (ar_to m) as [u|] eqn:Hm.
  - destruct Hreq as (room & q & Hu & Hq & ->). cbn [packets_of]. rewrite Hto, Hs, Hp.
    case_bool_decide as Hij; cbn [negb andb]; [done|]. rewrite Hps in Hq.
    rewrite (bool_decide_eq_false_2 (Some u = None)) by done.
    destruct (Z.eqb_spec u (Z.of_nat j + 1)) as [->|Hne].
    + replace (Z.to_nat (Z.of_nat j + 1 - 1)) with j in Hq by lia. rewrite Hq in Hq'.
      injection Hq' as ->. by rewrite bool_decide_eq_true_2.
    + rewrite bool_decide_eq_false_2; [done|]. intros ->. apply Hne.
      pose proof (NoDup_lookup ps _ _ _ Hnd Hq Hq'). lia.
  - destruct Hreq as (room & ->). cbn [packets_of]. rewrite Hto, Hs, Hp, Hout.
    case_bool_decide as Hij; cbn [negb andb]; [done|].
    rewrite bool_decide_eq_true_2; [by rewrite bool_decide_eq_true_2|].
    unfold Peerset.remotes_iter. apply list_elem_of_filter. rewrite Hps. split.
    + intros ->. apply Hij. by eapply NoDup_lookup.
    + apply list_elem_of_lookup. eauto.
Qed.

(** ** The system *)

Section nodes.
Context {A : Type} (machine : nat -> list AgentMessage -> run A).
Hypothesis Hgrow : forall i inbox rest,
  out_of (machine i inbox) `prefix_of` out_of (machine i (inbox ++ rest)).

(** An execution, the messages it has given to its agent, and those it has taken from it. *)
Record node : Type := {
  nd_exec : ProtocolExecution.t;
  nd_given : list AgentMessage;
  nd_taken : list AgentResponse;
}.

Record sys : Type := { nodes : nat -> node; wire : list packet }.

(** What the execution of a packet's addressee gets of it: the room has put the sender's
    place in the peer set of the session. *)
Definition carries (pk : packet) (req : IncomingRequest) : Prop :=
  context req = pk_context pk /\ is_broadcast req = pk_broadcast pk /\
  payload req = pk_body pk /\ peer_index req = Z.of_nat (pk_from pk).

Definition brings (i : nat) (net : option IncomingRequest) (pk : option packet) : Prop :=
  match net, pk with
  | Some req, Some pk => pk_to pk = i /\ carries pk req
  | None, None => True
  | _, _ => False
  end.

Definition after_poll (nd : node) (ob : obs) (e : ProtocolExecution.t) (o : out) : node :=
  {| nd_exec := e; nd_given := nd_given nd ++ to_app (sent o);
     nd_taken := nd_taken nd ++ option_list (from_protocol ob) |}.

(** A node is polled: it takes the next message that its agent has sent, if any, and a
    packet for it from the network, if any, and the network takes its requests. *)
Inductive sys_step : sys -> sys -> Prop :=
  | polled st i ob e o pk w :
      (i < n)%nat ->
      (forall m, from_protocol ob = Some m ->
         out_of (machine i (nd_given (nodes st i))) !! length (nd_taken (nodes st i)) = Some m) ->
      wire st ≡ₚ option_list pk ++ w -> brings i (from_network ob) pk ->
      poll (nd_exec (nodes st i)) ob = Pending e o ->
      sys_step st
        {| nodes := fun j => if decide (j = i) then after_poll (nodes st i) ob e o else nodes st j;
           wire := w ++ (effects o ≫= packets_of i (length (nd_taken (nodes st i)))) |}.

(** The execution as the worker sets it up on the [i]-th peer. *)
Definition set_up (i : nat) (e : ProtocolExecution.t) : Prop :=
  exists room request agent pset st reply,
    ProtocolExecution.new room sid request agent pset st reply = Ok e /\
    agent_protocol_id agent = proto /\ Peerset.peers pset = ps /\
    ps !! i = Some (Peerset.local_peer_id pset).

Definition initial (st : sys) : Prop :=
  wire st = [] /\ forall i, (i < n)%nat ->
    set_up i (nd_exec (nodes st i)) /\ nd_given (nodes st i) = [] /\ nd_taken (nodes st i) = [].

(** The nodes can be set up. *)
Lemma initial_exists (room : RoomId) (agent : Agent) (cache : LocalStorage.t) :
  NoDup ps -> 2 <= Z.of_nat n <= u16_max -> agent_protocol_id agent = proto ->
  exists st, initial st.
Proof.
  intros Hnd Hn Hproto. destruct (lookup_lt_is_Some_2 ps 0) as [q0 _]; [lia|].
  set (pset i := {| Peerset.local_peer_id := default q0 (ps !! i); Peerset.peers := ps;
    Peerset.parties := [] |}).
  set (e i := {| room_id := room; session := sid; protocol := agent_protocol_id agent;
    peerset := pset i; storage := cache; request := []; agent_running := true; agent_result := None;
    completion_delay := None; reply_to := None; next_outgoing_broadcast_id := 0;
    next_incoming_broadcast_id := 0; pending_incoming := ∅; ProtocolExecution.i := Z.of_nat i;
    ProtocolExecution.n := Z.of_nat n |}).
  exists {| nodes i := {| nd_exec := e i; nd_given := []; nd_taken := [] |}; wire := [] |}.
  split; [done|]. intros i Hi. split; [|done]. destruct (lookup_lt_is_Some_2 ps i Hi) as [q Hq].
  exists room, [], agent, (pset i), cache, None. split; [|by cbn; rewrite Hq].
  unfold ProtocolExecution.new, Peerset.size. cbn [pset Peerset.peers Peerset.local_peer_id].
  rewrite as_u16_small, (Peerset.lookup_index_of _ _ i)
    by (cbn; rewrite ?Hq; (done || (unfold u16_max in *; lia))).
  cbn [expect mbind outcome_bind]. rewrite u16_sub_ok by lia. cbn [mbind outcome_bind].
  by rewrite (proj2 (Z.eqb_neq _ _)) by lia.
Qed.

(** *** The invariant *)

Record node_ok (s : Session.state) (logs : nat -> list AgentResponse) (w : list packet)
  (i : nat) (nd : node) : Prop := {
  ok_identity : identity i (nd_exec nd);
  ok_given : nd_given nd = inbox s i;
  ok_taken : nd_taken nd = logs i;
  ok_out : next_outgoing_broadcast_id (nd_exec nd) = Z.of_nat (broadcasts_in (logs i));
  ok_ledger : ledger i logs (wire_to i w) (pending_incoming (nd_exec nd)) (s i);
  ok_turn : in_turn i logs (next_incoming_broadcast_id (nd_exec nd)) (s i);
  ok_ready : Z.of_nat (length (ready_senders (pending_incoming (nd_exec nd))
    (next_incoming_broadcast_id (nd_exec nd)))) <> Z.of_nat n - 1;
}.

Record sys_ok (st : sys) (s : Session.state) (logs : nat -> list AgentResponse) : Prop := {
  ok_reachable : rtc (Session.step n machine) Session.start s;
  ok_sends : sends machine s logs;
  ok_wire pk : pk ∈ wire st -> (pk_to pk < n)%nat;
  ok_nodes i : (i < n)%nat -> node_ok s logs (wire st) i (nodes st i);
}.

Lemma initial_ok st :
  2 <= Z.of_nat n <= u16_max -> NoDup ps -> initial st -> sys_ok st Session.start no_logs.
Proof.
  intros Hn Hnd [Hw Hst]. split; [done|intros j _; apply prefix_nil|rewrite Hw; by intros pk ?%elem_of_nil|].
  intros i Hi. destruct (Hst i Hi) as ((room & request & agent & pset & cache & reply & Hnew & Hproto & Hps & Hl) & Hg & Ht).
  unfold ProtocolExecution.new in Hnew. rewrite as_u16_small in Hnew
    by (unfold Peerset.size; rewrite Hps; lia).
  rewrite (Peerset.lookup_index_of _ _ i) in Hnew by (rewrite Hps; (done || (unfold u16_max in *; lia))).
  cbn [expect mbind outcome_bind] in Hnew. unfold Peerset.size in Hnew. rewrite Hps in Hnew.
  rewrite u16_sub_ok in Hnew by lia. cbn [mbind outcome_bind] in Hnew.
  destruct (_ =? 0); inv_ok.
  split; rewrite <- ?Hnew; cbn; try done.
  - rewrite Hw. apply ledger_start.
  - split; [done|by intros d m Hd%elem_of_nil|]. cbn. lia.
  - unfold ready_senders. rewrite dom_empty_L, elements_empty. cbn. lia.
Qed.
(** *** A poll preserves it *)

Lemma in_turn_more (logs : nat -> list AgentResponse) j0 m i next D :
  (forall d, d ∈ D -> is_Some (logs (d_from d) !! d_seq d)) ->
  in_turn i logs next D -> in_turn i (log_more logs j0 m) next D.
Proof.
  intros HD [T0 T1 T2]. split; [done| |].
  - intros d x Hd Hx Hto. destruct (HD d Hd) as [y Hy].
    destruct (log_more_old logs j0 m _ _ _ Hy) as [Hy' ->]. rewrite Hy' in Hx.
    injection Hx as ->. by eapply T1.
  - intros mid j Hmid Hj Hne. destruct (T2 mid j Hmid Hj Hne) as (k & x & Hx & Hto & Hid & Hk).
    destruct (log_more_old logs j0 m _ _ _ Hx) as [Hx' He]. exists k, x. by rewrite He.
Qed.

Lemma ledger_logged i logs W p D d :
  ledger i logs W p D -> d ∈ D -> is_Some (logs (d_from d) !! d_seq d).
Proof. intros HL Hd. destruct (led_delivered _ _ _ _ _ HL d Hd) as (_ & m & Hm & _). eauto. Qed.

Lemma sends_more s logs i m :
  sends machine s logs -> out_of (party machine s i) !! length (logs i) = Some m ->
  sends machine s (log_more logs i m).
Proof.
  intros Hs Hm j Hj. unfold log_more. case_decide as Hij; [|by apply Hs]. subst j.
  destruct (Hs i Hj) as [rest Hrest]. rewrite Hrest, lookup_app_r, Nat.sub_diag in Hm by lia.
  destruct rest as [|x rest]; [done|]. injection Hm as ->. exists rest.
  by rewrite Hrest, <- app_assoc.
Qed.

(** The log after a poll. *)
Definition log_polled (logs : nat -> list AgentResponse) (i : nat) (ob : obs) :
  nat -> list AgentResponse :=
  match from_protocol ob with Some m => log_more logs i m | None => logs end.

Lemma log_polled_own logs i ob : log_polled logs i ob i = logs i ++ option_list (from_protocol ob).
Proof.
  unfold log_polled, log_more. destruct (from_protocol ob); cbn; [by rewrite decide_True|].
  by rewrite app_nil_r.
Qed.

Lemma log_polled_other logs i ob j : j <> i -> log_polled logs i ob j = logs j.
Proof. intros Hj. unfold log_polled, log_more. destruct (from_protocol ob); [|done]. by rewrite decide_False. Qed.

(** The agent's message and the packets of the poll: the books of all parties. *)
Lemma take_ok s logs i e e1 o1 ob w :
  NoDup ps -> (i < n)%nat -> identity i e ->
  next_outgoing_broadcast_id e = Z.of_nat (broadcasts_in (logs i)) ->
  sends machine s logs ->
  (forall m, from_protocol ob = Some m ->
     out_of (party machine s i) !! length (logs i) = Some m) ->
  match from_protocol ob with
  | None => next_outgoing_broadcast_id e1 = next_outgoing_broadcast_id e /\ effects o1 = []
  | Some m =>
      next_outgoing_broadcast_id e1 =
        next_outgoing_broadcast_id e + (if bool_decide (ar_to m = None) then 1 else 0) /\
      exists eff, effects o1 = [eff] /\ outgoing_request e m eff
  end ->
  sends machine s (log_polled logs i ob) /\
  next_outgoing_broadcast_id e1 = Z.of_nat (broadcasts_in (log_polled logs i ob i)) /\
  forall j p next, (j < n)%nat ->
    ledger j logs (wire_to j w) p (s j) -> in_turn j logs next (s j) ->
    ledger j (log_polled logs i ob)
      (wire_to j (w ++ (effects o1 ≫= packets_of i (length (logs i))))) p (s j) /\
    in_turn j (log_polled logs i ob) next (s j).
Proof.
  intros Hnd Hi Hid Hout Hs Hm. unfold log_polled.
  destruct (from_protocol ob) as [m|]; intros [He1 Heff].
  - destruct Heff as (eff & -> & Hreq). split; [by apply sends_more, Hm|]. split.
    { unfold log_more. rewrite decide_True, broadcasts_in_app by done. rewrite He1, Hout.
      unfold broadcasts_in at 3. rewrite filter_cons, filter_nil.
      case_decide; [rewrite bool_decide_eq_true_2 by done|rewrite bool_decide_eq_false_2 by done];
        cbn; lia. }
    intros j p next Hj HL Ht. split.
    + cbn [mbind list_bind]. rewrite app_nil_r, wire_to_app.
      rewrite (packets_for i j logs e m eff) by done. by apply ledger_take.
    + apply in_turn_more; [|done]. intros d Hd. by eapply ledger_logged.
  - rewrite Heff, He1. cbn. rewrite app_nil_r. auto.
Qed.

(** The network's packet is accepted. *)
Lemma accept_ok s logs i e e' o o' net pk w t0 :
  (i < n)%nat -> identity i e -> sends machine s logs ->
  brings i net pk -> ledger i logs (wire_to i (option_list pk ++ w)) (pending_incoming e) (s i) ->
  in_turn i logs (next_incoming_broadcast_id e) (s i) ->
  match net with
  | None => e' = e /\ o' = o
  | Some m => accept_incoming e m o t0 = Ok (e', o')
  end ->
  exists s' ds, advances machine i logs s s' ds /\ fixed e e' /\
    next_outgoing_broadcast_id e' = next_outgoing_broadcast_id e /\
    ledger i logs (wire_to i w) (pending_incoming e') (s' i) /\
    in_turn i logs (next_incoming_broadcast_id e') (s' i) /\
    network_effects (effects o') = network_effects (effects o) /\
    to_app (sent o') = to_app (sent o) ++ (d_msg <$> ds).
Proof.
  intros Hi Hid Hs Hb HL Ht Hacc. destruct net as [req|], pk as [pk|]; try done.
  2:{ destruct Hacc as [-> ->]. exists s, []. split; [by apply advances_refl|].
      split; [by split|]. cbn. by rewrite app_nil_r. }
  destruct Hb as [Hto (Hctx & Hbr & Hpay & Hidx)].
  change (option_list (Some pk) ++ w) with (pk :: w) in HL. unfold wire_to in HL.
  rewrite filter_cons_True in HL by done. fold (wire_to i w) in HL.
  apply accept_incoming_fixed in Hacc as (Hfix & Hno & Hni & Hne & Hcase).
  rewrite Hidx, Hctx, Hbr, Hpay in Hcase. rewrite Hni.
  destruct (pk_broadcast pk) eqn:Hpb.
  - destruct Hcase as [-> Happ]. exists s, []. split; [by apply advances_refl|].
    split; [done|]. split; [done|]. split; [by apply ledger_buffer|]. split; [done|].
    split; [done|]. cbn. by rewrite app_nil_r.
  - destruct Hcase as [-> Happ].
    destruct (ledger_direct i logs pk _ _ _ HL Hpb)
      as (m & d & Hm & Hf & Hinc & Hk & Hmsg & Hfresh & HL').
    injection Hk as Hkf Hks. rewrite <- Hkf, <- Hks in Hm. rewrite <- Hkf in Hf, Hinc, Hmsg.
    pose proof (advances_one machine Hgrow i logs s d m Hi Hs Hf Hm Hinc Hfresh) as Hadv.
    pose proof (adv_own _ _ _ _ _ _ Hadv) as Hown.
    exists (give s i d), [d]. rewrite Hown. split; [done|]. split; [done|]. split; [done|].
    split; [done|]. split; [|split; [done|]].
    + destruct Ht as [T0 T1 T2]. split; [done| |].
      * intros d' x [Hd'| ->%list_elem_of_singleton]%elem_of_app Hx Hxto; [by eapply T1|].
        rewrite Hm in Hx. injection Hx as <-. apply incoming_inv in Hinc as (_ & Hx & _).
        rewrite Hx in Hmsg. injection Hmsg as _ Hto'. by rewrite Hto' in Hxto.
      * intros mid j Hmid Hj Hne'. destruct (T2 mid j Hmid Hj Hne') as (k & x & ? & ? & ? & ?).
        exists k, x. rewrite fmap_app, elem_of_app. auto.
    + rewrite Happ, (id_i _ _ Hid). cbn. by rewrite Hmsg, Hkf.
Qed.

(** What happens to one party leaves the books of the others alone. *)
Lemma node_ok_other s s' logs logs' w w' i j nd :
  node_ok s logs w j nd -> s' j = s j -> logs' j = logs j ->
  ledger j logs' (wire_to j w') (pending_incoming (nd_exec nd)) (s j) ->
  in_turn j logs' (next_incoming_broadcast_id (nd_exec nd)) (s j) ->
  i <> j -> node_ok s' logs' w' j nd.
Proof.
  intros [O1 O2 O3 O4 O5 O6 O7] Hs Hlog HL Ht Hij. split; rewrite ?Hs, ?Hlog; try done.
  by rewrite O2; unfold inbox; rewrite Hs.
Qed.

(** What a node is brought is a computation message of the session. *)
Lemma brought_context i logs W w p D net pk m :
  ledger i logs (wire_to i W) p D -> W ≡ₚ option_list pk ++ w -> brings i net pk -> net = Some m ->
  session_id (context m) = sid /\ message_type (context m) = Computation.
Proof.
  intros HL Hw Hb ->. destruct pk as [pk|]; [|done]. destruct Hb as [Hto (Hctx & _)]. rewrite Hctx.
  assert (pk ∈ wire_to i W) as Hpk.
  { unfold wire_to. apply list_elem_of_filter. split; [done|]. rewrite Hw. by left. }
  by destruct (led_wire _ _ _ _ _ HL pk Hpk) as (_ & x & _ & _ & _ & _ & ->).
Qed.

(** A packet that is brought to a node is not for another one. *)
Lemma brought_elsewhere i j net pk w :
  brings i net pk -> j <> i -> wire_to j (option_list pk ++ w) = wire_to j w.
Proof.
  intros Hb Hji. destruct pk as [pk|]; [|done]. destruct net; [|done]. destruct Hb as [Hto _].
  change (option_list (Some pk) ++ w) with (pk :: w). unfold wire_to.
  rewrite filter_cons_False; [done|]. congruence.
Qed.

Lemma requests_to i k effs pk : pk ∈ (effs ≫= packets_of i k) -> (pk_to pk < n)%nat.
Proof. intros (eff & Hpk & _)%list_elem_of_bind. by eapply packets_of_to. Qed.

Lemma step_ok st st' s logs :
  NoDup ps -> sys_ok st s logs -> sys_step st st' ->
  exists s' logs', rtc (Session.step n machine) s s' /\ sys_ok st' s' logs'.
Proof.
  intros Hnd [Hreach Hs Hwire Hok] Hstep. destruct Hstep as [st i ob e o pk w Hi Hm Hw Hb Hp].
  pose proof (Hok i Hi) as [O1 O2 O3 O4 O5 O6 O7]. rewrite O2, O3 in Hm. rewrite O3.
  destruct (poll_parts _ _ _ _ Hp) as (e1 & o1 & e2 & o2 & fuel & F1 & N1 & P1 & A1 & Htake & Hacc
    & F2 & Hout2 & Heff & Hfw).
  { intros m Hnet. rewrite (id_session _ _ O1). by eapply brought_context. }
  destruct (take_ok s logs i (nd_exec (nodes st i)) e1 o1 ob (wire st))
    as (Hs1 & Hout1 & Hbooks); [done..|].
  set (logs1 := log_polled logs i ob) in *.
  set (new := effects o1 ≫= packets_of i (length (logs i))) in *.
  assert (forall j, wire_to j (wire st ++ new) ≡ₚ wire_to j (option_list pk ++ (w ++ new))) as Hperm.
  { intros j. unfold wire_to. by rewrite Hw, app_assoc. }
  destruct (Hbooks i _ _ Hi O5 O6) as [HL1 Ht1].
  apply (ledger_perm _ _ _ _ _ _ (Hperm i)) in HL1. rewrite <- P1 in HL1. rewrite <- N1 in Ht1.
  pose proof (identity_fixed _ _ _ F1 O1) as O1'.
  assert (exists t0, match from_network ob with
    | None => e2 = e1 /\ o2 = o1
    | Some m => accept_incoming e1 m o1 t0 = Ok (e2, o2) end) as [t0 Hacc'].
  { destruct (from_network ob); [exact Hacc|by exists 0]. }
  destruct (accept_ok s logs1 i e1 e2 o1 o2 (from_network ob) pk (w ++ new) t0)
    as (s2 & ds & Hadv & F12 & Ho12 & HL2 & Ht2 & Heff2 & Happ2); [done..|].
  rewrite (id_n _ _ (identity_fixed _ _ _ F12 O1')) in Hfw.
  destruct (forward_advances machine Hgrow _ i logs1 _ _ _ _ _ _ _ s2 Hi
    (adv_sends _ _ _ _ _ _ Hadv) HL2 Ht2 Hfw) as (s3 & ds' & Hadv' & HL3 & Ht3 & Happ3 & Hready).
  pose proof (advances_trans machine _ _ _ _ _ _ _ Hadv Hadv') as Hall.
  pose proof (identity_fixed _ _ _ F2 (identity_fixed _ _ _ F12 O1')) as O1''.
  exists s3, logs1. split; [apply Hall|].
  assert (effects o ≫= packets_of i (length (logs i)) = new) as ->.
  { unfold new. rewrite Heff, packets_of_requests, Heff2. symmetry. apply packets_of_requests. }
  split; [by etrans; [|apply Hall]|apply Hall| |].
  { cbn [wire]. intros pk' [Hpk'|Hpk']%elem_of_app; [|by eapply requests_to].
    apply Hwire. rewrite Hw. apply elem_of_app. by right. }
  intros j Hj. cbn [nodes wire].
  case_decide as Hji.
  - subst j. split; cbn; try done.
    + rewrite O2, Happ3, Happ2, A1. unfold inbox. rewrite (adv_own _ _ _ _ _ _ Hall).
      by rewrite !fmap_app.
    + rewrite O3. symmetry. apply log_polled_own.
    + by rewrite Hout2, Ho12.
  - destruct (Hok j Hj) as [Q1 Q2 Q3 Q4 Q5 Q6 Q7].
    destruct (Hbooks j _ _ Hj Q5 Q6) as [HLj Htj].
    apply (node_ok_other s s3 logs logs1 (wire st) (w ++ new) i j); try done.
    + by apply (adv_others _ _ _ _ _ _ Hall).
    + by apply log_polled_other.
    + eapply ledger_perm; [|exact HLj]. rewrite (Hperm j). by rewrite (brought_elsewhere i j _ _ _ Hb Hji).
Qed.

Lemma reachable_ok st0 st :
  2 <= Z.of_nat n <= u16_max -> NoDup ps -> initial st0 -> rtc sys_step st0 st ->
  exists s logs, sys_ok st s logs.
Proof.
  intros Hn Hnd H0 Hr. assert (exists s logs, sys_ok st0 s logs) as Hok
    by (do 2 eexists; by apply initial_ok).
  clear H0. induction Hr as [|st1 st2 st3 Hstep _ IH]; [done|]. apply IH.
  destruct Hok as (s & logs & Hok). destruct (step_ok _ _ _ _ Hnd Hok Hstep) as (s' & logs' & _ & ?).
  eauto.
Qed.


(** *** When nothing is left to do *)

(** No packet is on its way and everything the agents have sent is taken. *)
Definition quiet (st : sys) : Prop :=
  wire st = [] /\
  forall i, (i < n)%nat -> nd_taken (nodes st i) = out_of (machine i (nd_given (nodes st i))).

Lemma deliver_inv s s' :
  Session.step n machine s s' ->
  exists i d m, (i < n)%nat /\ (d_from d < n)%nat /\ out_of (party machine s (d_from d)) !! d_seq d = Some m /\
    incoming (d_from d) i m = Some (d_msg d) /\ key d ∉ key <$> s i.
Proof. intros [s0 i d m]. by exists i, d, m. Qed.

(** What such nodes promise when their agents have a protocol to complete: no agent fails
    or panics, at every moment each one waits or is done with its result; every run can
    be continued until nothing is left to do, and then every agent is done. *)
Definition completes_from (st0 : sys) (result : nat -> A) : Prop :=
  forall st, rtc sys_step st0 st ->
    let run i := machine i (nd_given (nodes st i)) in
    let done i := exists out, run i = Done (result i) [] out in
    (forall i, (i < n)%nat -> done i \/ exists out, run i = Waiting out) /\
    (exists st', rtc sys_step st st' /\ quiet st') /\
    (quiet st -> forall i, (i < n)%nat -> done i).

Definition system_completes (result : nat -> A) : Prop :=
  forall st0, initial st0 -> completes_from st0 result.

Section quiescence.
Variables (st : sys) (s : Session.state) (logs : nat -> list AgentResponse).
Hypothesis Hok : sys_ok st s logs.
Hypothesis Hquiet : quiet st.

Abbreviation exec i := (nd_exec (nodes st i)).

Lemma quiet_logs i : (i < n)%nat -> logs i = out_of (party machine s i).
Proof.
  intros Hi. destruct (ok_nodes _ _ _ Hok i Hi) as [_ Hg Ht _ _ _ _]. unfold party.
  rewrite <- Ht, <- Hg. by apply Hquiet.
Qed.

Lemma quiet_ledger i : (i < n)%nat -> ledger i logs [] (pending_incoming (exec i)) (s i).
Proof.
  intros Hi. destruct (ok_nodes _ _ _ Hok i Hi) as [_ _ _ _ HL _ _].
  by rewrite (proj1 Hquiet) in HL.
Qed.

(** A number that all others have broadcast is not the next one: it would be delivered. *)
Lemma quiet_wave i mid :
  (i < n)%nat ->
  (forall j, (j < n)%nat -> j <> i -> exists k m, logs j !! k = Some m /\ ar_to m = None /\
     broadcast_id (logs j) k = mid) ->
  next_incoming_broadcast_id (exec i) <> mid.
Proof.
  intros Hi Hall Hmid. destruct (ok_nodes _ _ _ Hok i Hi) as [_ _ _ _ _ Ht Hready].
  pose proof (quiet_ledger i Hi) as HL. apply Hready.
  apply (all_ready i logs [] _ (s i)); [done..|]. intros j Hj Hne.
  destruct (Hall j Hj Hne) as (k & m & Hm & Hto & Hid). apply elem_of_ready_senders.
  destruct (led_complete _ _ _ _ _ HL j k m Hj Hm (incoming_broadcast j i m Hne Hto))
    as [Hw|[[_ Hb]|Hd]].
  - by apply elem_of_nil in Hw.
  - unfold buffered in Hb. by rewrite Hid, <- Hmid in Hb.
  - apply list_elem_of_fmap in Hd as (d & Hk & Hin). injection Hk as -> ->.
    pose proof (turn_delivered _ _ _ _ Ht d m Hin Hm Hto). lia.
Qed.

(** What can be delivered is delivered when every number of every party is below the
    next one. *)
Lemma quiet_stuck :
  (forall i j, (i < n)%nat -> (j < n)%nat ->
     Z.of_nat (broadcasts_in (logs j)) <= next_incoming_broadcast_id (exec i)) ->
  forall s', ~ Session.step n machine s s'.
Proof.
  intros Hnext s' Hstep. destruct (deliver_inv s s' Hstep) as (i & d & m & Hi & Hf & Hm & Hinc & Hk).
  pose proof (quiet_ledger i Hi) as HL. destruct (ok_nodes _ _ _ Hok i Hi) as [_ _ _ _ _ Ht _].
  rewrite <- quiet_logs in Hm by done.
  destruct (led_complete _ _ _ _ _ HL _ _ _ Hf Hm ltac:(by eexists)) as [Hw|[[Hto [req Hb]]|Hd]].
  - by apply elem_of_nil in Hw.
  - pose proof (turn_buffer _ _ _ _ _ _ _ _ _ HL Ht Hb).
    pose proof (broadcasts_before logs _ _ _ Hm Hto). pose proof (Hnext i (d_from d) Hi Hf). lia.
  - done.
Qed.

(** *** Agents that follow scripts in waves *)

Variables (script : nat -> list AgentResponse) (result : nat -> A) (waves : nat).
Hypothesis Hscripted : scripted n machine script result.
Hypothesis Hwaves : in_waves n waves script.

Lemma quiet_first i : (i < n)%nat -> exists m, logs i !! 0%nat = Some m /\ ar_to m = None.
Proof.
  intros Hi. pose proof (reachable_consistent n machine script result Hscripted s
    (ok_reachable _ _ _ Hok)) as Hc. rewrite quiet_logs by done.
  pose proof (scripted_first _ _ _ _ Hscripted i (s i) Hi
    (consistent_part _ _ _ _ Hc Hi)) as Hne.
  pose proof (sent_script n machine script result Hscripted s i Hc Hi) as Hpre.
  destruct (waves_first _ _ _ Hwaves i Hi) as (m & Hm & Hto). exists m. split; [|done].
  unfold party, inbox in *. destruct (out_of _) as [|x out]; [done|].
  pose proof (prefix_lookup_Some (x :: out) (script i) 0 x eq_refl Hpre) as Hx.
  by rewrite Hm in Hx.
Qed.

Lemma quiet_script i : (i < n)%nat -> logs i = script i.
Proof.
  intros Hi. pose proof (reachable_consistent n machine script result Hscripted s
    (ok_reachable _ _ _ Hok)) as Hc. rewrite quiet_logs by done.
  destruct (ok_nodes _ _ _ Hok i Hi) as [_ _ _ _ _ Ht _].
  apply (scripted_rest _ _ _ _ Hscripted); [done|by apply consistent_part|].
  intros d Hd Hseq. assert (next_incoming_broadcast_id (exec i) <> 0) as Hne.
  { apply quiet_wave; [done|]. intros j Hj _. destruct (quiet_first j Hj) as (m & Hm & Hto).
    by exists 0%nat, m. }
  pose proof (turn_next _ _ _ _ Ht). pose proof Hd as (Hf & m & _ & Hinc)%elem_of_deliveries_for.
  pose proof (incoming_inv _ _ _ _ Hinc) as [Hfi _].
  destruct (turn_done _ _ _ _ Ht 0 (d_from d)) as (k & x & Hx & Hto & Hid & Hk); [lia|done..|].
  destruct (quiet_first (d_from d) Hf) as (y & Hy & Hyto).
  assert (k = 0%nat) as ->.
  { by apply (broadcast_id_inj (logs (d_from d)) k 0 x y). }
  apply list_elem_of_fmap in Hk as (d' & Hkey & Hin).
  rewrite (key_inj n script i d d'); [done..|by apply Hc|]. unfold key at 1. by rewrite Hseq.
Qed.

Lemma quiet_all : forall s', ~ Session.step n machine s s'.
Proof.
  apply quiet_stuck. intros i j Hi Hj. rewrite quiet_script, (waves_count _ _ _ Hwaves) by done.
  destruct (ok_nodes _ _ _ Hok i Hi) as [_ _ _ _ _ Ht _].
  pose proof (turn_next _ _ _ _ Ht) as H0.
  destruct (Z.le_gt_cases (Z.of_nat waves) (next_incoming_broadcast_id (exec i))) as [?|Hlt]; [done|].
  exfalso. apply (quiet_wave i (Z.of_nat (Z.to_nat (next_incoming_broadcast_id (exec i)))) Hi); [|lia].
  intros j' Hj' _. apply broadcast_numbered. rewrite quiet_script, (waves_count _ _ _ Hwaves) by done. lia.
Qed.
End quiescence.

(** ** Every run goes on to a quiet state

    A poll with channels that have room, before any deadline and with nothing from the
    agent's future. *)

Definition idle_fs : LocalStorage.fs_obs := {| LocalStorage.mkdir_ok := true; LocalStorage.write_ok := true |}.

Definition poll_with (e : ProtocolExecution.t) (m : option AgentResponse)
  (net : option IncomingRequest) : obs :=
  let room := open_with (S (S (base.size (pending_incoming e)))) in
  {| now := if completion_delay e is Some d then d - 1 else 0; cache_msg := None;
     from_protocol := m; from_network := net; agent_poll := None; app := room; echo := room;
     fs := idle_fs; fresh := 0%nat |}.

Lemma forward_goes_on e ob o a b :
  2 <= ProtocolExecution.n e -> agent_poll ob = None ->
  (forall d, completion_delay e = Some d -> now ob < d) ->
  app_ch (sent o) = open_with a -> echo_ch (sent o) = open_with b ->
  (base.size (pending_incoming e) <= a)%nat -> (base.size (pending_incoming e) <= b)%nat ->
  next_incoming_broadcast_id e + Z.of_nat (base.size (pending_incoming e)) <= u64_max ->
  exists e' o', forward_and_complete e ob o = Pending e' o'.
Proof.
  intros Hn Hag Hd Ha Hb La Lb Hnext. unfold forward_and_complete.
  destruct (forward_room (S (base.size (pending_incoming e))) (pending_incoming e)
    (next_incoming_broadcast_id e) (ProtocolExecution.n e) (sent o) a b) as ([[p next] w] & Hfw);
    [lia|done..|].
  rewrite Hfw. unfold complete. cbn [with_broadcasts completion_delay agent_running].
  destruct (completion_delay e) as [d|].
  - rewrite (proj2 (Z.leb_gt d (now ob))) by auto. eauto.
  - rewrite Hag. destruct (agent_running e); eauto.
Qed.

Lemma poll_takes e m :
  2 <= ProtocolExecution.n e <= u16_max -> 0 <= ProtocolExecution.i e < ProtocolExecution.n e ->
  (forall u, ar_to m = Some u -> 1 <= u <= Z.of_nat (length (Peerset.peers (peerset e)))) ->
  next_outgoing_broadcast_id e < u64_max ->
  next_incoming_broadcast_id e + Z.of_nat (base.size (pending_incoming e)) <= u64_max ->
  exists e' o, poll e (poll_with e (Some m) None) = Pending e' o.
Proof.
  intros Hn Hi Hto Hout Hin. unfold poll, serve_cache. cbn [poll_with cache_msg mbind outcome_bind].
  unfold send_outgoing. cbn [poll_with from_protocol from_network]. destruct (ar_to m) as [u|].
  - specialize (Hto u eq_refl). rewrite u16_sub_ok by lia. cbn [mbind outcome_bind].
    unfold Peerset.index.
    destruct (lookup_lt_is_Some_2 (Peerset.peers (peerset e)) (Z.to_nat (u - 1))) as [q ->]; [lia|].
    cbn [expect mbind outcome_bind]. eapply forward_goes_on; try done; cbn; try lia.
    intros d ->. lia.
  - unfold u64_add. rewrite (proj2 (Z.leb_le _ _)) by lia. cbn [mbind outcome_bind].
    rewrite u16_sub_ok, u16_add_ok by lia. cbn [mbind outcome_bind].
    unfold send_echo. cbn [no_out poll_with sent echo_ch echo]. rewrite try_send_open.
    cbn [mbind outcome_bind]. eapply forward_goes_on; try done; cbn; try lia.
    intros d ->. lia.
Qed.

Lemma poll_accepts e req :
  2 <= ProtocolExecution.n e <= u16_max -> 0 <= ProtocolExecution.i e < ProtocolExecution.n e ->
  session_id (context req) = session e -> message_type (context req) = Computation ->
  0 <= peer_index req < u16_max ->
  next_incoming_broadcast_id e + Z.of_nat (S (base.size (pending_incoming e))) <= u64_max ->
  exists e' o, poll e (poll_with e None (Some req)) = Pending e' o.
Proof.
  intros Hn Hi Hs Ht Hidx Hin. unfold poll, serve_cache. cbn [poll_with cache_msg mbind outcome_bind].
  unfold send_outgoing. cbn [poll_with from_protocol from_network].
  unfold belongs. rewrite !bool_decide_eq_true_2 by done. cbn [andb].
  unfold accept_incoming, forward_direct_message. rewrite !u16_add_ok by lia.
  cbn [mbind outcome_bind].
  assert (forall e1 o1 b, ProtocolExecution.n e1 = ProtocolExecution.n e ->
    next_incoming_broadcast_id e1 = next_incoming_broadcast_id e ->
    completion_delay e1 = completion_delay e ->
    (base.size (pending_incoming e1) <= S (base.size (pending_incoming e)))%nat ->
    app_ch (sent o1) = open_with (S b) -> (base.size (pending_incoming e1) <= S b)%nat ->
    echo_ch (sent o1) = open_with (S (S (base.size (pending_incoming e)))) ->
    let ob := poll_with e None (Some req) in
    exists e' o', forward_and_complete
      (if agent_result e1 is Some _
       then with_agent (agent_running e1) (agent_result e1) (Some (now ob + COMPLETION_QUIET_PERIOD)) e1
       else e1) ob o1 = Pending e' o') as Hgo.
  { intros e1 o1 b H1 H2 H3 H4 H5 H6 H7 ob.
    eapply (forward_goes_on _ ob o1 (S b)); [| |intros d| | | | |]; try done;
      (destruct (agent_result e1); cbn [with_agent ProtocolExecution.n completion_delay
         pending_incoming next_incoming_broadcast_id]; rewrite ?H1, ?H2, ?H3); try done; try lia.
    - intros [= <-]. unfold COMPLETION_QUIET_PERIOD, ob. cbn. lia.
    - intros Hd. unfold ob. cbn. rewrite Hd. lia. }
  destruct (is_broadcast req); cbn [mbind outcome_bind].
  - eapply (Hgo _ _ (S (base.size (pending_incoming e)))); try done; cbn;
      rewrite map_size_insert; case_match; unfold id; lia.
  - unfold send_app. cbn [no_out poll_with sent app_ch app]. rewrite try_send_open.
    cbn [mbind outcome_bind].
    eapply (Hgo _ _ (base.size (pending_incoming e))); try done; cbn; lia.
Qed.

Lemma poll_packets e ob e' o i k :
  poll e ob = Pending e' o ->
  (forall m, from_network ob = Some m ->
     session_id (context m) = session e /\ message_type (context m) = Computation) ->
  (length (effects o ≫= packets_of i k) <= if from_protocol ob is Some _ then n else 0)%nat.
Proof.
  intros Hp Hnet. destruct (poll_parts e ob e' o Hp Hnet)
    as (e1 & o1 & e2 & o2 & fuel & _ & _ & _ & _ & Htake & Hacc & _ & _ & -> & _).
  assert (effects o2 ≫= packets_of i k = effects o1 ≫= packets_of i k) as ->.
  { destruct (from_network ob) as [m|]; [|by destruct Hacc as [_ ->]].
    destruct Hacc as [t0 (_ & _ & _ & Heff & _)%accept_incoming_fixed].
    rewrite packets_of_requests, Heff. symmetry. apply packets_of_requests. }
  destruct (from_protocol ob) as [m|].
  - destruct Htake as [_ (eff & -> & _)]. cbn [mbind list_bind]. rewrite app_nil_r.
    apply packets_of_length.
  - destruct Htake as [_ ->]. done.
Qed.

Section progress.
Variables (script : nat -> list AgentResponse) (result : nat -> A) (waves : nat).
Hypothesis Hscripted : scripted n machine script result.
Hypothesis Hwaves : in_waves n waves script.
Hypothesis Hn : 2 <= Z.of_nat n <= u16_max.
Hypothesis Hnd : NoDup ps.
Hypothesis Hbound : (Z.of_nat n + 1) * (Z.of_nat waves + 1) <= u64_max.

Lemma log_script st s logs i :
  sys_ok st s logs -> (i < n)%nat -> logs i `prefix_of` script i.
Proof.
  intros [Hr Hs _ _] Hi. etrans; [by apply Hs|]. eapply sent_script; [done| |done].
  by eapply reachable_consistent.
Qed.

Lemma log_waves st s logs i :
  sys_ok st s logs -> (i < n)%nat -> (broadcasts_in (logs i) <= waves)%nat.
Proof.
  intros Hok Hi. rewrite <- (waves_count _ _ _ Hwaves i Hi).
  apply broadcasts_in_prefix. by eapply log_script.
Qed.

Lemma next_waves st s logs i :
  sys_ok st s logs -> (i < n)%nat ->
  next_incoming_broadcast_id (nd_exec (nodes st i)) <= Z.of_nat waves.
Proof.
  intros Hok Hi. destruct (ok_nodes _ _ _ Hok i Hi) as [_ _ _ _ _ Ht _].
  destruct (Z.le_gt_cases (next_incoming_broadcast_id (nd_exec (nodes st i))) (Z.of_nat waves))
    as [?|Hlt]; [done|exfalso].
  set (j := if decide (i = 0%nat) then 1%nat else 0%nat).
  assert ((j < n)%nat /\ j <> i) as [Hj Hne] by (unfold j; case_decide; lia).
  destruct (turn_done _ _ _ _ Ht (Z.of_nat waves) j) as (k & m & Hm & Hto & Hid & _); [lia|done..|].
  pose proof (broadcasts_before logs j k m Hm Hto). pose proof (log_waves _ _ _ j Hok Hj). lia.
Qed.

(** The buffer holds at most a broadcast of every number of every party. *)
Lemma pending_bound st s logs i :
  sys_ok st s logs -> (i < n)%nat ->
  (base.size (pending_incoming (nd_exec (nodes st i))) <= n * waves)%nat.
Proof.
  intros Hok Hi. destruct (ok_nodes _ _ _ Hok i Hi) as [_ _ _ _ HL _ _].
  set (p := pending_incoming _) in *.
  set (keys := (fun x => (Z.of_nat (x / waves) + 1, Z.of_nat (x mod waves))) <$> seq 0 (n * waves)).
  assert ((map_to_list p).*1 ⊆+ keys) as Hsub.
  { apply NoDup_submseteq; [apply NoDup_fst_map_to_list|]. intros [u mid] Hk.
    apply list_elem_of_fmap in Hk as ([key0 req] & Heq & Hreq). cbn in Heq. subst key0.
    apply elem_of_map_to_list in Hreq.
    destruct (led_buffer _ _ _ _ _ HL _ _ _ Hreq) as (j & k & m & Hj & _ & -> & Hm & Hto & -> & _).
    pose proof (broadcasts_before logs j k m Hm Hto) as Hlt.
    pose proof (log_waves _ _ _ j Hok Hj) as Hle.
    set (w := broadcasts_in (take k (logs j))). unfold broadcast_id in *. fold w in Hlt |- *.
    apply list_elem_of_fmap. exists (j * waves + w)%nat.
    rewrite Nat.div_add_l, Nat.div_small, Nat.add_0_r by lia.
    rewrite Nat.add_comm, Nat.Div0.mod_add, Nat.mod_small by lia. split; [done|].
    apply elem_of_seq. nia. }
  apply submseteq_length in Hsub. unfold keys in Hsub. rewrite !length_fmap, length_seq in Hsub.
  by rewrite length_map_to_list in Hsub.
Qed.
(** What is left to take from the agents and to bring by the network. *)
Definition left_over (st : sys) : nat :=
  (total n (fun i => S n * (length (script i) - length (nd_taken (nodes st i)))) +
   length (wire st))%nat.

Lemma bound_room st s logs i :
  sys_ok st s logs -> (i < n)%nat ->
  next_incoming_broadcast_id (nd_exec (nodes st i)) +
    Z.of_nat (S (base.size (pending_incoming (nd_exec (nodes st i))))) <= u64_max.
Proof.
  intros Hok Hi. pose proof (next_waves _ _ _ i Hok Hi). pose proof (pending_bound _ _ _ i Hok Hi).
  nia.
Qed.

(** A message that is left to take is taken. *)
Lemma take_goes_on st s logs i m :
  sys_ok st s logs -> (i < n)%nat ->
  out_of (machine i (nd_given (nodes st i))) !! length (nd_taken (nodes st i)) = Some m ->
  exists st', sys_step st st' /\ (left_over st' < left_over st)%nat.
Proof.
  intros Hok Hi Hm. pose proof (ok_nodes _ _ _ Hok i Hi) as [O1 O2 O3 O4 O5 O6 O7].
  pose proof (bound_room _ _ _ i Hok Hi) as Hroom.
  assert (out_of (machine i (nd_given (nodes st i))) `prefix_of` script i) as Hpre.
  { rewrite O2. eapply sent_script; [done| |done]. eapply reachable_consistent; [done|apply Hok]. }
  pose proof (prefix_lookup_Some _ _ _ _ Hm Hpre) as Hms.
  assert (Z.of_nat (broadcasts_in (logs i)) <= Z.of_nat waves) as Hle
    by (pose proof (log_waves _ _ _ i Hok Hi); lia).
  destruct (poll_takes (nd_exec (nodes st i)) m) as (e' & o & Hp).
  - by rewrite (id_n _ _ O1).
  - rewrite (id_n _ _ O1), (id_i _ _ O1). lia.
  - intros u Hto. rewrite (id_peers _ _ O1). eapply (waves_address _ _ _ Hwaves i); [done| |done].
    apply list_elem_of_lookup. eauto.
  - rewrite O4. nia.
  - lia.
  - eexists. split.
    { eapply (polled st i (poll_with (nd_exec (nodes st i)) (Some m) None) e' o None (wire st));
        [done| |done|done|exact Hp]. by intros x [= <-]. }
    pose proof (poll_packets _ _ _ _ i (length (nd_taken (nodes st i))) Hp ltac:(done)) as Hlen.
    cbn in Hlen. apply lookup_lt_Some in Hms. unfold left_over. cbn [wire nodes]. rewrite length_app.
    assert (forall a, (a + S n <= total n (fun j => S n *
      (length (script j) - length (nd_taken (nodes st j)))))%nat ->
      (a + (length (wire st) + length (effects o ≫= packets_of i (length (nd_taken (nodes st i)))))
       < total n (fun j => S n * (length (script j) - length (nd_taken (nodes st j)))) +
         length (wire st))%nat) as Hlt by (intros a Ha; lia).
    apply Hlt. apply (total_drop n _ _ i); [done| |].
    + intros j Hj. by rewrite decide_False.
    + rewrite decide_True by done. cbn [after_poll nd_taken poll_with from_protocol].
      rewrite length_app. cbn [option_list option_rect length]. nia.
Qed.

(** A packet on its way is brought. *)
Lemma bring_goes_on st s logs pk w :
  sys_ok st s logs -> wire st = pk :: w ->
  exists st', sys_step st st' /\ (left_over st' < left_over st)%nat.
Proof.
  intros Hok Hw. set (i := pk_to pk).
  assert (i < n)%nat as Hi by (apply (ok_wire _ _ _ Hok); rewrite Hw; by left).
  pose proof (ok_nodes _ _ _ Hok i Hi) as [O1 O2 O3 O4 O5 O6 O7].
  assert (pk ∈ wire_to i (wire st)) as Hpk.
  { unfold wire_to. apply list_elem_of_filter. split; [done|]. rewrite Hw. by left. }
  destruct (led_wire _ _ _ _ _ O5 pk Hpk) as (Hf & x & _ & _ & _ & _ & Hctx).
  set (q := Peerset.local_peer_id (peerset (nd_exec (nodes st i)))).
  set (req := {| context := pk_context pk; peer := q; peer_id := q; is_broadcast := pk_broadcast pk;
    peer_index := Z.of_nat (pk_from pk); payload := pk_body pk; pending_response := 0%nat |}).
  assert (forall m, Some req = Some m ->
    session_id (context m) = session (nd_exec (nodes st i)) /\
    message_type (context m) = Computation) as Hbelongs.
  { intros m [= <-]. cbn. by rewrite Hctx, (id_session _ _ O1). }
  destruct (Hbelongs req eq_refl) as [Hs Ht].
  destruct (poll_accepts (nd_exec (nodes st i)) req) as (e' & o & Hp); [| |done|done| | |].
  - by rewrite (id_n _ _ O1).
  - rewrite (id_n _ _ O1), (id_i _ _ O1). lia.
  - cbn. lia.
  - by eapply bound_room.
  - eexists. split.
    { eapply (polled st i (poll_with (nd_exec (nodes st i)) None (Some req)) e' o (Some pk) w);
        [done|done| |by split|exact Hp]. by rewrite Hw. }
    pose proof (poll_packets _ _ _ _ i (length (nd_taken (nodes st i))) Hp Hbelongs) as Hlen.
    cbn in Hlen. unfold left_over. cbn [wire nodes]. rewrite length_app, Hw. cbn [length].
    assert (total n (fun j => S n * (length (script j) - length (nd_taken (if decide (j = i)
        then after_poll (nodes st i) (poll_with (nd_exec (nodes st i)) None (Some req)) e' o
        else nodes st j)))) <=
      total n (fun j => S n * (length (script j) - length (nd_taken (nodes st j)))))%nat; [|lia].
    apply total_le. intros j _. case_decide; [subst j|done]. cbn. by rewrite app_nil_r.
Qed.

Lemma goes_on st s logs :
  sys_ok st s logs ->
  quiet st \/ exists st', sys_step st st' /\ (left_over st' < left_over st)%nat.
Proof.
  intros Hok. destruct (wire st) as [|pk w] eqn:Hw; [|right; by eapply bring_goes_on].
  set (all_taken i := length (nd_taken (nodes st i)) = length (out_of (machine i (nd_given (nodes st i))))).
  assert (forall i, (i < n)%nat ->
    nd_taken (nodes st i) `prefix_of` out_of (machine i (nd_given (nodes st i)))) as Hpre.
  { intros i Hi. pose proof (ok_nodes _ _ _ Hok i Hi) as [_ O2 O3 _ _ _ _]. rewrite O2, O3.
    by apply (ok_sends _ _ _ Hok). }
  destruct (decide (Forall all_taken (seq 0 n))) as [Hall|Hnot].
  - left. split; [done|]. intros i Hi. rewrite Forall_forall in Hall.
    pose proof (Hall i ltac:(apply elem_of_seq; lia)) as Hlen.
    apply prefix_length_eq; [by apply Hpre|]. by rewrite Hlen.
  - right. apply not_Forall_Exists, Exists_exists in Hnot as (i & Hin & Hi); [|apply _].
    apply elem_of_seq in Hin. pose proof (Hpre i ltac:(lia)) as Hp.
    pose proof (prefix_length _ _ Hp) as Hle.
    destruct (lookup_lt_is_Some_2 (out_of (machine i (nd_given (nodes st i))))
      (length (nd_taken (nodes st i)))) as [m Hm].
    { unfold all_taken in Hi. cbn in Hi. lia. }
    apply (take_goes_on st s logs i m); [done|lia|done].
Qed.

Lemma gets_quiet st s logs :
  sys_ok st s logs -> exists st', rtc sys_step st st' /\ quiet st'.
Proof.
  remember (left_over st) as k eqn:Hk. revert st s logs Hk.
  induction k as [k IH] using lt_wf_ind. intros st s logs -> Hok.
  destruct (goes_on st s logs Hok) as [Hq|(st1 & Hstep & Hlt)]; [by exists st|].
  destruct (step_ok st st1 s logs Hnd Hok Hstep) as (s1 & logs1 & _ & Hok1).
  destruct (IH _ Hlt st1 s1 logs1 eq_refl Hok1) as (st' & Hr & Hq).
  exists st'. split; [by econstructor|done].
Qed.
(** What the nodes promise when their agents follow scripts in waves. *)
Lemma quiet_session st0 st :
  initial st0 -> rtc sys_step st0 st -> quiet st ->
  exists k s, nsteps (Session.step n machine) k Session.start s /\
    (forall s', ~ Session.step n machine s s') /\
    forall i, (i < n)%nat -> nd_given (nodes st i) = inbox s i.
Proof.
  intros H0 Hr Hq. destruct (reachable_ok st0 st Hn Hnd H0 Hr) as (s & logs & Hok).
  destruct (rtc_nsteps_1 _ _ (ok_reachable _ _ _ Hok)) as [k Hk].
  exists k, s. split; [done|]. split; [by eapply quiet_all|]. intros i Hi.
  apply (ok_given _ _ _ _ _ (ok_nodes _ _ _ Hok i Hi)).
Qed.

Lemma scripted_system : system_completes result.
Proof.
  intros st0 H0 st Hr run done. destruct (reachable_ok st0 st Hn Hnd H0 Hr) as (s & logs & Hok).
  assert (forall i, (i < n)%nat -> run i = party machine s i) as Hrun.
  { intros i Hi. unfold run, party. by rewrite (ok_given _ _ _ _ _ (ok_nodes _ _ _ Hok i Hi)). }
  pose proof (reachable_consistent n machine script result Hscripted s (ok_reachable _ _ _ Hok)) as Hc.
  split; [|split].
  - intros i Hi. unfold done. rewrite Hrun by done.
    destruct (complete_or_waiting n machine script result Hscripted s i Hc Hi)
      as [[_ ?]|(out & ? & _)]; eauto.
  - by eapply gets_quiet.
  - intros Hq i Hi. unfold done. rewrite Hrun by done. eexists.
    eapply stuck_complete; [done..| |done]. by eapply quiet_all.
Qed.
End progress.

(** C3: nodes that run the executions refine a session of their agents.  The agents send
    more, and never something else, when they are given more.  [n] nodes are set up with the peer set of a session and exchange requests over a network that gives
    every request once to its addressee, in any order and after any delay; each node takes
    the messages of its agent in turn.  Whatever such nodes have done, there is a session
    of the agents, one that delivers to every party messages that were sent to it, each
    at most once, in which every agent has been given just what its execution has given
    to it; and what an execution has taken from its agent is the beginning of what the
    agent has sent. *)
Theorem system_session st0 st :
  NoDup ps -> 2 <= Z.of_nat n <= u16_max -> initial st0 -> rtc sys_step st0 st ->
  exists s, rtc (Session.step n machine) Session.start s /\
    forall i, (i < n)%nat -> nd_given (nodes st i) = inbox s i /\
      nd_taken (nodes st i) `prefix_of` out_of (party machine s i).
Proof.
  intros Hnd Hn H0 Hr. destruct (reachable_ok st0 st Hn Hnd H0 Hr) as (s & logs & Hok).
  exists s. split; [apply Hok|]. intros i Hi.
  destruct (ok_nodes _ _ _ Hok i Hi) as [_ Hg Ht _ _ _ _]. split; [done|].
  rewrite Ht. by apply (ok_sends _ _ _ Hok).
Qed.

End nodes.

(** *** Agents that are the same on the nodes there are *)

Section same.
Context {A : Type} (machine machine' : nat -> list AgentMessage -> run A).
Hypothesis Hsame : forall i inbox, (i < n)%nat -> machine' i inbox = machine i inbox.

Lemma sys_step_same st st' : sys_step machine st st' -> sys_step machine' st st'.
Proof.
  intros [st1 i ob e o pk w Hi Hm Hw Hb Hp]. apply (polled machine' st1 i ob e o pk w); try done.
  intros m Hfrom. rewrite Hsame by done. by apply Hm.
Qed.

Lemma quiet_same st : quiet machine st -> quiet machine' st.
Proof. intros [Hw Hq]. split; [done|]. intros i Hi. rewrite Hsame by done. by apply Hq. Qed.
End same.

Lemma completes_same {A} (machine machine' : nat -> list AgentMessage -> run A) st0 result :
  (forall i inbox, (i < n)%nat -> machine' i inbox = machine i inbox) ->
  completes_from machine st0 result -> completes_from machine' st0 result.
Proof.
  intros Hsame Hc st Hr.
  assert (forall i inbox, (i < n)%nat -> machine i inbox = machine' i inbox) as Hsame'
    by (intros; symmetry; by apply Hsame).
  destruct (Hc st) as (Hall & (st' & Hr' & Hq) & Hdone).
  { eapply rtc_subrel; [|exact Hr]. intros. by eapply sys_step_same. }
  split; [|split].
  - intros i Hi. rewrite Hsame by done. by apply Hall.
  - exists st'. split; [|by eapply quiet_same]. eapply rtc_subrel; [|exact Hr']. intros. by eapply sys_step_same.
  - intros Hqs i Hi. rewrite Hsame by done. apply Hdone; [|done]. by eapply quiet_same.
Qed.
End system.
End System.
