(* ===== verification/KeyGen.v ===== *)
(** * Key generation

    The agent [KeyGen] of [crates/tss/src/keygen.rs]: the distributed key
    generation over the agent's channels, and the key share it saves. *)

From Stdlib Require Import ZArith Lia Strings.Byte.
From stdpp Require Import base gmap strings numbers list.
From S2P Require Import Prelude Wire Messages Peerset Room Echo Storage Execution Wallet Frost.

Local Open Scope Z_scope.

Record KeyShareParticipant : Type := { kp_peer_id : string; kp_identifier : Z }.

Record KeyShare : Type := {
  ks_curve : Curve;
  ks_identifier : Z;
  ks_signing_key : bytes;
  ks_public_key : bytes;
  ks_group_public_key : bytes;
  ks_public_key_package : bytes;
  ks_min_signers : Z;
  ks_max_signers : Z;
  ks_participants : list KeyShareParticipant;
}.

(** [PublicKey] of [keysign.rs]. *)
Record PublicKey : Type := { pk_curve : Curve; pk_bytes : bytes }.

Module KeyGen.

(** ** The protocol *)

Section dkg.
Context `{F : Frost} `{Serde bytes}.

(** The identifiers of the parties 1 to [n]. *)
Definition party_ids (n : Z) : list Ident := omap ident_of (seqZ 1 n).

Definition expected_ids (n : Z) : gset Ident := list_to_set (party_ids n).

(** The map from identifiers back to party numbers. *)
Definition id_to_u16 (n : Z) : gmap Ident Z :=
  foldl (fun m u => match ident_of u with Some id => <[id := u]> m | None => m end)
        ∅ (seqZ 1 n).

(** The state of the loop that receives round 1. *)
Record round1_state : Type := {
  r1_all : gmap Ident Round1Package;
  r1_others : gmap Ident Round1Package;
  r1_deferred : list AgentMessage;
}.

Definition round1_done (n : Z) (s : round1_state) : bool :=
  negb (Z.of_nat (size (r1_all s)) <? n).

(** One message of round 1: a direct message is kept for round 2. *)
Definition round1_body (self : Ident) (n : Z) (s : round1_state) (req : AgentMessage) :
  outcome string round1_state :=
  match am_to req with
  | Some _ =>
      Ok {| r1_all := r1_all s; r1_others := r1_others s;
            r1_deferred := r1_deferred s ++ [req] |}
  | None =>
      payload ← ok_or "failed to decode round1 package" (from_slice (T:=bytes) (am_payload req));
      pkg ← ok_or "failed to deserialize round1 package" (round1_deserialize payload);
      sender ← ok_or "invalid sender identifier" (ident_of (am_from req));
      Ok (if bool_decide (sender ∈ expected_ids n) then
            {| r1_all := <[sender := pkg]> (r1_all s);
               r1_others := if bool_decide (sender = self) then r1_others s
                            else <[sender := pkg]> (r1_others s);
               r1_deferred := r1_deferred s |}
          else s)
  end.

(** The state of the loop that receives round 2. *)
Record round2_state : Type := {
  r2_packages : gmap Ident Round2Package;
  r2_senders : gset Ident;
}.

Definition round2_done (n : Z) (s : round2_state) : bool :=
  negb (Z.of_nat (size (r2_packages s)) <? n - 1).

(** One message of round 2: direct messages to this party, the first of every
    sender. *)
Definition round2_body (identifier : Z) (s : round2_state) (req : AgentMessage) :
  outcome string round2_state :=
  if bool_decide (am_to req <> Some identifier) then Ok s
  else
    sender ← ok_or "invalid sender identifier" (ident_of (am_from req));
    if bool_decide (sender ∈ r2_senders s) then Ok s
    else
      payload ← ok_or "failed to decode round2 package" (from_slice (T:=bytes) (am_payload req));
      pkg ← ok_or "failed to deserialize round2 package" (round2_deserialize payload);
      Ok {| r2_packages := <[sender := pkg]> (r2_packages s);
            r2_senders := {[sender]} ∪ r2_senders s |}.

(** A message of an agent; the feedback channel has no one waiting. *)
Definition outgoing (to : option Z) (body : bytes) : AgentResponse :=
  {| ar_body := body; ar_to := to; ar_sent_feedback := Some 0%nat |}.

(** The loop that sends round 2, in the order of the recipients. *)
Fixpoint send_round2 (n : Z) (pkgs : list (Ident * Round2Package)) : agent unit :=
  match pkgs with
  | [] => mret tt
  | (rid, pkg) :: pkgs =>
      u ← try "could not find u16 for recipient identifier" (id_to_u16 n !! rid);
      payload ← try "failed to serialize round2 package" (round2_serialize pkg);
      body ← try "failed to encode round2 package" (to_vec (T:=bytes) payload);
      _ ← send "error sending round 2 package" (outgoing (Some u) body);
      send_round2 n pkgs
  end.

(** The part of [run_dkg] after its round 2 packages have been sent. *)
Definition receive_round2 (identifier n : Z) (deferred : list AgentMessage)
  (secret2 : Round2Secret) (r1 : gmap Ident Round1Package) : agent (KeyPackage * PublicKeyPackage) :=
  s2 ← recv_while_deferred (round2_done n) (round2_body identifier) deferred
         {| r2_packages := ∅; r2_senders := ∅ |};
  try "Round 3 error" (part3 secret2 r1 (r2_packages s2)).

(** [run_dkg]. *)
Definition run_dkg (identifier threshold max_signers : Z) (c : coins) :
  agent (KeyPackage * PublicKeyPackage) :=
  self ← try "invalid identifier" (ident_of identifier);
  if threshold <? 2 then fail "threshold (min_signers) must be at least 2"
  else if max_signers <? threshold then
    fail "threshold (min_signers) cannot be larger than max_signers"
  else
    '(secret1, pkg1) ← try "Round 1 part 1 error" (part1 self max_signers threshold c);
    payload ← try "failed to serialize round1 package" (round1_serialize pkg1);
    body ← try "failed to encode round1 package" (to_vec (T:=bytes) payload);
    _ ← send "error sending round 1 package" (outgoing None body);
    s1 ← recv_while (round1_done max_signers) (round1_body self max_signers)
           {| r1_all := {[self := pkg1]}; r1_others := ∅; r1_deferred := [] |};
    if negb (Z.of_nat (size (r1_all s1)) =? max_signers) then
      fail "Round 1: unexpected number of packages"
    else
      others ← lift (u16_sub max_signers 1);
      if negb (Z.of_nat (size (r1_others s1)) =? others) then
        fail "Round 1: unexpected number of packages for part2"
      else
        '(secret2, pkgs2) ← try "Round 2 error" (part2 secret1 (r1_others s1));
        _ ← send_round2 max_signers pkgs2;
        receive_round2 identifier max_signers (r1_deferred s1) secret2 (r1_others s1).
End dkg.

(** ** What a successful run has done *)

Section sound.
Context `{F : Frost} `{Serde bytes} `{!FrostLaws F}.

Lemma party_ids_nodup n : NoDup (party_ids n).
Proof.
  apply NoDup_omap_inj; [|apply NoDup_seqZ]. intros u v id Hu Hv. by eapply ident_of_inj.
Qed.

Lemma omap_total {A B} (f : A -> option B) (l : list A) :
  Forall (fun x => is_Some (f x)) l -> length (omap f l) = length l.
Proof. induction 1 as [|x l [y Hy] _ IH]; cbn; [done|]. by rewrite Hy; cbn; rewrite IH. Qed.

Lemma expected_ids_size n : 0 <= n <= u16_max -> Z.of_nat (size (expected_ids n)) = n.
Proof.
  intros Hn. unfold expected_ids. rewrite size_list_to_set by apply party_ids_nodup.
  unfold party_ids. rewrite omap_total, length_seqZ; [lia|].
  apply Forall_forall. intros u Hu. apply elem_of_seqZ in Hu. apply ident_of_some. lia.
Qed.

Lemma elem_of_expected n u id :
  ident_of u = Some id -> 1 <= u <= n -> id ∈ expected_ids n.
Proof.
  intros Hid Hu. apply elem_of_list_to_set, list_elem_of_omap. exists u.
  split; [|done]. apply elem_of_seqZ. lia.
Qed.

(** Round 1 keeps every package under an expected identifier, and the others'
    packages are all but its own. *)
Definition round1_inv (self : Ident) (n : Z) (s : round1_state) : Prop :=
  dom (r1_all s) ⊆ expected_ids n /\ self ∈ dom (r1_all s) /\
  r1_others s = delete self (r1_all s).

Lemma round1_body_inv self n s m s' :
  round1_inv self n s -> round1_body self n s m = Ok s' -> round1_inv self n s'.
Proof.
  intros (Hdom & Hself & Hoth). unfold round1_body. destruct (am_to m); [by intros [= <-]|].
  intros Hb. inv_ok. case_bool_decide as Hexp; [|done].
  split; [cbn; rewrite dom_insert_L; set_solver|]. split; [cbn; set_solver|]. cbn.
  case_bool_decide as Heq; subst.
  - by rewrite delete_insert_eq.
  - by rewrite delete_insert_ne, Hoth.
Qed.

Definition round2_inv (n : Z) (s : round2_state) : Prop :=
  dom (r2_packages s) = r2_senders s /\ Z.of_nat (size (r2_packages s)) <= n - 1.

Lemma round2_inv_start n : 1 <= n -> round2_inv n {| r2_packages := ∅; r2_senders := ∅ |}.
Proof.
  intros Hn. split; cbn [r2_packages r2_senders]; [apply dom_empty_L|].
  rewrite map_size_empty. lia.
Qed.

Lemma round2_body_inv identifier n s m s' :
  round2_inv n s -> round2_done n s = false -> round2_body identifier s m = Ok s' ->
  round2_inv n s'.
Proof.
  intros [Hdom Hsz] Hd. unfold round2_body. repeat case_bool_decide; intros Hb; inv_ok; try done.
  case_bool_decide as Hin; inv_ok; [done|].
  unfold round2_done in Hd. apply negb_false_iff, Z.ltb_lt in Hd.
  split; cbn; [by rewrite dom_insert_L, Hdom|].
  rewrite map_size_insert_None; [lia|]. apply not_elem_of_dom. by rewrite Hdom.
Qed.

Lemma send_round2_out n pkgs ch inbox out u inbox' out' :
  send_round2 n pkgs ch inbox out = Done u inbox' out' ->
  inbox' = inbox /\ exists sent, out' = out ++ sent /\ length sent = length pkgs /\
    Forall (fun m => is_Some (ar_to m)) sent.
Proof.
  revert out. induction pkgs as [|[rid pkg] pkgs IH]; intros out; cbn [send_round2].
  { intros [= <- <- <-]. split; [done|]. exists []. rewrite app_nil_r. auto. }
  intros Hr. inv_run. apply IH in Hr as (-> & sent & -> & Hlen & Hall). split; [done|].
  exists (outgoing (Some a) a1 :: sent). rewrite <- app_assoc. cbn. split; [done|].
  split; [by rewrite Hlen|]. constructor; [by eexists|done].
Qed.

Lemma round1_inv_start self n pkg :
  self ∈ expected_ids n ->
  round1_inv self n {| r1_all := {[self := pkg]}; r1_others := ∅; r1_deferred := [] |}.
Proof.
  intros Hs. split; [|split]; cbn [r1_all r1_others].
  - rewrite dom_singleton_L. set_solver.
  - rewrite dom_singleton_L. set_solver.
  - by rewrite delete_singleton_eq.
Qed.

Lemma round1_inv_full self n s :
  0 <= n <= u16_max -> round1_inv self n s -> Z.of_nat (size (r1_all s)) = n ->
  dom (r1_others s) = expected_ids n ∖ {[self]}.
Proof.
  intros Hn (Hdom & _ & ->) Hsz. rewrite dom_delete_L. f_equal.
  apply leibniz_equiv, set_subseteq_size_equiv; [done|].
  pose proof (expected_ids_size n Hn). rewrite size_dom. lia.
Qed.

(** C15: a key generation that succeeds had a threshold between 2 and the
    number of parties, and has fed [part2] and [part3] with the round 1 packages
    of exactly the other parties and with [n - 1] round 2 packages; it has
    broadcast one message and sent the packages of round 2 directly. *)
Theorem dkg_sound identifier t n c ch inbox kp pkp inbox' out :
  1 <= identifier <= n -> n <= u16_max ->
  run_dkg identifier t n c ch inbox [] = Done (kp, pkp) inbox' out ->
  2 <= t <= n /\
  exists self secret1 pkg1 r1 secret2 pkgs2 r2 b sent,
    ident_of identifier = Some self /\ part1 self n t c = Some (secret1, pkg1) /\
    dom r1 = expected_ids n ∖ {[self]} /\ part2 secret1 r1 = Some (secret2, pkgs2) /\
    Z.of_nat (size r2) = n - 1 /\ part3 secret2 r1 r2 = Some (kp, pkp) /\
    out = outgoing None b :: sent /\ length sent = length pkgs2 /\
    Forall (fun m => is_Some (ar_to m)) sent.
Proof.
  intros Hid Hn Hr. unfold run_dkg, receive_round2 in Hr. inv_run.
  destruct (Z.ltb_spec t 2); [by inv_run|]. destruct (Z.ltb_spec n t); [by inv_run|].
  split; [lia|]. inv_run.
  match goal with
  | Hl : recv_while _ _ _ _ _ _ = Done _ _ _ |- _ =>
      unfold recv_while in Hl;
      apply (recv_loop_inv _ _ (round1_inv a n)) in Hl as (Hinv1 & Hd1 & ->);
        [|intros; by eapply round1_body_inv|
          apply round1_inv_start; by eapply elem_of_expected]
  end.
  case_match eqn:Hs1; [by inv_run|]. apply negb_false_iff, Z.eqb_eq in Hs1. inv_run.
  case_match eqn:Hs2; [by inv_run|]. inv_run.
  apply send_round2_out in Ha5 as (-> & sent & -> & Hlen & Hall).
  unfold recv_while_deferred in Ha6.
  apply (recv_loop_inv _ _ (round2_inv n)) in Ha6 as (Hinv2 & Hd2 & ->);
    [|intros; by eapply round2_body_inv|apply round2_inv_start; lia].
  unfold round2_done in Hd2. apply negb_true_iff, Z.ltb_ge in Hd2. destruct Hinv2 as [_ Hsz].
  exists a, r, r0, (r1_others a3), r1, l, (r2_packages a6), a1, sent.
  split; [done|]. split; [done|].
  split; [eapply round1_inv_full; [lia|done|done]|]. split; [done|].
  split; [lia|]. split; [done|]. split; [done|]. auto.
Qed.
End sound.

(** ** Messages that arrive early *)

Section progress.
Context `{F : Frost} `{Serde bytes} `{!FrostLaws F}.

Definition broadcasts (inbox : list AgentMessage) : list AgentMessage :=
  filter (fun m => am_to m = None) inbox.
Definition directs (inbox : list AgentMessage) : list AgentMessage :=
  filter (fun m => am_to m <> None) inbox.

#[global] Instance broadcasts_perm : Proper ((≡ₚ) ==> (≡ₚ)) broadcasts.
Proof. unfold broadcasts. by intros l l' ->. Qed.
#[global] Instance directs_perm : Proper ((≡ₚ) ==> (≡ₚ)) directs.
Proof. unfold directs. by intros l l' ->. Qed.

(** The package in a round 1 message, and in a round 2 message. *)
Definition package1 (m : AgentMessage) : option (Ident * Round1Package) :=
  b ← from_slice (T:=bytes) (am_payload m);
  p ← round1_deserialize b;
  id ← ident_of (am_from m);
  mret (id, p).

Definition package2 (m : AgentMessage) : option (Ident * Round2Package) :=
  b ← from_slice (T:=bytes) (am_payload m);
  p ← round2_deserialize b;
  id ← ident_of (am_from m);
  mret (id, p).

Definition insert_all {A} (m : gmap Ident A) (ps : list (Ident * A)) : gmap Ident A :=
  foldl (fun m x => <[x.1 := x.2]> m) m ps.

Lemma insert_all_size {A} (m : gmap Ident A) ps :
  NoDup ps.*1 -> (forall id, id ∈ ps.*1 -> m !! id = None) ->
  size (insert_all m ps) = (size m + length ps)%nat.
Proof.
  revert m. induction ps as [|[id p] ps IH]; intros m Hnd Hm; cbn; [lia|].
  cbn in Hnd. apply NoDup_cons in Hnd as [Hid Hnd]. unfold insert_all in IH.
  rewrite IH, map_size_insert_None; [lia|apply Hm; constructor|done|].
  intros id' Hin. rewrite lookup_insert_ne by (intros ->; done). apply Hm. by constructor.
Qed.

Lemma insert_all_list {A} (m : gmap Ident A) ps :
  NoDup ps.*1 -> insert_all m ps = list_to_map ps ∪ m.
Proof.
  unfold insert_all. revert m. induction ps as [|[id x] ps IH]; intros m; cbn.
  { by rewrite (left_id_L ∅ (∪)). }
  intros [Hid Hnd]%NoDup_cons. rewrite IH by done.
  rewrite <- insert_union_l, insert_union_r; [done|]. by apply not_elem_of_list_to_map_1.
Qed.

Lemma insert_all_perm {A} (ps qs : list (Ident * A)) :
  NoDup qs.*1 -> ps ≡ₚ qs -> NoDup ps.*1 /\ insert_all ∅ ps = list_to_map qs.
Proof.
  intros Hnd Hp. assert (NoDup ps.*1) as Hnd' by (by rewrite Hp).
  split; [done|]. rewrite insert_all_list by done. rewrite (right_id_L ∅ (∪)).
  by apply list_to_map_proper.
Qed.

(** Round 1 ends with the last of the missing broadcasts, wherever the direct
    messages are among them; those are all kept, in order. *)
Lemma round1_loop self n s inbox ps ch out :
  mapM package1 (broadcasts inbox) = Some ps -> NoDup ps.*1 ->
  (forall id, id ∈ ps.*1 -> id ∈ expected_ids n /\ id <> self /\ r1_all s !! id = None) ->
  Z.of_nat (size (r1_all s) + length ps) = n ->
  exists s' rest,
    recv_loop (round1_done n) (round1_body self n) s inbox ch out = Done s' rest out /\
    r1_all s' = insert_all (r1_all s) ps /\ r1_others s' = insert_all (r1_others s) ps /\
    r1_deferred s' ++ rest = r1_deferred s ++ directs inbox.
Proof.
  revert s ps. induction inbox as [|m inbox IH]; intros s ps Hps Hnd Hnew Hsz.
  { cbn in Hps. injection Hps as <-. exists s, []. cbn. unfold round1_done.
    rewrite (proj2 (Z.ltb_ge _ _)) by (cbn in Hsz; lia). cbn. done. }
  unfold broadcasts, directs in *. rewrite filter_cons in Hps. rewrite filter_cons.
  cbn [recv_loop].
  destruct (am_to m) as [to|] eqn:Hto.
  - rewrite decide_False in Hps by done. rewrite decide_True by done.
    unfold round1_body at 1. rewrite Hto.
    destruct (round1_done n s) eqn:Hd.
    + unfold round1_done in Hd. apply negb_true_iff, Z.ltb_ge in Hd.
      assert (ps = []) as -> by (destruct ps; [done|cbn in Hsz; lia]).
      exists s, (m :: inbox). split; [done|]. split; [done|]. split; [done|]. f_equal. f_equal.
      symmetry. apply mapM_Some_1, Forall2_nil_inv_r in Hps. by apply filter_rest.
    + destruct (IH {| r1_all := r1_all s; r1_others := r1_others s;
                      r1_deferred := r1_deferred s ++ [m] |} ps) as (s' & rest & Hl & Ha & Ho & Hdef);
        [done..|]. exists s', rest. split; [done|]. split; [done|]. split; [done|].
      rewrite Hdef. cbn. by rewrite <- app_assoc.
  - rewrite decide_True in Hps by done. rewrite decide_False by (intros Hc; done).
    cbn [mapM] in Hps. apply bind_Some in Hps as ([id p] & Hm & Hps).
    apply bind_Some in Hps as (ps' & Hps & [= <-]).
    cbn in Hnd. apply NoDup_cons in Hnd as [Hid Hnd].
    destruct (Hnew id) as (Hexp & Hne & Hnone); [constructor|].
    assert (round1_done n s = false) as ->.
    { unfold round1_done. apply negb_false_iff, Z.ltb_lt. cbn in Hsz. lia. }
    unfold round1_body at 1. rewrite Hto. unfold package1 in Hm.
    apply bind_Some in Hm as (b & Hb & Hm). apply bind_Some in Hm as (p' & Hp & Hm).
    apply bind_Some in Hm as (id' & Hid' & [= -> ->]).
    rewrite Hb. cbn [ok_or mbind outcome_bind]. rewrite Hp. cbn [ok_or mbind outcome_bind].
    rewrite Hid'. cbn [ok_or mbind outcome_bind].
    rewrite bool_decide_eq_true_2 by done. rewrite bool_decide_eq_false_2 by done.
    destruct (IH {| r1_all := <[id := p]> (r1_all s); r1_others := <[id := p]> (r1_others s);
                    r1_deferred := r1_deferred s |} ps') as (s' & rest & Hl & Ha & Ho & Hdef);
      [done|done| |cbn; rewrite map_size_insert_None by done; cbn in Hsz; lia|].
    + intros id' Hin. destruct (Hnew id') as (? & ? & ?); [by constructor|].
      repeat (split; [done|]). cbn. rewrite lookup_insert_ne; [done|]. by intros ->.
    + exists s', rest. done.
Qed.

Lemma round2_loop identifier n s ds ps ch out :
  Forall (fun m => am_to m = Some identifier) ds ->
  mapM package2 ds = Some ps -> NoDup ps.*1 ->
  (forall id, id ∈ ps.*1 -> id ∉ r2_senders s) -> dom (r2_packages s) = r2_senders s ->
  Z.of_nat (size (r2_packages s) + length ps) = n - 1 ->
  exists s', recv_loop (round2_done n) (round2_body identifier) s ds ch out = Done s' [] out /\
    r2_packages s' = insert_all (r2_packages s) ps.
Proof.
  intros Hto. revert s ps. induction Hto as [|m ds Hm _ IH]; intros s ps Hps Hnd Hnew Hdom Hsz.
  { cbn in Hps. injection Hps as <-. exists s. cbn. unfold round2_done.
    rewrite (proj2 (Z.ltb_ge _ _)) by (cbn in Hsz; lia). done. }
  cbn [mapM] in Hps. apply bind_Some in Hps as ([id p] & Hp & Hps).
  apply bind_Some in Hps as (ps' & Hps & [= <-]).
  cbn in Hnd. apply NoDup_cons in Hnd as [Hid Hnd]. cbn [recv_loop].
  assert (round2_done n s = false) as ->.
  { unfold round2_done. apply negb_false_iff, Z.ltb_lt. cbn in Hsz. lia. }
  assert (id ∉ r2_senders s) as Hns by (apply Hnew; constructor).
  unfold round2_body at 1. rewrite bool_decide_eq_false_2 by (rewrite Hm; intros Hc; done).
  unfold package2 in Hp. apply bind_Some in Hp as (b & Hb & Hp).
  apply bind_Some in Hp as (p' & Hp' & Hp). apply bind_Some in Hp as (id' & Hid' & [= -> ->]).
  rewrite Hid'. cbn [ok_or mbind outcome_bind]. rewrite bool_decide_eq_false_2 by done.
  rewrite Hb. cbn [ok_or mbind outcome_bind]. rewrite Hp'. cbn [ok_or mbind outcome_bind].
  destruct (IH {| r2_packages := <[id := p]> (r2_packages s);
                  r2_senders := {[id]} ∪ r2_senders s |} ps') as (s' & Hl & Hpk);
    [done|done| |cbn; by rewrite dom_insert_L, Hdom| |].
  - intros id' Hin. specialize (Hnew id'). cbn in *. set_solver.
  - cbn. rewrite map_size_insert_None by (apply not_elem_of_dom; by rewrite Hdom).
    cbn in Hsz. lia.
  - exists s'. done.
Qed.

(** What is sent of a package of round 2. *)
Definition round2_message (n : Z) (x : Ident * Round2Package) : option AgentResponse :=
  u ← id_to_u16 n !! x.1;
  b ← round2_serialize x.2;
  body ← to_vec (T:=bytes) b;
  mret (outgoing (Some u) body).

Lemma send_round2_ok n pkgs sent ch inbox out :
  out_open ch = true -> mapM (round2_message n) pkgs = Some sent ->
  send_round2 n pkgs ch inbox out = Done tt inbox (out ++ sent).
Proof.
  intros Hopen. revert sent out. induction pkgs as [|[rid pkg] pkgs IH]; intros sent out Hs.
  { injection Hs as <-. by rewrite app_nil_r. }
  cbn [mapM] in Hs. apply bind_Some in Hs as (m & Hm & Hs).
  apply bind_Some in Hs as (sent' & Hs & [= <-]). unfold round2_message in Hm.
  apply bind_Some in Hm as (u & Hu & Hm). apply bind_Some in Hm as (b & Hb & Hm).
  apply bind_Some in Hm as (body & Hbody & [= <-]). cbn in Hu, Hb. cbn [send_round2].
  unfold mbind, agent_bind, try, lift, send.
  rewrite Hu, Hb. cbn [ok_or]. rewrite Hbody. cbn [ok_or]. rewrite Hopen.
  rewrite (IH sent') by done. by rewrite <- app_assoc.
Qed.

(** A key generation that gets the broadcasts of all others goes on to round 2,
    wherever the direct messages are among them; it has sent all it has to send. *)
Lemma dkg_round1 identifier t n c ch inbox self secret1 pkg1 b1 c1 ps1 secret2 pkgs2 sent :
  2 <= t <= n -> n <= u16_max -> out_open ch = true ->
  ident_of identifier = Some self ->
  part1 self n t c = Some (secret1, pkg1) ->
  round1_serialize pkg1 = Some b1 -> to_vec (T:=bytes) b1 = Some c1 ->
  mapM package1 (broadcasts inbox) = Some ps1 -> NoDup ps1.*1 ->
  (forall id, id ∈ ps1.*1 -> id ∈ expected_ids n /\ id <> self) ->
  Z.of_nat (length ps1) = n - 1 ->
  part2 secret1 (insert_all ∅ ps1) = Some (secret2, pkgs2) ->
  mapM (round2_message n) pkgs2 = Some sent ->
  exists deferred rest, deferred ++ rest = directs inbox /\
    run_dkg identifier t n c ch inbox [] =
    receive_round2 identifier n deferred secret2 (insert_all ∅ ps1) ch rest
      (outgoing None c1 :: sent).
Proof.
  intros Ht Hn Hopen Hself Hp1 Hs1 Hc1 Hb1 Hnd1 Hnew1 Hlen1 Hp2 Hsend.
  unfold run_dkg. unfold mbind at 1, agent_bind at 1, try at 1, lift at 1. rewrite Hself.
  cbn [ok_or]. rewrite (proj2 (Z.ltb_ge t 2)), (proj2 (Z.ltb_ge n t)) by lia.
  unfold receive_round2, mbind, agent_bind, try, lift, send, recv_while.
  rewrite Hp1. cbn [ok_or]. rewrite Hs1. cbn [ok_or]. rewrite Hc1. cbn [ok_or].
  rewrite Hopen.
  edestruct (round1_loop self n {| r1_all := {[self := pkg1]}; r1_others := ∅;
    r1_deferred := [] |} inbox ps1 ch ([] ++ [outgoing None c1]))
    as (s1 & rest & -> & Hall & Hoth & Hdef); [done|done| | |].
  { intros id Hid. destruct (Hnew1 id Hid). split; [done|]. split; [done|]. cbn.
    by rewrite lookup_singleton_ne. }
  { cbn [r1_all]. rewrite map_size_singleton. lia. }
  cbn [r1_all r1_others r1_deferred app] in Hall, Hoth, Hdef.
  rewrite Hall, insert_all_size, map_size_singleton; [|done|].
  2: { intros id Hid. rewrite lookup_singleton_ne; [done|]. destruct (Hnew1 id Hid). done. }
  rewrite (proj2 (Z.eqb_eq _ n)) by lia. cbn [negb]. rewrite u16_sub_ok by lia.
  rewrite Hoth, insert_all_size, map_size_empty by (done || intros; by rewrite lookup_empty).
  rewrite (proj2 (Z.eqb_eq _ (n - 1))) by lia. cbn [negb]. rewrite Hp2. cbn [ok_or].
  rewrite (send_round2_ok n pkgs2 sent) by done. by exists (r1_deferred s1), rest.
Qed.

(** Round 2 ends with the last of the missing direct messages. *)
Lemma receive_round2_done identifier n deferred rest secret2 r1 ps2 res ch out :
  Forall (fun m => am_to m = Some identifier) (deferred ++ rest) ->
  mapM package2 (deferred ++ rest) = Some ps2 -> NoDup ps2.*1 -> Z.of_nat (length ps2) = n - 1 ->
  part3 secret2 r1 (insert_all ∅ ps2) = Some res ->
  receive_round2 identifier n deferred secret2 r1 ch rest out = Done res [] out.
Proof.
  intros Hto Hb2 Hnd2 Hlen2 Hp3. unfold receive_round2, mbind, agent_bind, recv_while_deferred.
  edestruct (round2_loop identifier n {| r2_packages := ∅; r2_senders := ∅ |}
    (deferred ++ rest) ps2 ch out) as (s2 & -> & Hpk); [done|done|done| | | |].
  { set_solver. } { cbn. by rewrite dom_empty_L. }
  { cbn [r2_packages]. rewrite map_size_empty. lia. }
  rewrite Hpk. cbn [r2_packages]. unfold try, lift. by rewrite Hp3.
Qed.
End progress.

(** ** The agent *)

Section keygen.
Context `{PeerIds} `{Serde bytes} `{Serde KeygenRequestPayload} `{Serde KeyShare}
  `{Serde PublicKey}.

(** The ciphersuite of a curve. *)
Context (suite : Curve -> Frost).

(** [KeyGen]. *)
Record t : Type := { path : chars; curve : Curve }.

Definition new (p : chars) (c : Curve) : t := {| path := p; curve := c |}.

Definition protocol_id : Z := 0.

(** [key_share_participants_from_peers]: [index as u16 + 1]. *)
Fixpoint participants_from (index : nat) (peers : list PeerId) :
  outcome string (list KeyShareParticipant) :=
  match peers with
  | [] => Ok []
  | p :: peers =>
      identifier ← u16_add (as_u16 (Z.of_nat index)) 1;
      rest ← participants_from (S index) peers;
      Ok ({| kp_peer_id := peer_to_base58 p; kp_identifier := identifier |} :: rest)
  end.

Definition key_share_participants (ps : Peerset.t) : outcome string (list KeyShareParticipant) :=
  participants_from 0 (Peerset.peers ps).

(** The files of key shares, and what the file system answers. *)
Abbreviation share_files := (gmap chars bytes).

Record fs_obs : Type := { mkdir_ok : bool; create_ok : bool; write_ok : bool }.

(** [save_key_share]: the file is created, and emptied, before the share is
    encoded. *)
Definition save_key_share (k : t) (fs : share_files) (o : fs_obs) (wallet_id : chars)
  (share : KeyShare) : share_files * outcome string bytes :=
  let p := wallet_key_share_path (path k) wallet_id in
  if negb (mkdir_ok o) then (fs, Err "failed to create directory")
  else if negb (create_ok o) then (fs, Err "failed to create key share file")
  else
    match to_vec share with
    | None => (<[p := []]> fs, Err "failed to serialize key share")
    | Some b =>
        if write_ok o then (<[p := b]> fs, Ok (ks_group_public_key share))
        else (<[p := []]> fs, Err "failed to write local key to file")
    end.

(** The part of [compute] that depends on the ciphersuite: run the protocol and
    serialise its results. *)
Definition generate (F : Frost) (identifier t n : Z) (c : coins) :
  agent (bytes * bytes * bytes * bytes) :=
  '(kp, pkp) ← run_dkg identifier t n c;
  vs ← try "failed to serialize verifying share" (verifying_share_bytes kp);
  group ← try "failed to serialize group public key" (group_key_bytes pkp);
  pkg ← try "failed to serialize public key package" (public_package_bytes pkp);
  mret (signing_share_bytes kp, vs, group, pkg).

(** The part of [compute] before the protocol: the party's identifier, the
    number of parties and the request. *)
Definition prepare (ps : Peerset.t) (payload : bytes) :
  outcome string (Z * Z * KeygenRequestPayload) :=
  let n := as_u16 (Z.of_nat (Peerset.size ps)) in
  index ← ok_or "local peer id not found in peerset"
            (Peerset.index_of ps (Peerset.local_peer_id ps));
  i ← u16_add index 1;
  request ← decode_keygen_payload payload;
  Ok (i, n, request).

(** [compute]: the files afterwards, and the run. *)
Definition compute (k : t) (ps : Peerset.t) (payload : bytes)
  (c : forall cv : Curve, @coins (suite cv)) (fs : share_files) (o : fs_obs) (ch : channels)
  (inbox : list AgentMessage) : share_files * run bytes :=
  match prepare ps payload with
  | Err e => (fs, Failed e [])
  | Panic why => (fs, Crashed why [])
  | Ok (i, n, request) =>
      let F := suite (curve k) in
      match generate F i (kg_threshold request) n (c (curve k)) ch inbox [] with
      | Failed e out => (fs, Failed e out)
      | Waiting out => (fs, Waiting out)
      | Crashed why out => (fs, Crashed why out)
      | Done (sk, vs, group, pkg) inbox out =>
          match key_share_participants ps with
          | Err e => (fs, Failed e out)
          | Panic why => (fs, Crashed why out)
          | Ok participants =>
              let '(fs, saved) := save_key_share k fs o (kg_wallet_id request)
                {| ks_curve := curve k; ks_identifier := i; ks_signing_key := sk;
                   ks_public_key := vs; ks_group_public_key := group;
                   ks_public_key_package := pkg; ks_min_signers := kg_threshold request;
                   ks_max_signers := n; ks_participants := participants |} in
              (fs, (pk ← lift saved;
                    try "error encoding public key"
                      (to_vec {| pk_curve := curve k; pk_bytes := pk |})) ch inbox out)
          end
      end
  end.

(** ** The participants of a share *)

Lemma participants_from_ok index peers :
  Z.of_nat (index + length peers) <= u16_max ->
  participants_from index peers =
  Ok (imap (fun j p => {| kp_peer_id := peer_to_base58 p;
                          kp_identifier := Z.of_nat (index + j) + 1 |}) peers).
Proof.
  revert index. induction peers as [|p peers IH]; intros index Hlen; cbn; [done|].
  cbn [length] in Hlen. rewrite as_u16_small, u16_add_ok by lia. cbn [mbind outcome_bind].
  rewrite IH by lia. cbn. rewrite Nat.add_0_r. f_equal. f_equal.
  apply imap_ext. intros j q _. cbn [compose]. by rewrite Nat.add_succ_r.
Qed.
End keygen.

(** [read_key_share] of [keysign.rs]. *)
Definition read_key_share `{Serde KeyShare} (path : chars) (fs : gmap chars bytes)
  (wallet_id : chars) : outcome string KeyShare :=
  b ← ok_or "failed to read local key" (fs !! wallet_key_share_path path wallet_id);
  ok_or "failed to deserialize local key" (from_slice b).

Section keygen_result.
Context `{PeerIds} `{Serde bytes} `{Serde KeygenRequestPayload} `{SerdeLaws KeyShare}
  `{Serde PublicKey} (suite : Curve -> Frost).

Lemma prepare_ok ps payload i n req :
  Z.of_nat (Peerset.size ps) < u16_max ->
  prepare ps payload = Ok (i, n, req) ->
  exists index, Peerset.index_of ps (Peerset.local_peer_id ps) = Some index /\
    i = Z.succ index /\ n = as_u16 (Z.of_nat (Peerset.size ps)) /\
    decode_keygen_payload payload = Ok req.
Proof.
  intros Hn. unfold prepare, u16_add. intros Hp. inv_ok. exists a. split; [done|].
  destruct (a + 1 <=? u16_max); inv_ok. done.
Qed.

Lemma save_key_share_ok k fs o w share fs' pk :
  save_key_share k fs o w share = (fs', Ok pk) ->
  exists b, to_vec share = Some b /\ fs' = <[wallet_key_share_path (path k) w := b]> fs /\
    pk = ks_group_public_key share.
Proof.
  unfold save_key_share. repeat case_match; try done. intros [= <- <-]. eauto.
Qed.

(** C16: a key generation that succeeds has saved a share that signing reads
    back under the same wallet: with the party's own number as identifier, the
    threshold of the request, the number of parties, and the peers of the set
    numbered in order; the result it returns encodes the group key of that
    share.  The shares of other wallets are untouched. *)
Theorem keygen_saves_share k ps payload c fs o ch inbox fs' pk inbox' out :
  Z.of_nat (Peerset.size ps) < u16_max ->
  compute suite k ps payload c fs o ch inbox = (fs', Done pk inbox' out) ->
  exists req share,
    decode_keygen_payload payload = Ok req /\
    read_key_share (path k) fs' (kg_wallet_id req) = Ok share /\
    Some (ks_identifier share) = Z.succ <$> Peerset.index_of ps (Peerset.local_peer_id ps) /\
    ks_min_signers share = kg_threshold req /\
    ks_max_signers share = Z.of_nat (Peerset.size ps) /\ ks_curve share = curve k /\
    ks_participants share =
      imap (fun j p => {| kp_peer_id := peer_to_base58 p; kp_identifier := Z.of_nat j + 1 |})
           (Peerset.peers ps) /\
    to_vec {| pk_curve := curve k; pk_bytes := ks_group_public_key share |} = Some pk /\
    (forall w, normalize_wallet_id w <> kg_wallet_id req ->
       read_key_share (path k) fs' w = read_key_share (path k) fs w).
Proof.
  intros Hn Hc. unfold compute in Hc.
  destruct (prepare ps payload) as [[[i n] req]| |] eqn:Hprep; [|by simplify_eq..].
  apply prepare_ok in Hprep as (index & Hidx & -> & -> & Hreq); [|done].
  destruct generate as [[[[sk vs] group] pkg] inbox1 out1| | |]; [|by simplify_eq..].
  unfold key_share_participants in Hc.
  rewrite participants_from_ok in Hc by (unfold Peerset.size in Hn; lia).
  destruct save_key_share as [fs1 saved] eqn:Hsave. injection Hc as <- Hrun.
  inv_run. subst saved. apply save_key_share_ok in Hsave as (b & Hb & -> & ->).
  exists req. eexists. split; [done|].
  assert (normalize_wallet_id (kg_wallet_id req) = kg_wallet_id req) as Hnorm.
  { unfold decode_keygen_payload in Hreq. inv_ok. cbn. apply normalize_idempotent. }
  split; [unfold read_key_share; rewrite lookup_insert_eq; cbn; by rewrite (from_to_vec _ _ Hb)|].
  cbn [ks_identifier ks_min_signers ks_max_signers ks_curve ks_participants
       ks_group_public_key].
  split; [by rewrite Hidx|]. split; [done|].
  split; [apply as_u16_small; lia|]. split; [done|]. split; [done|]. split; [done|].
  intros w Hw. unfold read_key_share. rewrite lookup_insert_ne; [done|].
  intros Heq%share_path_inj. congruence.
Qed.
End keygen_result.
End KeyGen.
