(* ===== verification/KeySign.v ===== *)
(** * Signing

    The agent [KeySign] of [crates/tss/src/keysign.rs]: it finds the identifiers
    its peers had at the key generation, runs the two rounds of FROST over the
    agent's channels, and returns a signature it has verified. *)

From Stdlib Require Import ZArith Lia Strings.Byte.
From stdpp Require Import base gmap strings numbers list.
From S2P Require Import Prelude Wire Messages Peerset Room Echo Storage Execution Wallet Frost.
From S2P Require Import KeyGen.

Local Open Scope Z_scope.

(** [Signature]. *)
Record Signature : Type := {
  sig_curve : Curve;
  sig_pub_key : bytes;
  sig_signature : bytes;
}.

Module KeySign.

(** ** The parties of a signing session *)

Section parties.
Context `{PeerIds}.

(** The loop over the participants of the share. *)
Fixpoint read_participants (max_signers : Z) (ps : list KeyShareParticipant)
  (identifiers : gmap PeerId Z) (used : gset Z) : outcome string (gmap PeerId Z) :=
  match ps with
  | [] => Ok identifiers
  | p :: ps =>
      peer ← ok_or "invalid participant peer id" (peer_from_str (kp_peer_id p));
      if kp_identifier p =? 0 then Err "participant identifier must be one-based"
      else if max_signers <? kp_identifier p then
        Err "participant identifier exceeds max signers"
      else if bool_decide (kp_identifier p ∈ used) then Err "duplicate participant identifier"
      else if bool_decide (is_Some (identifiers !! peer)) then
        Err "duplicate participant peer id"
      else
        read_participants max_signers ps (<[peer := kp_identifier p]> identifiers)
          ({[kp_identifier p]} ∪ used)
  end.

(** The loop over the peers of the session. *)
Fixpoint map_peers (identifiers : gmap PeerId Z) (peers : list PeerId) :
  outcome string (list Z) :=
  match peers with
  | [] => Ok []
  | p :: peers =>
      identifier ← ok_or "peer is not in wallet key share" (identifiers !! p);
      party ← u16_sub identifier 1;
      rest ← map_peers identifiers peers;
      Ok (party :: rest)
  end.

(** [key_share_parties_for_peers]. *)
Definition key_share_parties_for_peers (peers : list PeerId) (local : PeerId)
  (share : KeyShare) : outcome string (list Z * Z) :=
  match ks_participants share with
  | [] => Err "key share does not contain participant mapping"
  | ps =>
      identifiers ← read_participants (ks_max_signers share) ps ∅ ∅;
      parties ← map_peers identifiers peers;
      local_identifier ← ok_or "local peer is not in wallet key share" (identifiers !! local);
      Ok (parties, local_identifier)
  end.

(** [apply_key_share_participants]. *)
Definition apply_key_share_participants (ps : Peerset.t) (share : KeyShare) :
  outcome string (Peerset.t * Z) :=
  '(parties, i) ← key_share_parties_for_peers (Peerset.peers ps) (Peerset.local_peer_id ps) share;
  Ok ({| Peerset.local_peer_id := Peerset.local_peer_id ps; Peerset.peers := Peerset.peers ps;
         Peerset.parties := parties |}, i).
End parties.

(** [participant_identifier_for_session_index]. *)
Definition participant_identifier_for_session_index (session_index : Z)
  (signing_participants : list Z) : outcome string Z :=
  position ← ok_or "participant index must be one-based"
               (if 1 <=? session_index then Some (session_index - 1) else None);
  ok_or "participant index is outside signing session"
    (signing_participants !! Z.to_nat position).

(** ** The protocol *)

Section signing.
Context `{F : Frost} `{Serde bytes}.

Variables (signing_participants : list Z) (expected : gset Ident).

(** The state of the loop that receives round 1. *)
Record round1_state : Type := {
  commitments : gmap Ident Commitments;
  received : gset Ident;
  deferred_shares : gmap Ident SigShare;
}.

Definition round1_done (s : round1_state) : bool :=
  negb (size (received s) <? length signing_participants)%nat.

(** [entry(..).or_insert(..)]. *)
Definition or_insert {A} (i : Ident) (x : A) (m : gmap Ident A) : gmap Ident A :=
  if m !! i is Some _ then m else <[i := x]> m.

Definition sender_of (req : AgentMessage) : outcome string Ident :=
  u ← participant_identifier_for_session_index (am_from req) signing_participants;
  id ← ok_or "invalid sender identifier" (ident_of u);
  if bool_decide (id ∈ expected) then Ok id else Err "unexpected participant".

Definition defer_share (id : Ident) (share : SigShare) (s : round1_state) : round1_state :=
  {| commitments := commitments s; received := received s;
     deferred_shares := or_insert id share (deferred_shares s) |}.

Definition round1_body (s : round1_state) (req : AgentMessage) : outcome string round1_state :=
  id ← sender_of req;
  payload ← ok_or "failed to decode commitments" (from_slice (T:=bytes) (am_payload req));
  if bool_decide (id ∈ received s) then
    Ok (if share_deserialize payload is Some share then defer_share id share s else s)
  else
    match commitments_deserialize payload with
    | Some comms =>
        Ok {| commitments := <[id := comms]> (commitments s);
              received := {[id]} ∪ received s; deferred_shares := deferred_shares s |}
    | None =>
        match share_deserialize payload with
        | Some share => Ok (defer_share id share s)
        | None => Err "failed to deserialize commitments"
        end
    end.

(** The state of the loop that receives round 2. *)
Record round2_state : Type := {
  shares : gmap Ident SigShare;
  received2 : gset Ident;
}.

Definition round2_done (s : round2_state) : bool :=
  negb (size (received2 s) <? length signing_participants)%nat.

(** The shares that came early. *)
Definition take_deferred (s : round2_state) (x : Ident * SigShare) : round2_state :=
  if bool_decide (x.1 ∈ expected) && negb (bool_decide (x.1 ∈ received2 s)) then
    {| shares := <[x.1 := x.2]> (shares s); received2 := {[x.1]} ∪ received2 s |}
  else s.

Definition round2_body (s : round2_state) (req : AgentMessage) : outcome string round2_state :=
  id ← sender_of req;
  if bool_decide (id ∈ received2 s) then Ok s
  else
    payload ← ok_or "failed to decode signature share" (from_slice (T:=bytes) (am_payload req));
    match share_deserialize payload with
    | Some share =>
        Ok {| shares := <[id := share]> (shares s); received2 := {[id]} ∪ received2 s |}
    | None =>
        if commitments_deserialize payload is Some _ then Ok s
        else Err "failed to deserialize signature share"
    end.
End signing.

Section run_signing.
Context `{F : Frost} `{Serde bytes}.

(** [Identifier::try_from] on every participant. *)
Definition expected_participants (signing_participants : list Z) : option (gset Ident) :=
  list_to_set <$> mapM ident_of signing_participants.

(** A broadcast, whose feedback the agent waits for. *)
Definition broadcast (body : bytes) : AgentResponse :=
  {| ar_body := body; ar_to := None; ar_sent_feedback := Some 0%nat |}.

(** The part of [run_signing] after this party's share has been sent: the shares of
    the others, and the signature. *)
Definition receive_shares (share : KeyShare) (signing_participants : list Z)
  (expected : gset Ident) (message : bytes) (comms : gmap Ident Commitments)
  (s : round2_state) : agent Signature :=
  s2 ← recv_while (round2_done signing_participants)
         (round2_body signing_participants expected) s;
  if negb (bool_decide (dom (shares s2) = expected)) then
    fail "Missing signature shares from some participants"
  else
    pkp ← try "failed to deserialize public key package"
            (public_package_of (ks_public_key_package share));
    if negb (bool_decide (dom (shares s2) ⊆ verifying_share_ids pkp)) then
      fail "Signature participant is not in the public key package"
    else
      signature ← try "failed to aggregate signature"
                    (aggregate comms message (shares s2) pkp);
      if negb (verify pkp message signature) then fail "signature verification failed"
      else
        group ← try "failed to serialize group public key" (group_key_bytes pkp);
        sig ← try "failed to serialize signature" (signature_bytes signature);
        mret {| sig_curve := ks_curve share; sig_pub_key := group; sig_signature := sig |}.

(** Between the two rounds: the commitments are those of all participants, the own share is
    made and sent, and the shares that came early are taken. *)
Definition send_share (share : KeyShare) (signing_participants : list Z) (expected : gset Ident)
  (message : bytes) (self : Ident) (nonces : Nonces) (kp : KeyPackage) (s1 : round1_state) :
  agent Signature :=
  if negb (bool_decide (dom (commitments s1) = expected)) then
    fail "Missing commitments from some participants"
  else
    sig_share ← try "failed to generate signature share"
                  (sign (commitments s1) message nonces kp);
    body ← try "failed to encode signature share" (to_vec (T:=bytes) (share_serialize sig_share));
    _ ← send "error sending signature share" (broadcast body);
    receive_shares share signing_participants expected message (commitments s1)
      (foldl (take_deferred expected)
         {| shares := {[self := sig_share]}; received2 := {[self]} |}
         (map_to_list (deferred_shares s1))).

(** [run_signing].  The number of other participants is computed for the log, and
    the subtraction panics when there is no participant at all. *)
Definition run_signing (share : KeyShare) (signing_participants : list Z) (message : bytes)
  (c : coins) : agent Signature :=
  self ← try "invalid identifier" (ident_of (ks_identifier share));
  kp ← lift (key_package_of self (ks_signing_key share) (ks_public_key share)
               (ks_group_public_key share) (ks_min_signers share));
  let '(nonces, comms) := commit kp c in
  b ← try "failed to serialize commitments" (commitments_serialize comms);
  body ← try "failed to encode commitments" (to_vec (T:=bytes) b);
  _ ← lift (u16_sub (Z.of_nat (length signing_participants)) 1);
  _ ← send "error sending commitments" (broadcast body);
  expected ← try "invalid participant identifier" (expected_participants signing_participants);
  s1 ← recv_while (round1_done signing_participants)
         (round1_body signing_participants expected)
         {| commitments := {[self := comms]}; received := {[self]}; deferred_shares := ∅ |};
  send_share share signing_participants expected message self nonces kp s1.
End run_signing.

(** ** The agent *)

Section keysign.
Context `{PeerIds} `{Serde bytes} `{Serde SignRequestPayload} `{Serde KeyShare}
  `{Serde Signature} (suite : Curve -> Frost).

(** [KeySign]. *)
Record t : Type := { path : chars }.

Definition new (p : chars) : t := {| path := p |}.

Definition protocol_id : Z := 1.

(** The part of [compute] before the protocol. *)
Definition prepare (k : t) (fs : gmap chars bytes) (ps : Peerset.t) (payload : bytes) :
  outcome string (KeyShare * list Z * bytes) :=
  request ← decode_sign_payload payload;
  share ← KeyGen.read_key_share (path k) fs (sg_wallet_id request);
  '(ps, i) ← apply_key_share_participants ps share;
  let signing_participants := (fun idx => as_u16 (idx + 1)) <$> Peerset.parties ps in
  if negb (i =? ks_identifier share) then
    Err "Current identifier does not match key share identifier"
  else Ok (share, signing_participants, sg_message request).

(** [compute]. *)
Definition compute (k : t) (fs : gmap chars bytes) (ps : Peerset.t) (payload : bytes)
  (c : forall cv : Curve, @coins (suite cv)) : agent bytes :=
  '(share, signing_participants, message) ← lift (prepare k fs ps payload);
  let F := suite (ks_curve share) in
  signature ← run_signing (F:=F) share signing_participants message (c (ks_curve share));
  try "error encoding signature" (to_vec signature).
End keysign.

(** ** The identifiers of the key generation *)

Section mapping.
Context `{PeerIdLaws}.

(** The participants of a share, as the key generation numbers them. *)
Definition numbered (index : nat) (peers : list PeerId) : list KeyShareParticipant :=
  imap (fun j p => {| kp_peer_id := peer_to_base58 p;
                      kp_identifier := Z.of_nat (index + j) + 1 |}) peers.

Lemma numbered_cons index p peers :
  numbered index (p :: peers) =
  {| kp_peer_id := peer_to_base58 p; kp_identifier := Z.of_nat index + 1 |} ::
  numbered (S index) peers.
Proof.
  unfold numbered. cbn. rewrite Nat.add_0_r. f_equal. apply imap_ext. intros j q _.
  cbn [compose]. by rewrite Nat.add_succ_r.
Qed.

Lemma read_participants_numbered max index peers ids used :
  NoDup peers -> Z.of_nat (index + length peers) <= max ->
  (forall p, p ∈ peers -> ids !! p = None) -> (forall u, u ∈ used -> u <= Z.of_nat index) ->
  exists ids', read_participants max (numbered index peers) ids used = Ok ids' /\
    (forall j p, peers !! j = Some p -> ids' !! p = Some (Z.of_nat (index + j) + 1)) /\
    (forall p, p ∉ peers -> ids' !! p = ids !! p).
Proof.
  revert index ids used. induction peers as [|p peers IH]; intros index ids used Hnd Hmax Hids Hused.
  { exists ids. cbn. naive_solver. }
  apply NoDup_cons in Hnd as [Hp Hnd]. cbn [length] in Hmax. rewrite numbered_cons.
  cbn [read_participants kp_peer_id kp_identifier]. rewrite peer_from_to_base58.
  cbn [ok_or mbind outcome_bind]. rewrite (proj2 (Z.eqb_neq _ 0)) by lia.
  rewrite (proj2 (Z.ltb_ge _ _)) by lia.
  rewrite bool_decide_eq_false_2 by (intros Hu%Hused; lia).
  rewrite bool_decide_eq_false_2 by (rewrite Hids by constructor; by intros [? ?]).
  destruct (IH (S index) (<[p := Z.of_nat index + 1]> ids) ({[Z.of_nat index + 1]} ∪ used))
    as (ids' & -> & Hin & Hout); [done|lia| | |].
  - intros q Hq. rewrite lookup_insert_ne by (intros ->; done). apply Hids. by constructor.
  - intros u [Hu%elem_of_singleton|Hu%Hused]%elem_of_union; lia.
  - exists ids'. split; [done|]. split.
    + intros [|j] q Hq; cbn in Hq.
      * injection Hq as <-. rewrite Hout, lookup_insert_eq by done. f_equal. lia.
      * rewrite (Hin j q Hq). f_equal. lia.
    + intros q Hq. apply not_elem_of_cons in Hq as [Hne Hq].
      rewrite Hout by done. by rewrite lookup_insert_ne.
Qed.

Lemma map_peers_ok identifiers peers (f : PeerId -> nat) :
  (forall p, p ∈ peers -> identifiers !! p = Some (Z.of_nat (f p) + 1)) ->
  map_peers identifiers peers = Ok ((fun p => Z.of_nat (f p)) <$> peers).
Proof.
  induction peers as [|p peers IH]; intros Hf; cbn; [done|].
  rewrite (Hf p) by constructor. cbn [ok_or mbind outcome_bind].
  rewrite u16_sub_ok by lia. cbn [mbind outcome_bind].
  rewrite IH by (intros; apply Hf; by constructor). cbn. do 2 f_equal. lia.
Qed.

Lemma parties_numbered share ps qs local (f : PeerId -> nat) :
  NoDup ps -> ps <> [] -> ks_participants share = numbered 0 ps ->
  ks_max_signers share = Z.of_nat (length ps) -> Z.of_nat (length ps) <= u16_max ->
  (forall q, q ∈ local :: qs -> ps !! f q = Some q) ->
  key_share_parties_for_peers qs local share =
    Ok ((fun q => Z.of_nat (f q)) <$> qs, Z.of_nat (f local) + 1).
Proof.
  intros Hnd Hne Hps Hmax Hlen Hf.
  destruct (read_participants_numbered (ks_max_signers share) 0 ps ∅ ∅)
    as (ids & Hread & Hin & _); [done|cbn; lia|done|set_solver|].
  assert (forall q, q ∈ local :: qs -> ids !! q = Some (Z.of_nat (f q) + 1)) as Hids.
  { intros q Hq. rewrite (Hin (f q) q) by auto. done. }
  unfold key_share_parties_for_peers. rewrite Hps.
  destruct ps as [|p ps]; [done|]. rewrite numbered_cons in Hread |- *.
  rewrite Hread. cbn [mbind outcome_bind].
  rewrite (map_peers_ok _ _ f) by (intros; apply Hids; by constructor).
  cbn [mbind outcome_bind]. rewrite (Hids local) by constructor. done.
Qed.

(** The numbers of the parties of the session. *)
Lemma session_numbers ps (qs : list PeerId) (f : PeerId -> nat) :
  Z.of_nat (length ps) <= u16_max -> (forall q, q ∈ qs -> ps !! f q = Some q) ->
  (fun idx => as_u16 (idx + 1)) <$> ((fun q => Z.of_nat (f q)) <$> qs) =
  (fun q => Z.of_nat (f q) + 1) <$> qs.
Proof.
  intros Hlen Hf. rewrite <- list_fmap_compose. apply list_fmap_ext. intros j q Hq. cbn.
  apply as_u16_small. apply list_elem_of_lookup_2, Hf, lookup_lt_Some in Hq. lia.
Qed.

(** C18: signing uses the identifiers of the key generation, whatever subset of
    its peers takes part: with a share whose participants are the numbered
    peers [ps] of the key generation, every peer of the session gets the number
    it had in [ps], the local identifier is its own number, and a message of
    the [j]-th party of the session is attributed to the identifier of the
    [j]-th peer. *)
Theorem signing_identifiers_match share ps qs local (f : PeerId -> nat) :
  NoDup ps -> ps <> [] -> ks_participants share = numbered 0 ps ->
  ks_max_signers share = Z.of_nat (length ps) -> Z.of_nat (length ps) <= u16_max ->
  (forall q, q ∈ local :: qs -> ps !! f q = Some q) ->
  exists parties,
    key_share_parties_for_peers qs local share = Ok (parties, Z.of_nat (f local) + 1) /\
    parties = (fun q => Z.of_nat (f q)) <$> qs /\
    forall j q, qs !! j = Some q ->
      participant_identifier_for_session_index (Z.of_nat j + 1)
        ((fun idx => as_u16 (idx + 1)) <$> parties) = Ok (Z.of_nat (f q) + 1).
Proof.
  intros Hnd Hne Hps Hmax Hlen Hf. exists ((fun q => Z.of_nat (f q)) <$> qs).
  split; [by apply (parties_numbered share ps)|split; [done|]].
  intros j q Hq. unfold participant_identifier_for_session_index.
  rewrite (proj2 (Z.leb_le _ _)) by lia. cbn [ok_or mbind outcome_bind].
  replace (Z.to_nat (Z.of_nat j + 1 - 1)) with j by lia.
  rewrite (session_numbers ps) by (done || intros; apply Hf; by constructor).
  by rewrite list_lookup_fmap, Hq.
Qed.
End mapping.

(** ** What a signature stands for *)

Section sound.
Context `{F : Frost} `{Serde bytes}.

(** C17: a signature is only returned after it has been verified against the
    message and the group key of the share's public key package; it was
    aggregated from the commitments and the shares of exactly the signing
    participants, all of them parties of the key generation. *)
Theorem signing_sound share participants message c ch inbox sig inbox' out :
  run_signing share participants message c ch inbox [] = Done sig inbox' out ->
  exists expected comms sig_shares pkp signature,
    expected_participants participants = Some expected /\
    dom comms = expected /\ dom sig_shares = expected /\
    expected ⊆ verifying_share_ids pkp /\
    public_package_of (ks_public_key_package share) = Some pkp /\
    aggregate comms message sig_shares pkp = Some signature /\
    verify pkp message signature = true /\
    sig_curve sig = ks_curve share /\ Some (sig_pub_key sig) = group_key_bytes pkp /\
    Some (sig_signature sig) = signature_bytes signature /\
    length out = 2%nat /\ Forall (fun m => ar_to m = None) out.
Proof.
  intros Hr. unfold run_signing, send_share, receive_shares in Hr. inv_run. destruct (commit a0 c) as [nonces comms].
  inv_run. case_match eqn:Hd1; [by inv_run|]. inv_run.
  case_match eqn:Hd2; [by inv_run|]. inv_run.
  case_match eqn:Hd3; [by inv_run|]. inv_run. case_match eqn:Hv; [by inv_run|]. inv_run.
  repeat match goal with
  | Hb : negb (bool_decide _) = false |- _ =>
      apply negb_false_iff, bool_decide_eq_true in Hb
  | Hb : negb _ = false |- _ => apply negb_false_iff in Hb
  | Hl : recv_while _ _ _ _ _ _ = Done _ _ _ |- _ =>
      unfold recv_while in Hl;
      apply (recv_loop_inv _ _ (fun _ => True)) in Hl as (_ & _ & ->); [|done..]
  end.
  do 5 eexists. split; [eassumption|]. split; [exact Hd1|]. split; [exact Hd2|].
  split; [by rewrite <- Hd2|]. split; [done|]. split; [done|]. split; [done|].
  repeat (split; [done|]). by repeat constructor.
Qed.
End sound.

(** ** Signing completes *)

Section progress.
Context `{F : Frost} `{Serde bytes}.

Variables (participants : list Z) (expected : gset Ident).

(** The sender and the content of a message of round 1, and of round 2. *)
Definition commitment_of (m : AgentMessage) : option (Ident * Commitments) :=
  match sender_of participants expected m with
  | Ok id =>
      b ← from_slice (T:=bytes) (am_payload m);
      x ← commitments_deserialize b;
      mret (id, x)
  | _ => None
  end.

Definition share_of (m : AgentMessage) : option (Ident * SigShare) :=
  match sender_of participants expected m with
  | Ok id =>
      b ← from_slice (T:=bytes) (am_payload m);
      x ← share_deserialize b;
      mret (id, x)
  | _ => None
  end.

(** Commitments and shares, told apart by their encodings. *)
Definition is_commitment (m : AgentMessage) : Prop := is_Some (commitment_of m).
#[global] Instance is_commitment_dec m : Decision (is_commitment m).
Proof. unfold is_commitment. apply _. Defined.

Lemma commitment_body s m id x :
  commitment_of m = Some (id, x) -> id ∉ received s ->
  round1_body participants expected s m =
  Ok {| commitments := <[id := x]> (commitments s); received := {[id]} ∪ received s;
        deferred_shares := deferred_shares s |}.
Proof.
  intros Hm Hid. unfold commitment_of in Hm. unfold round1_body.
  destruct (sender_of participants expected m) as [id'| |]; [|done..].
  apply bind_Some in Hm as (b & Hb & Hm). apply bind_Some in Hm as (x' & Hx & [= -> ->]).
  cbn [mbind outcome_bind]. rewrite Hb. cbn [ok_or mbind outcome_bind].
  by rewrite bool_decide_eq_false_2, Hx by done.
Qed.

Lemma early_share_body s m id x :
  share_of m = Some (id, x) -> ~ is_commitment m ->
  round1_body participants expected s m = Ok (defer_share id x s).
Proof.
  intros Hm Hc. unfold share_of in Hm. unfold is_commitment, commitment_of in Hc. unfold round1_body.
  destruct (sender_of participants expected m) as [id'| |]; [|done..].
  apply bind_Some in Hm as (b & Hb & Hm). apply bind_Some in Hm as (x' & Hx & [= -> ->]).
  cbn [mbind outcome_bind]. rewrite Hb. cbn [ok_or mbind outcome_bind].
  rewrite Hb in Hc. cbn in Hc. rewrite Hx.
  destruct (commitments_deserialize b); [exfalso; apply Hc; by eexists|].
  by case_bool_decide.
Qed.

(** Round 1 ends with the last of the missing commitments, wherever early shares are
    among them; those are put aside, the first of every sender. *)
Lemma sign_round1_loop s inbox ps qs ch out :
  mapM commitment_of (filter is_commitment inbox) = Some ps -> NoDup ps.*1 ->
  mapM share_of (filter (fun m => ~ is_commitment m) inbox) = Some qs -> NoDup qs.*1 ->
  (forall id, id ∈ ps.*1 -> id ∉ received s) -> dom (commitments s) = received s ->
  (forall id, id ∈ qs.*1 -> deferred_shares s !! id = None) ->
  (size (received s) + length ps)%nat = length participants ->
  exists s' rest qs1 qs2,
    recv_loop (round1_done participants) (round1_body participants expected) s inbox ch out =
      Done s' rest out /\
    commitments s' = KeyGen.insert_all (commitments s) ps /\
    deferred_shares s' = KeyGen.insert_all (deferred_shares s) qs1 /\
    mapM share_of rest = Some qs2 /\ qs1 ++ qs2 = qs.
Proof.
  revert s ps qs. induction inbox as [|m inbox IH]; intros s ps qs Hps Hnd Hqs Hndq Hnew Hdom Hdef Hsz;
    cbn [recv_loop]; destruct (round1_done participants s) eqn:Hd.
  - injection Hps as <-. injection Hqs as <-. by exists s, [], [], [].
  - injection Hps as <-. unfold round1_done in Hd. apply negb_false_iff, Nat.ltb_lt in Hd.
    cbn in Hsz. lia.
  - unfold round1_done in Hd. apply negb_true_iff, Nat.ltb_ge in Hd.
    assert (ps = []) as -> by (destruct ps; [done|cbn in Hsz; lia]).
    exists s, (m :: inbox), [], qs. split; [done|]. split; [done|]. split; [done|].
    split; [|done]. rewrite <- Hqs. f_equal. apply mapM_Some_1, Forall2_nil_inv_r in Hps.
    symmetry. by apply filter_rest.
  - rewrite filter_cons in Hps, Hqs. destruct (decide (is_commitment m)) as [Hc|Hc].
    + rewrite decide_False in Hqs by tauto. cbn [mapM] in Hps.
      apply bind_Some in Hps as ([id x] & Hm & (ps' & Hps & [= <-])%bind_Some).
      cbn in Hnd. apply NoDup_cons in Hnd as [Hid Hnd].
      assert (id ∉ received s) as Hns by (apply Hnew; constructor).
      rewrite (commitment_body s m id x) by done.
      edestruct IH as (s' & rest & qs1 & qs2 & Hl & Hrest); [exact Hps|done|exact Hqs|done| | | | |];
        [| | | |exists s', rest, qs1, qs2; split; [exact Hl|exact Hrest]]; cbn.
      * intros id' Hin. specialize (Hnew id'). cbn in *. set_solver.
      * by rewrite dom_insert_L, Hdom.
      * done.
      * rewrite size_union, size_singleton by set_solver. cbn in Hsz. lia.
    + rewrite decide_True in Hqs by done. cbn [mapM] in Hqs.
      apply bind_Some in Hqs as ([id x] & Hm & (qs' & Hqs & [= <-])%bind_Some).
      cbn in Hndq. apply NoDup_cons in Hndq as [Hid Hndq].
      rewrite (early_share_body s m id x) by done.
      assert (deferred_shares (defer_share id x s) = <[id := x]> (deferred_shares s)) as Hds.
      { unfold defer_share, or_insert. cbn. rewrite Hdef by constructor. done. }
      edestruct (IH (defer_share id x s)) as (s' & rest & qs1 & qs2 & Hl & Hc' & Hd' & Hr & Ha);
        [exact Hps|done|exact Hqs|done|done|done| |done|].
      * intros id' Hin. rewrite Hds, lookup_insert_ne by (intros ->; done). apply Hdef. by constructor.
      * exists s', rest, ((id, x) :: qs1), qs2. rewrite Hd', Hds. cbn. by rewrite <- Ha.
Qed.

(** The shares put aside count as received. *)
Lemma take_deferred_all s l :
  NoDup l.*1 -> (forall id, id ∈ l.*1 -> id ∈ expected /\ id ∉ received2 s) ->
  foldl (take_deferred expected) s l =
  {| shares := KeyGen.insert_all (shares s) l; received2 := received2 s ∪ list_to_set l.*1 |}.
Proof.
  revert s. induction l as [|[id x] l IH]; intros s Hnd Hin; cbn.
  { rewrite (right_id_L ∅ (∪)). by destruct s. }
  cbn in Hnd. apply NoDup_cons in Hnd as [Hid Hnd]. destruct (Hin id) as [He Hr]; [constructor|].
  unfold take_deferred at 2. cbn [fst snd]. rewrite bool_decide_eq_true_2 by done.
  rewrite bool_decide_eq_false_2 by done. cbn [negb andb]. rewrite IH; [|done|].
  - cbn. f_equal. set_solver.
  - intros id' Hid'. destruct (Hin id') as [? ?]; [by constructor|]. split; [done|]. cbn. set_solver.
Qed.

Lemma sign_round2_loop s ss ps ch out :
  mapM share_of ss = Some ps -> NoDup ps.*1 ->
  (forall id, id ∈ ps.*1 -> id ∉ received2 s) ->
  (size (received2 s) + length ps)%nat = length participants ->
  exists s', recv_loop (round2_done participants) (round2_body participants expected) s ss ch out =
      Done s' [] out /\
    shares s' = KeyGen.insert_all (shares s) ps.
Proof.
  revert s ps. induction ss as [|m ss IH]; intros s ps Hps Hnd Hnew Hsz.
  { cbn in Hps. injection Hps as <-. exists s. cbn. unfold round2_done.
    rewrite (proj2 (Nat.ltb_ge _ _)) by (cbn in Hsz; lia). done. }
  cbn [mapM] in Hps. apply bind_Some in Hps as ([id x] & Hm & Hps).
  apply bind_Some in Hps as (ps' & Hps & [= <-]). cbn in Hnd.
  apply NoDup_cons in Hnd as [Hid Hnd]. cbn [recv_loop].
  assert (round2_done participants s = false) as ->.
  { unfold round2_done. apply negb_false_iff, Nat.ltb_lt. cbn in Hsz. lia. }
  unfold share_of in Hm. destruct (sender_of participants expected m) as [id'| |] eqn:Hs; [|done..].
  apply bind_Some in Hm as (b & Hb & Hm). apply bind_Some in Hm as (x' & Hx & [= -> ->]).
  assert (id ∉ received2 s) as Hns by (apply Hnew; constructor).
  unfold round2_body at 1. rewrite Hs. cbn [mbind outcome_bind].
  rewrite bool_decide_eq_false_2, Hb by done. cbn [ok_or mbind outcome_bind]. rewrite Hx.
  destruct (IH {| shares := <[id := x]> (shares s); received2 := {[id]} ∪ received2 s |} ps')
    as (s' & Hl & Hc); [done|done| | |].
  - intros id' Hin. specialize (Hnew id'). cbn in *. set_solver.
  - cbn [received2]. rewrite size_union, size_singleton by set_solver. cbn in Hsz. lia.
  - exists s'. done.
Qed.

Lemma insert_all_dom {A} (m : gmap Ident A) ps :
  dom (KeyGen.insert_all m ps) = dom m ∪ list_to_set ps.*1.
Proof.
  unfold KeyGen.insert_all. revert m. induction ps as [|[id x] ps IH]; intros m; cbn; [set_solver|].
  rewrite IH, dom_insert_L. set_solver.
Qed.

(** The own share, and the shares that came early. *)
Definition shares_at_hand (self : Ident) (sig_share : SigShare) (qs : list (Ident * SigShare)) :
  round2_state :=
  {| shares := KeyGen.insert_all {[self := sig_share]} qs;
     received2 := {[self]} ∪ list_to_set qs.*1 |}.

(** A signing session that gets the commitments of all others goes on to round 2,
    wherever early shares are among them; it has sent all it has to send. *)
Lemma sign_round1 share message c ch inbox self kp nonces comms b b' ps qs sig_share body2 :
  out_open ch = true -> ident_of (ks_identifier share) = Some self ->
  key_package_of self (ks_signing_key share) (ks_public_key share)
    (ks_group_public_key share) (ks_min_signers share) = Ok kp ->
  commit kp c = (nonces, comms) -> commitments_serialize comms = Some b ->
  to_vec (T:=bytes) b = Some b' -> expected_participants participants = Some expected ->
  mapM commitment_of (filter is_commitment inbox) = Some ps -> NoDup ps.*1 ->
  mapM share_of (filter (fun m => ~ is_commitment m) inbox) = Some qs -> NoDup qs.*1 ->
  self ∉ ps.*1 -> (forall id, id ∈ qs.*1 -> id ∈ expected /\ id <> self) ->
  expected = {[self]} ∪ list_to_set ps.*1 -> S (length ps) = length participants ->
  sign (KeyGen.insert_all {[self := comms]} ps) message nonces kp = Some sig_share ->
  to_vec (T:=bytes) (share_serialize sig_share) = Some body2 ->
  exists qs1 qs2 qs1' rest, qs1 ++ qs2 = qs /\ mapM share_of rest = Some qs2 /\ qs1' ≡ₚ qs1 /\
    run_signing share participants message c ch inbox [] =
    receive_shares share participants expected message (KeyGen.insert_all {[self := comms]} ps)
      (shares_at_hand self sig_share qs1') ch rest [broadcast b'; broadcast body2].
Proof.
  intros Hopen Hself Hkp Hcommit Hser Henc Hexp Hps Hnd Hqs Hndq Hn1 Hn2 He Hl Hsign Hbody2.
  unfold run_signing, send_share, mbind, agent_bind, try, lift, send, recv_while, fail.
  rewrite Hself. cbn [ok_or]. rewrite Hkp, Hcommit, Hser. cbn [ok_or]. rewrite Henc.
  cbn [ok_or]. rewrite u16_sub_ok by lia. rewrite Hopen, Hexp. cbn [ok_or].
  edestruct (sign_round1_loop {| commitments := {[self := comms]}; received := {[self]};
    deferred_shares := ∅ |} inbox ps qs ch)
    as (s1 & rest & qs1 & qs2 & -> & Hc1 & Hdf1 & Hr & Hq);
    [done|done|done|done|set_solver|cbn; by rewrite dom_singleton_L| | |].
  { intros id _. apply lookup_empty. }
  { cbn [received]. rewrite size_singleton. lia. }
  cbn [commitments deferred_shares] in Hc1, Hdf1. rewrite Hc1.
  rewrite insert_all_dom, dom_singleton_L, <- He, bool_decide_eq_true_2 by done. cbn [negb].
  rewrite Hsign. cbn [ok_or]. rewrite Hbody2. cbn [ok_or]. cbv beta iota. rewrite Hopen.
  rewrite <- Hq, fmap_app in Hndq. apply NoDup_app in Hndq as (Hnd1 & _ & _).
  destruct (KeyGen.insert_all_perm qs1 qs1 Hnd1 (reflexivity _)) as [_ Hlm].
  assert (map_to_list (deferred_shares s1) ≡ₚ qs1) as Hperm
    by (rewrite Hdf1, Hlm; by apply map_to_list_to_map).
  exists qs1, qs2, (map_to_list (deferred_shares s1)), rest. split; [done|]. split; [done|].
  split; [done|]. rewrite take_deferred_all; [done|by rewrite Hperm|].
  intros id Hid. rewrite Hperm in Hid. destruct (Hn2 id) as [? ?]; [|split; [done|cbn; set_solver]].
  rewrite <- Hq, fmap_app. apply elem_of_app. by left.
Qed.

(** Round 2 ends with the last of the missing shares. *)
Lemma receive_shares_done share message comms self sig_share qs1 rest qs2 pkp signature group sig ch
    out :
  mapM share_of rest = Some qs2 -> NoDup (qs1 ++ qs2).*1 -> self ∉ (qs1 ++ qs2).*1 ->
  expected = {[self]} ∪ list_to_set (qs1 ++ qs2).*1 ->
  S (length (qs1 ++ qs2)) = length participants ->
  public_package_of (ks_public_key_package share) = Some pkp ->
  expected ⊆ verifying_share_ids pkp ->
  aggregate comms message (KeyGen.insert_all {[self := sig_share]} (qs1 ++ qs2)) pkp =
    Some signature ->
  verify pkp message signature = true -> group_key_bytes pkp = Some group ->
  signature_bytes signature = Some sig ->
  receive_shares share participants expected message comms (shares_at_hand self sig_share qs1)
    ch rest out =
  Done {| sig_curve := ks_curve share; sig_pub_key := group; sig_signature := sig |} [] out.
Proof.
  intros Hrest Hnd Hself He Hl Hpkp Hids Hagg Hver Hgroup Hsig.
  unfold receive_shares, mbind, agent_bind, try, lift, recv_while, fail, shares_at_hand.
  rewrite fmap_app in Hnd, Hself. pose proof Hnd as (Hnd1 & Hdis & Hnd2)%NoDup_app.
  rewrite length_app in Hl.
  edestruct (sign_round2_loop {| shares := KeyGen.insert_all {[self := sig_share]} qs1;
    received2 := {[self]} ∪ list_to_set qs1.*1 |} rest qs2 ch) as (s2 & -> & Hs2); [done|done| | |].
  { intros id Hid. cbn. apply not_elem_of_union. rewrite elem_of_singleton, elem_of_list_to_set.
    split; [intros ->; set_solver|]. intros Hin. by apply (Hdis id). }
  { cbn [received2]. rewrite size_union, size_singleton, size_list_to_set, length_fmap by set_solver.
    lia. }
  cbn [shares] in Hs2. unfold KeyGen.insert_all in *. rewrite <- foldl_app in Hs2.
  fold (KeyGen.insert_all {[self := sig_share]} (qs1 ++ qs2)) in Hs2, Hagg.
  rewrite Hs2, insert_all_dom, dom_singleton_L, <- He.
  rewrite bool_decide_eq_true_2 by done. cbn [negb]. rewrite Hpkp. cbn [ok_or].
  rewrite bool_decide_eq_true_2 by done. cbn [negb]. rewrite Hagg. cbn [ok_or].
  rewrite Hver. cbn [negb]. rewrite Hgroup. cbn [ok_or]. rewrite Hsig. done.
Qed.
End progress.
End KeySign.
