(* ===== verification/Reference.v ===== *)
(** * The protocols with everything in one place

    FROST as its paper runs it: every party's computations, and what they pass to
    each other handed over at once.  There are no messages, no encodings and no
    order.  The sessions of agents ([KeyGenSession], [KeySignSession]) are proved to
    compute the same; that the reference computations succeed for honest parties is
    the correctness of FROST itself, the class [FrostCorrect]. *)

From Stdlib Require Import ZArith Lia Strings.Byte.
From stdpp Require Import base gmap strings numbers list.
From S2P Require Import Prelude Frost.

Local Open Scope Z_scope.

Module Reference.
Section reference.
Context `{F : Frost}.

(** What the parties [us] contribute, under their identifiers. *)
Definition contribution {A} (f : Z -> option A) (u : Z) : option (Ident * A) :=
  id ← ident_of u; x ← f u; mret (id, x).

Definition contributions {A} (f : Z -> option A) (us : list Z) : list (Ident * A) :=
  omap (contribution f) us.

Definition by_ident {A} (f : Z -> option A) (us : list Z) : gmap Ident A :=
  list_to_map (contributions f us).

(** ** Key generation *)

Section dkg.
Variables (n t : Z) (c : Z -> coins).

Definition others (u : Z) : list Z := filter (fun v => v <> u) (seqZ 1 n).

(** Round 1 of party [u], with its secret and its package. *)
Definition first (u : Z) : option (Round1Secret * Round1Package) :=
  self ← ident_of u; part1 self n t (c u).

Definition package1 (u : Z) : option Round1Package := snd <$> first u.

(** Round 2, from the packages of the others. *)
Definition second (u : Z) : option (Round2Secret * list (Ident * Round2Package)) :=
  x ← first u; part2 x.1 (by_ident package1 (others u)).

(** The package of party [v] for party [u]. *)
Definition package2 (u v : Z) : option Round2Package :=
  y ← second v; id ← ident_of u; (list_to_map y.2 : gmap Ident Round2Package) !! id.

(** The key package of party [u], and the public key package. *)
Definition dkg (u : Z) : option (KeyPackage * PublicKeyPackage) :=
  y ← second u; part3 y.1 (by_ident package1 (others u)) (by_ident (package2 u) (others u)).
End dkg.

(** ** Signing *)

Section sign.
Variables (kp : Z -> KeyPackage) (pkp : PublicKeyPackage) (d : Z -> coins).
Variables (us : list Z) (message : bytes).

Definition commitment (u : Z) : Commitments := (commit (kp u) (d u)).2.

Definition commitments : gmap Ident Commitments := by_ident (fun u => Some (commitment u)) us.

Definition share (u : Z) : option SigShare :=
  sign commitments message (commit (kp u) (d u)).1 (kp u).

Definition signature : option SignatureT :=
  aggregate commitments message (by_ident share us) pkp.
End sign.
End reference.
End Reference.

(** The documented behaviour of [frost-core] the sessions rely on: [part2] makes a
    package for every party whose package it is given; packages, commitments and
    signatures can be serialised, and a signature share is not the serialisation of
    commitments (the two have different lengths); a key package can be put together from its
    serialised parts; and the two protocols are correct: honest parties all get a key
    package with the same public key package, and any [t] of them or more a
    signature that verifies. *)
Class FrostCorrect `(F : Frost) : Prop := {
  part2_recipients s r1 s2 pkgs :
    part2 s r1 = Some (s2, pkgs) -> pkgs.*1 ≡ₚ elements (dom r1);
  round1_encodes i n t c s p : part1 i n t c = Some (s, p) -> is_Some (round1_serialize p);
  round2_encodes s r1 s2 pkgs id p :
    part2 s r1 = Some (s2, pkgs) -> (id, p) ∈ pkgs -> is_Some (round2_serialize p);
  commitments_encode kp c : is_Some (commitments_serialize (commit kp c).2);
  commitments_roundtrip x b : commitments_serialize x = Some b -> commitments_deserialize b = Some x;
  share_roundtrip s : share_deserialize (share_serialize s) = Some s;
  share_no_commitments s : commitments_deserialize (share_serialize s) = None;
  dkg_correct n t c : 2 <= t <= n -> n <= u16_max ->
    exists kp pkp, (forall u, 1 <= u <= n -> Reference.dkg n t c u = Some (kp u, pkp)) /\
      is_Some (group_key_bytes pkp) /\
      (exists b, public_package_bytes pkp = Some b /\ public_package_of b = Some pkp) /\
      (forall u id, 1 <= u <= n -> ident_of u = Some id -> id ∈ verifying_share_ids pkp);
  dkg_package n t c u kp pkp group id : Reference.dkg n t c u = Some (kp, pkp) ->
    ident_of u = Some id -> group_key_bytes pkp = Some group ->
    exists vs, verifying_share_bytes kp = Some vs /\
      key_package_of id (signing_share_bytes kp) vs group t = Ok kp;
  sign_correct n t c kp pkp us d m :
    (forall u, 1 <= u <= n -> Reference.dkg n t c u = Some (kp u, pkp)) ->
    NoDup us -> (forall u, u ∈ us -> 1 <= u <= n) -> t <= Z.of_nat (length us) ->
    (forall u, u ∈ us -> is_Some (Reference.share kp d us m u)) /\
    exists sig, Reference.signature kp pkp d us m = Some sig /\ verify pkp m sig = true /\
      is_Some (signature_bytes sig);
}.

(** ** Contributions *)

Module Contributions.
Section contributions.
Context `{F : Frost} `{!FrostLaws F}.
Import Reference.

Lemma elem_of_others n u v : v ∈ others n u <-> 1 <= v <= n /\ v <> u.
Proof. unfold others. rewrite list_elem_of_filter, elem_of_seqZ. lia. Qed.

Lemma others_nodup n u : NoDup (others n u).
Proof. apply NoDup_filter, NoDup_seqZ. Qed.

Lemma seqZ_others n u : 1 <= u <= n -> seqZ 1 n ≡ₚ u :: others n u.
Proof.
  intros Hu. apply NoDup_Permutation; [apply NoDup_seqZ| |].
  - constructor; [|apply others_nodup]. rewrite elem_of_others. naive_solver.
  - intros v. rewrite elem_of_cons, elem_of_others, elem_of_seqZ.
    destruct (decide (v = u)); naive_solver lia.
Qed.

Lemma length_others n u : 1 <= u <= n -> Z.of_nat (length (others n u)) = n - 1.
Proof.
  intros Hu. pose proof (Permutation_length (seqZ_others n u Hu)) as Hl.
  rewrite length_seqZ in Hl. cbn in Hl. lia.
Qed.

Section total.
Context {A : Type} (f : Z -> option A) (us : list Z).
Hypothesis Hrange : forall u, u ∈ us -> 1 <= u <= u16_max.
Hypothesis Hf : forall u, u ∈ us -> is_Some (f u).

Lemma contribution_some u : u ∈ us -> is_Some (contribution f u).
Proof.
  intros Hu. unfold contribution. destruct (ident_of_some u (Hrange u Hu)) as [id ->].
  destruct (Hf u Hu) as [x ->]. by eexists.
Qed.

Lemma mapM_contributions : mapM (contribution f) us = Some (contributions f us).
Proof.
  unfold contributions. pose proof contribution_some as Hs. clear Hrange Hf.
  induction us as [|u l IH]; [done|]. cbn. destruct (Hs u ltac:(constructor)) as [x ->]. cbn.
  rewrite IH by (intros; apply Hs; by constructor). done.
Qed.

Lemma length_contributions : length (contributions f us) = length us.
Proof. symmetry. eapply length_mapM, mapM_contributions. Qed.

Lemma elem_of_contributions id :
  id ∈ (contributions f us).*1 <-> exists u, u ∈ us /\ ident_of u = Some id.
Proof.
  rewrite list_elem_of_fmap. split.
  - intros ([id' x] & -> & (u & Hu & Hc)%list_elem_of_omap). exists u. split; [done|].
    unfold contribution in Hc. apply bind_Some in Hc as (i & Hi & Hc).
    apply bind_Some in Hc as (y & _ & [= <- _]). done.
  - intros (u & Hu & Hid). destruct (Hf u Hu) as [x Hx]. exists (id, x). split; [done|].
    apply list_elem_of_omap. exists u. split; [done|]. unfold contribution. by rewrite Hid, Hx.
Qed.

Lemma contributions_nodup : NoDup us -> NoDup (contributions f us).*1.
Proof.
  intros Hnd. unfold contributions. clear Hrange Hf. induction Hnd as [|u l Hu Hnd IH]; [constructor|].
  cbn. destruct (contribution f u) as [[id x]|] eqn:Hc; [|done]. cbn. constructor; [|done].
  intros ([id' y] & Heq & (v & Hv & Hc')%list_elem_of_omap)%list_elem_of_fmap. cbn in Heq. subst id'.
  unfold contribution in *.
  apply bind_Some in Hc as (i & Hi & Hc). apply bind_Some in Hc as (? & _ & [= -> ->]).
  apply bind_Some in Hc' as (i' & Hi' & Hc'). apply bind_Some in Hc' as (? & _ & [= -> ->]).
  by rewrite (ident_of_inj u v id) in Hu.
Qed.

Lemma dom_by_ident id : id ∈ dom (by_ident f us) <-> exists u, u ∈ us /\ ident_of u = Some id.
Proof.
  unfold by_ident. rewrite dom_list_to_map_L, elem_of_list_to_set. apply elem_of_contributions.
Qed.
End total.
End contributions.
End Contributions.
