(* ===== verification/KeyGenSession.v ===== *)
(** * Key generation among all parties

    The agents of [n] honest parties run [KeyGen.run_dkg] against each other in a
    session ([Session]): whatever the order and the delays of the deliveries, they
    compute what the reference key generation does ([Reference.dkg]). *)

From Stdlib Require Import ZArith Lia Strings.Byte.
From stdpp Require Import base gmap strings numbers list relations.
From S2P Require Import Prelude Wire Messages Peerset Room Echo Storage Execution Wallet Frost.
From S2P Require Import Session System KeyGen Reference.

Local Open Scope Z_scope.

Module KeyGenSession.

(** ** The agent is streaming *)

Section streaming.
Context `{F : Frost} `{Serde bytes}.

#[global] Instance streaming_send_round2 max pkgs : Streaming (KeyGen.send_round2 max pkgs).
Proof. induction pkgs as [|[rid pkg] pkgs IH]; cbn [KeyGen.send_round2]; streaming. Qed.

#[global] Instance streaming_dkg identifier t max coins : Streaming (KeyGen.run_dkg identifier t max coins).
Proof. unfold KeyGen.run_dkg. streaming. Qed.
End streaming.

#[global] Instance streaming_generate `{Serde bytes} F identifier t max coins :
  Streaming (KeyGen.generate F identifier t max coins).
Proof. unfold KeyGen.generate. streaming. Qed.

(** What a node sends only grows when it is given more. *)
Lemma compute_grows `{PeerIds} `{Serde bytes} `{Serde KeygenRequestPayload} `{Serde KeyShare}
    `{Serde PublicKey} suite k ps payload c fs o inbox rest :
  out_of (KeyGen.compute suite k ps payload c fs o Session.open inbox).2 `prefix_of`
  out_of (KeyGen.compute suite k ps payload c fs o Session.open (inbox ++ rest)).2.
Proof.
  unfold KeyGen.compute. destruct KeyGen.prepare as [[[i max] request]| |]; [|done..].
  set (m := KeyGen.generate _ _ _ _ _).
  pose proof (streaming_continues (m := m) inbox rest []) as Hc.
  destruct (m Session.open inbox []) as [[[[sk vs] group] pkg] left out|e out|out|why out];
    cbn [continues] in Hc; [rewrite Hc|by rewrite Hc| |by rewrite Hc].
  - destruct KeyGen.key_share_participants; [|done..]. destruct KeyGen.save_key_share.
    cbn [snd]. apply streaming_out.
  - etrans; [exact Hc|].
    destruct (m Session.open (inbox ++ rest) []) as [[[[sk vs] group] pkg] left out'| | |]; [|done..].
    destruct KeyGen.key_share_participants; [|done..]. destruct KeyGen.save_key_share.
    cbn [snd]. apply streaming_grows.
Qed.

Section session.
Context `{F : Frost} `{!FrostLaws F} `{!FrostCorrect F} `{Hserde : SerdeLaws bytes}.
Hypothesis encodes : forall b, is_Some (to_vec (T:=bytes) b).

(** ** Encodings *)

(** The number under which an identifier is known. *)
Lemma id_to_u16_lookup n u id :
  1 <= u <= n -> ident_of u = Some id -> KeyGen.id_to_u16 n !! id = Some u.
Proof.
  intros Hu Hid. unfold KeyGen.id_to_u16.
  assert (u ∈ seqZ 1 n) as Hin by (apply elem_of_seqZ; lia). revert Hin.
  set (f := fun (m : gmap Ident Z) v =>
    match ident_of v with Some i => <[i := v]> m | None => m end).
  assert (forall l m, u ∉ l -> m !! id = Some u -> foldl f m l !! id = Some u) as Hkeep.
  { induction l as [|v l IH]; intros m; [done|]. intros [Hne Hl]%not_elem_of_cons Hm. cbn.
    apply IH; [done|]. unfold f. destruct (ident_of v) as [i|] eqn:Hi; [|done].
    rewrite lookup_insert_ne; [done|]. intros ->. apply Hne. by eapply ident_of_inj. }
  pose proof (NoDup_seqZ 1 n) as Hnd. revert Hnd. generalize (∅ : gmap Ident Z) as m.
  induction (seqZ 1 n) as [|v l IH]; intros m; [by intros _ ?%elem_of_nil|].
  intros [Hv Hnd]%NoDup_cons [<-|Hin]%elem_of_cons; cbn; [|by apply IH].
  apply Hkeep; [done|]. unfold f. rewrite Hid. by rewrite lookup_insert_eq.
Qed.

Lemma id_to_u16_inv n u id :
  KeyGen.id_to_u16 n !! id = Some u -> 1 <= u <= n /\ ident_of u = Some id.
Proof.
  unfold KeyGen.id_to_u16.
  assert (forall v, v ∈ seqZ 1 n -> 1 <= v <= n) as Hl by (intros v ?%elem_of_seqZ; lia).
  assert (forall u, (∅ : gmap Ident Z) !! id = Some u -> 1 <= u <= n /\ ident_of u = Some id) as Hm
    by done.
  revert Hl Hm. generalize (∅ : gmap Ident Z) as m.
  induction (seqZ 1 n) as [|v l IH]; intros m Hl Hm; cbn; [apply Hm|].
  apply IH; [intros w Hw; apply Hl; by constructor|]. intros u'.
  destruct (ident_of v) as [i|] eqn:Hi; [|apply Hm]. destruct (decide (i = id)) as [->|Hne].
  - rewrite lookup_insert_eq. intros [= <-]. split; [|done]. apply Hl. by constructor.
  - rewrite lookup_insert_ne by done. apply Hm.
Qed.

(** What a party writes of a package. *)
Definition encoded (b : option bytes) : bytes := default [] (b' ← b; to_vec (T:=bytes) b').

Lemma from_encoded b : from_slice (T:=bytes) (encoded (Some b)) = Some b.
Proof.
  unfold encoded. cbn. destruct (encodes b) as [x Hx]. rewrite Hx. cbn. by apply from_to_vec.
Qed.

#[local] Arguments encoded : simpl never.

(** ** One honest party *)

Variables (n : nat) (t : Z) (c : Z -> coins).
Abbreviation N := (Z.of_nat n).

Definition number (i : nat) : Z := Z.of_nat i + 1.

Definition body1 (v : Z) : bytes := encoded (p ← Reference.package1 N t c v; round1_serialize p).

Definition body2 (u v : Z) : bytes := encoded (p ← Reference.package2 N t c u v; round2_serialize p).

(** What party [i] sends. *)
Definition script (i : nat) : list AgentResponse :=
  KeyGen.outgoing None (body1 (number i)) ::
  default [] (y ← Reference.second N t c (number i); mapM (KeyGen.round2_message N) y.2).

Definition machine (i : nat) (inbox : list AgentMessage) : run (KeyPackage * PublicKeyPackage) :=
  KeyGen.run_dkg (number i) t N (c (number i)) Session.open inbox [].

Definition message1 (v : Z) : AgentMessage :=
  {| am_from := v; am_payload := body1 v; am_to := None |}.

Definition message2 (u v : Z) : AgentMessage :=
  {| am_from := v; am_payload := body2 u v; am_to := Some u |}.

Hypothesis Ht : 2 <= t <= N.
Hypothesis Hn : N <= u16_max.

Variables (kp : Z -> KeyPackage) (pkp : PublicKeyPackage).
Hypothesis Hdkg : forall u, 1 <= u <= N -> Reference.dkg N t c u = Some (kp u, pkp).

Lemma first_ok u : 1 <= u <= N ->
  exists self secret p b, ident_of u = Some self /\ part1 self N t (c u) = Some (secret, p) /\
    Reference.first N t c u = Some (secret, p) /\ round1_serialize p = Some b.
Proof.
  intros Hu. pose proof (Hdkg u Hu) as Hd. unfold Reference.dkg, Reference.second, Reference.first in Hd.
  apply bind_Some in Hd as (y & Hy & _). apply bind_Some in Hy as ([s p] & Hx & _).
  pose proof Hx as Hx'. apply bind_Some in Hx' as (self & Hs & Hp).
  destruct (round1_encodes _ _ _ _ _ _ Hp) as [b Hb]. exists self, s, p, b. done.
Qed.

Lemma package1_some u : 1 <= u <= N -> is_Some (Reference.package1 N t c u).
Proof.
  intros Hu. destruct (first_ok u Hu) as (? & ? & p & ? & _ & _ & Hf & _).
  unfold Reference.package1. rewrite Hf. by eexists.
Qed.

Lemma message1_package v : 1 <= v <= N ->
  KeyGen.package1 (message1 v) = Reference.contribution (Reference.package1 N t c) v.
Proof.
  intros Hv. destruct (first_ok v Hv) as (id & s & p & b & Hid & _ & Hf & Hb).
  unfold KeyGen.package1, Reference.contribution, message1, body1, Reference.package1. cbn.
  rewrite Hf. cbn. rewrite Hb, from_encoded. cbn. rewrite (round1_roundtrip _ _ Hb). cbn.
  by rewrite Hid.
Qed.

Lemma others_range u v : v ∈ Reference.others N u -> 1 <= v <= N.
Proof. intros Hv%Contributions.elem_of_others. lia. Qed.

(** The packages of the others, as the code collects them. *)
Lemma messages1_packages u : 1 <= u <= N ->
  mapM KeyGen.package1 (message1 <$> Reference.others N u) =
  Some (Reference.contributions (Reference.package1 N t c) (Reference.others N u)).
Proof.
  intros Hu. rewrite <- Contributions.mapM_contributions.
  - rewrite mapM_fmap. apply Forall_mapM_ext, Forall_forall. intros v Hv.
    by apply message1_package, (others_range u).
  - intros v Hv%others_range. lia.
  - intros v Hv%others_range. by apply package1_some.
Qed.

Lemma package2_domain u :
  1 <= u <= N -> forall id,
  id ∈ elements (dom (Reference.by_ident (Reference.package1 N t c) (Reference.others N u))) <->
  exists v, v ∈ Reference.others N u /\ ident_of v = Some id.
Proof.
  intros Hu id. rewrite elem_of_elements. apply Contributions.dom_by_ident.
  intros v Hv%others_range. by apply package1_some.
Qed.

Lemma second_ok u : 1 <= u <= N ->
  exists secret p secret2 pkgs,
    Reference.first N t c u = Some (secret, p) /\
    part2 secret (Reference.by_ident (Reference.package1 N t c) (Reference.others N u)) =
      Some (secret2, pkgs) /\
    Reference.second N t c u = Some (secret2, pkgs) /\
    part3 secret2 (Reference.by_ident (Reference.package1 N t c) (Reference.others N u))
      (Reference.by_ident (Reference.package2 N t c u) (Reference.others N u)) = Some (kp u, pkp) /\
    NoDup pkgs.*1 /\
    (forall id, id ∈ pkgs.*1 <-> exists v, v ∈ Reference.others N u /\ ident_of v = Some id).
Proof.
  intros Hu. pose proof (Hdkg u Hu) as Hd. unfold Reference.dkg in Hd.
  apply bind_Some in Hd as ([s2 pkgs] & Hy & Hd). pose proof Hy as Hy2.
  unfold Reference.second in Hy2. apply bind_Some in Hy2 as ([s1 p] & Hf & Hp2).
  exists s1, p, s2, pkgs. repeat (split; [done|]).
  pose proof (part2_recipients _ _ _ _ Hp2) as Hr. split.
  - rewrite Hr. apply NoDup_elements.
  - intros id. rewrite Hr. by apply package2_domain.
Qed.

Lemma round2_message_ok u secret r1 secret2 pkgs id p :
  part2 secret r1 = Some (secret2, pkgs) -> (id, p) ∈ pkgs ->
  1 <= u <= N -> ident_of u = Some id ->
  KeyGen.round2_message N (id, p) =
  Some (KeyGen.outgoing (Some u) (encoded (round2_serialize p))).
Proof.
  intros Hp2 Hin Hu Hid. unfold KeyGen.round2_message. cbn.
  rewrite (id_to_u16_lookup N u) by done. cbn.
  destruct (round2_encodes _ _ _ _ _ _ Hp2 Hin) as [b Hb]. rewrite Hb. cbn.
  unfold encoded. cbn. by destruct (encodes b) as [x ->].
Qed.

Lemma sent_ok u : 1 <= u <= N ->
  exists secret2 pkgs sent, Reference.second N t c u = Some (secret2, pkgs) /\
    mapM (KeyGen.round2_message N) pkgs = Some sent.
Proof.
  intros Hu. destruct (second_ok u Hu) as (s1 & p & s2 & pkgs & _ & Hp2 & Hs & _ & _ & Hids).
  exists s2, pkgs. assert (is_Some (mapM (KeyGen.round2_message N) pkgs)) as [sent Hsent].
  { apply mapM_is_Some_2, Forall_forall. intros [id q] Hin.
    destruct (proj1 (Hids id)) as (v & Hv & Hid); [apply list_elem_of_fmap; by exists (id, q)|].
    cbn. rewrite (round2_message_ok v _ _ _ _ _ _ Hp2 Hin); [by eexists| |done].
    by eapply others_range. }
  by exists sent.
Qed.

(** What party [i] gets of the round 2 messages of party [j]. *)
Lemma deliveries_of_sent j i id k pkgs sent :
  j <> i -> 1 <= number i <= N -> ident_of (number i) = Some id ->
  NoDup pkgs.*1 -> mapM (KeyGen.round2_message N) pkgs = Some sent ->
  d_msg <$> deliveries_of j i k sent =
  match (list_to_map pkgs : gmap Ident Round2Package) !! id with
  | Some p => [{| am_from := number j; am_payload := encoded (round2_serialize p);
                  am_to := Some (number i) |}]
  | None => []
  end.
Proof.
  intros Hji Hi Hid. revert k sent. induction pkgs as [|[rid p] pkgs IH]; intros k sent.
  { intros _ [= <-]. done. }
  cbn. intros [Hr Hnd]%NoDup_cons (m & Hm & (sent' & Hs & [= <-])%bind_Some)%bind_Some.
  unfold KeyGen.round2_message in Hm. cbn in Hm.
  apply bind_Some in Hm as (u & Hu & (b & Hb & (body & Hbody & [= <-])%bind_Some)%bind_Some).
  specialize (IH (S k) sent' Hnd Hs). cbn. unfold incoming.
  rewrite bool_decide_eq_false_2 by done. cbn. fold (number i).
  destruct (Z.eqb_spec u (number i)) as [->|Hne].
  - apply id_to_u16_inv in Hu as [_ Hu]. assert (rid = id) as -> by congruence. cbn.
    rewrite IH, lookup_insert_eq, not_elem_of_list_to_map_1 by done.
    unfold encoded. rewrite Hb. cbn. by rewrite Hbody.
  - rewrite IH, lookup_insert_ne; [done|]. intros ->.
    rewrite (id_to_u16_lookup N (number i)) in Hu by done. congruence.
Qed.

(** Party [i] gets a broadcast and a direct message of every other party [j]. *)
Lemma deliveries_of_script j i : (j < n)%nat -> (i < n)%nat -> j <> i ->
  d_msg <$> deliveries_of j i 0 (script j) =
  [message1 (number j); message2 (number i) (number j)].
Proof.
  intros Hj Hi Hji. unfold script. cbn. unfold incoming at 1.
  rewrite bool_decide_eq_false_2 by done. cbn. fold (number j). f_equal.
  assert (1 <= number j <= N) as Hnj by (unfold number; lia).
  assert (1 <= number i <= N) as Hni by (unfold number; lia).
  destruct (second_ok _ Hnj) as (s1 & p & s2 & pkgs & _ & _ & Hs & _ & Hnd & Hids).
  destruct (sent_ok _ Hnj) as (s2' & pkgs' & sent & Hs' & Hsent). simplify_eq.
  rewrite Hs. cbn. rewrite Hsent. cbn.
  destruct (ident_of_some (number i)) as [id Hid]; [lia|].
  rewrite (deliveries_of_sent j i id 1 pkgs) by done.
  unfold message2, body2, Reference.package2. rewrite Hs. cbn. rewrite Hid. cbn.
  destruct (list_to_map pkgs !! id) as [x|] eqn:Hx; [done|].
  exfalso. apply not_elem_of_list_to_map_2 in Hx. apply Hx, Hids. exists (number i).
  split; [|done]. apply Contributions.elem_of_others. unfold number. lia.
Qed.

(** The messages there are for party [i]. *)
Definition messages_for (u : Z) : list AgentMessage :=
  v ← Reference.others N u; [message1 v; message2 u v].

Lemma dkg_messages_for_deliveries i : (i < n)%nat ->
  d_msg <$> deliveries_for n script i = messages_for (number i).
Proof.
  intros Hi. unfold deliveries_for, messages_for, Reference.others, seqZ. rewrite Nat2Z.id.
  assert (forall j, j ∈ seq 0 n -> (j < n)%nat) as Hl by (intros j Hj%elem_of_seq; lia).
  induction (seq 0 n) as [|j l IH]; [done|].
  pose proof (Hl j ltac:(constructor)) as Hj. cbn [mbind list_bind fmap list_fmap].
  rewrite fmap_app, IH by (intros; apply Hl; by constructor).
  rewrite filter_cons. fold (number j). destruct (decide (j = i)) as [->|Hne].
  - rewrite decide_False by (unfold number; lia).
    enough (forall k ms, deliveries_of i i k ms = []) as -> by done.
    intros k ms. revert k. induction ms as [|m ms IHm]; intros k; cbn; [done|].
    unfold incoming. by rewrite bool_decide_eq_true_2.
  - rewrite decide_True by (unfold number; lia). rewrite deliveries_of_script by done. done.
Qed.

Lemma broadcasts_for u : KeyGen.broadcasts (messages_for u) = message1 <$> Reference.others N u.
Proof.
  unfold messages_for, KeyGen.broadcasts. induction (Reference.others N u) as [|v l IH]; [done|].
  cbn [mbind list_bind fmap list_fmap app]. rewrite !filter_cons. cbn. f_equal. exact IH.
Qed.

Lemma directs_for u : KeyGen.directs (messages_for u) = message2 u <$> Reference.others N u.
Proof.
  unfold messages_for, KeyGen.directs. induction (Reference.others N u) as [|v l IH]; [done|].
  cbn [mbind list_bind fmap list_fmap app]. rewrite !filter_cons. cbn. f_equal. exact IH.
Qed.

(** A party that has all broadcasts has sent its script. *)
Lemma dkg_machine_round1 i inbox : (i < n)%nat ->
  KeyGen.broadcasts inbox ≡ₚ message1 <$> Reference.others N (number i) ->
  exists deferred rest secret2 pkgs, deferred ++ rest = KeyGen.directs inbox /\
    Reference.second N t c (number i) = Some (secret2, pkgs) /\
    machine i inbox = KeyGen.receive_round2 (number i) N deferred secret2
      (Reference.by_ident (Reference.package1 N t c) (Reference.others N (number i)))
      Session.open rest (script i).
Proof.
  intros Hi Hb. assert (1 <= number i <= N) as Hu by (unfold number; lia).
  destruct (first_ok _ Hu) as (self & s1 & p & b & Hself & Hp1 & Hf & Hser).
  destruct (second_ok _ Hu) as (s1' & p' & s2 & pkgs & Hf' & Hp2 & Hs & _). simplify_eq.
  destruct (sent_ok _ Hu) as (s2' & pkgs' & sent & Hs' & Hsent). simplify_eq.
  destruct (mapM_perm KeyGen.package1 _ _ _ (symmetry Hb) (messages1_packages _ Hu))
    as (ps & Hps & Hperm). symmetry in Hperm.
  assert (forall v, v ∈ Reference.others N (number i) -> 1 <= v <= u16_max) as Hr
    by (intros v Hv%others_range; lia).
  assert (forall v, v ∈ Reference.others N (number i) -> is_Some (Reference.package1 N t c v)) as Hp
    by (intros v Hv%others_range; by apply package1_some).
  pose proof (Contributions.contributions_nodup (Reference.package1 N t c) _ (Contributions.others_nodup N (number i)))
    as Hnd.
  destruct (KeyGen.insert_all_perm _ _ Hnd Hperm) as [Hnd' Hall].
  destruct (encodes b) as [b1 Hb1].
  destruct (KeyGen.dkg_round1 (number i) t N (c (number i)) Session.open inbox self s1 p b b1 ps s2
    pkgs sent) as (deferred & rest & Hd & Hrun); try done.
  - intros id Hid. rewrite Hperm, Contributions.elem_of_contributions in Hid by done.
    destruct Hid as (v & [Hv Hne]%Contributions.elem_of_others & Hid).
    split; [by eapply KeyGen.elem_of_expected|]. intros ->. apply Hne. by eapply ident_of_inj.
  - rewrite Hperm, Contributions.length_contributions by done. by apply Contributions.length_others.
  - by rewrite Hall.
  - exists deferred, rest, s2, pkgs. split; [done|]. split; [done|]. unfold machine. rewrite Hrun.
    rewrite Hall. f_equal. unfold script, body1, Reference.package1, encoded. rewrite Hf. cbn.
    rewrite Hser. cbn. rewrite Hb1, Hs. cbn. by rewrite Hsent.
Qed.

Lemma message2_package u v : 1 <= u <= N -> v ∈ Reference.others N u ->
  KeyGen.package2 (message2 u v) = Reference.contribution (Reference.package2 N t c u) v /\
  is_Some (Reference.package2 N t c u v).
Proof.
  intros Hu Hv. pose proof (others_range _ _ Hv) as Hvr.
  destruct (second_ok v Hvr) as (s1 & p & s2 & pkgs & _ & Hp2 & Hs & _ & Hnd & Hids).
  destruct (ident_of_some u) as [id Hid]; [lia|]. destruct (ident_of_some v) as [vid Hvid]; [lia|].
  assert (id ∈ pkgs.*1) as Hin.
  { apply Hids. exists u. split; [|done]. apply Contributions.elem_of_others in Hv as [_ Hv].
    apply Contributions.elem_of_others. lia. }
  apply list_elem_of_fmap in Hin as ([id' q] & -> & Hin).
  pose proof (elem_of_list_to_map_1 pkgs _ q Hnd Hin) as Hl.
  destruct (round2_encodes _ _ _ _ _ _ Hp2 Hin) as [b Hb].
  unfold KeyGen.package2, Reference.contribution, message2, body2, Reference.package2. cbn.
  rewrite Hs. cbn. rewrite Hid. cbn in *. rewrite Hl. cbn. rewrite Hb, from_encoded. cbn.
  rewrite (round2_roundtrip _ _ Hb). cbn. rewrite Hvid. cbn. split; [done|by eexists].
Qed.

(** A party that has all messages, in any order, is done. *)
Lemma dkg_machine_complete i inbox : (i < n)%nat -> inbox ≡ₚ messages_for (number i) ->
  machine i inbox = Done (kp (number i), pkp) [] (script i).
Proof.
  intros Hi Hperm. assert (1 <= number i <= N) as Hu by (unfold number; lia).
  destruct (dkg_machine_round1 i inbox) as (deferred & rest & s2 & pkgs & Hd & Hs & ->); [done| |].
  { by rewrite Hperm, <- broadcasts_for. }
  destruct (second_ok _ Hu) as (s1' & p' & s2' & pkgs' & _ & _ & Hs' & Hp3 & _). simplify_eq.
  assert (deferred ++ rest ≡ₚ message2 (number i) <$> Reference.others N (number i)) as Hdir.
  { by rewrite Hd, <- directs_for, Hperm. }
  assert (forall v, v ∈ Reference.others N (number i) -> 1 <= v <= u16_max) as Hr
    by (intros v Hv%others_range; lia).
  assert (forall v, v ∈ Reference.others N (number i) ->
    is_Some (Reference.package2 N t c (number i) v)) as Hp
    by (intros v Hv; by apply message2_package).
  assert (mapM KeyGen.package2 (message2 (number i) <$> Reference.others N (number i)) =
    Some (Reference.contributions (Reference.package2 N t c (number i))
            (Reference.others N (number i)))) as Hps.
  { rewrite <- Contributions.mapM_contributions by done. rewrite mapM_fmap.
    apply Forall_mapM_ext, Forall_forall. intros v Hv. by apply message2_package. }
  destruct (mapM_perm _ _ _ _ (symmetry Hdir) Hps) as (ps & Hps' & Hpp). symmetry in Hpp.
  pose proof (Contributions.contributions_nodup (Reference.package2 N t c (number i)) _ (Contributions.others_nodup N (number i)))
    as Hnd.
  destruct (KeyGen.insert_all_perm _ _ Hnd Hpp) as [Hnd' Hall].
  eapply KeyGen.receive_round2_done; [|done|done| |by rewrite Hall].
  - rewrite Hdir. apply Forall_fmap, Forall_forall. done.
  - rewrite Hpp, Contributions.length_contributions by done. by apply Contributions.length_others.
Qed.

(** ** The session *)

Lemma receive_round2_out identifier deferred secret2 r1 ch rest out :
  out_of (KeyGen.receive_round2 identifier N deferred secret2 r1 ch rest out) = out.
Proof.
  unfold KeyGen.receive_round2, mbind, agent_bind, recv_while_deferred.
  pose proof (recv_loop_out (KeyGen.round2_done N) (KeyGen.round2_body identifier)
    {| KeyGen.r2_packages := ∅; KeyGen.r2_senders := ∅ |} (deferred ++ rest) ch out) as Ho.
  destruct recv_loop as [s2 l o|e o|o|w o]; cbn in *; [|done..].
  subst o. unfold try, lift. by destruct ok_or.
Qed.

Lemma dkg_machine_first i inbox : (i < n)%nat -> out_of (machine i inbox) <> [].
Proof.
  intros Hi. assert (1 <= number i <= N) as Hu by (unfold number; lia).
  destruct (first_ok _ Hu) as (self & s1 & p & b & Hself & Hp1 & _ & Hser).
  destruct (encodes b) as [b1 Hb1].
  unfold machine, KeyGen.run_dkg. unfold mbind at 1, agent_bind at 1, try at 1, lift at 1.
  rewrite Hself. cbn [ok_or]. rewrite (proj2 (Z.ltb_ge t 2)), (proj2 (Z.ltb_ge N t)) by lia.
  do 3 (unfold mbind at 1, agent_bind at 1, try at 1, lift at 1).
  rewrite Hp1. cbn [ok_or]. rewrite Hser. cbn [ok_or]. rewrite Hb1. cbn [ok_or].
  unfold mbind at 1, agent_bind at 1, send at 1. cbn [Session.open out_open app].
  match goal with |- out_of (?m _ _ ?o) <> _ =>
    assert (Streaming m) as Hm by streaming; pose proof (streaming_grows (m := m) inbox o) as Hg end.
  intros Hnil. rewrite Hnil in Hg. by apply prefix_nil_inv in Hg.
Qed.

(** Of what a party sends only the first message is a broadcast. *)
Lemma script_rest i k m : (i < n)%nat ->
  script i !! S k = Some m -> exists u, 1 <= u <= N /\ ar_to m = Some u.
Proof.
  intros Hi. cbn.
  destruct (sent_ok (number i)) as (s2 & pkgs & sent & Hs & Hsent); [unfold number; lia|].
  rewrite Hs. cbn. rewrite Hsent. cbn. intros Hk.
  apply mapM_Some_1 in Hsent. destruct (Forall2_lookup_r _ _ _ _ _ Hsent Hk) as (x & _ & Hx).
  unfold KeyGen.round2_message in Hx.
  apply bind_Some in Hx as (u & Hu & (b & _ & (body & _ & [= <-])%bind_Some)%bind_Some).
  apply id_to_u16_inv in Hu as [Hu _]. by exists u.
Qed.

Lemma script_broadcast i k m : (i < n)%nat ->
  script i !! k = Some m -> ar_to m = None -> k = 0%nat.
Proof.
  intros Hi Hk Hto. destruct k as [|k]; [done|].
  destruct (script_rest i k m Hi Hk) as (u & _ & Hu). congruence.
Qed.

(** One broadcast, then messages to the others. *)
Lemma dkg_waves : in_waves n 1 script.
Proof.
  split.
  - intros i Hi. unfold broadcasts_in, script. rewrite filter_cons_True by done. cbn [length].
    f_equal. match goal with |- length ?l = _ => destruct l as [|m l'] eqn:Hl end; [done|].
    assert (m ∈ m :: l') as Hm by constructor. rewrite <- Hl in Hm.
    apply list_elem_of_filter in Hm as [Hto [k Hk]%list_elem_of_lookup].
    destruct (script_rest i k m Hi Hk) as (u & _ & Hu). congruence.
  - intros i Hi. by eexists.
  - intros i m u Hi [k Hk]%list_elem_of_lookup Hto. destruct k as [|k]; [by injection Hk as <-|].
    destruct (script_rest i k m Hi Hk) as (u' & Hu & Hu'). congruence.
Qed.

Lemma broadcasts_delivered i ds : (i < n)%nat -> ds ⊆+ deliveries_for n script i ->
  (forall d, d ∈ deliveries_for n script i -> d_seq d = 0%nat -> d ∈ ds) ->
  KeyGen.broadcasts (d_msg <$> ds) ≡ₚ message1 <$> Reference.others N (number i).
Proof.
  intros Hi (rest & Hrest)%submseteq_Permutation Hall.
  rewrite <- broadcasts_for, <- dkg_messages_for_deliveries by done. rewrite Hrest, fmap_app.
  unfold KeyGen.broadcasts. rewrite filter_app.
  enough (filter (fun m => am_to m = None) (d_msg <$> rest) = []) as -> by (by rewrite app_nil_r).
  apply elem_of_nil_inv. intros x [Hto (d & -> & Hd)%list_elem_of_fmap]%list_elem_of_filter.
  assert (d ∈ deliveries_for n script i) as Hin by (rewrite Hrest; apply elem_of_app; by right).
  pose proof (deliveries_for_nodup n script i) as Hnd. rewrite Hrest in Hnd.
  apply NoDup_app in Hnd as (_ & Hdis & _). apply (Hdis d); [|done]. apply Hall; [done|].
  apply elem_of_deliveries_for in Hin as (Hf & m & Hm & Hinc). eapply script_broadcast; [done..|].
  unfold incoming in Hinc. case_bool_decide; [done|]. destruct (ar_to m); [|done].
  destruct (_ =? _); [|done]. injection Hinc as Hinc. by rewrite <- Hinc in Hto.
Qed.

Lemma scripted_dkg : scripted n machine script (fun i => (kp (number i), pkp)).
Proof.
  split.
  - intros i ds Hi Hds. apply dkg_machine_complete; [done|].
    rewrite <- dkg_messages_for_deliveries by done. by rewrite Hds.
  - intros i ds rest Hi Hds Hne.
    apply (streaming_waits _ (d_msg <$> rest) [] (kp (number i), pkp)); [|by destruct rest].
    rewrite <- fmap_app. apply dkg_machine_complete; [done|].
    rewrite <- dkg_messages_for_deliveries by done. by rewrite Hds.
  - intros i ds Hi _. by apply dkg_machine_first.
  - intros i ds Hi Hds Hall.
    destruct (dkg_machine_round1 i (d_msg <$> ds) Hi (broadcasts_delivered i ds Hi Hds Hall))
      as (deferred & rest & s2 & pkgs & _ & _ & ->). apply receive_round2_out.
Qed.

Lemma dkg_deliveries_count i : (i < n)%nat ->
  length (deliveries_for n script i) = (2 * (n - 1))%nat.
Proof.
  intros Hi. assert (1 <= number i <= N) as Hu by (unfold number; lia).
  rewrite <- (length_fmap d_msg), dkg_messages_for_deliveries by done. unfold messages_for.
  pose proof (Contributions.length_others N (number i) Hu) as Hl.
  replace (n - 1)%nat with (length (Reference.others N (number i))) by lia. clear Hl.
  induction (Reference.others N (number i)) as [|v l IH]; [done|].
  cbn [mbind list_bind app length]. rewrite IH. lia.
Qed.
End session.

Section theorem.
Context `{F : Frost} `{!FrostLaws F} `{!FrostCorrect F} `{Hserde : SerdeLaws bytes}.

(** C4: a distributed key generation among honest parties computes what the protocol on
    paper does, whatever the network does with the timing.  With a threshold between 2
    and the number of parties, in a session of the [n] agents that delivers what they
    send in any order and with any delay, no agent ever fails or panics: at every
    moment each one either waits or is done with the key package of the reference
    computation.  The session never gets stuck before that: there are at most
    [2 n (n - 1)] deliveries, every session can be continued until nothing is left to
    deliver, and then all parties are done, all with the same public key package. *)
Theorem dkg_session (n : nat) (t : Z) (c : Z -> coins) :
  (forall b, is_Some (to_vec (T:=bytes) b)) ->
  2 <= t <= Z.of_nat n -> Z.of_nat n <= u16_max ->
  exists kp pkp,
    (forall u, 1 <= u <= Z.of_nat n -> Reference.dkg (Z.of_nat n) t c u = Some (kp u, pkp)) /\
    session_completes n
      (fun i inbox => KeyGen.run_dkg (number i) t (Z.of_nat n) (c (number i)) Session.open inbox [])
      (n * (2 * (n - 1))) (fun i => (kp (number i), pkp)).
Proof.
  intros Henc Ht Hn. destruct (dkg_correct (Z.of_nat n) t c Ht Hn) as (kp & pkp & Hdkg & _).
  exists kp, pkp. split; [exact Hdkg|].
  apply (scripted_completes _ _ (script n t c)); [by apply scripted_dkg|].
  intros i Hi. by eapply dkg_deliveries_count.
Qed.
End theorem.
End KeyGenSession.
