(* ===== verification/KeySignSession.v ===== *)
(** * Signing among the participants

    The agents of the honest participants of a signing session run
    [KeySign.run_signing] against each other ([Session]), with key shares of one key
    generation: whatever the order and the delays of the deliveries, they compute the
    signature of the reference protocol ([Reference.signature]). *)

From Stdlib Require Import ZArith Lia Strings.Byte.
From stdpp Require Import base gmap strings numbers list relations.
From S2P Require Import Prelude Wire Messages Peerset Room Echo Storage Execution Wallet Frost.
From S2P Require Import Session System KeyGen KeySign Reference KeyGenSession.

Local Open Scope Z_scope.

Module KeySignSession.
Import KeyGenSession.
#[local] Arguments encoded : simpl never.

(** The agent is streaming. *)
#[global] Instance streaming_send_share `{F : Frost} `{Serde bytes} ks us expected message self nonces kp s1 :
  Streaming (KeySign.send_share ks us expected message self nonces kp s1).
Proof. unfold KeySign.send_share, KeySign.receive_shares. streaming. Qed.

#[global] Instance streaming_signing `{F : Frost} `{Serde bytes} ks us message coins :
  Streaming (KeySign.run_signing ks us message coins).
Proof. unfold KeySign.run_signing. streaming. Qed.

Section maps.
Context `{F : Frost} `{!FrostLaws F}.

Lemma contributions_perm {A} (f : Z -> option A) us vs :
  us ≡ₚ vs -> Reference.contributions f us ≡ₚ Reference.contributions f vs.
Proof. unfold Reference.contributions. by intros ->. Qed.

(** The own contribution and those of the others, in any order. *)
Lemma insert_all_by_ident {A} (f : Z -> option A) us u vs id x ps :
  NoDup us -> us ≡ₚ u :: vs -> ident_of u = Some id -> f u = Some x ->
  ps ≡ₚ Reference.contributions f vs ->
  KeyGen.insert_all {[id := x]} ps = Reference.by_ident f us.
Proof.
  intros Hnd Hus Hid Hf Hps. unfold Reference.by_ident.
  pose proof (Contributions.contributions_nodup f us Hnd) as Hndc.
  pose proof (contributions_perm f _ _ Hus) as Hc.
  rewrite (list_to_map_proper _ _ Hndc Hc). rewrite Hc in Hndc.
  unfold Reference.contributions, Reference.contribution in Hndc |- *. cbn in Hndc |- *.
  rewrite Hid, Hf in Hndc |- *. cbn in Hndc |- *. apply NoDup_cons in Hndc as [Hin Hndc].
  rewrite KeyGen.insert_all_list by (by rewrite Hps).
  rewrite insert_union_singleton_r by (by apply not_elem_of_list_to_map_1).
  f_equal. apply list_to_map_proper; [by rewrite Hps|exact Hps].
Qed.
End maps.

Section session.
Context `{F : Frost} `{!FrostLaws F} `{!FrostCorrect F} `{Hserde : SerdeLaws bytes}.
Hypothesis encodes : forall b, is_Some (to_vec (T:=bytes) b).

(** ** The participants *)

(** Key packages, the coins of signing, the participants and the message. *)
Variables (kp : Z -> KeyPackage) (pkp : PublicKeyPackage) (d : Z -> coins).
Variables (us : list Z) (message : bytes).
Abbreviation n := (length us).

Definition party_of (i : nat) : Z := us !!! i.

Definition body1 (u : Z) : bytes := encoded (commitments_serialize (Reference.commitment kp d u)).

Definition body2 (u : Z) : bytes := encoded (share_serialize <$> Reference.share kp d us message u).

Definition script (i : nat) : list AgentResponse :=
  [KeySign.broadcast (body1 (party_of i)); KeySign.broadcast (body2 (party_of i))].

(** Two broadcasts. *)
Lemma sign_waves : in_waves n 2 script.
Proof.
  split; [done|intros i _; by eexists|]. intros i m u _ Hm Hto.
  apply elem_of_cons in Hm as [->| ->%list_elem_of_singleton]; done.
Qed.

Definition message1 (j : nat) : AgentMessage :=
  {| am_from := number j; am_payload := body1 (party_of j); am_to := None |}.

Definition message2 (j : nat) : AgentMessage :=
  {| am_from := number j; am_payload := body2 (party_of j); am_to := None |}.

(** The positions of the others, and who they are. *)
Definition rest_of (i : nat) : list nat := filter (fun j => j <> i) (seq 0 n).
Definition others_of (i : nat) : list Z := party_of <$> rest_of i.

Definition expected : gset Ident := list_to_set (omap ident_of us).

Lemma party_lookup i : (i < n)%nat -> us !! i = Some (party_of i).
Proof. intros Hi. by apply list_lookup_lookup_total_lt. Qed.

Lemma party_in i : (i < n)%nat -> party_of i ∈ us.
Proof. intros Hi. apply list_elem_of_lookup. exists i. by apply party_lookup. Qed.

Lemma parties_all : party_of <$> seq 0 n = us.
Proof.
  apply list_eq. intros j. rewrite list_lookup_fmap. destruct (decide (j < n)%nat) as [Hj|Hj].
  - rewrite lookup_seq_lt by done. cbn. by rewrite party_lookup.
  - rewrite lookup_seq_ge by lia. cbn. symmetry. apply lookup_ge_None. lia.
Qed.

Lemma elem_of_rest i j : j ∈ rest_of i <-> (j < n)%nat /\ j <> i.
Proof. unfold rest_of. rewrite list_elem_of_filter, elem_of_seq. naive_solver lia. Qed.

Lemma others_perm i : (i < n)%nat -> us ≡ₚ party_of i :: others_of i.
Proof.
  intros Hi. rewrite <- parties_all at 1. unfold others_of.
  change (party_of i :: (party_of <$> rest_of i)) with (party_of <$> (i :: rest_of i)).
  apply fmap_Permutation, NoDup_Permutation; [apply NoDup_seq| |].
  - constructor; [|apply NoDup_filter, NoDup_seq]. rewrite elem_of_rest. naive_solver.
  - intros j. rewrite elem_of_cons, elem_of_rest, elem_of_seq.
    destruct (decide (j = i)); naive_solver lia.
Qed.

Lemma others_in i v : (i < n)%nat -> v ∈ others_of i -> v ∈ us.
Proof. intros Hi Hv. rewrite (others_perm i Hi). by constructor. Qed.

Lemma length_cosigners i : (i < n)%nat -> S (length (others_of i)) = n.
Proof. intros Hi. apply (Permutation_length (symmetry (others_perm i Hi))). Qed.

Lemma elem_of_participants id : id ∈ expected <-> exists u, u ∈ us /\ ident_of u = Some id.
Proof. unfold expected. by rewrite elem_of_list_to_set, list_elem_of_omap. Qed.

Definition messages_for (i : nat) : list AgentMessage :=
  j ← rest_of i; [message1 j; message2 j].

Lemma sign_messages_for_deliveries i : d_msg <$> deliveries_for n script i = messages_for i.
Proof.
  unfold deliveries_for, messages_for, rest_of. induction (seq 0 n) as [|j l IH]; [done|].
  cbn [mbind list_bind fmap list_fmap]. rewrite fmap_app, IH, filter_cons.
  cbn [deliveries_of script]. unfold incoming. destruct (decide (j = i)) as [->|Hne].
  - rewrite decide_False by (intros Hc; by apply Hc). by rewrite bool_decide_eq_true_2.
  - rewrite decide_True by done. by rewrite bool_decide_eq_false_2.
Qed.

Lemma sign_deliveries_count i : (i < n)%nat -> length (deliveries_for n script i) = (2 * (n - 1))%nat.
Proof.
  intros Hi. rewrite <- (length_fmap d_msg), sign_messages_for_deliveries. unfold messages_for.
  pose proof (length_cosigners i Hi) as Hl. unfold others_of in Hl. rewrite length_fmap in Hl.
  replace (n - 1)%nat with (length (rest_of i)) by lia. clear Hl.
  induction (rest_of i) as [|j l IH]; [done|].
  cbn [mbind list_bind app length]. rewrite IH. lia.
Qed.

(** The key shares of the participants. *)
Variable share : Z -> KeyShare.

Definition machine (i : nat) (inbox : list AgentMessage) : run KeySign.Signature :=
  KeySign.run_signing (share (party_of i)) us message (d (party_of i)) Session.open inbox [].

Hypothesis Hnd : NoDup us.
Hypothesis Hrange : forall u, u ∈ us -> 1 <= u <= u16_max.
Hypothesis Hshare : forall u, u ∈ us -> ks_identifier (share u) = u /\
  public_package_of (ks_public_key_package (share u)) = Some pkp /\
  forall id, ident_of u = Some id ->
    key_package_of id (ks_signing_key (share u)) (ks_public_key (share u))
      (ks_group_public_key (share u)) (ks_min_signers (share u)) = Ok (kp u).

Variables (sig : SignatureT) (sigb group : bytes).
Hypothesis Hparts : forall u, u ∈ us -> is_Some (Reference.share kp d us message u).
Hypothesis Hsig : Reference.signature kp pkp d us message = Some sig.
Hypothesis Hverify : verify pkp message sig = true.
Hypothesis Hsigb : signature_bytes sig = Some sigb.
Hypothesis Hgroup : group_key_bytes pkp = Some group.
Hypothesis Hids : forall u id, u ∈ us -> ident_of u = Some id -> id ∈ verifying_share_ids pkp.

Definition result (i : nat) : KeySign.Signature :=
  {| KeySign.sig_curve := ks_curve (share (party_of i)); KeySign.sig_pub_key := group;
     KeySign.sig_signature := sigb |}.

Lemma expected_parties : KeySign.expected_participants us = Some expected.
Proof.
  unfold KeySign.expected_participants, expected.
  enough (mapM ident_of us = Some (omap ident_of us)) as -> by done.
  assert (forall u, u ∈ us -> is_Some (ident_of u)) as Hs
    by (intros u Hu; by apply ident_of_some, Hrange).
  clear -Hs. induction us as [|u l IH]; [done|]. cbn.
  destruct (Hs u ltac:(constructor)) as [id ->]. cbn.
  rewrite IH by (intros; apply Hs; by constructor). done.
Qed.

(** ** Messages *)

Lemma sender_ok j m id : (j < n)%nat -> am_from m = number j -> ident_of (party_of j) = Some id ->
  KeySign.sender_of us expected m = Ok id.
Proof.
  intros Hj Hm Hid. unfold KeySign.sender_of, KeySign.participant_identifier_for_session_index.
  rewrite Hm. unfold number. rewrite (proj2 (Z.leb_le _ _)) by lia. cbn [ok_or mbind outcome_bind].
  replace (Z.to_nat (Z.of_nat j + 1 - 1)) with j by lia. rewrite party_lookup by done.
  cbn [ok_or mbind outcome_bind]. rewrite Hid. cbn [ok_or mbind outcome_bind].
  rewrite bool_decide_eq_true_2; [done|]. apply elem_of_participants. exists (party_of j).
  split; [by apply party_in|done].
Qed.

Lemma message1_commitment j : (j < n)%nat ->
  KeySign.commitment_of us expected (message1 j) =
    Reference.contribution (fun u => Some (Reference.commitment kp d u)) (party_of j) /\
  KeySign.is_commitment us expected (message1 j).
Proof.
  intros Hj. destruct (ident_of_some (party_of j)) as [id Hid]; [by apply Hrange, party_in|].
  destruct (commitments_encode (kp (party_of j)) (d (party_of j))) as [b Hb].
  unfold KeySign.is_commitment, KeySign.commitment_of, Reference.contribution.
  rewrite (sender_ok j _ id) by done. rewrite Hid. cbn.
  unfold body1, Reference.commitment. rewrite Hb, from_encoded by done. cbn.
  rewrite (commitments_roundtrip _ _ Hb). cbn. split; [done|by eexists].
Qed.

Lemma message2_share j : (j < n)%nat ->
  KeySign.share_of us expected (message2 j) =
    Reference.contribution (Reference.share kp d us message) (party_of j) /\
  ~ KeySign.is_commitment us expected (message2 j).
Proof.
  intros Hj. destruct (ident_of_some (party_of j)) as [id Hid]; [by apply Hrange, party_in|].
  destruct (Hparts (party_of j)) as [s Hs]; [by apply party_in|].
  unfold KeySign.is_commitment, KeySign.commitment_of, KeySign.share_of, Reference.contribution.
  rewrite (sender_ok j _ id) by done. rewrite Hid. cbn.
  unfold body2. rewrite Hs. cbn. rewrite from_encoded by done. cbn.
  rewrite share_roundtrip, share_no_commitments. cbn. split; [done|by intros [? ?]].
Qed.

Lemma commitments_for i :
  filter (KeySign.is_commitment us expected) (messages_for i) = message1 <$> rest_of i.
Proof.
  unfold messages_for. assert (forall j, j ∈ rest_of i -> (j < n)%nat) as Hl
    by (intros j [Hj _]%elem_of_rest; done).
  induction (rest_of i) as [|j l IH]; [done|]. pose proof (Hl j ltac:(constructor)) as Hj.
  cbn [mbind list_bind fmap list_fmap app]. rewrite !filter_cons.
  rewrite decide_True by (by apply message1_commitment).
  rewrite decide_False by (by apply message2_share). f_equal. apply IH.
  intros k Hk. apply Hl. by constructor.
Qed.

Lemma shares_for i :
  filter (fun m => ~ KeySign.is_commitment us expected m) (messages_for i) = message2 <$> rest_of i.
Proof.
  unfold messages_for. assert (forall j, j ∈ rest_of i -> (j < n)%nat) as Hl
    by (intros j [Hj _]%elem_of_rest; done).
  induction (rest_of i) as [|j l IH]; [done|]. pose proof (Hl j ltac:(constructor)) as Hj.
  cbn [mbind list_bind fmap list_fmap app]. rewrite !filter_cons.
  rewrite decide_False by (intros Hc; by apply Hc, message1_commitment).
  rewrite decide_True by (by apply message2_share). f_equal. apply IH.
  intros k Hk. apply Hl. by constructor.
Qed.

(** What the messages of the others stand for. *)
Lemma messages1_commitments i :
  mapM (KeySign.commitment_of us expected) (message1 <$> rest_of i) =
  Some (Reference.contributions (fun u => Some (Reference.commitment kp d u)) (others_of i)).
Proof.
  rewrite <- Contributions.mapM_contributions.
  - unfold others_of. rewrite !mapM_fmap. apply Forall_mapM_ext, Forall_forall.
    intros j [Hj _]%elem_of_rest. by apply message1_commitment.
  - intros u (j & -> & [Hj _]%elem_of_rest)%list_elem_of_fmap. by apply Hrange, party_in.
  - by eexists.
Qed.

Lemma messages2_shares i :
  mapM (KeySign.share_of us expected) (message2 <$> rest_of i) =
  Some (Reference.contributions (Reference.share kp d us message) (others_of i)).
Proof.
  rewrite <- Contributions.mapM_contributions.
  - unfold others_of. rewrite !mapM_fmap. apply Forall_mapM_ext, Forall_forall.
    intros j [Hj _]%elem_of_rest. by apply message2_share.
  - intros u (j & -> & [Hj _]%elem_of_rest)%list_elem_of_fmap. by apply Hrange, party_in.
  - intros u (j & -> & [Hj _]%elem_of_rest)%list_elem_of_fmap. by apply Hparts, party_in.
Qed.

Lemma cosigners_nodup i : (i < n)%nat -> NoDup (others_of i) /\ party_of i ∉ others_of i.
Proof.
  intros Hi. pose proof Hnd as Hn. rewrite (others_perm i Hi) in Hn.
  by apply NoDup_cons in Hn as [? ?].
Qed.

(** The identifiers of the others, whatever they contribute. *)
Lemma others_ids {A} (f : Z -> option A) i id self :
  (i < n)%nat -> ident_of (party_of i) = Some self ->
  (forall u, u ∈ us -> is_Some (f u)) ->
  id ∈ (Reference.contributions f (others_of i)).*1 <-> id ∈ expected /\ id <> self.
Proof.
  intros Hi Hself Hf. rewrite Contributions.elem_of_contributions
    by (intros u Hu; by eapply Hf, others_in).
  rewrite elem_of_participants. split.
  - intros (u & Hu & Hid). split; [exists u; split; [by eapply others_in|done]|]. intros ->.
    assert (u = party_of i) as -> by (by eapply ident_of_inj). by apply (cosigners_nodup i Hi).
  - intros [(u & Hu & Hid) Hne]. exists u. split; [|done].
    rewrite (others_perm i Hi) in Hu. apply elem_of_cons in Hu as [->|Hu]; [congruence|done].
Qed.

Lemma expected_split {A} (f : Z -> option A) i self :
  (i < n)%nat -> ident_of (party_of i) = Some self ->
  (forall u, u ∈ us -> is_Some (f u)) ->
  expected = {[self]} ∪ list_to_set (Reference.contributions f (others_of i)).*1.
Proof.
  intros Hi Hself Hf. apply leibniz_equiv. intros id.
  rewrite elem_of_union, elem_of_singleton, elem_of_list_to_set, (others_ids f i id self) by done.
  destruct (decide (id = self)) as [->|Hne]; [|naive_solver].
  split; [by left|]. intros _. apply elem_of_participants. exists (party_of i). by split; [apply party_in|].
Qed.

Abbreviation own_commitments := (Reference.commitments kp d us).

(** What a party knows of itself. *)
Lemma own_ok i : (i < n)%nat ->
  exists self b s, ident_of (party_of i) = Some self /\ ks_identifier (share (party_of i)) = party_of i /\
    commitments_serialize (Reference.commitment kp d (party_of i)) = Some b /\
    Reference.share kp d us message (party_of i) = Some s.
Proof.
  intros Hi. pose proof (party_in i Hi) as Hin.
  destruct (ident_of_some (party_of i)) as [self Hself]; [by apply Hrange|].
  destruct (commitments_encode (kp (party_of i)) (d (party_of i))) as [b Hb].
  destruct (Hparts _ Hin) as [s Hs]. exists self, b, s. destruct (Hshare _ Hin) as [? _]. done.
Qed.

(** A party that has all commitments, and some of the shares, has sent its script. *)
Lemma sign_machine_round1 i inbox qs qs' self s : (i < n)%nat ->
  ident_of (party_of i) = Some self -> Reference.share kp d us message (party_of i) = Some s ->
  filter (KeySign.is_commitment us expected) inbox ≡ₚ message1 <$> rest_of i ->
  mapM (KeySign.share_of us expected)
    (filter (fun m => ~ KeySign.is_commitment us expected m) inbox) = Some qs ->
  qs ++ qs' ≡ₚ Reference.contributions (Reference.share kp d us message) (others_of i) ->
  exists qs1 qs2 qs1' rest, qs1 ++ qs2 = qs /\
    mapM (KeySign.share_of us expected) rest = Some qs2 /\ qs1' ≡ₚ qs1 /\
    machine i inbox = KeySign.receive_shares (share (party_of i)) us expected message own_commitments
      (KeySign.shares_at_hand self s qs1') Session.open rest (script i).
Proof.
  intros Hi Hself Hs Hcs Hqs Hall.
  destruct (own_ok i Hi) as (self' & b & s' & Hself' & Hid & Hb & Hs'). simplify_eq.
  destruct (mapM_perm _ _ _ _ (symmetry Hcs) (messages1_commitments i)) as (ps & Hps & Hp).
  symmetry in Hp. destruct (cosigners_nodup i Hi) as [Hndo Hout].
  assert (NoDup ps.*1) as Hndp by (rewrite Hp; by apply Contributions.contributions_nodup).
  assert (NoDup (qs ++ qs').*1) as Hndq by (rewrite Hall; by apply Contributions.contributions_nodup).
  rewrite fmap_app in Hndq. apply NoDup_app in Hndq as (Hndq & _ & _).
  assert (KeyGen.insert_all {[self := Reference.commitment kp d (party_of i)]} ps = own_commitments)
    as Hcomms by (by eapply insert_all_by_ident; [exact Hnd|by apply others_perm| | |]).
  destruct (encodes b) as [b1 Hb1]. destruct (encodes (share_serialize s)) as [b2 Hb2].
  destruct (KeySign.sign_round1 us expected (share (party_of i)) message (d (party_of i)) Session.open
    inbox self (kp (party_of i)) (commit (kp (party_of i)) (d (party_of i))).1
    (Reference.commitment kp d (party_of i)) b b1 ps qs s b2)
    as (qs1 & qs2 & qs1' & rest & Hq & Hrest & Hq1 & Hrun); try done.
  - by rewrite Hid.
  - by apply (Hshare (party_of i) (party_in i Hi)).
  - unfold Reference.commitment. by destruct commit.
  - by apply expected_parties.
  - rewrite Hp, others_ids by done. naive_solver.
  - intros id Hin. eapply (others_ids (Reference.share kp d us message)); [done..|].
    rewrite <- Hall, fmap_app. apply elem_of_app. by left.
  - rewrite (list_to_set_perm_L _ _ (fmap_Permutation fst _ _ Hp)). by apply expected_split.
  - rewrite Hp, Contributions.length_contributions; [by apply length_cosigners| |by eexists].
    intros u Hu. by eapply Hrange, others_in.
  - rewrite Hcomms. exact Hs.
  - exists qs1, qs2, qs1', rest. split; [done|]. split; [done|]. split; [done|].
    unfold machine. rewrite Hrun, Hcomms. f_equal. unfold script, body1, body2, encoded.
    rewrite Hb, Hs. cbn. by rewrite Hb1, Hb2.
Qed.

(** A party that has all messages, in any order, is done. *)
Lemma sign_machine_complete i inbox : (i < n)%nat -> inbox ≡ₚ messages_for i ->
  machine i inbox = Done (result i) [] (script i).
Proof.
  intros Hi Hperm. destruct (own_ok i Hi) as (self & b & s & Hself & _ & _ & Hs).
  assert (filter (fun m => ~ KeySign.is_commitment us expected m) inbox ≡ₚ message2 <$> rest_of i)
    as Hsh by (by rewrite Hperm, shares_for).
  destruct (mapM_perm _ _ _ _ (symmetry Hsh) (messages2_shares i)) as (qs & Hqs & Hq).
  symmetry in Hq.
  destruct (sign_machine_round1 i inbox qs [] self s) as (qs1 & qs2 & qs1' & rest & Hsplit & Hrest & Hq1 & ->);
    [done|done|done|by rewrite Hperm, commitments_for|done|by rewrite app_nil_r|].
  assert (qs1' ++ qs2 ≡ₚ Reference.contributions (Reference.share kp d us message) (others_of i))
    as Hall by (by rewrite Hq1, Hsplit).
  destruct (cosigners_nodup i Hi) as [Hndo Hout].
  unfold Reference.signature in Hsig. eapply KeySign.receive_shares_done; [exact Hrest|..].
  - rewrite Hall. by apply Contributions.contributions_nodup.
  - rewrite Hall, others_ids by done. naive_solver.
  - rewrite (list_to_set_perm_L _ _ (fmap_Permutation fst _ _ Hall)). by apply expected_split.
  - rewrite Hall, Contributions.length_contributions; [by apply length_cosigners| |].
    + intros u Hu. by eapply Hrange, others_in.
    + intros u Hu. by eapply Hparts, others_in.
  - by apply Hshare, party_in.
  - intros id (u & Hu & Hid)%elem_of_participants. by eapply Hids.
  - erewrite insert_all_by_ident; [exact Hsig|exact Hnd|by apply others_perm|done|done|done].
  - done.
  - done.
  - done.
Qed.

(** ** The session *)

Lemma receive_shares_out ks exp comms st ch rest out :
  out_of (KeySign.receive_shares ks us exp message comms st ch rest out) = out.
Proof.
  unfold KeySign.receive_shares, mbind, agent_bind, recv_while.
  pose proof (recv_loop_out (KeySign.round2_done us) (KeySign.round2_body us exp) st rest ch out)
    as Ho.
  destruct recv_loop as [s2 l o|e o|o|w o]; cbn in *; [|done..]. subst o.
  unfold try, lift, fail. repeat (case_match; simplify_eq/=; try done).
Qed.

Lemma sign_machine_first i inbox : (i < n)%nat -> out_of (machine i inbox) <> [].
Proof.
  intros Hi. destruct (own_ok i Hi) as (self & b & s & Hself & Hid & Hb & _).
  destruct (encodes b) as [b1 Hb1]. destruct (Hshare _ (party_in i Hi)) as (_ & _ & Hkp).
  unfold machine, KeySign.run_signing. do 2 (unfold mbind at 1, agent_bind at 1, try at 1, lift at 1).
  rewrite Hid, Hself. cbn [ok_or]. unfold lift at 1. rewrite (Hkp _ Hself).
  unfold Reference.commitment in Hb. destruct (commit (kp (party_of i)) (d (party_of i))) as [nc cm].
  cbn in Hb. do 2 (unfold mbind at 1, agent_bind at 1, try at 1, lift at 1).
  unfold mbind at 1, agent_bind at 1, lift at 1.
  rewrite Hb. cbn [ok_or]. rewrite Hb1. cbn [ok_or]. rewrite u16_sub_ok by lia.
  unfold mbind at 1, agent_bind at 1, send at 1. cbn [Session.open out_open app].
  match goal with |- out_of (?m _ _ ?o) <> _ =>
    assert (Streaming m) as Hm by streaming;
    pose proof (streaming_grows (m := m) inbox o) as Hg end.
  intros Hnil. rewrite Hnil in Hg. by apply prefix_nil_inv in Hg.
Qed.

(** The second message of a party is not its commitments. *)
Lemma delivery_commitment i dl : (i < n)%nat -> dl ∈ deliveries_for n script i ->
  KeySign.is_commitment us expected (d_msg dl) -> d_seq dl = 0%nat.
Proof.
  intros Hi (Hf & m & Hm & Hinc)%elem_of_deliveries_for Hc.
  destruct (d_seq dl) as [|[|k]]; [done| |done]. exfalso. cbn in Hm. injection Hm as <-.
  unfold incoming in Hinc. case_bool_decide; [done|]. cbn in Hinc. injection Hinc as Hinc.
  apply (message2_share (d_from dl) Hf). unfold message2, number. by rewrite Hinc.
Qed.

Lemma commitments_delivered i ds : (i < n)%nat -> ds ⊆+ deliveries_for n script i ->
  (forall dl, dl ∈ deliveries_for n script i -> d_seq dl = 0%nat -> dl ∈ ds) ->
  filter (KeySign.is_commitment us expected) (d_msg <$> ds) ≡ₚ message1 <$> rest_of i /\
  exists qs qs', mapM (KeySign.share_of us expected)
      (filter (fun m => ~ KeySign.is_commitment us expected m) (d_msg <$> ds)) = Some qs /\
    qs ++ qs' ≡ₚ Reference.contributions (Reference.share kp d us message) (others_of i).
Proof.
  intros Hi (rest & Hrest)%submseteq_Permutation Hall. split.
  - rewrite <- commitments_for, <- sign_messages_for_deliveries, Hrest, fmap_app, filter_app.
    enough (filter (KeySign.is_commitment us expected) (d_msg <$> rest) = []) as ->
      by (by rewrite app_nil_r).
    apply elem_of_nil_inv. intros x [Hc (dl & -> & Hd)%list_elem_of_fmap]%list_elem_of_filter.
    assert (dl ∈ deliveries_for n script i) as Hin by (rewrite Hrest; apply elem_of_app; by right).
    pose proof (deliveries_for_nodup n script i) as Hnodup. rewrite Hrest in Hnodup.
    apply NoDup_app in Hnodup as (_ & Hdis & _). apply (Hdis dl); [|done].
    apply Hall; [done|]. by eapply delivery_commitment.
  - assert (message2 <$> rest_of i ≡ₚ
      filter (fun m => ~ KeySign.is_commitment us expected m) (d_msg <$> ds) ++
      filter (fun m => ~ KeySign.is_commitment us expected m) (d_msg <$> rest)) as Hp.
    { rewrite <- filter_app, <- fmap_app, <- shares_for, <- sign_messages_for_deliveries.
      by rewrite Hrest. }
    destruct (mapM_perm _ _ _ _ Hp (messages2_shares i)) as (q & Hq & Hqp).
    apply mapM_app_inv in Hq as (qs & qs' & Hqs & _ & ->). by exists qs, qs'.
Qed.

Lemma scripted_signing : scripted n machine script result.
Proof.
  assert (forall i ds, (i < n)%nat -> ds ≡ₚ deliveries_for n script i ->
    machine i (d_msg <$> ds) = Done (result i) [] (script i)) as Hcomplete.
  { intros i ds Hi Hds. apply sign_machine_complete; [done|].
    rewrite <- sign_messages_for_deliveries. by rewrite Hds. }
  split; [exact Hcomplete| | |].
  - intros i ds rest Hi Hds Hne.
    apply (streaming_waits _ (d_msg <$> rest) [] (result i)); [|by destruct rest].
    rewrite <- fmap_app. by apply Hcomplete.
  - intros i ds Hi _. by apply sign_machine_first.
  - intros i ds Hi Hds Hall. destruct (own_ok i Hi) as (self & b & s & Hself & _ & _ & Hs).
    destruct (commitments_delivered i ds Hi Hds Hall) as (Hc & qs & qs' & Hqs & Hq).
    destruct (sign_machine_round1 i (d_msg <$> ds) qs qs' self s) as (qs1 & qs2 & qs1' & rest & _ & _ & _ & ->);
      [done..|]. apply receive_shares_out.
Qed.

End session.

(** ** With the shares of a key generation *)

Section theorem.
Context `{F : Frost} `{!FrostLaws F} `{!FrostCorrect F} `{Hserde : SerdeLaws bytes}.

(** The share of party [u] holds what it got from the key generation with threshold [t]. *)
Record share_of_dkg (t u : Z) (kp : KeyPackage) (pkp : PublicKeyPackage) (s : KeyShare) : Prop := {
  sd_identifier : ks_identifier s = u;
  sd_signing : ks_signing_key s = signing_share_bytes kp;
  sd_verifying : verifying_share_bytes kp = Some (ks_public_key s);
  sd_group : group_key_bytes pkp = Some (ks_group_public_key s);
  sd_package : public_package_bytes pkp = Some (ks_public_key_package s);
  sd_threshold : ks_min_signers s = t;
}.

(** What the correctness of FROST says of the parties of a key generation. *)
Lemma dkg_facts n t c kp pkp :
  2 <= t <= n -> n <= u16_max ->
  (forall u, 1 <= u <= n -> Reference.dkg n t c u = Some (kp u, pkp)) ->
  is_Some (group_key_bytes pkp) /\
  (exists b, public_package_bytes pkp = Some b /\ public_package_of b = Some pkp) /\
  (forall u id, 1 <= u <= n -> ident_of u = Some id -> id ∈ verifying_share_ids pkp).
Proof.
  intros Ht Hn Hd. destruct (dkg_correct n t c Ht Hn) as (kp' & pkp' & Hd' & Hg & Hp & Hi).
  specialize (Hd 1 ltac:(lia)). rewrite Hd' in Hd by lia. by injection Hd as _ <-.
Qed.

Lemma shares_fit n t c kp pkp u s :
  2 <= t <= n -> n <= u16_max ->
  (forall u, 1 <= u <= n -> Reference.dkg n t c u = Some (kp u, pkp)) ->
  1 <= u <= n -> share_of_dkg t u (kp u) pkp s ->
  ks_identifier s = u /\
  public_package_of (ks_public_key_package s) = Some pkp /\
  forall id, ident_of u = Some id ->
    key_package_of id (ks_signing_key s) (ks_public_key s) (ks_group_public_key s)
      (ks_min_signers s) = Ok (kp u).
Proof.
  intros Ht Hn Hd Hu [Hid Hsk Hvs Hg Hp Hmin].
  destruct (dkg_facts n t c kp pkp Ht Hn Hd) as (_ & (b & Hb & Hb') & _).
  rewrite Hb in Hp. injection Hp as <-. split; [done|]. split; [done|]. intros id Hi.
  destruct (dkg_package n t c u (kp u) pkp _ id (Hd u Hu) Hi Hg) as (vs & Hvs' & Hk).
  rewrite Hvs in Hvs'. injection Hvs' as <-. by rewrite Hsk, Hmin.
Qed.

(** The participants, and the signature they get. *)
Section signers.
Variables (n t : Z) (c : Z -> coins) (kp : Z -> KeyPackage) (pkp : PublicKeyPackage).
Variables (us : list Z) (d : Z -> coins) (message : bytes) (share : Z -> KeyShare).
Hypothesis encodes : forall b, is_Some (to_vec (T:=bytes) b).
Hypothesis Ht : 2 <= t <= n.
Hypothesis Hn : n <= u16_max.
Hypothesis Hdkg : forall u, 1 <= u <= n -> Reference.dkg n t c u = Some (kp u, pkp).
Hypothesis Hnd : NoDup us.
Hypothesis Hrange : forall u, u ∈ us -> 1 <= u <= n.
Hypothesis Hlen : t <= Z.of_nat (length us).
Hypothesis Hshare : forall u, u ∈ us -> share_of_dkg t u (kp u) pkp (share u).

Lemma signers_scripted :
  exists sig sigb group,
    verify pkp message sig = true /\ signature_bytes sig = Some sigb /\
    group_key_bytes pkp = Some group /\
    scripted (length us) (machine d us message share) (script kp d us message)
      (result us share sigb group) /\
    forall i, (i < length us)%nat ->
      length (deliveries_for (length us) (script kp d us message) i) = (2 * (length us - 1))%nat.
Proof.
  destruct (dkg_facts n t c kp pkp Ht Hn Hdkg) as ([group Hg] & _ & Hids).
  destruct (sign_correct n t c kp pkp us d message Hdkg Hnd Hrange Hlen)
    as (Hparts & sig & Hsig & Hv & [sigb Hsb]).
  exists sig, sigb, group. split; [done|]. split; [done|]. split; [done|].
  assert (forall u, u ∈ us -> 1 <= u <= u16_max) as Hr
    by (intros u Hu; specialize (Hrange u Hu); lia).
  split; [|intros i Hi; by apply sign_deliveries_count].
  apply (scripted_signing encodes kp pkp) with (sig := sig); try done.
  - intros u Hu. eapply shares_fit; eauto.
  - intros u id Hu. eauto.
Qed.
End signers.

End theorem.
End KeySignSession.
