(* ===== verification/Factory.v ===== *)
(** * The agents of the node

    [TssFactory] of [crates/tss/src/factory.rs]: the implementation of the
    factory interface the worker relies on. *)

From Stdlib Require Import ZArith Lia.
From stdpp Require Import base gmap strings numbers list.
From S2P Require Import Prelude Messages Room Echo Wallet KeyGen KeySign.

Local Open Scope Z_scope.

Module TssFactory.

(** [Box<dyn ComputeAgentAsync>], of the two agents there are. *)
Inductive agent : Type :=
  | KeyGenAgent (k : KeyGen.t)
  | KeySignAgent (k : KeySign.t).

Definition protocol_id (a : agent) : Z :=
  match a with
  | KeyGenAgent _ => KeyGen.protocol_id
  | KeySignAgent _ => KeySign.protocol_id
  end.

Record t : Type := { key_path : chars; curve : Curve }.

Definition new (key_path : chars) (curve : Curve) : t :=
  {| key_path := key_path; curve := curve |}.

(** [make]. *)
Definition make (f : t) (protocol_id : Z) : outcome Error agent :=
  if protocol_id =? 0 then Ok (KeyGenAgent (KeyGen.new (key_path f) (curve f)))
  else if protocol_id =? 1 then Ok (KeySignAgent (KeySign.new (key_path f)))
  else Err (UnknownProtocolId protocol_id).

Definition keygen (f : t) : agent := KeyGenAgent (KeyGen.new (key_path f) (curve f)).
Definition keysign (f : t) : agent := KeySignAgent (KeySign.new (key_path f)).

(** The factory as the worker sees it. *)
#[export] Instance factory_agents (f : t) : ComputeAgents := {|
  Agent := agent;
  agent_protocol_id := protocol_id;
  factory_make pid := match make f pid with Ok a => Some a | _ => None end;
  factory_keygen := keygen f;
  factory_keysign := keysign f;
|}.

#[export] Instance factory_laws (f : t) : @ComputeAgentLaws (factory_agents f).
Proof.
  split. intros pid a. cbn. unfold make.
  destruct (Z.eqb_spec pid 0) as [->|]; [by intros [= <-]|].
  destruct (Z.eqb_spec pid 1) as [->|]; [by intros [= <-]|done].
Qed.

(** the agent a remote proposal makes is the one the proposer runs: making
    an agent for the protocol id of a local key generation (or signing) gives
    the same agent; every other protocol id is refused as unknown. *)
Theorem make_matches_local f pid :
  make f (protocol_id (keygen f)) = Ok (keygen f) /\
  make f (protocol_id (keysign f)) = Ok (keysign f) /\
  (pid <> 0 -> pid <> 1 -> make f pid = Err (UnknownProtocolId pid)).
Proof.
  split; [done|]. split; [done|]. intros H0 H1. unfold make.
  by rewrite (proj2 (Z.eqb_neq _ _) H0), (proj2 (Z.eqb_neq _ _) H1).
Qed.
End TssFactory.
