(* ===== verification/EndToEnd.v ===== *)
(** * From a key generation to a signature

    The agents as the nodes run them ([KeyGen.compute], [KeySign.compute] of
    [crates/tss/src]), from the payload of the RPC request to the encoded result, with
    the key shares in the files in between. *)

From Stdlib Require Import ZArith Lia Strings.Byte.
From stdpp Require Import base gmap sorting strings numbers list relations.
From S2P Require Import Prelude Wire Messages Peerset Room Echo Storage Execution Wallet Frost.
From S2P Require Import Session System KeyGen KeySign Reference KeyGenSession KeySignSession.

Local Open Scope Z_scope.

Module EndToEnd.
Import KeyGenSession.

Section end_to_end.
Context `{HP : PeerIdLaws} `{!Inhabited PeerId}.
Context `{Hbytes : SerdeLaws bytes} `{Hkp : SerdeLaws KeygenRequestPayload}.
Context `{Hsp : SerdeLaws SignRequestPayload} `{Hks : SerdeLaws KeyShare}.
Context `{Serde PublicKey} `{Serde KeySign.Signature}.
Context (suite : Curve -> Frost).
Context {laws : forall cv, FrostLaws (suite cv)} {correct : forall cv, FrostCorrect (suite cv)}.

(** What can be written as JSON is written. *)
Hypothesis bytes_encode : forall b, is_Some (to_vec (T:=bytes) b).
Hypothesis share_encodes : forall s : KeyShare, is_Some (to_vec s).
Hypothesis public_key_encodes : forall k : PublicKey, is_Some (to_vec k).
Hypothesis signature_encodes : forall s : KeySign.Signature, is_Some (to_vec s).

(** The peers of a session in the order of its peer set, and their numbers. *)
Definition ordered (ps : list PeerId) : list PeerId := sort_by_key bytes_leb peer_to_bytes ps.

Definition place (ps : list PeerId) (p : PeerId) : nat :=
  default 0%nat (position (fun q => bool_decide (q = p)) (ordered ps)).

Definition files_ok : KeyGen.fs_obs :=
  {| KeyGen.mkdir_ok := true; KeyGen.create_ok := true; KeyGen.write_ok := true |}.

Lemma ordered_nodup ps : NoDup ps -> NoDup (ordered ps).
Proof. unfold ordered. by rewrite sort_by_key_perm. Qed.

Lemma ordered_length ps : length (ordered ps) = length ps.
Proof. apply sort_by_key_length. Qed.

Lemma elem_of_ordered ps p : p ∈ ordered ps <-> p ∈ ps.
Proof. unfold ordered. by rewrite sort_by_key_perm. Qed.

Lemma ordered_lookup ps i : (i < length ps)%nat -> ordered ps !! i = Some (ordered ps !!! i).
Proof. intros Hi. apply list_lookup_lookup_total_lt. by rewrite ordered_length. Qed.

Lemma position_place ps p :
  p ∈ ps -> position (fun q => bool_decide (q = p)) (ordered ps) = Some (place ps p).
Proof.
  intros Hp. unfold place. destruct position eqn:Hpos; [done|].
  apply elem_of_ordered in Hp. rewrite position_none in Hpos. apply Hpos in Hp.
  by apply bool_decide_eq_false in Hp.
Qed.

Lemma lookup_place ps p : p ∈ ps -> ordered ps !! place ps p = Some p.
Proof.
  intros Hp%position_place. apply position_some in Hp as [(q & Hq & He) _].
  by apply bool_decide_eq_true in He as ->.
Qed.

Lemma place_lookup ps i p : NoDup ps -> ordered ps !! i = Some p -> place ps p = i.
Proof.
  intros Hnd Hi. eapply NoDup_lookup; [by apply ordered_nodup| |exact Hi].
  apply lookup_place, elem_of_ordered, list_elem_of_lookup. eauto.
Qed.

Lemma index_of_place ps p local :
  NoDup ps -> Z.of_nat (length ps) <= u16_max -> p ∈ ps ->
  Peerset.index_of (Peerset.new ps local) p = Some (Z.of_nat (place ps p)).
Proof.
  intros Hnd Hlen Hp. unfold Peerset.index_of. cbn. fold (ordered ps).
  rewrite position_place by done. cbn. f_equal. apply as_u16_small.
  apply lookup_place, lookup_lt_Some in Hp. rewrite ordered_length in Hp. lia.
Qed.

(** ** Key generation *)

Section keygen.
Variables (cv : Curve) (ps : list PeerId) (t : Z) (wallet : chars) (kb : bytes).
Variables (c : PeerId -> forall cv, @coins (suite cv)) (path : PeerId -> chars)
  (fs : PeerId -> gmap chars bytes).
Abbreviation n := (length ps).
Abbreviation N := (Z.of_nat n).
Abbreviation peer i := (ordered ps !!! i).

Hypothesis Hnd : NoDup ps.
Hypothesis Ht : 2 <= t <= N.
Hypothesis Hn : N < u16_max.
Hypothesis Hkb : encode_keygen_payload wallet t = Ok kb.

(** The [i]-th node of the key generation. *)
Definition keygen_node (i : nat) (inbox : list AgentMessage) : gmap chars bytes * run bytes :=
  KeyGen.compute suite (KeyGen.new (path (peer i)) cv) (Peerset.new ps (peer i)) kb (c (peer i))
    (fs (peer i)) files_ok Session.open inbox.

(** Its coins, by number. *)
Definition keygen_coins (u : Z) : @coins (suite cv) := c (peer (Z.to_nat (u - 1))) cv.

Lemma keygen_coins_number i : keygen_coins (number i) = c (peer i) cv.
Proof. unfold keygen_coins, number. by replace (Z.to_nat (Z.of_nat i + 1 - 1)) with i by lia. Qed.

Lemma peer_in i : (i < n)%nat -> peer i ∈ ps /\ place ps (peer i) = i.
Proof.
  intros Hi. pose proof (ordered_lookup ps i Hi) as Hl. split; [|by apply place_lookup].
  apply elem_of_ordered, list_elem_of_lookup. eauto.
Qed.

Lemma keygen_prepare i : (i < n)%nat ->
  KeyGen.prepare (Peerset.new ps (peer i)) kb =
  Ok (number i, N, {| kg_wallet_id := normalize_wallet_id wallet; kg_threshold := t |}).
Proof.
  intros Hi. destruct (peer_in i Hi) as [Hp Hpl]. unfold KeyGen.prepare.
  change (Peerset.local_peer_id (Peerset.new ps (peer i))) with (peer i).
  rewrite index_of_place by (done || lia). rewrite Hpl. cbn [ok_or mbind outcome_bind].
  rewrite u16_add_ok by lia. cbn [mbind outcome_bind].
  unfold encode_keygen_payload in Hkb. apply ok_or_ok, from_to_vec in Hkb.
  unfold decode_keygen_payload. rewrite Hkb. cbn. rewrite normalize_idempotent.
  unfold Peerset.size. cbn [Peerset.new Peerset.peers]. fold (ordered ps).
  by rewrite ordered_length, as_u16_small by lia.
Qed.

Variables (kp : Z -> @KeyPackage (suite cv)) (pkp : @PublicKeyPackage (suite cv)).
Variables (group pk : bytes).
Hypothesis Hdkg : forall u, 1 <= u <= N ->
  Reference.dkg N t keygen_coins u = Some (kp u, pkp).
Hypothesis Hgroup : group_key_bytes pkp = Some group.
Hypothesis Hpk : to_vec {| pk_curve := cv; pk_bytes := group |} = Some pk.

(** What node [i] keeps. *)
Record kept (i : nat) (s : KeyShare) : Prop := {
  kept_dkg : KeySignSession.share_of_dkg t (number i) (kp (number i)) pkp s;
  kept_curve : ks_curve s = cv;
  kept_max : ks_max_signers s = N;
  kept_participants : ks_participants s = KeySign.numbered 0 (ordered ps);
}.

Lemma generate_ok i inbox left out : (i < n)%nat ->
  machine n t keygen_coins i inbox = Done (kp (number i), pkp) left out ->
  exists vs pkg, verifying_share_bytes (kp (number i)) = Some vs /\
    public_package_bytes pkp = Some pkg /\
    KeyGen.generate (suite cv) (number i) t N (c (peer i) cv) Session.open inbox [] =
      Done (signing_share_bytes (kp (number i)), vs, group, pkg) left out.
Proof.
  intros Hi Hm. assert (1 <= number i <= N) as Hu by (unfold number; lia).
  destruct (KeySignSession.dkg_facts N t keygen_coins kp pkp) as (_ & (pkg & Hpkg & _) & _); [done|lia|done|].
  destruct (@ident_of_some (suite cv) _ (number i)) as [id Hid]; [lia|].
  destruct (dkg_package N t keygen_coins _ _ pkp group id (Hdkg _ Hu) Hid Hgroup) as (vs & Hvs & _).
  exists vs, pkg. split; [done|]. split; [done|]. unfold machine in Hm.
  rewrite keygen_coins_number in Hm.
  unfold KeyGen.generate, mbind, agent_bind, try, lift. rewrite Hm, Hvs. cbn [ok_or].
  rewrite Hgroup. cbn [ok_or]. by rewrite Hpkg.
Qed.

(** A node whose agent is done has saved its share and returns the public key. *)
Lemma keygen_node_done i inbox left out : (i < n)%nat ->
  machine n t keygen_coins i inbox = Done (kp (number i), pkp) left out ->
  exists s b, kept i s /\ to_vec s = Some b /\
    keygen_node i inbox =
      (<[wallet_key_share_path (path (peer i)) (normalize_wallet_id wallet) := b]> (fs (peer i)),
       Done pk left out).
Proof.
  intros Hi Hm. destruct (generate_ok i inbox left out Hi Hm) as (vs & pkg & Hvs & Hpkg & Hgen).
  set (s := {| ks_curve := cv; ks_identifier := number i;
    ks_signing_key := signing_share_bytes (kp (number i)); ks_public_key := vs;
    ks_group_public_key := group; ks_public_key_package := pkg; ks_min_signers := t;
    ks_max_signers := N; ks_participants := KeySign.numbered 0 (ordered ps) |}).
  destruct (share_encodes s) as [b Hb]. exists s, b. split; [by repeat split|]. split; [done|].
  unfold keygen_node, KeyGen.compute. rewrite keygen_prepare by done.
  cbn [KeyGen.new KeyGen.curve kg_threshold kg_wallet_id]. rewrite Hgen.
  unfold KeyGen.key_share_participants. cbn [Peerset.new Peerset.peers]. fold (ordered ps).
  rewrite KeyGen.participants_from_ok by (rewrite ordered_length; lia). fold (KeySign.numbered 0 (ordered ps)).
  fold s. unfold KeyGen.save_key_share. cbn [files_ok KeyGen.mkdir_ok KeyGen.create_ok negb].
  rewrite Hb. cbn [KeyGen.write_ok KeyGen.path].
  unfold mbind, agent_bind, try, lift. cbn. by rewrite Hpk.
Qed.

Lemma keygen_node_waiting i inbox out : (i < n)%nat ->
  machine n t keygen_coins i inbox = Waiting out -> (keygen_node i inbox).2 = Waiting out.
Proof.
  intros Hi Hm. unfold keygen_node, KeyGen.compute. rewrite keygen_prepare by done.
  cbn [KeyGen.new KeyGen.curve kg_threshold]. unfold machine in Hm.
  rewrite keygen_coins_number in Hm. unfold KeyGen.generate. unfold mbind at 1, agent_bind at 1.
  by rewrite Hm.
Qed.

Lemma scripted_keygen :
  scripted n (fun i inbox => (keygen_node i inbox).2) (script n t keygen_coins) (fun _ => pk).
Proof.
  eapply scripted_through; [|by apply (scripted_dkg bytes_encode n t keygen_coins Ht ltac:(lia) kp pkp)].
  intros i inbox Hi. split.
  - intros left out Hm. destruct (keygen_node_done i inbox left out Hi Hm) as (s & b & _ & _ & ->). done.
  - intros out. by apply keygen_node_waiting.
Qed.

(** ** Signing *)

(** The agent runs over the ciphersuite of the share's curve. *)
Lemma run_signing_curve s cv' us msg (coins : forall cv, @coins (suite cv)) :
  ks_curve s = cv' ->
  KeySign.run_signing (F:=suite (ks_curve s)) s us msg (coins (ks_curve s)) =
  KeySign.run_signing (F:=suite cv') s us msg (coins cv').
Proof. by intros <-. Qed.

Section sign.
Variables (qs : list PeerId) (message sb : bytes).
Variables (d : PeerId -> forall cv, @coins (suite cv)) (files : PeerId -> gmap chars bytes)
  (share : PeerId -> KeyShare).
Abbreviation m := (length qs).
Abbreviation signer j := (ordered qs !!! j).

Hypothesis Hqnd : NoDup qs.
Hypothesis Hsub : forall q, q ∈ qs -> q ∈ ps.
Hypothesis Hlen : t <= Z.of_nat m.
Hypothesis Hsb : encode_sign_payload wallet message = Ok sb.
Hypothesis Hread : forall q, q ∈ qs ->
  KeyGen.read_key_share (path q) (files q) (normalize_wallet_id wallet) = Ok (share q) /\
  kept (place ps q) (share q).

(** The [j]-th node of the signing session. *)
Definition sign_node (j : nat) (inbox : list AgentMessage) : run bytes :=
  KeySign.compute suite (KeySign.new (path (signer j))) (files (signer j))
    (Peerset.new qs (signer j)) sb (d (signer j)) Session.open inbox [].

(** The numbers of the signers, and what they have, by number. *)
Definition numbers : list Z := (fun q => number (place ps q)) <$> ordered qs.
Definition sign_coins (u : Z) : @coins (suite cv) := d (peer (Z.to_nat (u - 1))) cv.
Definition share_by_number (u : Z) : KeyShare := share (peer (Z.to_nat (u - 1))).

Lemma peer_number q : q ∈ ps -> peer (Z.to_nat (number (place ps q) - 1)) = q.
Proof.
  intros Hq. unfold number. replace (Z.to_nat (Z.of_nat (place ps q) + 1 - 1)) with (place ps q) by lia.
  by apply list_lookup_total_correct, lookup_place.
Qed.

Lemma signer_in j : (j < m)%nat -> signer j ∈ qs /\ numbers !!! j = number (place ps (signer j)).
Proof.
  intros Hj. pose proof (ordered_lookup qs j Hj) as Hl. split.
  - apply elem_of_ordered, list_elem_of_lookup. eauto.
  - apply list_lookup_total_correct. unfold numbers. by rewrite list_lookup_fmap, Hl.
Qed.

Lemma place_lt q : q ∈ ps -> (place ps q < n)%nat.
Proof. intros Hq%lookup_place%lookup_lt_Some. by rewrite ordered_length in Hq. Qed.

Lemma elem_of_numbers u : u ∈ numbers -> exists q, q ∈ qs /\ u = number (place ps q).
Proof.
  unfold numbers. intros (q & -> & Hq)%list_elem_of_fmap. exists q. split; [|done].
  by apply elem_of_ordered.
Qed.

Lemma numbers_nodup : NoDup numbers.
Proof.
  apply NoDup_fmap_2_strong; [|by apply ordered_nodup]. intros p q Hp Hq.
  rewrite elem_of_ordered in Hp, Hq. unfold number. intros Heq.
  assert (place ps p = place ps q) as Hpl by lia.
  pose proof (lookup_place ps p (Hsub p Hp)) as Hlp. rewrite Hpl in Hlp.
  rewrite (lookup_place ps q (Hsub q Hq)) in Hlp. by injection Hlp.
Qed.

Lemma sign_prepare j : (j < m)%nat ->
  KeySign.prepare (KeySign.new (path (signer j))) (files (signer j)) (Peerset.new qs (signer j)) sb =
  Ok (share (signer j), numbers, message).
Proof.
  intros Hj. destruct (signer_in j Hj) as [Hq _]. destruct (Hread _ Hq) as [Hr [Hd _ Hmax Hparts]].
  unfold KeySign.prepare. unfold encode_sign_payload in Hsb. apply ok_or_ok, from_to_vec in Hsb.
  unfold decode_sign_payload. rewrite Hsb. cbn [ok_or mbind outcome_bind sg_wallet_id sg_message].
  rewrite normalize_idempotent. cbn [KeySign.new KeySign.path]. rewrite Hr.
  cbn [mbind outcome_bind]. unfold KeySign.apply_key_share_participants.
  cbn [Peerset.new Peerset.peers Peerset.local_peer_id]. fold (ordered qs).
  assert (forall q, q ∈ signer j :: ordered qs -> ordered ps !! place ps q = Some q) as Hf.
  { intros q [->|Hin]%elem_of_cons; apply lookup_place, Hsub; [done|by apply elem_of_ordered]. }
  rewrite (KeySign.parties_numbered _ (ordered ps) _ _ (place ps)); [|..|done].
  - cbn [mbind outcome_bind Peerset.parties].
    rewrite (KeySign.session_numbers (ordered ps))
      by (rewrite ?ordered_length; try lia; intros; apply Hf; by constructor).
    by rewrite (KeySignSession.sd_identifier _ _ _ _ _ Hd), (proj2 (Z.eqb_eq _ _)).
  - by apply ordered_nodup.
  - intros Hnil. pose proof (ordered_length ps) as Hl. rewrite Hnil in Hl. cbn in Hl. lia.
  - done.
  - by rewrite ordered_length.
  - rewrite ordered_length. lia.
Qed.

(** The run of a node is that of its agent over the suite of the share's curve. *)
Lemma sign_node_run j inbox : (j < m)%nat ->
  sign_node j inbox =
  match KeySignSession.machine (F:=suite cv) sign_coins numbers message share_by_number j inbox with
  | Done sg rest out => try "error encoding signature" (to_vec sg) Session.open rest out
  | Failed e out => Failed e out
  | Waiting out => Waiting out
  | Crashed why out => Crashed why out
  end.
Proof.
  intros Hj. destruct (signer_in j Hj) as [Hq Hnum]. destruct (Hread _ Hq) as [_ Hkept].
  unfold sign_node, KeySign.compute. unfold mbind at 1, agent_bind at 1, lift at 1.
  rewrite sign_prepare by done. unfold KeySignSession.machine, KeySignSession.party_of.
  rewrite Hnum. unfold share_by_number, sign_coins. rewrite peer_number by auto.
  rewrite (run_signing_curve (share (signer j)) cv numbers message (d (signer j)) (kept_curve _ _ Hkept)).
  reflexivity.
Qed.

Lemma numbers_length : length numbers = m.
Proof. unfold numbers. by rewrite length_fmap, ordered_length. Qed.

Lemma share_fits u : u ∈ numbers ->
  KeySignSession.share_of_dkg t u (kp u) pkp (share_by_number u) /\
  ks_curve (share_by_number u) = cv /\ 1 <= u <= N.
Proof.
  intros (q & Hq & ->)%elem_of_numbers. unfold share_by_number. rewrite peer_number by auto.
  destruct (Hread q Hq) as [_ [Hd Hc _ _]]. split; [done|]. split; [done|].
  pose proof (place_lt q (Hsub q Hq)). unfold number. lia.
Qed.

Lemma scripted_sign :
  exists sig sigb signed script, verify pkp message sig = true /\ signature_bytes sig = Some sigb /\
    to_vec {| KeySign.sig_curve := cv; KeySign.sig_pub_key := group;
              KeySign.sig_signature := sigb |} = Some signed /\
    scripted m sign_node script (fun _ => signed) /\ in_waves m 2 script /\
    forall j, (j < m)%nat -> length (deliveries_for m script j) = (2 * (m - 1))%nat.
Proof.
  destruct (KeySignSession.signers_scripted N t keygen_coins kp pkp numbers sign_coins message
    share_by_number bytes_encode Ht ltac:(lia) Hdkg numbers_nodup)
    as (sig & sigb & group' & Hv & Hsg & Hg & Hscr & Hcount).
  - intros u Hu. by apply share_fits.
  - by rewrite numbers_length.
  - intros u Hu. by apply share_fits.
  - rewrite Hgroup in Hg. injection Hg as <-. rewrite numbers_length in Hscr, Hcount.
    destruct (signature_encodes {| KeySign.sig_curve := cv; KeySign.sig_pub_key := group;
      KeySign.sig_signature := sigb |}) as [signed Hsigned].
    exists sig, sigb, signed. eexists. split; [done|]. split; [done|]. split; [done|].
    split; [|split; [|exact Hcount]].
    2:{ rewrite <- numbers_length. apply KeySignSession.sign_waves. }
    eapply scripted_through; [|exact Hscr].
    intros j inbox Hj. rewrite sign_node_run by done. split; [|by intros out ->].
    intros rest out ->. unfold KeySignSession.result, KeySignSession.party_of.
    destruct (share_fits (numbers !!! j)) as (_ & -> & _); [|unfold try, lift; by rewrite Hsigned].
    apply list_elem_of_lookup. exists j. apply list_lookup_lookup_total_lt. by rewrite numbers_length.
Qed.
End sign.
End keygen.

(** What the nodes of a key generation, and then those of a quorum of its peers, send. *)
Lemma keygen_sign_scripts cv ps t wallet kb c path fs :
  let n := length ps in
  let node i := keygen_node cv ps kb c path fs i in
  let run i inbox := (node i inbox).2 in
  NoDup ps -> 2 <= t <= Z.of_nat n -> Z.of_nat n < u16_max ->
  encode_keygen_payload wallet t = Ok kb ->
  exists (pkp : @PublicKeyPackage (suite cv)) group pk script1,
    group_key_bytes pkp = Some group /\
    to_vec {| pk_curve := cv; pk_bytes := group |} = Some pk /\
    scripted n run script1 (fun _ => pk) /\ in_waves n 1 script1 /\
    (forall i, (i < n)%nat -> length (deliveries_for n script1 i) = (2 * (n - 1))%nat) /\
    forall k s, nsteps (step n run) k start s -> (forall s', ~ step n run s s') ->
    forall files, (forall p, p ∈ ps -> files p = (node (place ps p) (inbox s (place ps p))).1) ->
    forall qs message sb d, NoDup qs -> (forall q, q ∈ qs -> q ∈ ps) -> t <= Z.of_nat (length qs) ->
      encode_sign_payload wallet message = Ok sb ->
      exists sig sigb signed script2, verify pkp message sig = true /\ signature_bytes sig = Some sigb /\
        to_vec {| KeySign.sig_curve := cv; KeySign.sig_pub_key := group;
                  KeySign.sig_signature := sigb |} = Some signed /\
        scripted (length qs) (sign_node path qs sb d files) script2 (fun _ => signed) /\
        in_waves (length qs) 2 script2 /\
        forall j, (j < length qs)%nat ->
          length (deliveries_for (length qs) script2 j) = (2 * (length qs - 1))%nat.
Proof.
  intros n node run Hnd Ht Hn Hkb.
  destruct (dkg_correct (FrostCorrect:=correct cv) (Z.of_nat n) t (keygen_coins cv ps c) Ht ltac:(lia))
    as (kp & pkp & Hdkg & [group Hg] & _).
  destruct (public_key_encodes {| pk_curve := cv; pk_bytes := group |}) as [pk Hpk].
  pose proof (scripted_keygen cv ps t wallet kb c path fs Hnd Ht Hn Hkb kp pkp group pk Hdkg Hg Hpk)
    as Hscr.
  exists pkp, group, pk. eexists. split; [done|]. split; [done|]. split; [exact Hscr|]. split.
  { eapply dkg_waves; eauto; lia. }
  split; [intros i Hi; eapply dkg_deliveries_count; eauto; lia|].
  intros k s Hk Hstuck files Hfiles qs message sb d Hqnd Hsub Hlen Hsb.
  assert (forall q, q ∈ ps -> exists x,
    KeyGen.read_key_share (path q) (files q) (normalize_wallet_id wallet) = Ok x /\
    kept cv ps t kp pkp (place ps q) x) as Hsaved.
  { intros q Hq. pose proof (place_lt ps q Hq) as Hi. rewrite (Hfiles q Hq).
    assert (ordered ps !!! place ps q = q) as Hpq by (by apply list_lookup_total_correct, lookup_place).
    pose proof (stuck_through n _ _ _ _ _ k s (place ps q)
      (scripted_dkg bytes_encode n t (keygen_coins cv ps c) Ht ltac:(lia) kp pkp Hdkg) Hscr Hk Hstuck Hi)
      as Hm.
    destruct (keygen_node_done cv ps t wallet kb c path fs Hnd Ht Hn Hkb kp pkp group pk Hdkg Hg Hpk
      (place ps q) _ _ _ Hi Hm) as (x & b & Hkept & Hb & Hrun).
    exists x. split; [|done]. unfold node. rewrite Hrun. cbn [fst]. rewrite Hpq.
    unfold KeyGen.read_key_share. rewrite lookup_insert_eq. cbn. by rewrite (from_to_vec _ _ Hb). }
  pose (dummy := {| ks_curve := cv; ks_identifier := 0; ks_signing_key := []; ks_public_key := [];
    ks_group_public_key := []; ks_public_key_package := []; ks_min_signers := 0;
    ks_max_signers := 0; ks_participants := [] |}).
  pose (share q := match KeyGen.read_key_share (path q) (files q) (normalize_wallet_id wallet) with
    | Ok x => x | _ => dummy end).
  apply (scripted_sign cv ps t wallet c path Hnd Ht Hn kp pkp group Hdkg Hg qs message sb d files
    share Hqnd Hsub Hlen Hsb).
  intros q Hq. destruct (Hsaved q (Hsub q Hq)) as (x & Hx & Hkept). unfold share. by rewrite Hx.
Qed.

(** C2: from a key generation to a signature.  A key generation is asked for with a
    wallet and a threshold [t] between 2 and the number [n] of the peers [ps], and every
    node runs its agent with the peer set of the session.  Whatever the network does
    with the timing, all nodes return the same public key.  When nothing is left to
    deliver, every node has a key share in its files, and with these files any [t] or
    more of the peers can sign under that wallet: again whatever the network does, all of
    them return the same encoded signature, which holds that public key and a
    signature that verifies for the message under the group key. *)
Theorem keygen_then_signing cv ps t wallet kb c path fs :
  let n := length ps in
  let node i := keygen_node cv ps kb c path fs i in
  let run i inbox := (node i inbox).2 in
  NoDup ps -> 2 <= t <= Z.of_nat n -> Z.of_nat n < u16_max ->
  encode_keygen_payload wallet t = Ok kb ->
  exists (pkp : @PublicKeyPackage (suite cv)) group pk,
    group_key_bytes pkp = Some group /\
    to_vec {| pk_curve := cv; pk_bytes := group |} = Some pk /\
    session_completes n run (n * (2 * (n - 1))) (fun _ => pk) /\
    forall k s, nsteps (step n run) k start s -> (forall s', ~ step n run s s') ->
    forall files, (forall p, p ∈ ps -> files p = (node (place ps p) (inbox s (place ps p))).1) ->
    forall qs message sb d, NoDup qs -> (forall q, q ∈ qs -> q ∈ ps) -> t <= Z.of_nat (length qs) ->
      encode_sign_payload wallet message = Ok sb ->
      exists sig sigb signed, verify pkp message sig = true /\ signature_bytes sig = Some sigb /\
        to_vec {| KeySign.sig_curve := cv; KeySign.sig_pub_key := group;
                  KeySign.sig_signature := sigb |} = Some signed /\
        session_completes (length qs) (sign_node path qs sb d files)
          (length qs * (2 * (length qs - 1))) (fun _ => signed).
Proof.
  intros n node run Hnd Ht Hn Hkb.
  destruct (keygen_sign_scripts cv ps t wallet kb c path fs Hnd Ht Hn Hkb)
    as (pkp & group & pk & script1 & Hg & Hpk & Hscr & _ & Hcount & Hsign).
  exists pkp, group, pk. split; [done|]. split; [done|]. split; [by apply (scripted_completes _ _ script1)|].
  intros k s Hk Hstuck files Hfiles qs message sb d Hqnd Hsub Hlen Hsb.
  destruct (Hsign k s Hk Hstuck files Hfiles qs message sb d Hqnd Hsub Hlen Hsb)
    as (sig & sigb & signed & script2 & Hv & Hs & Hsg & Hscr2 & _ & Hcount2).
  exists sig, sigb, signed. split; [done|]. split; [done|]. split; [done|].
  by apply (scripted_completes _ _ script2).
Qed.
End end_to_end.
End EndToEnd.
