(* ===== verification/Launch.v ===== *)
(** * From a request to the executions of all nodes

    How the executions that [System] starts from come about: a worker takes a local request,
    negotiates ([Negotiation]) and begins a computation; the workers of the peers take its
    proposal, wait for the start message ([Coordination]) and begin too.
    [proposer_begins] and [joiner_begins] say what each has begun, [formed_initial] that
    together they are a system at its start, whatever each worker was busy with before. *)

From Stdlib Require Import ZArith Lia Strings.Byte.
From stdpp Require Import base gmap strings numbers list.
From S2P Require Import Prelude Wire Messages Peerset StartMsg Room NetworkProxy Negotiation Coordination.
From S2P Require Import Storage Execution Worker Session System.

Local Open Scope Z_scope.

Lemma not_longer {A} (l : list A) x : l <> l ++ [x].
Proof. intros Hl%(f_equal length). rewrite length_app in Hl. cbn in Hl. lia. Qed.

Module Launch.

(** ** A turn in which a computation begins *)

Section turn.
Context `{PI : PeerIdLaws} `{UV : UnsignedVarintLaws} `{CA : ComputeAgents}.
Variable local : PeerId.
Import Worker.

(** A turn of the loop of [Worker::run] that adds the execution [e] of [room]. *)
Record begins (w : t) (ev : event) (w' : t) (out : list effect) (room : RoomId)
  (e : ProtocolExecution.t) : Prop := {
  begins_turn : step local w ev = Ok (w', out);
  begins_new : protocol_executions w' = protocol_executions w ++ [(room, e)];
}.

Lemma dispatch_local_executions m w :
  protocol_executions (dispatch_local_msg m w).1.1 = protocol_executions w.
Proof.
  unfold dispatch_local_msg, dispatch_to_room. destruct m; destruct (rooms_rpc w !! _); cbn;
    by case_bool_decide.
Qed.

Lemma dispatch_pending_executions room w :
  protocol_executions (dispatch_pending_local room w).1 = protocol_executions w.
Proof.
  unfold dispatch_pending_local. case_bool_decide; [done|].
  destruct (pending_local w !! room) as [[|m q]|]; [done| |done].
  match goal with |- context [dispatch_local_msg ?m ?w1] =>
    pose proof (dispatch_local_executions m w1) as Hd;
    destruct (dispatch_local_msg m w1) as [[w2 sent] out] end.
  cbn in Hd |- *. by destruct sent.
Qed.

Lemma reopen_executions room ch tx w :
  protocol_executions (reopen room ch tx w).1 = protocol_executions w.
Proof. unfold reopen. by rewrite dispatch_pending_executions. Qed.

Lemma begin_executions room sid req a px ps reply w w' :
  begin room sid req a px ps reply w = Ok w' ->
  exists e, ProtocolExecution.new room sid req a ps (storage w) reply = Ok e /\
    protocol_executions w' = protocol_executions w ++ [(room, e)].
Proof.
  unfold begin. destruct ProtocolExecution.new as [e| |]; [|done..]. intros [= <-]. by exists e.
Qed.

(** The executions after a turn of a phase 1. *)
Lemma from_local_begins id ng os w w' out room e :
  from_local local id ng os w = Ok (w', out) ->
  protocol_executions w' = protocol_executions w ++ [(room, e)] ->
  exists os' a reply px ps req sid, Negotiation.run local ng os' = Negotiation.Start a reply px ps req sid out /\
    room = id /\ ProtocolExecution.new room sid req a ps (storage w) (Some reply) = Ok e.
Proof.
  unfold from_local. set (os' := _ <$> os). intros Hs Hx.
  destruct (Negotiation.run local ng os') as [|a reply px ps req sid out'|r p1 tx reply out'|] eqn:Hr; [done| | |done].
  - apply bind_ok in Hs as (w1 & Hb & Hs). injection Hs as <- <-.
    apply begin_executions in Hb as (e' & He & Hw). rewrite Hw in Hx.
    apply app_inv_head in Hx. injection Hx as <- <-. by repeat eexists.
  - pose proof (reopen_executions r p1 tx w) as Hw. destruct (reopen r p1 tx w) as [w1 out1].
    injection Hs as <- <-. cbn in Hw. rewrite Hw in Hx. by apply not_longer in Hx.
Qed.

Lemma from_remote_begins pid tx ch os w w' out room e :
  from_remote local pid tx ch os w = Ok (w', out) ->
  protocol_executions w' = protocol_executions w ++ [(room, e)] ->
  exists a fresh px ps body sid out', factory_make pid = Some a /\
    Coordination.phase2_run local ch
      ((fun o => {| Coordination.now2 := Coordination.now2 o; Coordination.next2 := Coordination.next2 o;
                    Coordination.fresh2 := fresh |}) <$> os) =
      Coordination.Start2 room px ps body sid out' /\
    ProtocolExecution.new room sid body a ps (storage w) None = Ok e.
Proof.
  unfold from_remote. set (w1 := set_busy _ w). intros Hs Hx.
  change (protocol_executions w) with (protocol_executions w1) in Hx.
  change (storage w) with (storage w1). clearbody w1.
  destruct (factory_make pid) as [a|].
  - destruct (Coordination.phase2_run local ch _) as [r px ps body sid out'|r p1 tx' out'| |] eqn:Hr;
      [| |done..].
    + apply bind_ok in Hs as (w2 & Hb & Hs). injection Hs as <- <-.
      apply begin_executions in Hb as (e' & He & Hw). rewrite Hw in Hx.
      apply app_inv_head in Hx. injection Hx as <- <-. by repeat eexists.
    + pose proof (reopen_executions r p1 tx' w1) as Hw. destruct (reopen r p1 tx' w1) as [w2 out2].
      injection Hs as <- <-. cbn in Hw. rewrite Hw in Hx. by apply not_longer in Hx.
  - destruct (Coordination.phase2_abort ch _) as [|r p1 tx' out'| |]; [done| |done..].
    pose proof (reopen_executions r p1 tx' w1) as Hw. destruct (reopen r p1 tx' w1) as [w2 out2].
    injection Hs as <- <-. cbn in Hw. rewrite Hw in Hx. by apply not_longer in Hx.
Qed.
Lemma new_fields room sid req a ps st reply e :
  ProtocolExecution.new room sid req a ps st reply = Ok e ->
  ProtocolExecution.session e = sid /\ ProtocolExecution.request e = req /\
  ProtocolExecution.protocol e = agent_protocol_id a /\ ProtocolExecution.peerset e = ps /\
  ProtocolExecution.reply_to e = reply.
Proof. unfold ProtocolExecution.new. intros Hn. inv_ok. case_match; [done|]. by injection Hn as <-. Qed.

(** Only the turn of an idle room begins a computation. *)
Lemma begins_idle w ev w' out room e :
  begins w ev w' out room e ->
  exists k now next sid os2 osn ch, ev = IdlePoll k now next sid os2 osn /\
    rooms_coordination w !! k = Some ch /\
    let o := {| Coordination.now1 := now; Coordination.next1 := next;
                Coordination.request1 := request_view w ch; Coordination.fresh_session := sid |} in
    let w1 := set_rooms (delete k (rooms_coordination w)) (rooms_rpc w)
                (delete (p1_request ch) (requests w)) w in
    (exists id n0 ng out1 out2, Coordination.phase1_poll local ch o = Coordination.FromLocal id n0 ng out1 /\
       from_local local id ng osn w1 = Ok (w', out2) /\ out = out1 ++ out2) \/
    (exists p pid b tx ch2 out2, Coordination.phase1_poll local ch o = Coordination.FromRemote p pid b tx ch2 /\
       from_remote local pid tx ch2 os2 w1 = Ok (w', out2)).
Proof.
  intros [Hs Hx]. destruct ev as [m|k now next sid os2 osn|k res|k o]; cbn [step] in Hs.
  - exfalso. case_bool_decide; [injection Hs as <- _; by apply not_longer in Hx|].
    pose proof (dispatch_local_executions m w) as Hd. destruct (dispatch_local_msg m w) as [[w1 sent] out1].
    injection Hs as <- _. destruct sent; cbn in Hx, Hd; rewrite Hd in Hx; by apply not_longer in Hx.
  - apply bind_ok in Hs as (ch & Hk%ok_or_ok & Hs). exists k, now, next, sid, os2, osn, ch.
    split; [done|]. split; [done|]. cbn zeta.
    destruct (Coordination.phase1_poll local ch _) as [p pid b tx ch2|id n0 ng out1|ch' out1|]; [| | |done].
    + right. apply bind_ok in Hs as ([w1 out2] & Hr & Hs). injection Hs as <- <-. by repeat eexists.
    + left. apply bind_ok in Hs as ([w1 out2] & Hr & Hs). injection Hs as <- <-. by repeat eexists.
    + exfalso. injection Hs as <- <-. by apply not_longer in Hx.
  - exfalso. unfold execution_done in Hs. apply bind_ok in Hs as ([r e0] & Hk%ok_or_ok & Hs).
    assert (protocol_executions w' = delete k (protocol_executions w)) as Hd.
    { destruct (pending_room_restores _ !! r) as [[p1 tx]|]; injection Hs as Hs; [|by rewrite <- Hs].
      apply (f_equal fst) in Hs. cbn [fst] in Hs. rewrite <- Hs. by rewrite dispatch_pending_executions. }
    rewrite Hd in Hx. apply (f_equal length) in Hx. rewrite length_app in Hx. cbn in Hx.
    rewrite length_delete in Hx by eauto. lia.
  - exfalso. unfold proxy_poll in Hs. apply bind_ok in Hs as (px & Hk%ok_or_ok & Hs).
    destruct (ReceiverProxy.poll _ _) as [r p1 tx|px' ds|]; [| |done].
    + case_bool_decide; [injection Hs as <- _; by apply not_longer in Hx|].
      injection Hs as Hs. apply (f_equal fst) in Hs. cbn [fst] in Hs. rewrite <- Hs in Hx.
      rewrite dispatch_pending_executions in Hx. by apply not_longer in Hx.
    + injection Hs as <- _. by apply not_longer in Hx.
Qed.

Lemma request_view_some w ch lm : request_view w ch = RecvMsg lm -> requests w !! p1_request ch = Some lm.
Proof. unfold request_view. repeat case_match; try done. by intros [= ->]. Qed.

(** Phase 1 hands over the local request it has received. *)
Lemma phase1_local ch o id n0 ng out :
  Coordination.phase1_poll local ch o = Coordination.FromLocal id n0 ng out ->
  exists lm rx, Coordination.request1 o = RecvMsg lm /\ id = p1_id ch /\
    ng = Negotiation.new local (p1_id ch) rx (rpc_n lm) (rpc_payload lm) (rpc_agent lm)
           (rpc_pending_response lm) (Coordination.now1 o) (Coordination.fresh_session o).
Proof.
  assert (forall c out0, p1_id c = p1_id ch ->
    Coordination.phase1_request local c o out0 = Coordination.FromLocal id n0 ng out ->
    exists lm rx, Coordination.request1 o = RecvMsg lm /\ id = p1_id ch /\
      ng = Negotiation.new local (p1_id ch) rx (rpc_n lm) (rpc_payload lm) (rpc_agent lm)
             (rpc_pending_response lm) (Coordination.now1 o) (Coordination.fresh_session o)) as Hreq.
  { intros c out0 <-. unfold Coordination.phase1_request.
    destruct (Coordination.request1 o) as [lm| |]; [|done..]. destruct (p1_rx c) as [rx|]; [|done].
    intros [= <- <- <- <-]. by exists lm, rx. }
  unfold Coordination.phase1_poll. destruct (p1_rx ch) as [rx|]; [|done].
  destruct (Coordination.next1 o) as [m| |]; [|by apply Hreq..].
  destruct (message_type (context m)); [done|].
  destruct (Coordination.buffer_early_computation _ _) as [b out0]. by apply Hreq.
Qed.

(** The message that opens a session, and starts it, is sent in this context. *)
Definition opening (e : ProtocolExecution.t) : MessageContext :=
  {| message_type := Messages.Coordination; protocol_id := ProtocolExecution.protocol e;
     session_id := ProtocolExecution.session e; message_id := 0 |}.

(** What the proposer of [e] has sent to its peers as start message. *)
Definition offers (e : ProtocolExecution.t) (room : RoomId) (b : bytes) (out : list effect) : Prop :=
  StartMsg.to_bytes {| StartMsg.peerset := ProtocolExecution.peerset e;
                       StartMsg.body := ProtocolExecution.request e |} = Ok b /\
  exists dests, dests ≡ₚ Peerset.peers (ProtocolExecution.peerset e) /\
    last out = Some (NetworkRequest room (opening e) (Multicast dests b)).

(** A negotiation begins what it was asked for. *)
Lemma negotiated room rx n0 req a reply now sid os a' r px ps req' sid' out :
  Negotiation.run local (Negotiation.new local room rx n0 req a reply now sid) os =
    Negotiation.Start a' r px ps req' sid' out ->
  a' = a /\ req' = req /\ ReceiverProxy.room_id px = room.
Proof.
  intros Hrun.
  pose proof (Negotiation.run_given local room req a (Negotiation.new local room rx n0 req a reply now sid) os
    (Negotiation.Build_given _ _ _ (Negotiation.new local room rx n0 req a reply now sid) eq_refl
      (ex_intro _ _ (conj eq_refl (conj eq_refl eq_refl))))) as Hg.
  by rewrite Hrun in Hg.
Qed.

(** A worker that begins for a local request has taken it from its channel: the computation
    is for that request, with as many peers as it asks for, this node among them, and they
    have been sent the start message. *)
Lemma proposer_begins w ev w' out room e r :
  begins w ev w' out room e -> ProtocolExecution.reply_to e = Some r ->
  exists ch lm ms b, ch ∈ rooms_coordination w /\ requests w !! p1_request ch = Some lm /\
    room = p1_id ch /\ r = rpc_pending_response lm /\
    ProtocolExecution.request e = rpc_payload lm /\
    ProtocolExecution.protocol e = agent_protocol_id (rpc_agent lm) /\
    ProtocolExecution.peerset e = Peerset.new ms local /\ NoDup ms /\ local ∈ ms /\
    Z.of_nat (length ms) = rpc_n lm /\ offers e room b out.
Proof.
  intros Hb Hrep. pose proof (begins_new _ _ _ _ _ _ Hb) as Hx.
  apply begins_idle in Hb as (k & now & next & sid & os2 & osn & ch & -> & Hk & [Hl|Hr]).
  - destruct Hl as (id & n0 & ng & out1 & out2 & Hp & Hl & ->).
    apply (from_local_begins _ _ _ _ _ _ room e) in Hl
      as (os' & a & reply & px & ps & req & sid' & Hrun & -> & Hnew); [|exact Hx].
    apply new_fields in Hnew as (Hsid & Hreq & Hproto & Hps & Hreply).
    apply phase1_local in Hp as (lm & rx & Hlm & -> & ->).
    cbn [Coordination.now1 Coordination.fresh_session Coordination.request1] in Hlm, Hrun.
    pose proof (request_view_some _ _ _ Hlm) as Hreqs.
    pose proof (negotiated _ _ _ _ _ _ _ _ _ _ _ _ _ _ _ _ Hrun) as (-> & -> & Hroom).
    apply Negotiation.run_start_multicast in Hrun as Hm. destruct Hm as (ms & b & Hms & Hb & Hlast).
    apply (Negotiation.run_start local _ _ _ _ _ _ _ _ _ _ _ _ _ _ (Negotiation.inv_new local (p1_id ch)
      rx (rpc_n lm) (rpc_payload lm) (rpc_agent lm) (rpc_pending_response lm) now sid)) in Hrun
      as (-> & -> & _ & ms' & Hms' & Hsz & Hloc & _).
    assert (elements ms ≡ₚ elements ms') as Hperm.
    { rewrite Hms in Hms'. injection Hms' as Hsort _.
      rewrite <- (sort_by_key_perm bytes_leb peer_to_bytes (elements ms)), Hsort. apply sort_by_key_perm. }
    exists ch, lm, (elements ms), b. split; [by apply list_elem_of_lookup; eauto|].
    rewrite Hreply in Hrep. injection Hrep as <-. rewrite Hps, Hreq.
    do 6 (split; [done|]). split; [apply NoDup_elements|].
    split; [rewrite Hperm; by apply elem_of_elements|].
    split; [rewrite Hperm; by rewrite <- Hsz|].
    split; [by rewrite Hps, Hreq|]. exists (elements ms). split.
    + rewrite Hps, Hms. cbn. by rewrite sort_by_key_perm.
    + unfold opening. rewrite Hsid, Hproto. rewrite last_app, Hlast. by rewrite Hroom.
  - destruct Hr as (p & pid & b & tx & ch2 & out2 & _ & Hr).
    apply (from_remote_begins _ _ _ _ _ _ _ room e) in Hr
      as (a & f & px & ps & body & sid' & out' & _ & _ & Hnew); [|exact Hx].
    apply new_fields in Hnew as (_ & _ & _ & _ & Hnone). congruence.
Qed.

(** The messages that the worker takes from the queue of the room in a turn. *)
Definition message_of (next : try_next IncomingRequest) : option IncomingRequest :=
  if next is NextMsg m then Some m else None.

Definition heard (ev : event) : list IncomingRequest :=
  match ev with
  | IdlePoll _ _ next _ os2 _ =>
      option_list (message_of next) ++ omap (fun o => message_of (Coordination.next2 o)) os2
  | _ => []
  end.

Lemma phase1_remote ch o p pid b tx ch2 :
  Coordination.phase1_poll local ch o = Coordination.FromRemote p pid b tx ch2 ->
  exists m, Coordination.next1 o = NextMsg m /\ message_type (context m) = Messages.Coordination /\
    pid = protocol_id (context m) /\ Coordination.p2_session ch2 = session_id (context m) /\
    Coordination.p2_id ch2 = p1_id ch.
Proof.
  assert (forall c out, Coordination.phase1_request local c o out <> Coordination.FromRemote p pid b tx ch2)
    as Hreq.
  { intros c out. unfold Coordination.phase1_request.
    destruct (Coordination.request1 o); [|done..]. by destruct (p1_rx c). }
  unfold Coordination.phase1_poll. destruct (p1_rx ch) as [rx|]; [|done].
  destruct (Coordination.next1 o) as [m| |]; [|by intros ?%Hreq..].
  destruct (message_type (context m)) eqn:Hm.
  - intros [= <- <- <- <- <-]. by exists m.
  - destruct (Coordination.buffer_early_computation _ _) as [b' out0]. by intros ?%Hreq.
Qed.

(** Phase 2 ends in a computation only by a start message of its session. *)
Lemma phase2_starts ch os room px ps body sid out :
  Coordination.phase2_run local ch os = Coordination.Start2 room px ps body sid out ->
  room = Coordination.p2_id ch /\ sid = Coordination.p2_session ch /\
  exists o m sm, o ∈ os /\ Coordination.next2 o = NextMsg m /\
    message_type (context m) = Messages.Coordination /\ session_id (context m) = sid /\
    StartMsg.from_bytes (payload m) local = Ok sm /\
    ps = StartMsg.peerset sm /\ body = StartMsg.body sm.
Proof.
  revert ch. induction os as [|o os IH]; intros ch; cbn [Coordination.phase2_run]; [done|].
  assert (forall c out', match Coordination.phase2_timer c o out' with
    | Coordination.Pending2 c' _ => c' = c | Coordination.Start2 _ _ _ _ _ _ => False | _ => True end) as Ht.
  { intros c out'. unfold Coordination.phase2_timer, Coordination.back_to_phase1.
    destruct (Coordination.p2_timeout c <=? Coordination.now2 o); [by destruct (Coordination.p2_rx c)|done]. }
  assert (match Coordination.phase2_poll local ch o with
    | Coordination.Pending2 c' _ => Coordination.p2_id c' = Coordination.p2_id ch /\
        Coordination.p2_session c' = Coordination.p2_session ch
    | Coordination.Start2 room px ps body sid out =>
        room = Coordination.p2_id ch /\ sid = Coordination.p2_session ch /\
        exists m sm, Coordination.next2 o = NextMsg m /\
          message_type (context m) = Messages.Coordination /\ session_id (context m) = sid /\
          StartMsg.from_bytes (payload m) local = Ok sm /\
          ps = StartMsg.peerset sm /\ body = StartMsg.body sm
    | _ => True end) as Hp.
  { unfold Coordination.phase2_poll. destruct (Coordination.p2_rx ch) as [rx|] eqn:Hrx; [|done].
    destruct (Coordination.next2 o) as [m| |];
      [|specialize (Ht ch []); by destruct Coordination.phase2_timer; subst..].
    destruct (message_type (context m)) eqn:Hm; case_bool_decide as Hs; [|done| |].
    - destruct (StartMsg.from_bytes (payload m) local) as [sm|e|w] eqn:Hsm; [|by unfold Coordination.back_to_phase1; rewrite Hrx|done].
      split; [done|]. split; [done|]. by exists m, sm.
    - destruct (Coordination.buffer_early_computation _ m) as [b out'].
      match goal with |- context [Coordination.phase2_timer ?c o out'] => specialize (Ht c out') end.
      by destruct Coordination.phase2_timer; subst.
    - match goal with |- context [Coordination.phase2_timer ?c o ?out'] => specialize (Ht c out') end.
      by destruct Coordination.phase2_timer; subst. }
  destruct (Coordination.phase2_poll local ch o) as [r px' ps' body' sid' out'| |c' out'|]; [|done| |done].
  - intros [= -> -> -> -> -> ->]. destruct Hp as (-> & -> & m & sm & Hp). split; [done|]. split; [done|].
    exists o, m, sm. split; [by left|]. exact Hp.
  - destruct Hp as [Hid Hsid]. intros (-> & -> & o' & m & sm & Ho & Hm)%IH.
    rewrite Hid, Hsid in *. split; [done|]. split; [done|]. exists o', m, sm. split; [by right|exact Hm].
Qed.

(** The messages of the session that a worker hears are those of the proposer of [e0]:
    its proposal, which has no body, and its start message. *)
Definition from_proposer (e0 : ProtocolExecution.t) (b : bytes) (m : IncomingRequest) : Prop :=
  message_type (context m) = Messages.Coordination ->
  session_id (context m) = ProtocolExecution.session e0 ->
  context m = opening e0 /\ (payload m = [] \/ payload m = b).

(** A worker that joins a session begins the same computation as the proposer. *)
Lemma joiner_begins `{!ComputeAgentLaws} e0 room0 b out0 ms p0 w ev w' out room e :
  offers e0 room0 b out0 -> ProtocolExecution.peerset e0 = Peerset.new ms p0 ->
  Z.of_nat (length (StartMsg.encoding {| StartMsg.peerset := ProtocolExecution.peerset e0;
    StartMsg.body := ProtocolExecution.request e0 |})) <= BufWriter.capacity ->
  begins w ev w' out room e -> ProtocolExecution.reply_to e = None ->
  ProtocolExecution.session e = ProtocolExecution.session e0 ->
  (forall m, m ∈ heard ev -> from_proposer e0 b m) ->
  ProtocolExecution.peerset e = Peerset.new ms local /\
  ProtocolExecution.request e = ProtocolExecution.request e0 /\
  ProtocolExecution.protocol e = ProtocolExecution.protocol e0.
Proof.
  intros [Hb _] Hps Hfit Hbeg Hnone Hsess Hheard. pose proof (begins_new _ _ _ _ _ _ Hbeg) as Hx.
  apply begins_idle in Hbeg as (k & now & next & sid & os2 & osn & ch & -> & Hk & [Hl|Hr]).
  { destruct Hl as (id & n0 & ng & out1 & out2 & _ & Hl & _).
    apply (from_local_begins _ _ _ _ _ _ room e) in Hl as (? & a & reply & ? & ? & ? & ? & _ & _ & Hnew);
      [|exact Hx].
    apply new_fields in Hnew as (_ & _ & _ & _ & Hsome). congruence. }
  destruct Hr as (p & pid & body & tx & ch2 & out2 & Hp & Hr).
  apply (from_remote_begins _ _ _ _ _ _ _ room e) in Hr
    as (a & f & px & ps & body' & sid' & out' & Hmake & Hrun & Hnew); [|exact Hx].
  apply phase1_remote in Hp as (m1 & Hnext & Hm1 & -> & Hses & _). cbn in Hnext.
  apply phase2_starts in Hrun as (_ & -> & o & m & sm & Ho & Hm & Hmt & Hms & Hsm & -> & ->).
  apply new_fields in Hnew as (Hsid & Hreq & Hproto & Hpeers & _).
  apply make_protocol_id in Hmake. rewrite Hsess, Hses in Hsid. rewrite Hses, <- Hsid in Hms.
  destruct (Hheard m1) as [Hc1 _]; [|done|done|].
  { cbn. rewrite Hnext. by left. }
  destruct (Hheard m) as [_ Hpay]; [|done|done|].
  { cbn. apply elem_of_app. right. apply list_elem_of_omap.
    apply list_elem_of_fmap in Ho as (o' & -> & Ho). exists o'. cbn in Hm. by rewrite Hm. }
  rewrite Hproto, Hmake, Hc1, Hpeers, Hreq. destruct Hpay as [Hpay|Hpay]; rewrite Hpay in Hsm.
  { revert Hsm. unfold StartMsg.from_bytes, read_uint. by rewrite uv_read_eof. }
  rewrite StartMsg.start_to_bytes_fits in Hb by done. injection Hb as <-.
  rewrite StartMsg.start_from_bytes_encoding in Hsm; [|done|].
  - injection Hsm as <-. cbn. by rewrite Hps.
  - destruct (StartMsg.start_encoding_bounds {| StartMsg.peerset := ProtocolExecution.peerset e0;
      StartMsg.body := ProtocolExecution.request e0 |}) as [Hbound _].
    cbn [StartMsg.peerset] in *. rewrite Hps in *. apply Peerset.new_parties_range. lia.
Qed.

(** The execution of a turn, as it was made: its agent is that of a local request, or the
    factory has made it for a proposal. *)
Lemma begins_made w ev w' out room e :
  begins w ev w' out room e ->
  exists a st, ProtocolExecution.new room (ProtocolExecution.session e) (ProtocolExecution.request e) a
    (ProtocolExecution.peerset e) st (ProtocolExecution.reply_to e) = Ok e /\
    ((exists k lm, requests w !! k = Some lm /\ a = rpc_agent lm) \/
     (exists pid, factory_make pid = Some a)).
Proof.
  intros Hb. pose proof (begins_new _ _ _ _ _ _ Hb) as Hx.
  apply begins_idle in Hb as (k & now & next & sid & os2 & osn & ch & -> & Hk & [Hl|Hr]).
  - destruct Hl as (id & n0 & ng & out1 & out2 & Hp & Hl & _).
    apply (from_local_begins _ _ _ _ _ _ room e) in Hl as (? & a & ? & ? & ? & ? & ? & Hrun & _ & Hnew);
      [|exact Hx].
    apply phase1_local in Hp as (lm & rx & Hlm & -> & ->). apply negotiated in Hrun as (-> & _).
    eexists _, _. pose proof (new_fields _ _ _ _ _ _ _ _ Hnew) as (-> & -> & _ & -> & ->).
    split; [exact Hnew|]. left. exists (p1_request ch), lm. split; [|done].
    by apply request_view_some.
  - destruct Hr as (p & pid & b & tx & ch2 & out2 & _ & Hr).
    apply (from_remote_begins _ _ _ _ _ _ _ room e) in Hr as (a & ? & ? & ? & ? & ? & ? & Hmake & _ & Hnew);
      [|exact Hx].
    eexists a, _. pose proof (new_fields _ _ _ _ _ _ _ _ Hnew) as (-> & -> & _ & -> & ->).
    split; [exact Hnew|]. right. by exists pid.
Qed.
(** *** The agents of local requests are made by the factory *)

Definition known_agents (w : t) : Prop :=
  map_Forall (fun _ lm => rpc_agent lm = factory_keygen \/ rpc_agent lm = factory_keysign) (requests w).

Lemma dispatch_local_known m w : known_agents w -> known_agents (dispatch_local_msg m w).1.1.
Proof.
  intros Hw. unfold dispatch_local_msg, dispatch_to_room.
  destruct m; destruct (rooms_rpc w !! _); cbn; case_bool_decide; cbn; try exact Hw;
    apply map_Forall_insert_2; cbn; auto; exact Hw.
Qed.

Lemma dispatch_pending_known room w : known_agents w -> known_agents (dispatch_pending_local room w).1.
Proof.
  intros Hw. unfold dispatch_pending_local. case_bool_decide; [done|].
  destruct (pending_local w !! room) as [[|m q]|]; [done| |done].
  match goal with |- context [dispatch_local_msg ?m ?w1] =>
    pose proof (dispatch_local_known m w1 Hw) as Hd; destruct (dispatch_local_msg m w1) as [[w2 sent] out] end.
  by destruct sent.
Qed.

Lemma reopen_known room ch tx w : known_agents w -> known_agents (reopen room ch tx w).1.
Proof. intros Hw. unfold reopen. by apply dispatch_pending_known. Qed.

Lemma begin_known room sid req a px ps reply w w' :
  known_agents w -> begin room sid req a px ps reply w = Ok w' -> known_agents w'.
Proof. unfold begin. destruct ProtocolExecution.new; [|done..]. by intros ? [= <-]. Qed.

Lemma from_local_known id ng os w w' out :
  known_agents w -> from_local local id ng os w = Ok (w', out) -> known_agents w'.
Proof.
  intros Hw. unfold from_local. destruct Negotiation.run as [|a reply px ps req sid out'|r p1 tx reply out'|]; [done| | |done].
  - intros (w1 & Hb & Hs)%bind_ok. injection Hs as <- _. by eapply begin_known.
  - pose proof (reopen_known r p1 tx w Hw) as Hr.
    destruct (reopen r p1 tx w). by intros [= <- _].
Qed.

Lemma from_remote_known pid tx ch os w w' out :
  known_agents w -> from_remote local pid tx ch os w = Ok (w', out) -> known_agents w'.
Proof.
  intros Hw. unfold from_remote. set (w1 := set_busy _ w).
  assert (known_agents w1) as Hw1 by exact Hw. clearbody w1.
  destruct (factory_make pid) as [a|].
  - destruct Coordination.phase2_run as [r px ps body sid out'|r p1 tx' out'| |]; [| |done..].
    + intros (w2 & Hb & Hs)%bind_ok. injection Hs as <- _. by eapply begin_known.
    + pose proof (reopen_known r p1 tx' w1 Hw1) as Hr.
      destruct (reopen r p1 tx' w1). by intros [= <- _].
  - destruct (Coordination.phase2_abort ch _) as [|r p1 tx' out'| |]; [done| |done..].
    pose proof (reopen_known r p1 tx' w1 Hw1) as Hr.
    destruct (reopen r p1 tx' w1). by intros [= <- _].
Qed.

Lemma step_known w ev w' out : known_agents w -> step local w ev = Ok (w', out) -> known_agents w'.
Proof.
  intros Hw. destruct ev as [m|k now next sid os2 osn|k res|k o]; cbn [step].
  - case_bool_decide; [by intros [= <- _]|].
    pose proof (dispatch_local_known m w Hw) as Hd. destruct (dispatch_local_msg m w) as [[w1 sent] out1].
    intros [= <- _]. by destruct sent.
  - intros (ch & _ & Hs)%bind_ok.
    assert (known_agents (set_rooms (delete k (rooms_coordination w)) (rooms_rpc w)
      (delete (p1_request ch) (requests w)) w)) as Hd by by apply map_Forall_delete.
    destruct (Coordination.phase1_poll local ch _); [| | |done].
    + apply bind_ok in Hs as ([w1 out2] & Hr & Hs). injection Hs as <- _. by eapply from_remote_known.
    + apply bind_ok in Hs as ([w1 out2] & Hr & Hs). injection Hs as <- _. by eapply from_local_known.
    + by injection Hs as <- _.
  - unfold execution_done. intros ([r e0] & _ & Hs)%bind_ok.
    destruct (pending_room_restores _ !! r) as [[p1 tx]|]; injection Hs as Hs; [|by rewrite <- Hs].
    apply (f_equal fst) in Hs. cbn [fst] in Hs. rewrite <- Hs. by apply dispatch_pending_known.
  - unfold proxy_poll. intros (px & _ & Hs)%bind_ok.
    destruct (ReceiverProxy.poll _ _) as [r p1 tx|px' ds|]; [|by injection Hs as <- _|done].
    case_bool_decide; [by injection Hs as <- _|].
    injection Hs as Hs. apply (f_equal fst) in Hs. cbn [fst] in Hs. rewrite <- Hs.
    by apply dispatch_pending_known.
Qed.

Lemma new_known st rooms : known_agents (new st rooms).
Proof.
  unfold new. match goal with |- context [open_rooms rooms ?w0] =>
    assert (known_agents w0) as Hw0 by apply map_Forall_empty; revert Hw0; generalize w0 end.
  induction rooms as [|[room rx] rooms IH]; intros w0 Hw0; [done|]. cbn. by apply IH.
Qed.

Lemma reachable_known st rooms w : reachable local st rooms w -> known_agents w.
Proof. induction 1; [apply new_known|by eapply step_known]. Qed.
End turn.

(** ** The workers of a session *)

(** An execution does not depend on the factory but by the protocol of its agent. *)
Lemma new_agent `{PeerIds} (CA CA' : ComputeAgents) room sid req (a : @Agent CA) (a' : @Agent CA') ps st
    reply :
  agent_protocol_id a = agent_protocol_id a' ->
  ProtocolExecution.new room sid req a ps st reply = ProtocolExecution.new room sid req a' ps st reply.
Proof. intros Ha. unfold ProtocolExecution.new. by rewrite Ha. Qed.

Section session.
Context `{PI : PeerIdLaws} `{UV : UnsignedVarintLaws}.
(** Every node has its own factory. *)
Context (agents : PeerId -> ComputeAgents) {laws : forall q, @ComputeAgentLaws (agents q)}.

(** The node [p0] has begun [e p0] for a local request, with [b] as the start message, and
    every other node [q] of its peers has begun [e q] in that session, in which it has heard
    nothing but what [p0] has sent. *)
Record formed (p0 : PeerId) (b : bytes) (e : PeerId -> ProtocolExecution.t) : Prop := {
  formed_proposer :
    exists w ev w' out room r ctx dests,
      begins (CA:=agents p0) p0 w ev w' out room (e p0) /\
      ProtocolExecution.reply_to (e p0) = Some r /\
      last out = Some (NetworkRequest room ctx (Multicast dests b));
  formed_fits :
    Z.of_nat (length (StartMsg.encoding {| StartMsg.peerset := ProtocolExecution.peerset (e p0);
      StartMsg.body := ProtocolExecution.request (e p0) |})) <= BufWriter.capacity;
  formed_joiners q :
    q ∈ Peerset.peers (ProtocolExecution.peerset (e p0)) -> q <> p0 ->
    exists w ev w' out room,
      begins (CA:=agents q) q w ev w' out room (e q) /\
      ProtocolExecution.reply_to (e q) = None /\
      ProtocolExecution.session (e q) = ProtocolExecution.session (e p0) /\
      forall m, m ∈ heard ev -> from_proposer (e p0) b m;
}.

(** All nodes of the session have begun the same computation, for the same request, each
    with the peer set as it sees it. *)
Lemma formed_agree p0 b e :
  formed p0 b e ->
  exists ms, NoDup ms /\ p0 ∈ ms /\
    ProtocolExecution.peerset (e p0) = Peerset.new ms p0 /\
    forall q, q ∈ ms ->
      ProtocolExecution.peerset (e q) = Peerset.new ms q /\
      ProtocolExecution.request (e q) = ProtocolExecution.request (e p0) /\
      ProtocolExecution.protocol (e q) = ProtocolExecution.protocol (e p0) /\
      ProtocolExecution.session (e q) = ProtocolExecution.session (e p0).
Proof.
  intros [(w & ev & w' & out & room & r & ctx & dests & Hb & Hr & Hlast) Hfit Hj].
  destruct (proposer_begins p0 w ev w' out room (e p0) r Hb Hr)
    as (ch & lm & ms & b' & _ & _ & _ & _ & _ & _ & Hps & Hnd & Hin & _ & Hoff).
  pose proof Hoff as (_ & dests' & _ & Hlast'). rewrite Hlast' in Hlast. injection Hlast as <- <- <-.
  exists ms. do 3 (split; [done|]). intros q Hq. destruct (decide (q = p0)) as [->|Hne]; [done|].
  destruct (Hj q) as (wq & evq & wq' & outq & roomq & Hbq & Hrq & Hsq & Hheard); [|done|].
  { rewrite Hps. by apply Peerset.new_elem_of. }
  destruct (joiner_begins q (e p0) room b' out ms p0 wq evq wq' outq roomq (e q) Hoff Hps Hfit Hbq Hrq Hsq
    Hheard) as (? & ? & ?). done.
Qed.

(** Their executions, before anything has been sent. *)
Definition at_start (p0 : PeerId) (e : PeerId -> ProtocolExecution.t) : System.sys := {|
  System.nodes i :=
    {| System.nd_exec := e (default p0 (Peerset.peers (ProtocolExecution.peerset (e p0)) !! i));
       System.nd_given := []; System.nd_taken := [] |};
  System.wire := [] |}.

Lemma formed_made p0 b e q :
  formed p0 b e -> q ∈ Peerset.peers (ProtocolExecution.peerset (e p0)) ->
  exists room (a : @Agent (agents p0)) st,
    ProtocolExecution.new room (ProtocolExecution.session (e q)) (ProtocolExecution.request (e q)) a
      (ProtocolExecution.peerset (e q)) st (ProtocolExecution.reply_to (e q)) = Ok (e q) /\
    agent_protocol_id a = ProtocolExecution.protocol (e p0).
Proof.
  intros Hf Hq. pose proof (formed_agree p0 b e Hf) as (ms & _ & _ & Hps & Hall).
  destruct Hf as [(w & ev & w' & out & room & r & ctx & dests & Hb & Hr & _) _ Hj].
  apply begins_made in Hb as (a0 & st0 & Hnew0 & _).
  pose proof (new_fields _ _ _ _ _ _ _ _ Hnew0) as (_ & _ & Hproto & _).
  destruct (decide (q = p0)) as [->|Hne]; [by exists room, a0, st0|].
  destruct (Hj q Hq Hne) as (wq & evq & wq' & outq & roomq & Hbq & _).
  apply begins_made in Hbq as (a & st & Hnew & _).
  pose proof (new_fields _ _ _ _ _ _ _ _ Hnew) as (_ & _ & Hproto' & _).
  exists roomq, a0, st. split; [|done]. rewrite <- Hnew. apply new_agent.
  rewrite <- Hproto, <- Hproto'. rewrite Hps in Hq. apply Peerset.new_elem_of in Hq.
  destruct (Hall q Hq) as (_ & _ & -> & _). done.
Qed.

(** The executions that the workers have begun are a system at its start: what is shown of
    systems holds of them. *)
Theorem formed_initial p0 b e :
  formed p0 b e ->
  System.initial (CA:=agents p0) (Peerset.peers (ProtocolExecution.peerset (e p0)))
    (ProtocolExecution.session (e p0)) (ProtocolExecution.protocol (e p0)) (at_start p0 e).
Proof.
  intros Hf. destruct (formed_agree p0 b e Hf) as (ms & Hnd & Hin & Hps & Hall).
  split; [done|]. intros i Hi. split; [|done].
  destruct (lookup_lt_is_Some_2 _ _ Hi) as [q Hq]. unfold at_start. cbn [System.nodes System.nd_exec].
  rewrite Hq. cbn [default]. assert (q ∈ Peerset.peers (ProtocolExecution.peerset (e p0))) as Hqin
    by (apply list_elem_of_lookup; eauto).
  destruct (formed_made p0 b e q Hf Hqin) as (room & a & st & Hnew & Ha).
  rewrite Hps in Hqin. apply Peerset.new_elem_of in Hqin. destruct (Hall q Hqin) as (Hpsq & _ & _ & Hs).
  exists room, (ProtocolExecution.request (e q)), a, (ProtocolExecution.peerset (e q)), st,
    (ProtocolExecution.reply_to (e q)). rewrite <- Hs. split; [exact Hnew|]. split; [done|].
  rewrite Hpsq, Hps. split; [done|]. by rewrite Hps in Hq.
Qed.
End session.
End Launch.
