(* ===== verification/Deployment.v ===== *)
(** * Nodes that generate a key and sign

    The nodes of a key generation ([EndToEnd.keygen_node]) and those of a quorum that
    signs ([EndToEnd.sign_node]) with the executions around them and the network between
    them ([System]): what [crates/tss] and [crates/client/service/src/execution.rs]
    do together; and the same from the requests of users, through the workers that begin
    these executions ([Launch]). *)

From Stdlib Require Import ZArith Lia Strings.Byte.
From stdpp Require Import base gmap sorting strings numbers list relations.
From S2P Require Import Prelude Wire Messages Peerset Room Echo Storage Execution Wallet Frost.
From S2P Require Import Session System KeyGen KeySign Reference KeyGenSession KeySignSession EndToEnd.
From S2P Require Import NetworkProxy Negotiation Coordination Worker Launch Factory.

Local Open Scope Z_scope.

Module Deployment.
Import EndToEnd.

Section deployment.
Context `{HP : PeerIdLaws} `{!Inhabited PeerId} `{UnsignedVarint} `{ComputeAgents}.
Context `{Hbytes : SerdeLaws bytes} `{Hkp : SerdeLaws KeygenRequestPayload}.
Context `{Hsp : SerdeLaws SignRequestPayload} `{Hks : SerdeLaws KeyShare}.
Context `{Serde PublicKey} `{Serde KeySign.Signature}.
Context (suite : Curve -> Frost).
Context {laws : forall cv, FrostLaws (suite cv)} {correct : forall cv, FrostCorrect (suite cv)}.

(** What can be written as JSON is written. *)
Hypothesis bytes_encode : forall b, is_Some (to_vec (T:=bytes) b).
Hypothesis share_encodes : forall s : KeyShare, is_Some (to_vec s).
Hypothesis public_key_encodes : forall k : PublicKey, is_Some (to_vec k).
Hypothesis signature_encodes : forall s : KeySign.Signature, is_Some (to_vec s).

Lemma keygen_node_grows cv ps kb c path fs i inbox rest :
  out_of (keygen_node suite cv ps kb c path fs i inbox).2 `prefix_of`
  out_of (keygen_node suite cv ps kb c path fs i (inbox ++ rest)).2.
Proof. apply KeyGenSession.compute_grows. Qed.

Lemma sign_node_grows path qs sb d files j inbox rest :
  out_of (sign_node suite path qs sb d files j inbox) `prefix_of`
  out_of (sign_node suite path qs sb d files j (inbox ++ rest)).
Proof.
  assert (forall k fs pset payload coins, Streaming (KeySign.compute suite k fs pset payload coins))
    as Hs by (intros; unfold KeySign.compute; streaming).
  apply streaming_out.
Qed.

(** Nodes whose agents follow scripts in waves complete their session. *)
Lemma nodes_complete {A} ps sid proto (machine : nat -> list AgentMessage -> run A) script result
    waves :
  NoDup ps -> 2 <= Z.of_nat (length ps) <= u16_max -> (waves <= 2)%nat ->
  (forall i inbox rest, out_of (machine i inbox) `prefix_of` out_of (machine i (inbox ++ rest))) ->
  scripted (length ps) machine script result -> in_waves (length ps) waves script ->
  System.system_completes (ordered ps) sid proto machine result /\
  forall st0 st, System.initial (ordered ps) sid proto st0 ->
    rtc (System.sys_step (ordered ps) machine) st0 st -> System.quiet (ordered ps) machine st ->
    exists k s, nsteps (step (length ps) machine) k start s /\
      (forall s', ~ step (length ps) machine s s') /\
      forall i, (i < length ps)%nat -> System.nd_given (System.nodes st i) = inbox s i.
Proof.
  intros Hnd Hn Hw Hgrow Hscr Hwaves. rewrite <- (ordered_length ps) in *.
  assert ((Z.of_nat (length (ordered ps)) + 1) * (Z.of_nat waves + 1) <= u64_max) as Hb
    by (unfold u64_max, u16_max in *; nia).
  apply ordered_nodup in Hnd. split.
  - by apply (System.scripted_system _ sid proto machine Hgrow script result waves).
  - intros st0 st Hinit Hr Hq.
    by apply (System.quiet_session _ sid proto machine Hgrow script result waves
      Hscr Hwaves Hn Hnd st0 st).
Qed.

(** From a key generation to a signature, over the executions of the nodes.  Every
    node of the peers [ps] runs the execution of the key generation with the peer set
    of the session, and the network gives every request once to its addressee, in any
    order and after any delay.  No agent ever fails; every run can be continued until
    nothing is left to do, and then all agents return the same public key.  With the key
    shares that they have then saved, any [t] or more of the peers can sign under that
    wallet: they run the executions of the signing session over such a network too; no
    agent fails, every run can be continued until nothing is left to do, and then all
    agents return the same encoded signature, which holds that public key and a
    signature that verifies for the message under the group key. *)
Theorem deployed_keygen_then_signing cv ps t wallet kb c path fs sid proto :
  let n := length ps in
  let node i := keygen_node suite cv ps kb c path fs i in
  let run i inbox := (node i inbox).2 in
  NoDup ps -> 2 <= t <= Z.of_nat n -> Z.of_nat n < u16_max ->
  encode_keygen_payload wallet t = Ok kb ->
  exists (pkp : @PublicKeyPackage (suite cv)) group pk,
    group_key_bytes pkp = Some group /\
    to_vec {| pk_curve := cv; pk_bytes := group |} = Some pk /\
    System.system_completes (ordered ps) sid proto run (fun _ => pk) /\
    forall st0 st, System.initial (ordered ps) sid proto st0 ->
    rtc (System.sys_step (ordered ps) run) st0 st -> System.quiet (ordered ps) run st ->
    forall files, (forall p, p ∈ ps ->
      files p = (node (place ps p) (System.nd_given (System.nodes st (place ps p)))).1) ->
    forall qs message sb d, NoDup qs -> (forall q, q ∈ qs -> q ∈ ps) -> t <= Z.of_nat (length qs) ->
      encode_sign_payload wallet message = Ok sb ->
      exists sig sigb signed, verify pkp message sig = true /\ signature_bytes sig = Some sigb /\
        to_vec {| KeySign.sig_curve := cv; KeySign.sig_pub_key := group;
                  KeySign.sig_signature := sigb |} = Some signed /\
        forall sid' proto',
          System.system_completes (ordered qs) sid' proto'
            (sign_node suite path qs sb d files) (fun _ => signed).
Proof.
  intros n node run Hnd Ht Hn Hkb.
  destruct (keygen_sign_scripts suite bytes_encode share_encodes public_key_encodes signature_encodes
    cv ps t wallet kb c path fs Hnd Ht Hn Hkb)
    as (pkp & group & pk & script1 & Hg & Hpk & Hscr & Hwaves & _ & Hsign).
  destruct (nodes_complete ps sid proto run script1 (fun _ => pk) 1 Hnd ltac:(lia) ltac:(lia)
    (keygen_node_grows cv ps kb c path fs) Hscr Hwaves) as [Hcomp Hquiet].
  exists pkp, group, pk. split; [done|]. split; [done|]. split; [done|].
  intros st0 st Hinit Hr Hq files Hfiles qs message sb d Hqnd Hsub Hlen Hsb.
  destruct (Hquiet st0 st Hinit Hr Hq) as (k & s & Hk & Hstuck & Hinbox).
  destruct (Hsign k s Hk Hstuck files) with (qs := qs) (message := message) (sb := sb) (d := d)
    as (sig & sigb & signed & script2 & Hv & Hs & Hsg & Hscr2 & Hwaves2 & _); try done.
  { intros p Hp. rewrite (Hfiles p Hp), Hinbox; [done|]. by apply place_lt. }
  exists sig, sigb, signed. split; [done|]. split; [done|]. split; [done|]. intros sid' proto'.
  apply (nodes_complete qs sid' proto' _ script2 _ 2); try done.
  - assert (length qs <= length ps)%nat; [|unfold n in *; lia].
    apply submseteq_length, NoDup_submseteq; [done|exact Hsub].
  - apply sign_node_grows.
Qed.
End deployment.

(** ** Sessions that the workers have begun *)

Section requests.
Context `{HP : PeerIdLaws} `{!Inhabited PeerId} `{HV : UnsignedVarintLaws}.
Context `{Hbytes : SerdeLaws bytes} `{Hkp : SerdeLaws KeygenRequestPayload}.
Context `{Hsp : SerdeLaws SignRequestPayload} `{Hks : SerdeLaws KeyShare}.
Context `{Serde PublicKey} `{Serde KeySign.Signature}.
Context (suite : Curve -> Frost).
Context {laws : forall cv, FrostLaws (suite cv)} {correct : forall cv, FrostCorrect (suite cv)}.
Hypothesis bytes_encode : forall b, is_Some (to_vec (T:=bytes) b).
Hypothesis share_encodes : forall s : KeyShare, is_Some (to_vec s).
Hypothesis public_key_encodes : forall k : PublicKey, is_Some (to_vec k).
Hypothesis signature_encodes : forall s : KeySign.Signature, is_Some (to_vec s).

(** In a worker that has run since it was started, the agent of an execution is what the
    factory of its node makes for the protocol of the execution. *)
Lemma execution_agent f local st rooms w ev w' out room e :
  Worker.reachable (H1:=TssFactory.factory_agents f) local st rooms w ->
  Launch.begins (CA:=TssFactory.factory_agents f) local w ev w' out room e ->
  exists a st', TssFactory.make f (ProtocolExecution.protocol e) = Ok a /\
    ProtocolExecution.new (H1:=TssFactory.factory_agents f) room (ProtocolExecution.session e)
      (ProtocolExecution.request e) a (ProtocolExecution.peerset e) st' (ProtocolExecution.reply_to e) = Ok e.
Proof.
  intros Hr (a & st' & Hnew & Ha)%Launch.begins_made. exists a, st'. split; [|exact Hnew].
  apply Launch.new_fields in Hnew as (_ & _ & -> & _). cbn.
  destruct Ha as [(k & lm & Hlm & ->)|(pid & Hm)].
  - destruct (Launch.reachable_known (CA:=TssFactory.factory_agents f) local st rooms w Hr k lm Hlm)
      as [-> | ->]; apply TssFactory.make_matches_local; exact 0.
  - cbn in Hm. pose proof (make_protocol_id (ComputeAgentLaws:=TssFactory.factory_laws f) pid a) as Hp.
    cbn in Hp. destruct (TssFactory.make f pid) as [a'|?|?] eqn:Hmake; [|done..]. injection Hm as ->.
    by rewrite (Hp eq_refl).
Qed.

(** What that agent ([execution_agent]) computes with the peer set and the request of the
    execution; [fs] are the files of the node. *)
Definition agent_run (path : chars) (cv : Curve) (fs : gmap chars bytes)
  (c : forall cv, @coins (suite cv)) (e : ProtocolExecution.t) (inbox : list AgentMessage) :
  gmap chars bytes * run bytes :=
  match TssFactory.make (TssFactory.new path cv) (ProtocolExecution.protocol e) with
  | Ok (TssFactory.KeyGenAgent k) =>
      KeyGen.compute suite k (ProtocolExecution.peerset e) (ProtocolExecution.request e) c fs files_ok
        Session.open inbox
  | Ok (TssFactory.KeySignAgent k) =>
      (fs, KeySign.compute suite k fs (ProtocolExecution.peerset e) (ProtocolExecution.request e) c
             Session.open inbox [])
  | _ => (fs, Failed "unknown protocol" [])
  end.

Section launched.
Variables (path : PeerId -> chars) (cv : Curve).

(** The factories of the nodes. *)
Definition factories (q : PeerId) : ComputeAgents :=
  TssFactory.factory_agents (TssFactory.new (path q) cv).

#[export] Instance factories_laws q : @ComputeAgentLaws (factories q).
Proof. apply TssFactory.factory_laws. Qed.

Variables (fs : PeerId -> gmap chars bytes) (c : PeerId -> forall cv, @coins (suite cv)).

(** The nodes of the session that [p0] has proposed, in the order of its peer set, with the
    executions they have begun. *)
Definition peers_of (p0 : PeerId) (e : PeerId -> ProtocolExecution.t) : list PeerId :=
  Peerset.peers (ProtocolExecution.peerset (e p0)).

Definition launched (p0 : PeerId) (e : PeerId -> ProtocolExecution.t) (i : nat)
  (inbox : list AgentMessage) : gmap chars bytes * run bytes :=
  let q := default p0 (peers_of p0 e !! i) in
  agent_run (path q) cv (fs q) (c q) (e q) inbox.

(** They are the nodes of a key generation, or of a signing session. *)
Lemma launched_keygen p0 b e :
  Launch.formed factories p0 b e -> ProtocolExecution.protocol (e p0) = KeyGen.protocol_id ->
  exists ms, NoDup ms /\ peers_of p0 e = ordered ms /\
    forall i inbox, (i < length ms)%nat ->
      launched p0 e i inbox =
      keygen_node suite cv ms (ProtocolExecution.request (e p0)) c path fs i inbox.
Proof.
  intros Hf Hp. destruct (Launch.formed_agree factories p0 b e Hf) as (ms & Hnd & _ & Hps & Hall).
  assert (peers_of p0 e = ordered ms) as Hpeers by (unfold peers_of; by rewrite Hps).
  exists ms. split; [done|]. split; [done|]. intros i inbox Hi. unfold launched.
  rewrite Hpeers, (ordered_lookup ms i Hi). cbn [from_option id]. unfold agent_run, keygen_node.
  set (q := ordered ms !!! i). assert (q ∈ ms) as Hq.
  { apply elem_of_ordered, list_elem_of_lookup. exists i. by apply ordered_lookup. }
  destruct (Hall q Hq) as (-> & -> & -> & _). by rewrite Hp.
Qed.

Lemma launched_sign p0 b e :
  Launch.formed factories p0 b e -> ProtocolExecution.protocol (e p0) = KeySign.protocol_id ->
  exists ms, NoDup ms /\ peers_of p0 e = ordered ms /\
    forall i inbox, (i < length ms)%nat ->
      (launched p0 e i inbox).2 = sign_node suite path ms (ProtocolExecution.request (e p0)) c fs i inbox.
Proof.
  intros Hf Hp. destruct (Launch.formed_agree factories p0 b e Hf) as (ms & Hnd & _ & Hps & Hall).
  assert (peers_of p0 e = ordered ms) as Hpeers by (unfold peers_of; by rewrite Hps).
  exists ms. split; [done|]. split; [done|]. intros i inbox Hi. unfold launched.
  rewrite Hpeers, (ordered_lookup ms i Hi). cbn [from_option id]. unfold agent_run, sign_node.
  set (q := ordered ms !!! i). assert (q ∈ ms) as Hq.
  { apply elem_of_ordered, list_elem_of_lookup. exists i. by apply ordered_lookup. }
  destruct (Hall q Hq) as (-> & -> & -> & _). by rewrite Hp.
Qed.
End launched.

End requests.
End Deployment.
