(* ===== verification/Rpc.v ===== *)
(** * From the command line to the worker

    [Service] of [crates/client/service/src/service.rs], the RPC servers of
    [crates/client/rpc/src] with the errors of [crates/client/rpc-api/src], and the
    [keygen] and [sign] commands of [crates/apps/cli/src/commands].

    A call sends one message to the service worker and waits for the answer on a
    oneshot channel; what arrives there ([None] when the channel was dropped) is an
    observation. *)

From Stdlib Require Import ZArith Lia Strings.Byte.
From stdpp Require Import base gmap strings numbers list.
From S2P Require Import Prelude Wire Messages Peerset Wallet NetConfig NodeSetup Room Worker KeyGen KeySign.
From S2P Require Import RequestResponses Discovery Network.

Local Open Scope Z_scope.

#[local] Arguments str : simpl never.

Definition DEFAULT_TRANSPORT_ROOM : chars := str "tss/0".

(** ** Errors *)

(** [tss::error::Error]. *)
Inductive TssError : Type :=
  | DagCborError (e : string)
  | Terminated (e : string)
  | TssCanceled.

Definition BASE_ERROR : Z := 1000.

(** [RpcError::owned]: a code, a message and optional data. *)
Record RpcError := { code : Z; message : string; data : option string }.

(** [From<Canceled>] and [From<String>]. *)
Definition tss_from_canceled : TssError := TssCanceled.
Definition tss_from_string (e : string) : TssError := Terminated e.

(** How [Canceled] of a oneshot channel prints. *)
Definition canceled_text : string := "oneshot canceled".

Definition tss_rpc_error (e : TssError) : RpcError :=
  match e with
  | DagCborError msg =>
      {| code := BASE_ERROR + 1;
         message := ("Resulted an unexpected output Error: " ++ msg)%string; data := None |}
  | Terminated msg =>
      {| code := BASE_ERROR + 2;
         message := ("Computation terminated with err: " ++ msg)%string; data := Some msg |}
  | TssCanceled =>
      {| code := BASE_ERROR + 3;
         message := ("Computation canceled with err: " ++ canceled_text)%string;
         data := Some canceled_text |}
  end.

(** [system::error::Error]. *)
Inductive SystemError : Type :=
  | SystemTerminated (e : string)
  | SystemCanceled.

Definition system_from_canceled : SystemError := SystemCanceled.
Definition system_from_string (e : string) : SystemError := SystemTerminated e.

Definition system_rpc_error (e : SystemError) : RpcError :=
  match e with
  | SystemTerminated msg =>
      {| code := BASE_ERROR + 2;
         message := ("Computation terminated with err: " ++ msg)%string; data := Some msg |}
  | SystemCanceled =>
      {| code := BASE_ERROR;
         message := ("Computation canceled with err: " ++ canceled_text)%string;
         data := Some canceled_text |}
  end.

(** ** [Service] *)

Module Service.
(** [keygen] and [keysign]: the message the worker gets, if it is there to get it;
    if it is not, the message is dropped with its sender. *)
Definition keygen (alive : bool) (t n : Z) (payload : bytes) (room_id : RoomId) (sender : nat) :
  option Worker.ServicetoWorkerMsg :=
  if alive then Some (Worker.KeyGen t n room_id payload sender) else None.

Definition keysign (alive : bool) (n : Z) (room_id : RoomId) (payload : bytes) (sender : nat) :
  option Worker.ServicetoWorkerMsg :=
  if alive then Some (Worker.KeySign n room_id payload sender) else None.
End Service.

(** ** [Tss] *)

Module Tss.
Section tss.
Context `{Serde KeygenRequestPayload} `{Serde SignRequestPayload}.

(** [RoomId::from]. *)
Variable room_from : chars -> RoomId.

(** The answer of the worker as the result of the call; the text of the CBOR
    library's error is not modelled and stands as one fixed text. *)
Definition finish {T} `{Serde T} (answer : option (outcome string bytes)) : outcome TssError T :=
  match answer with
  | Some (Ok value) => ok_or (tss_from_string "deserialization failed") (from_slice value)
  | Some (Err e) => Err (tss_from_string e)
  | Some (Panic w) => Panic w
  | None => Err tss_from_canceled
  end.

(** What a call sends to the worker, and its result: an answer can only come if the
    message was sent. *)
Definition keygen `{Serde PublicKey} (alive : bool) (room : chars) (n t : Z) (tx : nat)
  (answer : option (outcome string bytes)) :
  option Worker.ServicetoWorkerMsg * outcome TssError PublicKey :=
  let room_id := room_from DEFAULT_TRANSPORT_ROOM in
  match encode_keygen_payload room t with
  | Ok payload =>
      let msg := Service.keygen alive t n payload room_id tx in
      (msg, finish (if msg is Some _ then answer else None))
  | Err e => (None, Err (tss_from_string ("failed to encode keygen request: " ++ e)%string))
  | Panic w => (None, Panic w)
  end.

Definition sign `{Serde Signature} (alive : bool) (room : chars) (t : Z) (msg : bytes) (tx : nat)
  (answer : option (outcome string bytes)) :
  option Worker.ServicetoWorkerMsg * outcome TssError Signature :=
  let room_id := room_from DEFAULT_TRANSPORT_ROOM in
  match encode_sign_payload room msg with
  | Ok payload =>
      match u16_add (E:=TssError) t 1 with
      | Ok n =>
          let msg := Service.keysign alive n room_id payload tx in
          (msg, finish (if msg is Some _ then answer else None))
      | Err e => (None, Err e)
      | Panic w => (None, Panic w)
      end
  | Err e => (None, Err (tss_from_string ("failed to encode sign request: " ++ e)%string))
  | Panic w => (None, Panic w)
  end.

(** ** Properties *)

Context `{!SerdeLaws KeygenRequestPayload} `{!SerdeLaws SignRequestPayload}.

Lemma decode_encoded_keygen w t b :
  encode_keygen_payload w t = Ok b ->
  decode_keygen_payload b = Ok {| kg_wallet_id := normalize_wallet_id w; kg_threshold := t |}.
Proof.
  unfold encode_keygen_payload, decode_keygen_payload. intros Hb%ok_or_ok%from_to_vec.
  rewrite Hb. cbn. by rewrite normalize_idempotent.
Qed.

Lemma decode_encoded_sign w m b :
  encode_sign_payload w m = Ok b ->
  decode_sign_payload b = Ok {| sg_wallet_id := normalize_wallet_id w; sg_message := m |}.
Proof.
  unfold encode_sign_payload, decode_sign_payload. intros Hb%ok_or_ok%from_to_vec.
  rewrite Hb. cbn. by rewrite normalize_idempotent.
Qed.

(** C25: a key generation or a signature asked for over RPC reaches the worker as
    it was asked for: the message names the room the node has prepared, the payload
    decodes at every node to the normalised name of the wallet and to the threshold
    or the message to sign, a key generation is for [n] parties and a signature for
    one more than the threshold; and the answer of the worker is the result of the
    call, an error of the computation is error 1002 and a dropped request error
    1003. *)
Theorem rpc_reaches_worker `{SerdeLaws PublicKey} `{SerdeLaws Signature}
    `{Multiaddrs} `{!Ed25519Keys} `{!Serde Config} cmd queue fs o pre room n t m tx answer kmsg kres smsg sres :
  prepare room_from cmd queue fs o = Ok pre -> t < u16_max ->
  keygen true room n t tx answer = (Some kmsg, kres) ->
  sign true room t m tx answer = (Some smsg, sres) ->
  (exists kp, kmsg = Worker.KeyGen t n (NodeSetup.room pre) kp tx /\
     decode_keygen_payload kp =
       Ok {| kg_wallet_id := normalize_wallet_id room; kg_threshold := t |}) /\
  (exists sp, smsg = Worker.KeySign (t + 1) (NodeSetup.room pre) sp tx /\
     decode_sign_payload sp =
       Ok {| sg_wallet_id := normalize_wallet_id room; sg_message := m |}) /\
  match answer with
  | Some (Ok b) => (forall k, to_vec k = Some b -> kres = Ok k) /\
                   (forall s, to_vec s = Some b -> sres = Ok s)
  | Some (Err e) => kres = Err (Terminated e) /\ sres = Err (Terminated e) /\
                    code (tss_rpc_error (Terminated e)) = 1002
  | Some (Panic _) => True
  | None => kres = Err TssCanceled /\ sres = Err TssCanceled /\
            code (tss_rpc_error TssCanceled) = 1003
  end.
Proof.
  intros Hpre Ht Hk Hs.
  assert (NodeSetup.room pre = room_from DEFAULT_TRANSPORT_ROOM) as Hroom.
  { unfold prepare, new_full in Hpre. inv_ok. case_match; [done|]. by inv_ok. }
  unfold keygen in Hk. destruct (encode_keygen_payload room t) as [kp|e|w] eqn:Hkp; [|done..].
  unfold sign in Hs. destruct (encode_sign_payload room m) as [sp|e|w] eqn:Hsp; [|done..].
  rewrite u16_add_ok in Hs by lia. cbn in Hk, Hs. injection Hk as <- <-. injection Hs as <- <-.
  rewrite Hroom. split; [eauto using decode_encoded_keygen|].
  split; [eauto using decode_encoded_sign|].
  destruct answer as [[b|e|w]|]; cbn; [|done..].
  split; intros ? Hb%from_to_vec; by rewrite Hb.
Qed.

(** the threshold of a signature is a [u16] to which one is added without a
    check: the greatest threshold panics the RPC call, and no message reaches the
    worker. *)
Theorem sign_threshold_overflow `{Serde Signature} alive room m tx answer payload :
  encode_sign_payload room m = Ok payload ->
  sign alive room u16_max m tx answer = (None, Panic "attempt to add with overflow").
Proof. intros Hp. unfold sign. by rewrite Hp. Qed.
End tss.
End Tss.

(** ** [System] *)

Module System.
Section system.
Context `{PI : PeerIds}.

(** [local_peer_id]. *)
Definition local_peer_id (id : PeerId) : string := peer_to_base58 id.

(** [peers] and [num_connected_peers], of what [get_connected_peers] returned;
    [order] is that of a [HashSet]. *)
Definition peers (order : gset PeerId -> list PeerId) (connected : gset PeerId) : list string :=
  peer_to_base58 <$> order connected.

Definition num_connected_peers (connected : gset PeerId) : Z := Z.of_nat (size connected).
End system.
End System.

(** ** The JSON-RPC server and client *)

(** [jsonrpsee] and the parser of socket addresses, with errors as they print. *)
Class JsonRpc : Type := {
  SocketAddr : Type;
  RpcModule : Type;
  RpcServer : Type;
  ServerHandle : Type;
  WsClient : Type;
  parse_socket_addr : chars -> outcome chars SocketAddr;
  server_build : SocketAddr -> outcome chars RpcServer;
  server_start : RpcServer -> RpcModule -> ServerHandle;
  ws_client_build : chars -> outcome chars WsClient;
}.

Module JsonRPCServer.
Section server.
Context `{JsonRpc}.

Record Config : Type := { host_address : chars }.

Definition config_default : Config := {| host_address := str "127.0.0.1:8080" |}.

Record t : Type := { handle : ServerHandle }.

Definition new (config : Config) (module : RpcModule) : outcome chars t :=
  addr ← map_err (fun e => str "invalid rpc host_address '" ++ host_address config ++ str "': " ++ e)
           (parse_socket_addr (host_address config));
  server ← map_err (fun e => str "jsonrpsee server build failed: " ++ e) (server_build addr);
  Ok {| handle := server_start server module |}.

(** [run]; [stopped] is the wait for the server to stop. *)
Definition run (stopped : ServerHandle -> unit) (s : t) : outcome chars unit := Ok (stopped (handle s)).

(** [new_client]. *)
Definition new_client (addr : chars) : outcome chars WsClient :=
  map_err (fun e => str "node connection terminated w/ err: " ++ e) (ws_client_build addr).

(** A server runs exactly when its address is one and can be bound, with the module it
    was given; otherwise the error says which of the two failed. *)
Theorem new_server config module :
  match new config module with
  | Ok s => exists addr server, parse_socket_addr (host_address config) = Ok addr /\
              server_build addr = Ok server /\ handle s = server_start server module
  | Err e =>
      (exists why, parse_socket_addr (host_address config) = Err why /\
         e = str "invalid rpc host_address '" ++ host_address config ++ str "': " ++ why) \/
      (exists addr why, parse_socket_addr (host_address config) = Ok addr /\
         server_build addr = Err why /\ e = str "jsonrpsee server build failed: " ++ why)
  | Panic w => parse_socket_addr (host_address config) = Panic w \/
      exists addr, parse_socket_addr (host_address config) = Ok addr /\ server_build addr = Panic w
  end.
Proof.
  unfold new. destruct (parse_socket_addr (host_address config)) as [addr|e|w]; cbn;
    [|by left; eexists|by left]. destruct (server_build addr) as [srv|e|w] eqn:Hb; cbn; naive_solver.
Qed.
End server.
End JsonRPCServer.

(** ** Commands *)

Module Cli.
(** [resolve_wallet_id]; [uuid] is a random one. *)
Definition resolve_wallet_id (wallet_id : option chars) (uuid : chars) : chars :=
  match wallet_id with
  | Some id => match trim id with [] => uuid | _ => id end
  | None => uuid
  end.

(** [keygen::Command]; [connected] is the result of [new_client] and [server] what the
    server answers to the call. [execute] returns what it prints and how it ends. *)
Record KeygenCommand := {
  kc_wallet_id : option chars; kc_address : chars; kc_threshold : Z; kc_parties : Z }.

Definition keygen_execute (c : KeygenCommand) (uuid : chars)
  (connected : chars -> outcome string unit)
  (server : chars -> Z -> Z -> outcome string PublicKey) : list chars * outcome string unit :=
  let wallet_id := resolve_wallet_id (kc_wallet_id c) uuid in
  match connected (kc_address c) with
  | Ok _ =>
      match server wallet_id (kc_parties c) (kc_threshold c) with
      | Ok _ => ([str "wallet_id: " ++ wallet_id], Ok tt)
      | Err e => ([], Err ("error keygen: " ++ e)%string)
      | Panic w => ([], Panic w)
      end
  | Err e => ([], Err e)
  | Panic w => ([], Panic w)
  end.

(** [sign::Command]; [to_json] is [serde_json::to_string] of the signature, which is
    only logged. The message is a string, kept as its UTF-8 bytes ([as_bytes]). *)
Record SignCommand := {
  sc_wallet_id : chars; sc_address : chars; sc_threshold : Z; sc_messages : bytes }.

Definition sign_execute (c : SignCommand) (connected : chars -> outcome string unit)
  (server : chars -> Z -> bytes -> outcome string Signature)
  (to_json : Signature -> outcome string chars) : outcome string unit :=
  _ ← connected (sc_address c);
  match server (sc_wallet_id c) (sc_threshold c) (sc_messages c) with
  | Ok res =>
      match to_json res with
      | Ok _ => Ok tt
      | Err e => Err ("error encoding signature: " ++ e)%string
      | Panic w => Panic w
      end
  | Err e => Err ("error signing: " ++ e)%string
  | Panic w => Panic w
  end.

(** the wallet of a key generation is the one the user named, unless the name is
    blank, in which case it is a new random one; a blank name is never used. *)
Theorem wallet_id_resolved wallet_id uuid :
  trim uuid <> [] ->
  trim (resolve_wallet_id wallet_id uuid) <> [] /\
  (forall id, wallet_id = Some id -> trim id <> [] -> resolve_wallet_id wallet_id uuid = id).
Proof.
  intros Hu. unfold resolve_wallet_id. split.
  - destruct wallet_id as [id|]; [|done]. destruct (trim id) eqn:Hid; [done|]. by rewrite Hid.
  - intros id -> Hid. by destruct (trim id).
Qed.
End Cli.
