(* ===== verification/Node.v ===== *)
(** * A node

    What [Command::execute] of [crates/apps/node/src/lib.rs] builds of the parts:
    the network worker, the service worker with its room, and the RPC server, with
    [new_worker_and_service] of [crates/client/service/src/lib.rs]; and how a message
    travels from the service layer of one node to that of another, through
    [Network], [Codec], [RequestResponses] and [Coordination].

    Spawning the tasks is not modelled: the parts run as the steps of their own
    models, in any interleaving. *)

From Stdlib Require Import ZArith Lia Strings.Byte.
From stdpp Require Import base gmap strings numbers list.
From S2P Require Import Prelude Wire Messages Codec Wallet NetConfig NodeSetup Discovery RequestResponses Network.
From S2P Require Import Peerset Room NetworkProxy Negotiation Coordination Storage Worker KeyGen KeySign Factory Rpc.

Local Open Scope Z_scope.

#[local] Arguments str : simpl never.

Module Node.
Section node.
Context `{PI : PeerIds} `{!UnsignedVarint} `{!InnerBehaviour} `{!Multiaddrs} `{!KademliaDht}
  `{!Ed25519Keys} `{!Serde Config} `{!JsonRpc}.

(** [RoomId::from]. *)
Variable room_from : chars -> RoomId.

(** A path as the cache of peer sets keeps it. *)
Variable display : chars -> string.

(** ** [new_worker_and_service] *)

(** The worker, and the service that sends to it (which has no other state). *)
Definition new_worker_and_service (rooms : list (RoomId * nat)) (factory : TssFactory.t)
  (storage : LocalStorage.t) : @Worker.t PI (TssFactory.factory_agents factory) :=
  @Worker.new PI (TssFactory.factory_agents factory) storage rooms.

(** ** The bridge between the two queues of the room *)

(** The task forwards what arrives in the queue of the network to the queue of the
    service worker, until a send fails; [accepts] is whether each one does. *)
Fixpoint room_bridge (msgs : list IncomingRequest) (accepts : list bool) : list IncomingRequest :=
  match msgs, accepts with
  | msg :: msgs, true :: accepts => msg :: room_bridge msgs accepts
  | _, _ => []
  end.

(** ** [Command::execute] *)

Record t : Type := {
  network : NetworkWorker.t;
  factory : TssFactory.t;
  service : @Worker.t PI (TssFactory.factory_agents factory);
  room : RoomId;
  room_tx : nat;
  room_rx_bridge : nat;
  rpc_server : JsonRPCServer.t;
}.

Inductive Error : Type :=
  | Setup (e : string)
  | Net (e : NetworkWorker.Error)
  | Rpc (e : chars).

(** [queue] and [bridge] are the new channels of the room, [generated] the key that is
    made if there is none, [cache] the files under the directory of the cache, and
    [module] the result of merging the RPC modules of [Tss] and [System]. *)
Definition execute (c : Command) (queue bridge : nat) (generated : SecretKey) (fs : files)
  (o : fs_obs) (cache : gmap string bytes) (now : Z)
  (module : outcome chars RpcModule) : files * outcome Error t :=
  match map_err Setup (prepare room_from c queue fs o) with
  | Ok pre =>
      match NetworkWorker.new (node_key pre) (params pre) generated fs o now with
      | (fs, Ok net) =>
          let local_peer_id := NetworkWorker.local_peer_id net in
          let f := TssFactory.new (key_share_base local_peer_id) Ed25519 in
          let worker := new_worker_and_service [(NodeSetup.room pre, bridge)] f
            (LocalStorage.new (display (peerset_path pre)) local_peer_id cache) in
          (fs, module ← map_err (fun e => Rpc (str "failed to merge rpc modules: " ++ e)) module;
               server ← map_err (fun e => Rpc (str "json rpc server terminated with err: " ++ e))
                          (JsonRPCServer.new {| JsonRPCServer.host_address := rpc_address pre |} module);
               Ok {| network := net; factory := f; service := worker;
                     room := NodeSetup.room pre; room_tx := room_rx pre;
                     room_rx_bridge := bridge; rpc_server := server |})
      | (fs, Err e) => (fs, Err (Net e))
      | (fs, Panic w) => (fs, Panic w)
      end
  | Err e => (fs, Err e)
  | Panic w => (fs, Panic w)
  end.

(** ** A node that has started *)

Lemma execute_parts c queue bridge generated fs o cache now module fs' nd :
  execute c queue bridge generated fs o cache now module = (fs', Ok nd) ->
  exists pre, prepare room_from c queue fs o = Ok pre /\
    room nd = room_from DEFAULT_TRANSPORT_ROOM /\ room nd = NodeSetup.room pre /\
    rooms (params pre) = [{| rc_id := room nd; rc_max_size := Z.of_nat (length (boot_nodes (params pre)));
                             rc_boot_nodes := boot_nodes (params pre); rc_inbound_queue := Some queue |}] /\
    NetworkWorker.new (node_key pre) (params pre) generated fs o now = (fs', Ok (network nd)) /\
    exists st, service nd = new_worker_and_service [(room nd, bridge)] (factory nd) st.
Proof.
  unfold execute. destruct (prepare room_from c queue fs o) as [pre|e|w] eqn:Hp; [|done..].
  cbn [map_err]. destruct (NetworkWorker.new _ _ _ _ _ _) as [fs1 [net|e|w]] eqn:Hn; [|done..].
  destruct module as [m|e|w]; [|done..]. cbn [map_err mbind outcome_bind].
  destruct (JsonRPCServer.new _ m) as [srv|e|w]; [|done..]. cbn.
  intros [= <- <-]. exists pre. cbn.
  assert (NodeSetup.room pre = room_from DEFAULT_TRANSPORT_ROOM /\
    rooms (params pre) =
      [{| rc_id := NodeSetup.room pre; rc_max_size := Z.of_nat (length (boot_nodes (params pre)));
          rc_boot_nodes := boot_nodes (params pre); rc_inbound_queue := Some queue |}]) as [? ?].
  { unfold prepare, new_full in Hp. inv_ok. case_match; [done|]. by inv_ok. }
  split_and!; eauto.
Qed.

(** A local request for the room of a fresh worker is taken by the room's phase 1. *)
Lemma fresh_room_takes (CA : ComputeAgents) st local r rx m lm :
  Worker.service_msg_room_id m = r ->
  (forall w, Worker.dispatch_local_msg m w = Worker.dispatch_to_room r lm w) ->
  exists w' ch, Worker.step local (Worker.new st [(r, rx)]) (Worker.ServiceMsg m) = Ok (w', []) /\
    Worker.rooms_coordination w' = [ch] /\
    forall now sid, Coordination.phase1_poll local ch
      {| Coordination.now1 := now; Coordination.next1 := NextEmpty;
         Coordination.request1 := Worker.request_view w' ch;
         Coordination.fresh_session := sid |} =
      Coordination.FromLocal r (rpc_n lm)
        (Negotiation.new local r rx (rpc_n lm) (rpc_payload lm) (rpc_agent lm)
           (rpc_pending_response lm) now sid) [].
Proof.
  intros Hm Hd. cbn [Worker.step]. rewrite Hm, Hd, bool_decide_eq_false_2 by done.
  unfold Worker.dispatch_to_room. cbn. rewrite lookup_insert_eq.
  rewrite bool_decide_eq_true_2 by constructor.
  do 2 eexists. split; [done|]. split; [done|]. intros now sid.
  unfold Worker.request_view. cbn. by rewrite lookup_insert_eq.
Qed.

Context `{!Serde KeygenRequestPayload} `{!SerdeLaws KeygenRequestPayload} `{!Serde PublicKey}.

(** C24: a node that has started is ready: its network worker serves the protocol of the
    room and puts what arrives into the queue whose other end the bridge reads; and a
    key generation asked for over RPC is taken by the room's phase 1, whose next poll
    proposes a session for the given number of parties, with the wallet and threshold
    that were given, as long as no message of another node comes first. *)
Theorem node_ready c queue bridge generated fs o cache now module fs' nd :
  execute c queue bridge generated fs o cache now module = (fs', Ok nd) ->
  (exists d,
     RequestResponses.protocols (NetworkWorker.rr (network nd)) !! protocol_name (room nd) = Some d /\
     RequestResponses.inbound_queue d = Some queue) /\
  let local := NetworkWorker.local_peer_id (network nd) in
  forall wallet n t tx answer kmsg res,
    Tss.keygen room_from true wallet n t tx answer = (Some kmsg, res) ->
    exists w' ch payload,
      Worker.step local (service nd) (Worker.ServiceMsg kmsg) = Ok (w', []) /\
      Worker.rooms_coordination w' = [ch] /\
      decode_keygen_payload payload =
        Ok {| kg_wallet_id := normalize_wallet_id wallet; kg_threshold := t |} /\
      forall now1 sid, Coordination.phase1_poll local ch
        {| Coordination.now1 := now1; Coordination.next1 := NextEmpty;
           Coordination.request1 := Worker.request_view w' ch;
           Coordination.fresh_session := sid |} =
        Coordination.FromLocal (room nd) n
          (Negotiation.new local (room nd) bridge n payload
             (TssFactory.keygen (factory nd) : @Agent (TssFactory.factory_agents (factory nd))) tx
             now1 sid) [].
Proof.
  intros (pre & Hp & Hroom & _ & Hrooms & Hnew & st & Hst)%execute_parts. split.
  - unfold NetworkWorker.new in Hnew.
    destruct (NodeKeyConfig.into_keypair _ _ _ _) as [fs1 [kp|e|w]]; [|done..].
    unfold NetworkWorker.protocols_of in Hnew. rewrite Hrooms in Hnew. cbn in Hnew.
    rewrite lookup_empty in Hnew. injection Hnew as _ Hnew. unfold NetworkWorker.rr.
    rewrite <- Hnew. cbn. rewrite lookup_insert_eq. eauto.
  - intros local wallet n t tx answer kmsg res Hk. unfold Tss.keygen in Hk.
    destruct (encode_keygen_payload wallet t) as [kp|e|w] eqn:Hkp; [|done..]. injection Hk as <- _.
    destruct (fresh_room_takes (TssFactory.factory_agents (factory nd)) st local (room nd) bridge
      (Worker.KeyGen t n (room_from DEFAULT_TRANSPORT_ROOM) kp tx)
      {| rpc_n := n; rpc_payload := kp; rpc_agent := factory_keygen; rpc_pending_response := tx |})
      as (w' & ch & Hs & Hc & Hpoll); [by rewrite Hroom|by rewrite Hroom|].
    exists w', ch, kp. rewrite Hst. split; [exact Hs|]. split; [done|].
    split; [by apply Tss.decode_encoded_keygen|exact Hpoll].
Qed.

(** ** From one node to another *)

(** What goes over the wire of a message of the service layer. *)
Definition wire (ctx : MessageContext) (msg : NetworkWorker.MessageIntent) : WireMessage :=
  {| wm_context := ctx; wm_payload := NetworkWorker.intent_payload msg;
     wm_is_broadcast := NetworkWorker.intent_is_broadcast msg |}.

(** The behaviour of a node whose protocol [p] reports the request that its codec reads
    from the bytes [input]; the queue of the room has room for it. *)
Record arrives (p : ProtocolName) (q : nat) (input : bytes) (from : PeerId) (id : Z) (ch : nat)
  (ob : RequestResponses.obs) (s : RequestResponses.t) : Prop := {
  arrives_quiet : RequestResponses.tick ob = false /\ RequestResponses.ready ob = [];
  arrives_room : RequestResponses.accepting ob q = true;
  arrives_read : exists d x b more, RequestResponses.protocols s !! p = Some d /\
    RequestResponses.inbound_queue d = Some q /\ RequestResponses.inputs ob = (p, x) :: more /\
    let cfg := RequestResponses.ProtocolConfig_new p (Some q) in
    forall m, GenericCodec.read_request
        {| GenericCodec.max_request_size := RequestResponses.max_request_size cfg;
           GenericCodec.max_response_size := RequestResponses.max_response_size cfg |} input = Ok m ->
      inner_poll (RequestResponses.behaviour d) x = (b, Some (InboundMessage from id m ch));
}.

Context `{!UnsignedVarintLaws} `{CA : ComputeAgents}.

(** C23: a message of the service layer travels to the right nodes as it was sent.  The
    network worker hands it to the protocol of its room once for every target, in
    order: a broadcast for all peers discovery knows, a multicast for the peers it
    names, a direct message for its peer (or answers [UnknownProtocol] for each, if it
    has no such protocol).  At a target whose codec reads the written bytes (a payload
    of up to 8 MiB), the queue of the room gets exactly one request, with that context
    and payload, the sender, and the mark of a broadcast unless the message is direct;
    and if it is a coordination message and the room is idle, phase 1 joins the session
    it names. *)
Theorem message_travels peers_order room ctx msg now wA wA' acts continue :
  NetworkWorker.step peers_order
    (NetworkWorker.ServiceNext (Some (NetworkWorker.Request room ctx msg)) now) wA =
    Ok (wA', acts, continue) ->
  context_wf ctx -> Z.of_nat (length (NetworkWorker.intent_payload msg)) <= 8 * 1024 * 1024 ->
  let p := protocol_name room in
  (exists txs, length txs = length (NetworkWorker.targets peers_order msg wA) /\
     (forall tx, NetworkWorker.intent_sender msg = Some tx -> Forall (eq tx) txs) /\
     NetworkWorker.requests_in acts = zip_with
       (RequestResponses.requested
          (bool_decide (is_Some (RequestResponses.protocols (NetworkWorker.rr wA) !! p))) p
          (wire ctx msg)) txs (NetworkWorker.targets peers_order msg wA)) /\
  forall q rest from id ch ob sB,
    arrives p q (GenericCodec.write_request (wire ctx msg) ++ rest) from id ch ob sB ->
    exists s' req,
      RequestResponses.turn mock_peer_reputation ob sB =
        RequestResponses.Repeat s' [RequestResponses.Enqueue q req] /\
      req = {| context := ctx; peer := from; peer_id := from;
               is_broadcast := NetworkWorker.intent_is_broadcast msg; peer_index := 0;
               payload := NetworkWorker.intent_payload msg;
               pending_response := RequestResponses.fresh sB |} /\
      (message_type ctx = Messages.Coordination ->
       forall local c rx o, p1_rx c = Some rx -> Coordination.next1 o = NextMsg req ->
         Coordination.phase1_poll local c o =
         Coordination.FromRemote from (protocol_id ctx) (NetworkWorker.intent_payload msg)
           (RequestResponses.fresh sB)
           {| Coordination.p2_id := p1_id c; Coordination.p2_session := session_id ctx;
              Coordination.p2_rx := Some rx; Coordination.p2_buffered := p1_buffered c;
              Coordination.p2_timeout := Coordination.now1 o + 15000 |}).
Proof.
  intros Hs Hwf Hlen p. split; [by apply NetworkWorker.fan_out in Hs as [_ ?]|].
  intros q rest from id ch ob sB [[Ht Hr] Ha (d & x & b & more & Hd & Hq & Hi & Hx)].
  destruct (NetworkWorker.delivered p ctx (NetworkWorker.intent_payload msg)
    (NetworkWorker.intent_is_broadcast msg) q d x b from id ch rest more ob sB)
    as (s' & Hturn & _); [done..|].
  do 2 eexists. split; [exact Hturn|]. split; [done|].
  intros Hc local c rx o Hrx Hn. unfold Coordination.phase1_poll. rewrite Hrx, Hn. cbn.
  by rewrite Hc.
Qed.
End node.
End Node.
