(* ===== verification/CommandLine.v ===== *)
(** * The command line

    [Commands] and [run] of [crates/apps/cli/src/cli.rs], the [benchmark] command that
    dispatches to its two subcommands, and [main] of [apps/cli/src/main.rs] and
    [apps/node/src/main.rs].  Parsing the arguments is [clap]'s. *)

From Stdlib Require Import ZArith Lia Strings.Byte.
From stdpp Require Import base gmap strings numbers list.
From S2P Require Import Prelude Messages Peerset Wallet NetConfig NodeSetup Benchmark KeyGen KeySign Rpc.

Local Open Scope Z_scope.

Module CommandLine.
Section commands.
Context `{PI : PeerIds} `{!Multiaddrs} `{!Ed25519Keys} `{!Serde Config}.

(** [benchmark::BenchmarkCommand]. *)
Inductive BenchmarkCommand : Type :=
  | BenchKeygen (c : Benchmark.KeygenCommand)
  | BenchKeysign (c : Benchmark.KeysignCommand).

(** [Commands]. *)
Inductive Commands : Type :=
  | Benchmark (c : BenchmarkCommand)
  | Keygen (c : Cli.KeygenCommand)
  | Node (c : Command)
  | Setup (c : SetupCommand)
  | Sign (c : Cli.SignCommand).

(** What the commands see of the world: the client ([new_client] and the calls of the server),
    random identifiers, the file system, a new key, and what a node leaves of the files and how it
    ends. *)
Record world : Type := {
  connected : chars -> outcome string unit;
  keygen_server : chars -> Z -> Z -> outcome string PublicKey;
  sign_server : chars -> Z -> bytes -> outcome string Signature;
  to_json : Signature -> outcome string chars;
  keygen_calls : Z -> chars -> Z -> Z -> Benchmark.call;
  sign_calls : Z -> chars -> Z -> bytes -> Benchmark.call;
  uuid : Z -> chars;
  generated : SecretKey;
  disk : files;
  disk_obs : fs_obs;
  config_ok : bool;
  node : Command -> files * outcome string unit;
}.

(** What a command leaves: the lines it has printed, the files, and how it ended. *)
Definition ended : Type := list chars * files * outcome string unit.

Definition printing (fs : files) (r : outcome string (list chars)) : ended :=
  match r with
  | Ok lines => (lines, fs, Ok tt)
  | Err e => ([], fs, Err e)
  | Panic w => ([], fs, Panic w)
  end.

(** [benchmark::Command::execute]. *)
Definition execute_benchmark (w : world) (c : BenchmarkCommand) : ended :=
  match c with
  | BenchKeygen c => printing (disk w) (Benchmark.execute_keygen c (connected w) (uuid w) (keygen_calls w))
  | BenchKeysign c => printing (disk w) (Benchmark.execute_keysign c (connected w) (sign_calls w))
  end.

Definition execute (w : world) (c : Commands) : ended :=
  match c with
  | Benchmark c => execute_benchmark w c
  | Keygen c =>
      let '(lines, r) := Cli.keygen_execute c (uuid w 0) (connected w) (keygen_server w) in
      (lines, disk w, r)
  | Node c => let '(fs, r) := node w c in ([], fs, r)
  | Setup c =>
      let '(fs, r) := setup_execute c (generated w) (disk w) (disk_obs w) (config_ok w) in ([], fs, r)
  | Sign c => ([], disk w, Cli.sign_execute c (connected w) (sign_server w) (to_json w))
  end.

(** [run]: [logger] is [Logger::from_env], and whether it can be installed. *)
Definition run (w : world) (logger : outcome string bool) (c : Commands) : ended :=
  match logger with
  | Ok true => execute w c
  | Ok false => ([], disk w, Panic "Failed to initialize logging")
  | Err e => ([], disk w, Err e)
  | Panic why => ([], disk w, Panic why)
  end.

(** [main] of the command line: what is printed, and the exit code ([None] when it
    panics). *)
Definition main (w : world) (logger : outcome string bool) (c : Commands) : list chars * option Z :=
  match run w logger c with
  | (lines, _, Ok _) => (lines ++ [str "Done"], Some 0)
  | (lines, _, Err _) => (lines, Some 1)
  | (lines, _, Panic _) => (lines, None)
  end.

(** [main] of the node. *)
Definition node_main (w : world) (c : Command) : option Z :=
  match (node w c).2 with Ok _ => Some 0 | Err _ => Some 1 | Panic _ => None end.

(** Nothing that cannot be done is reported as done: without a server no command that asks one
    to do something exits with success; and only [setup] and a node change files. *)
Theorem no_server_no_success w logger c :
  (forall a, is_ok (connected w a) = false) ->
  (snd (main w logger c) = Some 0 \/ (run w logger c).1.2 <> disk w) ->
  (exists s, c = Setup s) \/ (exists s, c = Node s).
Proof.
  intros Hno. unfold main, run. destruct logger as [[]|e|why]; [|naive_solver..].
  destruct c as [[c|c]|c|c|c|c]; [| | |by eauto..|]; intros Hc; exfalso; revert Hc; cbn.
  - unfold Benchmark.execute_keygen. specialize (Hno (bk_address c)).
    destruct (ensure_total _); [|naive_solver..]. cbn. destruct (ensure_non_empty _ _); [|naive_solver..].
    cbn. destruct (connected w (bk_address c)); naive_solver.
  - unfold Benchmark.execute_keysign. specialize (Hno (bs_address c)).
    destruct (ensure_total _); [|naive_solver..]. cbn. destruct (ensure_non_empty _ _); [|naive_solver..].
    cbn. destruct (connected w (bs_address c)); naive_solver.
  - unfold Cli.keygen_execute. specialize (Hno (Cli.kc_address c)).
    destruct (connected w (Cli.kc_address c)); naive_solver.
  - unfold Cli.sign_execute. specialize (Hno (Cli.sc_address c)).
    destruct (connected w (Cli.sc_address c)); naive_solver.
Qed.
End commands.
End CommandLine.
