(* ===== verification/Witnesses.v ===== *)
(** * Concrete runs

    The theorems of the development at concrete inputs.  The interfaces of the
    code that is not in the repository are instantiated: peer identities are
    byte strings, variable-length integers are LEB128, the hash of the echo is
    the identity, the encodings know one value each, and the threshold scheme
    adds the bytes of what the parties send.  Every hypothesis of the theorem at
    hand is met by the instance, and mostly by evaluation. *)

From Stdlib Require Import ZArith Lia Strings.Byte Sorting.Sorted.
From stdpp Require Import base gmap strings numbers list.
From S2P Require Import Prelude Wire Messages Codec Peerset StartMsg Room NetworkProxy.
From S2P Require Import Negotiation Coordination Echo Storage Execution Worker Wallet Frost KeyGen KeySign Factory.
Import BytePeers Leb128.

Local Open Scope Z_scope.

(** Evaluation of both sides of an equation by the virtual machine. *)
Ltac evaluate := match goal with
  | |- ?a = ?b => vm_cast_no_check (eq_refl b)
  | |- _ => vm_compute; exact I || reflexivity || discriminate
  end.

(** ** The node *)

Definition node_a : PeerId := [x0a].
Definition node_b : PeerId := [x0b].
Definition node_c : PeerId := [x0c].

Definition factory : TssFactory.t := TssFactory.new (str "/var/keys") Ed25519.

#[local] Instance node_agents : ComputeAgents := TssFactory.factory_agents factory.
#[local] Instance identity_hash : EchoHash := fun b => b.

Definition keygen_agent : Agent := TssFactory.keygen factory.

Definition sid : SessionId := replicate 16 x05.
Definition room : RoomId := "room".

Definition coordination_ctx : MessageContext :=
  {| message_type := Messages.Coordination; protocol_id := 0; session_id := sid; message_id := 0 |}.
Definition computation_ctx : MessageContext :=
  {| message_type := Computation; protocol_id := 0; session_id := sid; message_id := 0 |}.

Definition from (p : PeerId) (i : Z) (ctx : MessageContext) (b : bytes) (tx : nat) :
  IncomingRequest :=
  {| context := ctx; peer := p; peer_id := p; is_broadcast := true; peer_index := i;
     payload := b; pending_response := tx |}.

(** ** Encodings *)

Definition codec : GenericCodec.t :=
  {| GenericCodec.max_request_size := 1024; GenericCodec.max_response_size := 1024 |}.
Definition wire : WireMessage :=
  {| wm_context := computation_ctx; wm_payload := [x01; x02]; wm_is_broadcast := true |}.

Lemma request_roundtrip_witness :
  GenericCodec.read_request codec (GenericCodec.write_request wire ++ [x07]) = Ok wire.
Proof.
  apply (GenericCodec.request_roundtrip codec wire [x07]);
    [split; cbn; done || lia|vm_compute; discriminate|cbn; lia].
Defined.

Lemma read_request_wf_witness :
  context_wf (wm_context wire) /\ Z.of_nat (length (wm_payload wire)) <= 1024.
Proof.
  apply (GenericCodec.read_request_wf codec (GenericCodec.write_request wire) wire).
  evaluate.
Defined.

Lemma read_request_panics_witness :
  GenericCodec.read_request codec (uv_encode U8 2 ++ []) = Panic "unknown messages type".
Proof.
  apply (GenericCodec.read_request_panics codec [] 2 []); [vm_compute; discriminate|lia].
Defined.

Definition two : Peerset.t := Peerset.new [node_b; node_a] node_a.

Lemma index_of_inverse_witness :
  Peerset.index_of two node_b = Some 1 <-> Peerset.index (E:=io_error) two 1 = Ok node_b.
Proof.
  apply (Peerset.index_of_inverse two node_b 1).
  - apply (bool_decide_unpack _). evaluate.
  - vm_compute; discriminate.
Defined.

Lemma new_agreement_witness :
  Peerset.index_of (Peerset.new [node_a; node_b; node_c] node_a) node_b =
  Peerset.index_of (Peerset.new [node_c; node_a; node_b] node_c) node_b.
Proof.
  apply (Peerset.new_agreement [node_a; node_b; node_c] [node_c; node_a; node_b] node_a node_c node_b).
  apply (Permutation_app_comm [node_a; node_b] [node_c]).
Defined.

Lemma start_msg_large_body_witness :
  StartMsg.to_bytes {| StartMsg.peerset := two; StartMsg.body := replicate 8192 x00 |} = Ok [].
Proof.
  apply (StartMsg.start_msg_large_body
           {| StartMsg.peerset := two; StartMsg.body := replicate 8192 x00 |} node_b).
  cbn [StartMsg.body]. by rewrite length_replicate.
Defined.

(** A later session of the same nodes, assembled in another order. *)
Definition two_later : Peerset.t :=
  {| Peerset.local_peer_id := node_b; Peerset.peers := [node_b; node_a];
     Peerset.parties := [0; 1] |}.
Definition two_swapped : Peerset.t :=
  {| Peerset.local_peer_id := node_a; Peerset.peers := [node_a; node_b];
     Peerset.parties := [1; 0] |}.


(** ** The proxy *)

Definition proxy : ReceiverProxy.t :=
  ReceiverProxy.new room 1 two sid [from node_b 0 computation_ctx [x01] 7].

Definition proxy_obs (m : IncomingRequest) : ReceiverProxy.obs :=
  {| ReceiverProxy.tx_is_closed := false; ReceiverProxy.next := NextMsg m;
     ReceiverProxy.tx_accepts := true; ReceiverProxy.fresh := 30 |}.

Definition proxy_run : list ReceiverProxy.obs :=
  [proxy_obs (from node_c 0 computation_ctx [x02] 8);
   proxy_obs (from node_c 0 computation_ctx [x02] 8);
   proxy_obs (from node_a 0 computation_ctx [x03] 9)].


(** ** A negotiation between two nodes *)

Definition negotiation : Negotiation.t :=
  Negotiation.new node_a room 1 2 [x2a] keygen_agent 3 0 sid.

Definition negotiation_obs (now : Z) (r : Negotiation.poll_response) : Negotiation.obs :=
  {| Negotiation.now := now; Negotiation.response := r; Negotiation.probe := Some {[node_b]};
     Negotiation.fresh := 20 |}.

Definition negotiation_run : list Negotiation.obs :=
  [negotiation_obs 0 Negotiation.RespPending; negotiation_obs 10 (Negotiation.RespOk node_b [])].

Definition start_bytes : bytes :=
  StartMsg.encoding {| StartMsg.peerset := two; StartMsg.body := [x2a] |}.

Definition proposal_msg : effect :=
  NetworkRequest room coordination_ctx (Broadcast []).
Definition start_msg : effect :=
  NetworkRequest room coordination_ctx (Multicast [node_b; node_a] start_bytes).

Lemma started :
  Negotiation.run node_a negotiation negotiation_run =
  Negotiation.Start keygen_agent 3 (ReceiverProxy.new room 1 two sid []) two
    [x2a] sid [proposal_msg; start_msg].
Proof. evaluate. Qed.

Lemma negotiation_start_sound_witness :
  Z.of_nat (Peerset.size two) = 2 /\ NoDup (Peerset.peers two) /\ node_a ∈ Peerset.peers two /\
  (forall p, p ∈ Peerset.peers two ->
     p = node_a \/ p ∈ Negotiation.responders negotiation_run).
Proof.
  destruct (Negotiation.negotiation_start_sound node_a room 1 2 [x2a] keygen_agent
    3 0 sid negotiation_run _ _ _ _ _ _ _ started) as (Hn & Hnd & Hl & Hr & _).
  auto.
Defined.

Definition proposer_state : Negotiation.state :=
  match Negotiation.st negotiation with
  | Some s => s
  | None => {| Negotiation.id := ""; Negotiation.session := []; Negotiation.n := 0;
               Negotiation.request := []; Negotiation.peers := ∅; Negotiation.responses := None;
               Negotiation.pending_futures := []; Negotiation.ns_pending_response := 0;
               Negotiation.last_broadcast_time := None; Negotiation.retry_count := 0;
               Negotiation.connection_wait_start := None;
               Negotiation.connection_wait_done := false;
               Negotiation.connected_peers_probe := false;
               Negotiation.last_connected_peers_probe_at := None |}
  end.

(** Nobody answers; the proposal was broadcast at 0. *)
Definition unanswered : Negotiation.t :=
  match Negotiation.poll node_a negotiation (negotiation_obs 0 Negotiation.RespPending) with
  | Negotiation.Pending ch _ => ch
  | _ => negotiation
  end.

Lemma negotiation_decided_witness :
  Negotiation.timeout unanswered = 15000 /\
  (forall ch' out,
    Negotiation.run node_a unanswered
      ([negotiation_obs 1200 Negotiation.RespClosed; negotiation_obs 1300 Negotiation.RespPending]
       ++ [negotiation_obs 15000 Negotiation.RespPending]) <> Negotiation.Pending ch' out).
Proof.
  split; [evaluate|].
  apply (Negotiation.negotiation_decided node_a 15000 unanswered).
  - split; [evaluate|]. exists (default proposer_state (Negotiation.st unanswered)).
    split; [evaluate|]. exists 0. evaluate.
  - done.
Defined.

(** ** The joiner *)

Definition joiner : Coordination.Phase2Channel :=
  {| Coordination.p2_id := room; Coordination.p2_session := sid; Coordination.p2_rx := Some 4%nat;
     Coordination.p2_buffered := [from node_a 0 computation_ctx [x01] 7];
     Coordination.p2_timeout := 15000 |}.

Definition joiner_obs (next : try_next IncomingRequest) : Coordination.obs2 :=
  {| Coordination.now2 := 10; Coordination.next2 := next; Coordination.fresh2 := 21 |}.

Definition two_b : Peerset.t :=
  {| Peerset.local_peer_id := node_b; Peerset.peers := Peerset.peers two;
     Peerset.parties := Peerset.parties two |}.

Definition early_msg : IncomingRequest := from node_a 0 computation_ctx [x02] 8.
Definition start_req : IncomingRequest := from node_a 0 coordination_ctx start_bytes 9.

Definition waiting_joiner : Coordination.Phase2Channel :=
  {| Coordination.p2_id := room; Coordination.p2_session := sid; Coordination.p2_rx := Some 4%nat;
     Coordination.p2_buffered := [from node_a 0 computation_ctx [x01] 7; early_msg];
     Coordination.p2_timeout := 15000 |}.

Definition started_proxy : ReceiverProxy.t :=
  ReceiverProxy.new room 4 two_b sid [from node_a 0 computation_ctx [x01] 7; early_msg].

Lemma phase2_start_keeps_early_witness :
  Coordination.phase2_poll node_b waiting_joiner (joiner_obs (NextMsg start_req)) =
    Coordination.Start2 room started_proxy two_b [x2a] sid [Discard 9] /\
  ReceiverProxy.buffered started_proxy =
    take 1024 (Coordination.p2_buffered joiner ++
               Coordination.early sid [joiner_obs (NextMsg early_msg)]).
Proof.
  split; [evaluate|].
  apply (Coordination.phase2_start_keeps_early node_b joiner [joiner_obs (NextMsg early_msg)]
            waiting_joiner [] (joiner_obs (NextMsg start_req)) room started_proxy two_b [x2a] sid [Discard 9]);
    [apply Nat.leb_le; evaluate|evaluate..].
Defined.

Lemma retry_aborts_joiner_witness :
  exists p1, Coordination.phase2_poll node_b joiner
      (joiner_obs (NextMsg (from node_a 0 coordination_ctx [] 9))) =
    Coordination.Abort2 room p1 21 [Discard 9; Respond 7 reject] /\
    p1_rx p1 = Some 4%nat /\ p1_buffered p1 = [].
Proof.
  apply (Coordination.retry_aborts_joiner node_b proposer_state keygen_agent joiner 4
           (joiner_obs (NextMsg (from node_a 0 coordination_ctx [] 9)))
           (from node_a 0 coordination_ctx [] 9)); [done..|].
  exists room, coordination_ctx, []. done.
Defined.


(** ** The echo between two nodes *)

Definition own_echo : EchoMessage :=
  {| em_message_id := 0; em_sender := 1; em_payload := [x01]; em_response := Outgoing 5 |}.
Definition remote_echo : EchoMessage :=
  {| em_message_id := 0; em_sender := 2; em_payload := [x02]; em_response := Incoming 6 |}.
Definition gadget : EchoGadget.t := EchoGadget.new 2.
Definition answers (_ : nat) : list (outcome RequestFailure (PeerId * bytes)) * bool := ([Ok (node_b, [x01; x02])], false).
Definition all_alive (_ : nat) : bool := true.
Definition ack : list effect := [Respond 6 (accept [x01; x02])].

Lemma echo_round_sound_witness :
  exists mid pre group rx,
    [remote_echo; own_echo] = pre ++ [] /\
    group = default [] (EchoGadget.msgs gadget !! mid) ++
            filter (fun m => em_message_id m = mid) pre /\
    length group = 2%nat /\ NoDup (em_sender <$> group) /\
    ack = (fun tx => Respond tx (accept (echo_hash (EchoGadget.transcript group)))) <$>
            EchoGadget.incoming (EchoGadget.sorted group) /\
    rx ∈ EchoGadget.outgoing group /\
    length (take 1 (answers rx).1) = 1%nat /\
    Forall (EchoGadget.echoes (echo_hash (EchoGadget.transcript group))) (take 1 (answers rx).1).
Proof.
  apply (EchoGadget.echo_round_sound gadget [remote_echo; own_echo] false all_alive answers
           {| EchoGadget.r := 1; EchoGadget.n := 2; EchoGadget.msgs := ∅ |} [] ack);
    [done|evaluate].
Defined.

Lemma echo_round_complete_witness :
  EchoGadget.proceed_round gadget [remote_echo; own_echo] true all_alive answers =
  EchoGadget.RoundDone {| EchoGadget.r := 1; EchoGadget.n := 2; EchoGadget.msgs := ∅ |} [] ack.
Proof.
  rewrite (EchoGadget.echo_round_complete gadget 0 [remote_echo; own_echo] true all_alive answers 5);
    [evaluate|done|done|done|by repeat constructor|done| |done|by repeat constructor|done|].
  - apply (bool_decide_unpack _). evaluate.
  - repeat constructor. by exists node_b.
Defined.

(** Node B ran the same round: for it the first message is the remote one. *)
Definition own_echo_b : EchoMessage :=
  {| em_message_id := 0; em_sender := 2; em_payload := [x02]; em_response := Outgoing 15 |}.
Definition remote_echo_b : EchoMessage :=
  {| em_message_id := 0; em_sender := 1; em_payload := [x01]; em_response := Incoming 16 |}.

Lemma echo_agreement_witness :
  em_payload <$> EchoGadget.sorted [own_echo; remote_echo] =
    em_payload <$> EchoGadget.sorted [own_echo_b; remote_echo_b] \/
  (EchoGadget.transcript [own_echo; remote_echo] <>
     EchoGadget.transcript [own_echo_b; remote_echo_b] /\
   echo_hash (EchoGadget.transcript [own_echo; remote_echo]) =
     echo_hash (EchoGadget.transcript [own_echo_b; remote_echo_b])).
Proof.
  apply (EchoGadget.echo_agreement gadget [own_echo; remote_echo] [] all_alive answers
           {| EchoGadget.r := 1; EchoGadget.n := 2; EchoGadget.msgs := ∅ |} [] ack
           gadget [own_echo_b; remote_echo_b] [] all_alive answers 16 [x01; x02] node_b 5).
  - done.
  - evaluate.
  - evaluate.
  - vm_compute. constructor.
  - cbn. constructor.
  - repeat constructor.
Defined.

(** ** An execution between two nodes *)

Definition cache : LocalStorage.t := LocalStorage.new "/tmp" node_a ∅.

Definition execution : ProtocolExecution.t :=
  {| ProtocolExecution.room_id := room; ProtocolExecution.session := sid;
     ProtocolExecution.protocol := 0; ProtocolExecution.peerset := two;
     ProtocolExecution.storage := cache; ProtocolExecution.request := []; ProtocolExecution.agent_running := true;
     ProtocolExecution.agent_result := None; ProtocolExecution.completion_delay := None;
     ProtocolExecution.reply_to := Some 3%nat;
     ProtocolExecution.next_outgoing_broadcast_id := 0;
     ProtocolExecution.next_incoming_broadcast_id := 0;
     ProtocolExecution.pending_incoming := ∅; ProtocolExecution.i := 0;
     ProtocolExecution.n := 2 |}.

Definition finished : ProtocolExecution.t :=
  ProtocolExecution.with_agent false (Some (Ok [x2a])) (Some 500) execution.

Definition execution_obs (now : Z) (net : option IncomingRequest) (app : chan) :
  ProtocolExecution.obs :=
  {| ProtocolExecution.now := now; ProtocolExecution.cache_msg := None;
     ProtocolExecution.from_protocol := None; ProtocolExecution.from_network := net;
     ProtocolExecution.agent_poll := None; ProtocolExecution.app := app;
     ProtocolExecution.echo := open_with 2;
     ProtocolExecution.fs := {| LocalStorage.mkdir_ok := true; LocalStorage.write_ok := true |};
     ProtocolExecution.fresh := 40 |}.

Lemma execution_inv : ProtocolExecution.inv execution.
Proof. by split; cbn; unfold u16_max; try lia. Qed.

Lemma finished_inv : ProtocolExecution.inv finished.
Proof. by split; cbn; unfold u16_max; try lia. Qed.

Lemma execution_new_witness :
  (exists e, ProtocolExecution.new room sid [] keygen_agent two cache (Some 3%nat) = Ok e) <->
  node_a ∈ Peerset.peers two /\ (2 <= Peerset.size two)%nat.
Proof.
  apply (ProtocolExecution.execution_new room sid [] keygen_agent two cache (Some 3%nat)).
  - apply (bool_decide_unpack _). evaluate.
  - evaluate.
Defined.

Definition broadcast_b : IncomingRequest := from node_b 1 computation_ctx [x01] 7.

Definition io2 : ProtocolExecution.io :=
  {| ProtocolExecution.app_ch := open_with 1; ProtocolExecution.echo_ch := open_with 1;
     ProtocolExecution.to_app := []; ProtocolExecution.to_echo := [] |}.

Lemma broadcasts_in_order_witness :
  exists res,
    ProtocolExecution.forward_buffered_messages 2 {[(2, 0) := broadcast_b]} 0 2 io2 = Some res /\
    exists x, res = Ok x.
Proof.
  destruct (ProtocolExecution.broadcasts_in_order {[(2, 0) := broadcast_b]} 0 2 io2 ltac:(lia))
    as (res & Hres & _ & Hok).
  rewrite map_size_singleton in *. exists res. split; [done|].
  by apply (Hok 1%nat 1%nat).
Defined.

Lemma execution_invariant_witness :
  ProtocolExecution.poll execution (execution_obs 5 (Some broadcast_b) (open_with 1)) <>
    ProtocolExecution.Diverged /\
  (forall e' o, ProtocolExecution.poll execution
      (execution_obs 5 (Some broadcast_b) (open_with 1)) = ProtocolExecution.Pending e' o ->
    ProtocolExecution.inv e').
Proof.
  apply (ProtocolExecution.execution_invariant execution
           (execution_obs 5 (Some broadcast_b) (open_with 1))), execution_inv.
Defined.

Definition last_poll : ProtocolExecution.poll_result :=
  ProtocolExecution.poll finished (execution_obs 600 None (open_with 1)).

Lemma result_reported_witness :
  exists r o, last_poll = ProtocolExecution.Ready (Ok tt) o /\
    ProtocolExecution.agent_result finished = Some r /\
    ProtocolExecution.replies (ProtocolExecution.effects o) = [(3%nat, r)].
Proof.
  destruct last_poll as [res o| | |] eqn:Hp; [|discriminate..].
  destruct (ProtocolExecution.result_reported finished
    (execution_obs 600 None (open_with 1)) res o finished_inv Hp)
    as (r & d & Hr & _ & _ & _ & Hrep & Hres).
  exists r, o. cbn in Hr, Hrep. injection Hr as <-.
  destruct Hres as [(b & [= <-] & ->)|(why & [=] & _)]. done.
Defined.

Definition foreign : IncomingRequest :=
  from node_b 1 {| message_type := Computation; protocol_id := 0;
                   session_id := replicate 16 x06; message_id := 0 |} [x01] 7.

Lemma foreign_messages_rejected_witness :
  (exists why, forall net,
     ProtocolExecution.poll execution (execution_obs 5 net (open_with 1)) =
     ProtocolExecution.Panicked why) \/
  exists e' o, ProtocolExecution.poll execution (execution_obs 5 (Some foreign) (open_with 1)) =
      ProtocolExecution.Pending e' o /\
    ProtocolExecution.same_life execution e' /\
    Respond 7 reject ∈ ProtocolExecution.effects o /\
    ProtocolExecution.to_app (ProtocolExecution.sent o) = [].
Proof.
  apply (ProtocolExecution.foreign_messages_rejected execution
           (execution_obs 5 (Some foreign) (open_with 1)) foreign); [done|by left].
Defined.


(** ** The worker of node A *)

Definition worker0 : Worker.t := Worker.new cache [(room, 1%nat)].

(** The state and the effects after an event that does not panic. *)
Definition after (w : Worker.t) (ev : Worker.event) : Worker.t :=
  match Worker.step node_a w ev with Ok (w', _) => w' | _ => w end.
Definition effects_of (w : Worker.t) (ev : Worker.event) : list effect :=
  match Worker.step node_a w ev with Ok (_, out) => out | _ => [] end.

(** Node B proposes a key generation and starts it. *)
Definition join : Worker.event :=
  Worker.IdlePoll 0 0 (NextMsg (from node_b 0 coordination_ctx [] 8)) sid
    [joiner_obs (NextMsg (from node_b 0 coordination_ctx start_bytes 9))] [].
(** A local request for the room. *)
Definition local_keygen : Worker.event :=
  Worker.ServiceMsg (Worker.KeyGen 2 2 room [x2a] 3).
Definition execution_ends : Worker.event := Worker.ExecutionDone 0 (Ok tt).

Definition computing : Worker.t := after worker0 join.
Definition queued : Worker.t := after computing local_keygen.
Definition gap : Worker.t := after computing execution_ends.

Lemma one_room : NoDup [(room, 1%nat)].*1.
Proof. apply (bool_decide_unpack _). evaluate. Qed.

Lemma computing_reachable : Worker.calmly_reachable node_a cache [(room, 1%nat)] computing.
Proof.
  eapply (Worker.calm_step _ _ _ worker0 join _ (effects_of worker0 join));
    [constructor|exact I|evaluate].
Qed.

Lemma queued_reachable : Worker.calmly_reachable node_a cache [(room, 1%nat)] queued.
Proof.
  eapply (Worker.calm_step _ _ _ computing local_keygen _ (effects_of computing local_keygen));
    [exact computing_reachable| |evaluate].
  intros _. apply (bool_decide_unpack _). evaluate.
Qed.

Lemma gap_reachable : Worker.calmly_reachable node_a cache [(room, 1%nat)] gap.
Proof.
  eapply (Worker.calm_step _ _ _ computing execution_ends _ (effects_of computing execution_ends));
    [exact computing_reachable|exact I|evaluate].
Qed.

Lemma room_has_one_owner_witness :
  (room, Some 1%nat) ∈ Worker.owned gap /\ NoDup (Worker.owned gap).*1.
Proof.
  apply (Worker.room_has_one_owner node_a cache [(room, 1%nat)] gap room 1 one_room gap_reachable).
  constructor.
Defined.

(** The local request waits for the computation to end. *)
Lemma no_request_stranded_witness :
  Worker.pending_local queued !! room = Some [Worker.KeyGen 2 2 room [x2a] 3] /\
  (room ∈ Worker.busy_rooms queued \/ room ∈ Worker.proxied queued).
Proof.
  assert (Worker.pending_local queued !! room = Some [Worker.KeyGen 2 2 room [x2a] 3]) as Hq
    by evaluate.
  split; [exact Hq|].
  apply (Worker.no_request_stranded node_a cache [(room, 1%nat)] queued one_room queued_reachable)
    in Hq.
  apply Hq.
Defined.

Definition idle_room : Phase1Channel :=
  {| p1_id := room; p1_rx := Some 1%nat; p1_request := 2; p1_buffered := [] |}.

Lemma idle_poll_safe_witness :
  Worker.rooms_coordination worker0 = [idle_room] /\
  forall why, Coordination.phase1_poll node_a idle_room
    {| Coordination.now1 := 0; Coordination.next1 := NextEmpty;
       Coordination.request1 := Worker.request_view worker0 idle_room;
       Coordination.fresh_session := sid |} <> Coordination.Panicked1 why.
Proof.
  split; [evaluate|].
  apply (Worker.idle_poll_safe node_a cache [(room, 1%nat)] worker0 0 idle_room 0 NextEmpty sid
           one_room); [constructor|evaluate].
Defined.

Lemma request_in_the_gap_witness :
  exists w' out, Worker.step node_a gap local_keygen = Ok (w', out) /\
    ((exists tx sender, Worker.rooms_rpc gap !! room = Some tx /\
        out = [ReplyLocal sender (Err "sender is canceled")] /\
        room ∉ Worker.busy_rooms w') \/
     (Worker.rooms_rpc gap !! room = None /\ out = [] /\
      room ∈ Worker.busy_rooms w' /\ ~ NoDup (Worker.owned w').*1)).
Proof.
  destruct (Worker.calmly_reachable_inv node_a _ _ _ one_room gap_reachable) as (all & _ & Hi).
  apply (Worker.request_in_the_gap node_a all gap (Worker.KeyGen 2 2 room [x2a] 3) Hi);
    apply (bool_decide_unpack _); evaluate.
Defined.

(** A local request is sent to the idle room, then node B's proposal comes. *)
Definition asked : Worker.t := after worker0 local_keygen.

Lemma local_request_dropped_witness :
  Worker.step node_a asked join = Ok (after asked join, effects_of asked join) /\
  DropLocal 3 ∈ effects_of asked join.
Proof.
  assert (Worker.step node_a asked join = Ok (after asked join, effects_of asked join)) as Hs
    by evaluate.
  split; [exact Hs|].
  refine (Worker.local_request_dropped node_a asked 0 idle_room
    {| rpc_n := 2; rpc_payload := [x2a]; rpc_agent := keygen_agent; rpc_pending_response := 3 |}
    0 (from node_b 0 coordination_ctx [] 8) sid _ _ _ _ _ _ _ Hs); evaluate.
Defined.

(** Node C joins a computation of A and B. *)
Lemma foreign_start_kills_worker_witness :
  Worker.from_remote node_c 0 8 joiner [joiner_obs (NextMsg start_req)] worker0 =
  Panic "called `Option::unwrap()` on a `None` value".
Proof.
  apply (Worker.foreign_start_kills_worker node_c worker0 joiner 4 0 keygen_agent 8
           (joiner_obs (NextMsg start_req)) start_req
           {| StartMsg.peerset := two; StartMsg.body := [x2a] |});
    [evaluate..| |].
  - repeat constructor; evaluate.
  - apply (bool_decide_unpack _). evaluate.
Defined.

(** ** A threshold scheme *)

(** Identifiers are the party numbers; the packages are bytes, and a signature
    is the message.  Only the laws the agents rely on matter here. *)
#[local] Instance toy_frost : Frost := {|
  Ident := Z;
  ident_of u := if 1 <=? u then Some u else None;
  coins := unit;
  Round1Secret := Z;
  Round1Package := bytes;
  Round2Secret := Z;
  Round2Package := bytes;
  KeyPackage := bytes;
  PublicKeyPackage := bytes;
  part1 self _ _ _ := Some (self, [byte_of_Z self]);
  part2 self r1 := Some (self, (fun x => (x.1, byte_of_Z self :: x.2)) <$> map_to_list r1);
  part3 self r1 r2 :=
    Some (concat (map_to_list r2).*2,
          byte_of_Z self :: (byte_of_Z <$> (map_to_list r1).*1));
  round1_serialize p := Some p;
  round1_deserialize b := Some b;
  round2_serialize p := Some p;
  round2_deserialize b := Some b;
  signing_share_bytes kp := kp;
  verifying_share_bytes kp := Some kp;
  group_key_bytes pkp := Some [byte_of_Z (Z.of_nat (length pkp))];
  public_package_bytes pkp := Some pkp;
  public_package_of b := Some b;
  verifying_share_ids pkp := list_to_set (byte_to_Z <$> pkp);
  key_package_of _ sk _ _ _ := Ok sk;
  Nonces := unit;
  Commitments := bytes;
  SigShare := bytes;
  SignatureT := bytes;
  commit kp _ := (tt, x01 :: kp);
  commitments_serialize c := Some c;
  commitments_deserialize b := if b is x01 :: _ then Some b else None;
  sign _ m _ _ := Some (x02 :: m);
  share_serialize s := s;
  share_deserialize b := if b is x02 :: _ then Some b else None;
  aggregate _ m shares _ :=
    if forallb (fun x => bool_decide (x.2 = x02 :: m)) (map_to_list shares) then Some m else None;
  verify _ m s := bool_decide (s = m);
  signature_bytes s := Some s;
|}.

#[local] Instance toy_frost_laws : FrostLaws toy_frost.
Proof.
  split.
  - intros u Hu. exists u. cbn. by rewrite (proj2 (Z.leb_le 1 u)) by lia.
  - intros u v i. cbn. repeat case_match; naive_solver.
  - intros p b [= ->]. done.
  - intros p b [= ->]. done.
Qed.

#[local] Instance bytes_serde : Serde bytes := {| to_vec b := Some b; from_slice b := Some b |}.

Definition no_coins : coins := tt.

Definition agent_msg (from : Z) (to : option Z) (b : bytes) : AgentMessage :=
  {| am_from := from; am_payload := b; am_to := to |}.

Definition agent_channels : channels := {| in_closed := false; out_open := true |}.

(** Party 2's direct message overtakes its broadcast. *)
Definition dkg_inbox : list AgentMessage :=
  [agent_msg 2 (Some 1) [x02; x01]; agent_msg 2 None [x02]].

Lemma dkg_done :
  KeyGen.run_dkg 1 2 2 no_coins agent_channels dkg_inbox [] =
  Done ([x02; x01], [x01; x02]) []
    [KeyGen.outgoing None [x01]; KeyGen.outgoing (Some 2) [x01; x02]].
Proof. evaluate. Qed.

Lemma dkg_sound_witness :
  2 <= 2 <= 2 /\
  exists self secret1 pkg1 r1 secret2 pkgs2 r2 b sent,
    ident_of 1 = Some self /\ part1 self 2 2 no_coins = Some (secret1, pkg1) /\
    dom r1 = KeyGen.expected_ids 2 ∖ {[self]} /\ part2 secret1 r1 = Some (secret2, pkgs2) /\
    Z.of_nat (size r2) = 2 - 1 /\ part3 secret2 r1 r2 = Some ([x02; x01], [x01; x02]) /\
    [KeyGen.outgoing None [x01]; KeyGen.outgoing (Some 2) [x01; x02]] =
      KeyGen.outgoing None b :: sent /\ length sent = length pkgs2 /\
    Forall (fun m => is_Some (ar_to m)) sent.
Proof.
  eapply (KeyGen.dkg_sound (F:=toy_frost) 1 2 2 no_coins agent_channels dkg_inbox); [done|done|exact dkg_done].
Defined.

(** ** Key generation and signing on node A *)

#[local] Instance participant_eq_dec : EqDecision KeyShareParticipant.
Proof. solve_decision. Defined.
#[local] Instance key_share_eq_dec : EqDecision KeyShare.
Proof. solve_decision. Defined.

Definition share_a : KeyShare :=
  {| ks_curve := Ed25519; ks_identifier := 1; ks_signing_key := [x02; x01];
     ks_public_key := [x02; x01]; ks_group_public_key := [x02];
     ks_public_key_package := [x01; x02]; ks_min_signers := 2; ks_max_signers := 2;
     ks_participants := KeySign.numbered 0 (Peerset.peers two) |}.

(** Encodings that know one value. *)
#[local] Instance key_share_serde : Serde KeyShare := {|
  to_vec x := if decide (x = share_a) then Some [x53] else None;
  from_slice b := if decide (b = [x53]) then Some share_a else None;
|}.
#[local] Instance key_share_serde_laws : SerdeLaws KeyShare.
Proof.
  split. intros x b. cbn [to_vec from_slice key_share_serde].
  destruct (decide (x = share_a)) as [->|]; [|done]. intros [= <-]. by rewrite decide_True.
Qed.

Definition wallet : chars := str "alice".

#[local] Instance keygen_payload_serde : Serde KeygenRequestPayload := {|
  to_vec _ := Some [x4b];
  from_slice _ := Some {| kg_wallet_id := wallet; kg_threshold := 2 |};
|}.
#[local] Instance public_key_serde : Serde PublicKey := {|
  to_vec k := Some (pk_bytes k);
  from_slice b := Some {| pk_curve := Ed25519; pk_bytes := b |};
|}.

Definition keygen_a : KeyGen.t := KeyGen.new (str "/var/keys") Ed25519.
Definition fs_ok : KeyGen.fs_obs :=
  {| KeyGen.mkdir_ok := true; KeyGen.create_ok := true; KeyGen.write_ok := true |}.
Definition suite (_ : Curve) : Frost := toy_frost.
Definition saved : gmap chars bytes := {[wallet_key_share_path (str "/var/keys") wallet := [x53]]}.

Lemma keygen_saves_share_witness :
  exists req share,
    decode_keygen_payload [x4b] = Ok req /\
    KeyGen.read_key_share (str "/var/keys") saved (kg_wallet_id req) = Ok share /\
    Some (ks_identifier share) = Z.succ <$> Peerset.index_of two node_a /\
    ks_min_signers share = 2 /\ ks_max_signers share = 2.
Proof.
  destruct (KeyGen.keygen_saves_share suite keygen_a two [x4b] (fun _ => no_coins) ∅ fs_ok
    agent_channels dkg_inbox saved [x02] []
    [KeyGen.outgoing None [x01]; KeyGen.outgoing (Some 2) [x01; x02]])
    as (req & share & Hreq & Hread & Hid & Hmin & Hmax & _); [done|evaluate|].
  exists req, share. split; [done|]. split; [done|]. split; [done|].
  injection Hreq as <-. done.
Defined.

(** Nodes A and C sign with the shares of a key generation among three nodes: C
    keeps its identifier 3 although it is the second party of the session. *)
Definition share_c : KeyShare :=
  {| ks_curve := Ed25519; ks_identifier := 3; ks_signing_key := []; ks_public_key := [];
     ks_group_public_key := []; ks_public_key_package := []; ks_min_signers := 2;
     ks_max_signers := 3; ks_participants := KeySign.numbered 0 [node_a; node_b; node_c] |}.

Definition position_of (q : PeerId) : nat :=
  if decide (q = node_a) then 0%nat else if decide (q = node_b) then 1%nat else 2%nat.

Lemma signing_identifiers_match_witness :
  exists parties,
    KeySign.key_share_parties_for_peers [node_a; node_c] node_c share_c = Ok (parties, 3) /\
    parties = [0; 2] /\
    KeySign.participant_identifier_for_session_index 2
      ((fun idx => as_u16 (idx + 1)) <$> parties) = Ok 3.
Proof.
  destruct (KeySign.signing_identifiers_match share_c [node_a; node_b; node_c] [node_a; node_c]
    node_c position_of) as (parties & Hk & Hp & Hj).
  - apply (bool_decide_unpack _). evaluate.
  - done.
  - evaluate.
  - evaluate.
  - done.
  - intros q Hq. repeat (apply elem_of_cons in Hq as [->|Hq]; [done|]). by apply elem_of_nil in Hq.
  - exists parties. split; [exact Hk|]. split; [exact Hp|]. exact (Hj 1%nat node_c eq_refl).
Defined.

Definition message : bytes := [x2a].
Definition commitments_b : AgentMessage := agent_msg 2 None [x01; x09].
Definition share_b : AgentMessage := agent_msg 2 None (x02 :: message).

Definition signature_a : KeySign.Signature :=
  {| KeySign.sig_curve := Ed25519; KeySign.sig_pub_key := [x02]; KeySign.sig_signature := message |}.

Definition sent_a : list AgentResponse :=
  [KeySign.broadcast [x01; x02; x01]; KeySign.broadcast (x02 :: message)].

Lemma signing_sound_witness :
  exists expected comms sig_shares pkp signature,
    KeySign.expected_participants (F:=toy_frost) [1; 2] = Some expected /\
    dom comms = expected /\ dom sig_shares = expected /\
    expected ⊆ verifying_share_ids pkp /\
    public_package_of (ks_public_key_package share_a) = Some pkp /\
    aggregate comms message sig_shares pkp = Some signature /\
    verify pkp message signature = true /\
    KeySign.sig_curve signature_a = ks_curve share_a /\
    Some (KeySign.sig_pub_key signature_a) = group_key_bytes pkp /\
    Some (KeySign.sig_signature signature_a) = signature_bytes signature /\
    length sent_a = 2%nat /\ Forall (fun m => ar_to m = None) sent_a.
Proof.
  apply (KeySign.signing_sound (F:=toy_frost) share_a [1; 2] message no_coins agent_channels
           [commitments_b; share_b] signature_a []).
  evaluate.
Defined.
