(* ===== verification/SessionWitnesses.v ===== *)
(** * Sessions at concrete inputs

    The theorems about sessions for three nodes and two signers.  The threshold scheme
    is the simplest that is correct: packages are empty, the key package of a party is
    its identifier, the public key package the number of parties, and a signature the
    message.  Everything is encoded by the enumeration of its type, so that the
    encodings are total. *)

From Stdlib Require Import ZArith Lia Strings.Byte.
From stdpp Require Import base gmap strings numbers list relations countable.
From S2P Require Import Prelude Wire Messages Peerset Room Storage Wallet Execution Frost Session System.
From S2P Require Import KeyGen KeySign Reference KeyGenSession KeySignSession EndToEnd Deployment Factory.
From S2P Require Import StartMsg NetworkProxy Negotiation Coordination Worker Launch.
Import BytePeers.

Local Open Scope Z_scope.

(** ** Encodings *)

(** The binary digits of a positive number, and back. *)
Fixpoint digits (p : positive) : bytes :=
  match p with
  | xH => []
  | xO p => x00 :: digits p
  | xI p => x01 :: digits p
  end.

Fixpoint of_digits (b : bytes) : positive :=
  match b with
  | [] => xH
  | x00 :: b => xO (of_digits b)
  | _ :: b => xI (of_digits b)
  end.

Lemma of_digits_digits p : of_digits (digits p) = p.
Proof. induction p; cbn; congruence. Qed.

#[local] Instance enumerated {A} `{Countable A} : Serde A :=
  {| to_vec x := Some (digits (encode x)); from_slice b := decode (of_digits b) |}.

#[local] Instance enumerated_laws {A} `{Countable A} : SerdeLaws A.
Proof. split. intros x b [= <-]. cbn. by rewrite of_digits_digits, decode_encode. Qed.

#[local] Instance curve_countable : Countable Curve.
Proof.
  refine (inj_countable' (fun c => match c with Ed25519 => true | Secp256k1 => false end)
    (fun b => if b : bool then Ed25519 else Secp256k1) _). by intros [].
Defined.
#[local] Instance participant_eq_dec : EqDecision KeyShareParticipant.
Proof. solve_decision. Defined.
#[local] Instance participant_countable : Countable KeyShareParticipant.
Proof.
  refine (inj_countable' (fun p => (kp_peer_id p, kp_identifier p))
    (fun x => {| kp_peer_id := x.1; kp_identifier := x.2 |}) _). by intros [].
Defined.
#[local] Instance key_share_eq_dec : EqDecision KeyShare.
Proof. solve_decision. Defined.
#[local] Instance key_share_countable : Countable KeyShare.
Proof.
  refine (inj_countable' (fun s => (ks_curve s, ks_identifier s, ks_signing_key s, ks_public_key s,
      ks_group_public_key s, ks_public_key_package s, ks_min_signers s, ks_max_signers s,
      ks_participants s))
    (fun '(a, b, c, d, e, f, g, h, i) =>
      {| ks_curve := a; ks_identifier := b; ks_signing_key := c; ks_public_key := d;
         ks_group_public_key := e; ks_public_key_package := f; ks_min_signers := g;
         ks_max_signers := h; ks_participants := i |}) _). by intros [].
Defined.
#[local] Instance keygen_payload_eq_dec : EqDecision KeygenRequestPayload.
Proof. solve_decision. Defined.
#[local] Instance keygen_payload_countable : Countable KeygenRequestPayload.
Proof.
  refine (inj_countable' (fun p => (kg_wallet_id p, kg_threshold p))
    (fun x => {| kg_wallet_id := x.1; kg_threshold := x.2 |}) _). by intros [].
Defined.
#[local] Instance sign_payload_eq_dec : EqDecision SignRequestPayload.
Proof. solve_decision. Defined.
#[local] Instance sign_payload_countable : Countable SignRequestPayload.
Proof.
  refine (inj_countable' (fun p => (sg_wallet_id p, sg_message p))
    (fun x => {| sg_wallet_id := x.1; sg_message := x.2 |}) _). by intros [].
Defined.
#[local] Instance public_key_eq_dec : EqDecision PublicKey.
Proof. solve_decision. Defined.
#[local] Instance public_key_countable : Countable PublicKey.
Proof.
  refine (inj_countable' (fun p => (pk_curve p, pk_bytes p))
    (fun x => {| pk_curve := x.1; pk_bytes := x.2 |}) _). by intros [].
Defined.
#[local] Instance signature_eq_dec : EqDecision KeySign.Signature.
Proof. solve_decision. Defined.
#[local] Instance signature_countable : Countable KeySign.Signature.
Proof.
  refine (inj_countable' (fun s => (KeySign.sig_curve s, KeySign.sig_pub_key s, KeySign.sig_signature s))
    (fun '(a, b, c) => {| KeySign.sig_curve := a; KeySign.sig_pub_key := b;
                          KeySign.sig_signature := c |}) _). by intros [].
Defined.

Lemma enumerated_total {A} `{Countable A} (x : A) : is_Some (to_vec x).
Proof. by eexists. Qed.

(** ** A correct threshold scheme *)

#[local] Instance paper_frost : Frost := {|
  Ident := Z;
  ident_of u := if 1 <=? u then Some u else None;
  coins := unit;
  Round1Secret := Z * Z;
  Round1Package := unit;
  Round2Secret := Z * Z;
  Round2Package := unit;
  KeyPackage := Z;
  PublicKeyPackage := Z;
  part1 self n _ _ := Some ((self, n), tt);
  part2 secret r1 := Some (secret, (fun id => (id, tt)) <$> elements (dom r1));
  part3 secret _ _ := Some secret;
  round1_serialize _ := Some [];
  round1_deserialize _ := Some tt;
  round2_serialize _ := Some [];
  round2_deserialize _ := Some tt;
  signing_share_bytes _ := [];
  verifying_share_bytes _ := Some [];
  group_key_bytes _ := Some [];
  public_package_bytes n := Some (replicate (Z.to_nat n) x00);
  public_package_of b := Some (Z.of_nat (length b));
  verifying_share_ids n := list_to_set (seqZ 1 n);
  key_package_of id _ _ _ _ := Ok id;
  Nonces := unit;
  Commitments := unit;
  SigShare := bytes;
  SignatureT := bytes;
  commit _ _ := (tt, tt);
  commitments_serialize _ := Some [x01];
  commitments_deserialize b := if b is x01 :: _ then Some tt else None;
  sign _ m _ _ := Some m;
  share_serialize s := x02 :: s;
  share_deserialize b := if b is x02 :: s then Some s else None;
  aggregate _ m shares _ :=
    if forallb (fun x => bool_decide (x.2 = m)) (map_to_list shares) then Some m else None;
  verify _ m s := bool_decide (s = m);
  signature_bytes s := Some s;
|}.

#[local] Instance paper_frost_laws : FrostLaws paper_frost.
Proof.
  split; try done.
  - intros u Hu. exists u. cbn. by rewrite (proj2 (Z.leb_le 1 u)) by lia.
  - intros u v i. cbn. repeat case_match; naive_solver.
  - by intros [].
  - by intros [].
Qed.

Lemma paper_dkg n t c u : 1 <= u -> Reference.dkg n t c u = Some (u, n).
Proof.
  intros Hu. unfold Reference.dkg, Reference.second, Reference.first. cbn.
  by rewrite (proj2 (Z.leb_le 1 u)) by lia.
Qed.

#[local] Instance paper_frost_correct : FrostCorrect paper_frost.
Proof.
  split; try by (intros; eexists).
  - intros s r1 s2 pkgs [= _ <-]. rewrite <- list_fmap_compose. cbn. by rewrite list_fmap_id.
  - by intros [] b [= <-].
  - intros n t c Ht Hn. exists (fun u => u), n. split; [intros u Hu; apply paper_dkg; lia|].
    split; [by eexists|]. split.
    + eexists. split; [done|]. cbn. f_equal. rewrite length_replicate. lia.
    + intros u id Hu. cbn. destruct (1 <=? u); [|done]. intros [= <-].
      apply elem_of_list_to_set, elem_of_seqZ. lia.
  - intros n t c u kp pkp group id Hd Hid _. exists []. split; [done|]. cbn in Hid |- *.
    destruct (Z.leb_spec 1 u); [|done]. rewrite paper_dkg in Hd by done. congruence.
  - intros n t c kp pkp us d m _ _ _ _. split; [by eexists|]. exists m. cbn.
    split; [|split; [by apply bool_decide_eq_true_2|by eexists]].
    unfold Reference.signature. cbn. rewrite (proj2 (List.forallb_forall _ _)); [done|].
    intros [id x] Hx%list_elem_of_In%elem_of_map_to_list%elem_of_list_to_map_2. cbn.
    apply list_elem_of_omap in Hx as (u & _ & Hx). unfold Reference.contribution, Reference.share in Hx.
    apply bind_Some in Hx as (? & _ & Hx). injection Hx as _ <-. by apply bool_decide_eq_true_2.
Qed.

(** ** Three nodes *)

Definition node_1 : PeerId := [x0c].
Definition node_2 : PeerId := [x0a].
Definition node_3 : PeerId := [x0b].

#[local] Instance peer_inhabited : Inhabited PeerId := populate node_1.

Lemma dkg_session_witness :
  exists kp pkp,
    (forall u, 1 <= u <= 3 -> Reference.dkg (F:=paper_frost) 3 2 (fun _ => tt) u = Some (kp u, pkp)) /\
    session_completes 3
      (fun i inbox => KeyGen.run_dkg (KeyGenSession.number i) 2 3 tt Session.open inbox [])
      12 (fun i => (kp (KeyGenSession.number i), pkp)).
Proof.
  apply (KeyGenSession.dkg_session (F:=paper_frost) 3 2 (fun _ => tt)); [apply enumerated_total|lia|done].
Defined.

(** Parties 3 and 1 sign. *)
Definition signer_share (u : Z) : KeyShare :=
  {| ks_curve := Ed25519; ks_identifier := u; ks_signing_key := []; ks_public_key := [];
     ks_group_public_key := []; ks_public_key_package := [x00; x00; x00]; ks_min_signers := 2;
     ks_max_signers := 3; ks_participants := [] |}.


(** Three nodes generate a key for a wallet; the first two sign with it. *)
Definition nodes : list PeerId := [node_1; node_2; node_3].
Definition signers : list PeerId := [node_1; node_2].
Definition wallet_name : chars := str "Alice".

Definition keygen_request : bytes :=
  digits (encode {| kg_wallet_id := normalize_wallet_id wallet_name; kg_threshold := 2 |}).
Definition sign_request : bytes :=
  digits (encode {| sg_wallet_id := normalize_wallet_id wallet_name; sg_message := [x2a] |}).

Definition suites (_ : Curve) : Frost := paper_frost.
#[local] Instance suites_laws cv : FrostLaws (suites cv) := paper_frost_laws.
#[local] Instance suites_correct cv : FrostCorrect (suites cv) := paper_frost_correct.

Definition paths (_ : PeerId) : chars := str "/var/keys".

Lemma keygen_then_signing_witness :
  exists group pk files signed,
    to_vec {| pk_curve := Ed25519; pk_bytes := group |} = Some pk /\
    session_completes 3
      (fun i inbox => (EndToEnd.keygen_node suites Ed25519 nodes keygen_request (fun _ _ => tt) paths
                         (fun _ => ∅) i inbox).2) 12 (fun _ => pk) /\
    session_completes 2
      (EndToEnd.sign_node suites paths signers sign_request (fun _ _ => tt) files) 4 (fun _ => signed).
Proof.
  destruct (EndToEnd.keygen_then_signing suites enumerated_total enumerated_total enumerated_total
    enumerated_total Ed25519 nodes 2 wallet_name keygen_request (fun _ _ => tt) paths (fun _ => ∅))
    as (pkp & group & pk & _ & Hpk & Hcomp & Hsign).
  - apply (bool_decide_unpack _). vm_compute. exact I.
  - done.
  - done.
  - reflexivity.
  - destruct (Hcomp 0%nat Session.start (nsteps_O _ _)) as (_ & _ & (k & s & Hk & Hstuck) & _).
    destruct (Hsign k s Hk Hstuck
      (fun p => (EndToEnd.keygen_node suites Ed25519 nodes keygen_request (fun _ _ => tt) paths
         (fun _ => ∅) (EndToEnd.place nodes p) (Session.inbox s (EndToEnd.place nodes p))).1)
      (fun _ _ => eq_refl) signers [x2a] sign_request (fun _ _ => tt))
      as (sig & sigb & signed & _ & _ & _ & Hdone).
    + apply (bool_decide_unpack _). vm_compute. exact I.
    + intros q [->|[->|Hq%elem_of_nil]%elem_of_cons]%elem_of_cons; [| |done];
        apply (bool_decide_unpack _); vm_compute; exact I.
    + done.
    + reflexivity.
    + eexists group, pk, _, signed. split; [exact Hpk|]. split; [exact Hcomp|exact Hdone].
Defined.

(** ** The workers of these nodes *)

#[local] Existing Instance Leb128.leb128.
#[local] Existing Instance Leb128.leb128_laws.
#[local] Instance agents : ComputeAgents :=
  TssFactory.factory_agents (TssFactory.new (str "/var/keys") Ed25519).

Definition session_id_1 : SessionId := replicate 16 x01.

(** A worker with one room, after a local request. *)
Definition idle (q : PeerId) : Worker.t := Worker.new (LocalStorage.new "/tmp" q ∅) [("room"%string, 1%nat)].

Definition asked (q : PeerId) (m : Worker.ServicetoWorkerMsg) : Worker.t :=
  match Worker.step q (idle q) (Worker.ServiceMsg m) with Ok (w, _) => w | _ => idle q end.

(** The negotiation of a proposer whom [others] answer. *)
Definition negotiating (others : list PeerId) : list Negotiation.obs :=
  (fun x => {| Negotiation.now := 10; Negotiation.response := x; Negotiation.probe := Some (list_to_set others);
               Negotiation.fresh := 9 |}) <$>
  (Negotiation.RespPending :: ((fun q => Negotiation.RespOk q []) <$> others)).

Definition proposing (others : list PeerId) : Worker.event :=
  Worker.IdlePoll 0 10 NextEmpty session_id_1 [] (negotiating others).

(** A joiner hears the proposal and then the start message [b]. *)
Definition from_proposer (p0 : PeerId) (proto : Z) (b : bytes) (tx : nat) : IncomingRequest :=
  {| context := {| message_type := Messages.Coordination; protocol_id := proto;
                   session_id := session_id_1; message_id := 0 |};
     peer := p0; peer_id := p0; is_broadcast := true; peer_index := 0; payload := b;
     pending_response := tx |}.

Definition joining (p0 : PeerId) (proto : Z) (b : bytes) : Worker.event :=
  Worker.IdlePoll 0 10 (NextMsg (from_proposer p0 proto [] 3)) []
    [{| Coordination.now2 := 20; Coordination.next2 := NextMsg (from_proposer p0 proto b 4);
        Coordination.fresh2 := 9 |}] [].

Definition start_of (req : bytes) (ps : list PeerId) (p0 : PeerId) : bytes :=
  match StartMsg.to_bytes {| StartMsg.peerset := Peerset.new ps p0; StartMsg.body := req |} with
  | Ok b => b | _ => [] end.

(** What the worker of [q] has begun. *)
Definition execution_at (req : bytes) (proto : Z) (ps : list PeerId) (p0 q : PeerId) :
  ProtocolExecution.t := {|
  ProtocolExecution.room_id := "room"; ProtocolExecution.session := session_id_1;
  ProtocolExecution.protocol := proto; ProtocolExecution.peerset := Peerset.new ps q;
  ProtocolExecution.storage := LocalStorage.new "/tmp" q ∅; ProtocolExecution.request := req;
  ProtocolExecution.agent_running := true; ProtocolExecution.agent_result := None;
  ProtocolExecution.completion_delay := None;
  ProtocolExecution.reply_to := if decide (q = p0) then Some 7%nat else None;
  ProtocolExecution.next_outgoing_broadcast_id := 0; ProtocolExecution.next_incoming_broadcast_id := 0;
  ProtocolExecution.pending_incoming := ∅;
  ProtocolExecution.i := default 0 (Peerset.index_of (Peerset.new ps q) q);
  ProtocolExecution.n := Z.of_nat (length ps) |}.

Lemma begins_by q w ev room e (P : list effect -> Prop) :
  match Worker.step q w ev with
  | Ok (w', out) => Worker.protocol_executions w' = Worker.protocol_executions w ++ [(room, e)] /\ P out
  | _ => False
  end ->
  exists w' out, Launch.begins q w ev w' out room e /\ P out.
Proof.
  destruct (Worker.step q w ev) as [[w' out]|?|?] eqn:Hs; [|done..]. intros [Hx HP]. exists w', out.
  split; [by split|done].
Qed.

Lemma heard_from p0 proto b e0 :
  ProtocolExecution.protocol e0 = proto -> ProtocolExecution.session e0 = session_id_1 ->
  forall m, m ∈ Launch.heard (joining p0 proto b) -> Launch.from_proposer e0 b m.
Proof.
  intros Hp Hs m Hm _ _. unfold Launch.opening. rewrite Hp, Hs.
  cbn in Hm. apply elem_of_cons in Hm as [->|[->|Hm%elem_of_nil]%elem_of_cons]; [by split; [|left]| |done].
  by split; [|right].
Qed.

(** Both sessions are formed: three nodes for the key, of which the second asks the first to sign. *)
Lemma formed_keygen :
  Launch.formed (Deployment.factories paths Ed25519) node_1 (start_of keygen_request nodes node_1)
    (execution_at keygen_request 0 nodes node_1).
Proof.
  split.
  - destruct (begins_by node_1 (asked node_1 (Worker.KeyGen 2 3 "room" keygen_request 7))
      (proposing [node_2; node_3]) "room" (execution_at keygen_request 0 nodes node_1 node_1)
      (fun out => list.last out = Some (NetworkRequest "room"
         (Launch.opening (execution_at keygen_request 0 nodes node_1 node_1))
         (Multicast (elements (list_to_set nodes : gset PeerId)) (start_of keygen_request nodes node_1)))))
      as (w' & out & Hb & Hlast); [vm_compute; by split|].
    do 8 eexists. split; [exact Hb|]. split; [reflexivity|exact Hlast].
  - vm_compute. discriminate.
  - intros q Hq Hne. assert (q = node_2 \/ q = node_3) as Hq'.
    { apply Peerset.new_elem_of in Hq. unfold nodes in Hq.
      rewrite !elem_of_cons, elem_of_nil in Hq. destruct Hq as [->|[->|[->|[]]]]; [done|by left|by right]. }
    destruct (begins_by q (idle q) (joining node_1 0 (start_of keygen_request nodes node_1)) "room"
      (execution_at keygen_request 0 nodes node_1 q) (fun _ => True)) as (w' & out & Hb & _).
    { destruct Hq' as [-> | ->]; vm_compute; by split. }
    do 5 eexists. split; [exact Hb|]. split; [by destruct Hq' as [-> | ->]|]. split; [reflexivity|].
    by apply heard_from.
Qed.

Lemma formed_signing :
  Launch.formed (Deployment.factories paths Ed25519) node_2 (start_of sign_request signers node_2)
    (execution_at sign_request 1 signers node_2).
Proof.
  split.
  - destruct (begins_by node_2 (asked node_2 (Worker.KeySign 2 "room" sign_request 7))
      (proposing [node_1]) "room" (execution_at sign_request 1 signers node_2 node_2)
      (fun out => list.last out = Some (NetworkRequest "room"
         (Launch.opening (execution_at sign_request 1 signers node_2 node_2))
         (Multicast (elements (list_to_set signers : gset PeerId)) (start_of sign_request signers node_2)))))
      as (w' & out & Hb & Hlast); [vm_compute; by split|].
    do 8 eexists. split; [exact Hb|]. split; [reflexivity|exact Hlast].
  - vm_compute. discriminate.
  - intros q Hq Hne. assert (q = node_1) as ->.
    { apply Peerset.new_elem_of in Hq. unfold signers in Hq.
      rewrite !elem_of_cons, elem_of_nil in Hq. by destruct Hq as [->|[->|[]]]. }
    destruct (begins_by node_1 (idle node_1) (joining node_2 1 (start_of sign_request signers node_2)) "room"
      (execution_at sign_request 1 signers node_2 node_1) (fun _ => True)) as (w' & out & Hb & _);
      [vm_compute; by split|].
    do 5 eexists. split; [exact Hb|]. split; [reflexivity|]. split; [reflexivity|]. by apply heard_from.
Qed.

(** ** The executions of these nodes *)

Lemma ordered_nodes : NoDup (EndToEnd.ordered nodes).
Proof. apply (bool_decide_unpack _). vm_compute. exact I. Qed.

Lemma nodes_start : exists st, System.initial (EndToEnd.ordered nodes) session_id_1 0 st.
Proof.
  apply (System.initial_exists _ _ _ "room" factory_keygen (LocalStorage.new "/tmp" node_1 ∅));
    [exact ordered_nodes|vm_compute; split; discriminate|done].
Qed.

Definition generating (i : nat) (inbox : list AgentMessage) : run bytes :=
  (EndToEnd.keygen_node suites Ed25519 nodes keygen_request (fun _ _ => tt) paths
     (fun _ => ∅) i inbox).2.

(** The agents of the key generation that the first node was asked for, and of the signing
    session of the second. *)
Definition keygen_run (i : nat) (inbox : list AgentMessage) : gmap chars bytes * run bytes :=
  Deployment.launched suites paths Ed25519 (fun _ => ∅) (fun _ _ => tt) node_1
    (execution_at keygen_request 0 nodes node_1) i inbox.
Definition sign_run (files : PeerId -> gmap chars bytes) (i : nat) (inbox : list AgentMessage) : run bytes :=
  (Deployment.launched suites paths Ed25519 files (fun _ _ => tt) node_2
     (execution_at sign_request 1 signers node_2) i inbox).2.


(** What the nodes have done when nothing is left to do is a session. *)
Lemma system_session_witness :
  exists st0 st s, System.initial (EndToEnd.ordered nodes) session_id_1 0 st0 /\
    rtc (System.sys_step (EndToEnd.ordered nodes) generating) st0 st /\
    System.quiet (EndToEnd.ordered nodes) generating st /\
    rtc (Session.step 3 generating) Session.start s /\
    forall i, (i < 3)%nat -> System.nd_given (System.nodes st i) = Session.inbox s i.
Proof.
  destruct (EndToEnd.keygen_sign_scripts suites enumerated_total enumerated_total
    enumerated_total enumerated_total Ed25519 nodes 2 wallet_name keygen_request (fun _ _ => tt)
    paths (fun _ => ∅)) as (pkp & group & pk & script & _ & _ & Hscr & Hwaves & _).
  - apply (bool_decide_unpack _). vm_compute. exact I.
  - done.
  - done.
  - reflexivity.
  - destruct nodes_start as [st0 Hst0].
    destruct (Deployment.nodes_complete nodes session_id_1 0 generating script (fun _ => pk) 1)
      as [Hcomp _].
    + apply (bool_decide_unpack _). vm_compute. exact I.
    + done.
    + lia.
    + apply Deployment.keygen_node_grows.
    + exact Hscr.
    + exact Hwaves.
    + destruct (Hcomp st0 Hst0 st0 (rtc_refl _ _)) as (_ & (st & Hr & Hq) & _).
      destruct (System.system_session (EndToEnd.ordered nodes) session_id_1 0 generating
        (Deployment.keygen_node_grows suites Ed25519 nodes keygen_request _ paths _) st0 st
        ordered_nodes) as (s & Hs & Hgiven); [done|exact Hst0|exact Hr|].
      exists st0, st, s. split; [exact Hst0|]. split; [exact Hr|]. split; [exact Hq|].
      split; [exact Hs|]. intros i Hi. apply (Hgiven i Hi).
Defined.
