(* ===== verification/NetWitnesses.v ===== *)
(** * Concrete runs of the network crate and of the commands

    The theorems about the network, the configuration, the RPC layer and the
    benchmark at concrete inputs.  The interfaces are instantiated: a protocol of
    [libp2p] answers what it is fed, as far as its laws allow; Kademlia keeps a list
    of peers; a secret key is one byte thirty-two times; an encoding knows one
    value. *)

From Stdlib Require Import ZArith Lia Strings.Byte.
From stdpp Require Import base gmap sorting strings numbers list fin_sets infinite.
From S2P Require Import Prelude Wire Messages Codec Wallet NetConfig NodeSetup Discovery RequestResponses Network.
From S2P Require Import Connections.
From S2P Require Import Peerset Room Worker KeyGen KeySign Factory Rpc Node Benchmark.
Import BytePeers Leb128.

Local Open Scope Z_scope.

(** Evaluation of both sides of an equation by the virtual machine. *)
Ltac evaluate := match goal with
  | |- ?a = ?b => vm_cast_no_check (eq_refl b)
  | |- _ => vm_compute; exact I || reflexivity || discriminate
  end.

(** ** The interfaces *)

Record toy_inner : Type := {
  toy_issued : gset Z;
  toy_live : gset Z;
  toy_accepts : bool;
}.

Definition toy_poll (b : toy_inner) (x : option InnerEvent) : toy_inner * option InnerEvent :=
  match x with
  | Some (InboundMessage p id m ch) =>
      if toy_accepts b && bool_decide (id ∉ toy_live b)
      then ({| toy_issued := toy_issued b; toy_live := {[id]} ∪ toy_live b;
               toy_accepts := toy_accepts b |}, x)
      else (b, None)
  | Some (ResponseSent p id) =>
      if bool_decide (id ∈ toy_live b)
      then ({| toy_issued := toy_issued b; toy_live := toy_live b ∖ {[id]};
               toy_accepts := toy_accepts b |}, x)
      else (b, None)
  | Some (InboundFailed p id e) =>
      ({| toy_issued := toy_issued b; toy_live := toy_live b ∖ {[id]};
          toy_accepts := toy_accepts b |}, x)
  | _ => (b, x)
  end.

#[local] Instance toy_behaviour : InnerBehaviour := {|
  Inner := toy_inner;
  input := option InnerEvent;
  inner_new _ _ full _ := {| toy_issued := ∅; toy_live := ∅; toy_accepts := full |};
  is_connected _ _ := true;
  inner_send_request b _ _ :=
    let id := fresh (toy_issued b) in
    ({| toy_issued := {[id]} ∪ toy_issued b; toy_live := toy_live b;
        toy_accepts := toy_accepts b |}, id);
  inner_send_response b _ _ := (b, true);
  inner_poll := toy_poll;
|}.

#[local] Program Instance toy_laws : InnerLaws := {|
  issued := toy_issued; live := toy_live; accepts := toy_accepts |}.
Next Obligation. done. Qed.
Next Obligation. intros b p m b' id [= <- <-]. split; [apply is_fresh|done]. Qed.
Next Obligation. cbn. intros b c m b' ok Hs. by simplify_eq. Qed.
Next Obligation.
  cbn. intros b x b' ev. unfold toy_poll. repeat case_match; intros Hs; by simplify_eq.
Qed.
Next Obligation.
  intros b x b' ev. cbn. unfold toy_poll.
  destruct x as [[]|]; repeat case_match; intros Hs; simplify_eq; try done.
  - match goal with H : _ && _ = true |- _ => apply andb_prop in H as [? ?%bool_decide_eq_true] end.
    done.
  - match goal with H : bool_decide _ = true |- _ => apply bool_decide_eq_true in H end. done.
Qed.

#[local] Instance protocol_countable : Countable Protocol.
Proof.
  refine (inj_countable'
    (fun p => match p return (nat * Z * string * bytes) with
     | Ip4 z => (0%nat, z, ""%string, []) | Ip6 z => (1%nat, z, ""%string, [])
     | Dns n => (2%nat, 0, n, []) | Dns4 n => (3%nat, 0, n, []) | Dns6 n => (4%nat, 0, n, [])
     | P2p p => (5%nat, 0, ""%string, p) | OtherProtocol n => (6%nat, 0, n, [])
     end)
    (fun x => match x with
     | (0%nat, z, _, _) => Ip4 z | (1%nat, z, _, _) => Ip6 z | (2%nat, _, n, _) => Dns n
     | (3%nat, _, n, _) => Dns4 n | (4%nat, _, n, _) => Dns6 n | (5%nat, _, _, p) => P2p (p : PeerId)
     | (_, _, n, _) => OtherProtocol n
     end) _).
  by intros [].
Defined.

(** A multiaddress is the list of its protocols; its text is a single character. *)
#[local] Instance toy_multiaddrs : Multiaddrs := {|
  Multiaddr := list Protocol;
  multiaddr_iter a := a;
  multiaddr_push a p := a ++ [p];
  multiaddr_pop a := (removelast a, last a);
  multiaddr_to_string a := [Z.pos (countable.encode a)];
  multiaddr_from_str s := match s with [Z.pos x] => countable.decode x | _ => None end;
|}.

#[local] Instance toy_multiaddr_laws : MultiaddrLaws.
Proof.
  split; cbn.
  - done.
  - intros a p. by rewrite removelast_last, last_snoc.
  - intros a b p. destruct a as [|x a _] using rev_ind; [done|].
    rewrite removelast_last, last_snoc. by intros [= <- <-].
  - intros a. apply decode_encode.
Qed.

#[local] Instance toy_keys : Ed25519Keys := {|
  SecretKey := byte;
  Keypair := byte;
  sk_try_from_bytes l := match l with
    | x :: _ => if decide (l = replicate 32 x) then Some x else None
    | [] => None
    end;
  sk_as_ref x := replicate 32 x;
  keypair_from x := x;
  try_into_ed25519 x := Some x;
  keypair_peer_id x := [x] : PeerId;
  hex_decode _ := None;
|}.

#[local] Instance toy_keys_laws : Ed25519Laws.
Proof. split; cbn; try done. intros sk. by rewrite decide_True. Qed.

Definition toy_mdns_poll (m : unit) (x : option mdns_out) : unit * option mdns_out :=
  (m, match x with Some MdnsDial => None | _ => x end).

#[local] Instance toy_dht : KademliaDht := {|
  Kad := list PeerId;
  kad_input := option kad_out;
  kad_with_config _ _ _ _ := [];
  kad_add_address k p _ := k ++ [p];
  kad_bootstrap k := (k, Ok 0);
  kad_kbuckets k := [k];
  kad_get_closest_peers k p := k;
  kad_get_record k _ := k;
  kad_put_record k _ := (k, true);
  kad_start_providing k _ := (k, true);
  kad_stop_providing k _ := k;
  kad_get_providers k _ := (k, 9);
  kad_store_put k _ := k;
  kad_finish_query k _ := k;
  kad_put_record_to k _ _ := k;
  kad_pending_outbound k p _ := (k, Ok [[Ip4 1]; [Ip4 2; P2p p]]);
  kad_on_swarm_event k _ := k;
  kad_poll k x := (k, x);
  Mdns := unit;
  mdns_input := option mdns_out;
  mdns_new _ := Some tt;
  mdns_pending_outbound m p _ := (m, Ok [[Ip4 3]]);
  mdns_on_swarm_event m _ := m;
  mdns_poll := toy_mdns_poll;
  ip4_is_global z := 1 <? z;
  ip6_is_global _ := true;
  lhs_from_iter l := remove_dups l;
  lhs_insert_if_absent l a := if decide (a ∈ l) then l else l ++ [a];
|}.

#[local] Instance toy_dht_laws : LinkedHashSetLaws.
Proof.
  split; cbn.
  - intros l. split; [apply NoDup_remove_dups|intros a; apply elem_of_remove_dups].
  - intros l a Ha. by rewrite decide_False.
  - intros l a Ha. by rewrite decide_True.
Qed.

Lemma toy_never_dials : Discovery.mdns_never_dials.
Proof. intros m [[]|]; done. Qed.

(** An encoding that knows one value. *)
Definition one_value {T} `{EqDecision T} (v : T) (b : bytes) : Serde T := {|
  to_vec x := if decide (x = v) then Some b else None;
  from_slice c := if decide (c = b) then Some v else None;
|}.

Lemma one_value_laws {T} `{EqDecision T} (v : T) b : @SerdeLaws T (one_value v b).
Proof.
  split. intros x c. cbn. case_decide; [|done]. intros [= <-]. rewrite decide_True; congruence.
Qed.

(** ** Requests and responses *)

Definition peer_a : PeerId := [x0a].
Definition peer_b : PeerId := [x0b].
Definition id0 : Z := fresh (∅ : gset Z).

Definition ctx0 : MessageContext :=
  {| message_type := Computation; protocol_id := 0; session_id := replicate 16 x05; message_id := 0 |}.

Definition protocols0 : list RequestResponses.ProtocolConfig :=
  [RequestResponses.ProtocolConfig_new "/room/a" (Some 0%nat);
   RequestResponses.ProtocolConfig_new "/room/b" None].

Definition some_obs (now : Z) (tick : bool) (inputs : list (ProtocolName * option InnerEvent)) :
  RequestResponses.obs :=
  {| RequestResponses.now := now; RequestResponses.tick := tick; RequestResponses.ready := [];
     RequestResponses.inputs := inputs; RequestResponses.accepting := fun _ => true;
     RequestResponses.listening := fun _ => true |}.

Definition empty_requests : RequestResponses.t :=
  {| RequestResponses.protocols := ∅; RequestResponses.pending_requests := ∅;
     RequestResponses.pending_responses := []; RequestResponses.pending_responses_arrival_time := ∅;
     RequestResponses.send_feedback := ∅; RequestResponses.fresh := 0 |}.

Definition ok_state {A} (r : outcome Empty_set (RequestResponses.t * A)) : RequestResponses.t :=
  match r with Ok (s, _) => s | _ => empty_requests end.

(** Two requests, one on each protocol; the first has a fallback on the second. *)
Definition requests0 : RequestResponses.t :=
  match RequestResponses.new protocols0 with Ok s => s | _ => empty_requests end.
Definition requests1 : RequestResponses.t :=
  ok_state (RequestResponses.send_request peer_b "/room/a" [x01] (Some ([x02], "/room/b"%string)) 7
              RequestResponses.TryConnect 100 requests0).

(** The remote does not support the protocol, and something else happens in the same
    turn. *)
Definition lossy_obs : RequestResponses.obs :=
  some_obs 200 false
    [("/room/a"%string, Some (OutboundFailed peer_b id0 OutboundUnsupportedProtocols));
     ("/room/b"%string, Some PassThrough)].

Definition details_of (p : ProtocolName) (s : RequestResponses.t) : RequestResponses.ProtocolDetails :=
  default (RequestResponses.details (RequestResponses.ProtocolConfig_new p None))
    (RequestResponses.protocols s !! p).

Lemma fallback_lost_witness :
  exists s', RequestResponses.turn mock_peer_reputation lossy_obs requests1 =
    RequestResponses.Ready s' [RequestResponses.Forget (RequestResponses.Oneshot 7)] None /\
    RequestResponses.pending_requests s' =
      delete ("/room/a"%string, id0) (RequestResponses.pending_requests requests1).
Proof.
  apply (RequestResponses.fallback_lost mock_peer_reputation "/room/a" (details_of "/room/a" requests1)
    (Some (OutboundFailed peer_b id0 OutboundUnsupportedProtocols))
    (RequestResponses.behaviour (details_of "/room/a" requests1)) peer_b id0 100
    (RequestResponses.Oneshot 7) ([x02], "/room/b"%string) "/room/b" (details_of "/room/b" requests1)
    (Some PassThrough) (RequestResponses.behaviour (details_of "/room/b" requests1)) [] lossy_obs
    requests1); evaluate.
Defined.

(** The same request at the first check after its 30 seconds. *)
Definition late_obs : RequestResponses.obs := some_obs 30101 true [].

Definition late_state : RequestResponses.t :=
  match RequestResponses.turn mock_peer_reputation late_obs requests1 with
  | RequestResponses.Pending s _ => s | _ => empty_requests
  end.

Lemma overdue_answered_witness :
  RequestResponses.on_time 30101 late_state /\
  RequestResponses.Answer (RequestResponses.Oneshot 7) (Err (Messages.Network OutboundTimeout)) ∈
    [RequestResponses.Answer (RequestResponses.Oneshot 7) (Err (Messages.Network OutboundTimeout))].
Proof.
  destruct (RequestResponses.overdue_answered mock_peer_reputation late_obs requests1 late_state
    [RequestResponses.Answer (RequestResponses.Oneshot 7) (Err (Messages.Network OutboundTimeout))])
    as [Hon Hall].
  - reflexivity.
  - apply (bool_decide_unpack _). evaluate.
  - evaluate.
  - split; [exact Hon|].
    apply (Hall "/room/a" (details_of "/room/a" requests1) id0
      {| RequestResponses.started_at := 100;
         RequestResponses.response_tx := Some (RequestResponses.Oneshot 7);
         RequestResponses.fallback_request := Some ([x02], "/room/b"%string) |}
      (RequestResponses.Oneshot 7)); try evaluate.
Defined.

(** ** The network worker *)

Definition key_a : SecretKey := x0a.
Definition pair_a : Keypair := x0a.

Definition first_element (s : gset Multiaddr) : option Multiaddr := head (elements s).

Lemma first_element_iteration : LruHashSet.iteration first_element.
Proof.
  intros s. unfold first_element. destruct (elements s) as [|x l] eqn:He; cbn.
  - by apply leibniz_equiv, elements_empty_inv.
  - assert (x ∈ elements s) as Hx by (rewrite He; by left). by apply elem_of_elements in Hx.
Qed.

Definition boot_b : MultiaddrWithPeerId.t :=
  {| MultiaddrWithPeerId.multiaddr := [Ip4 7]; MultiaddrWithPeerId.peer_id := peer_b |}.
Definition room0 : RoomConfig :=
  {| rc_id := "room"; rc_max_size := 1; rc_boot_nodes := [boot_b]; rc_inbound_queue := Some 0%nat |}.
Definition params0 : Params :=
  {| listen_address := [Ip4 5]; NodeSetup.mdns := false; NodeSetup.kademlia := true;
     rooms := [room0]; NodeSetup.boot_nodes := [boot_b] |}.

Definition fs_fine : fs_obs :=
  {| read_ok := true; open_ok := true; written := None; NetConfig.mkdir_ok := true |}.

(** The worker that [new] makes of these parameters. *)
Definition node : NetworkWorker.t :=
  {| NetworkWorker.local_peer_id := peer_a;
     NetworkWorker.network_service :=
       {| Behaviour.discovery := Discovery.finish (Behaviour.discovery_config peer_a params0) 0;
          Behaviour.request_responses :=
            match RequestResponses.new (NetworkWorker.protocols_of params0) with
            | Ok s => s | _ => empty_requests
            end |};
     NetworkWorker.boot_nodes := [boot_b]; NetworkWorker.connected_peers := ∅;
     NetworkWorker.connected_boot_nodes := ∅; NetworkWorker.last_bootstrap_time := 0 |}.
Definition started : NetworkWorker.t := (NetworkWorker.start 0 node).1.

(** A broadcast; its answer, with the connection it came over; a direct message; the
    connection is closed. *)
Definition events0 : list NetworkWorker.event :=
  [NetworkWorker.ServiceNext (Some (NetworkWorker.Request "room" ctx0
     (NetworkWorker.Broadcast [x01] (Some 4%nat)))) 5;
   NetworkWorker.SwarmNext
     [Behaviour.CallDiscovery (Discovery.OnSwarmEvent first_element
        (Discovery.ConnectionEstablished peer_b));
      Behaviour.PollRequests [some_obs 9 false
        [("/room/room"%string, Some (ResponseMessage peer_b id0 (Some [x02])))]]]
     (Some (NetworkWorker.ConnectionEstablished peer_b)) 10;
   NetworkWorker.ServiceNext (Some (NetworkWorker.Request "room" ctx0
     (NetworkWorker.SendDirect peer_b [x03] 5%nat))) 11].

Definition after (evs : list NetworkWorker.event) : NetworkWorker.t * list NetworkWorker.action :=
  match NetworkWorker.run elements evs started with Ok r => r | _ => (started, []) end.

(** The worker gets through the events: only whether it does is evaluated. *)
Lemma events0_run :
  NetworkWorker.run elements events0 (NetworkWorker.start 0 node).1 =
    Ok ((after events0).1, (after events0).2).
Proof.
  assert (is_ok (NetworkWorker.run elements events0 started) = true) as H by evaluate.
  unfold after. fold started. destruct (NetworkWorker.run elements events0 started) as [[w a]| |];
    done.
Qed.

Lemma worker_answers_witness :
  RequestResponses.held (NetworkWorker.rr (after events0).1) ++
    RequestResponses.settled (NetworkWorker.requests_in (after events0).2) ≡ₚ
  RequestResponses.asked_run mock_peer_reputation
    (NetworkWorker.requests_run elements events0 started) (NetworkWorker.rr node) /\
  Forall RequestResponses.answers (NetworkWorker.requests_in (after events0).2).
Proof.
  apply (NetworkWorker.worker_answers elements NodeKeyConfig.New params0 key_a ∅ fs_fine 0 ∅ node
    events0 (after events0).1 (after events0).2); [evaluate|exact events0_run].
Defined.

Definition step0 : NetworkWorker.t * list NetworkWorker.action :=
  match NetworkWorker.run elements (take 1 events0) started with Ok r => r | _ => (started, []) end.

Lemma fan_out_witness :
  exists txs, length txs = 1%nat /\ (forall tx, Some 4%nat = Some tx -> Forall (eq tx) txs) /\
    NetworkWorker.requests_in step0.2 =
      zip_with (RequestResponses.requested true "/room/room"
        {| wm_context := ctx0; wm_payload := [x01]; wm_is_broadcast := true |}) txs [peer_b].
Proof.
  assert (NetworkWorker.step elements (NetworkWorker.ServiceNext (Some (NetworkWorker.Request "room"
    ctx0 (NetworkWorker.Broadcast [x01] (Some 4%nat)))) 5) started = Ok (step0, true)) as Hs
    by evaluate.
  vm_cast_no_check (proj2 (NetworkWorker.fan_out elements "room" ctx0
    (NetworkWorker.Broadcast [x01] (Some 4%nat)) 5 started step0.1 step0.2 true Hs)).
Defined.

Lemma connections_tracked_witness :
  (peer_b ∈ NetworkWorker.connected_peers (after events0).1 <->
     NetworkWorker.last_established peer_b events0 false = true) /\
  (peer_b ∈ NetworkWorker.connected_boot_nodes (after events0).1 <->
     peer_b ∈ NetworkWorker.connected_peers (after events0).1 /\
     NetworkWorker.is_boot_node peer_b (after events0).1 = true) /\
  NetworkWorker.step elements NetworkWorker.RetryTick (after events0).1 =
    Ok ((after events0).1,
        (fun bn => NetworkWorker.Dial (MultiaddrWithPeerId.concat bn)) <$>
          filter (fun bn => MultiaddrWithPeerId.peer_id bn ∉
                    NetworkWorker.connected_peers (after events0).1) [boot_b], true).
Proof.
  apply (NetworkWorker.connections_tracked elements NodeKeyConfig.New params0 key_a ∅ fs_fine 0 ∅ node
    events0 (after events0).1 (after events0).2 peer_b); [evaluate|exact events0_run].
Defined.

Lemma worker_total_witness :
  (exists w, NetworkWorker.new NodeKeyConfig.New params0 key_a ∅ fs_fine 0 = (∅, Ok w)) /\
  exists w' acts,
    NetworkWorker.run elements events0 (NetworkWorker.start 0 node).1 = Ok (w', acts).
Proof.
  assert (NodeKeyConfig.into_keypair NodeKeyConfig.New key_a ∅ fs_fine = (∅, Ok pair_a)) as Hk
    by evaluate.
  assert (NoDup (rc_id <$> rooms params0)) as Hd by (apply (bool_decide_unpack _); evaluate).
  assert (NetworkWorker.new NodeKeyConfig.New params0 key_a ∅ fs_fine 0 = (∅, Ok node)) as Hn
    by evaluate.
  assert (Forall Discovery.iterates (NetworkWorker.discovery_run events0)) as Hi
    by (repeat constructor; apply first_element_iteration).
  assert (Discovery.connections_ok 0 (NetworkWorker.discovery_run events0)) as Hc
    by (repeat constructor; vm_compute; discriminate).
  destruct (NetworkWorker.worker_total elements toy_never_dials NodeKeyConfig.New params0 key_a ∅
    fs_fine 0 ∅ pair_a Hk) as [Hnew Hrun].
  exact (conj (proj2 Hnew Hd) (Hrun node events0 Hn Hi Hc)).
Defined.

(** A direct message to the node, as its bytes arrive. *)
Definition direct : WireMessage :=
  {| wm_context := ctx0; wm_payload := [x03]; wm_is_broadcast := false |}.
Definition arrival : RequestResponses.obs :=
  some_obs 20 false [("/room/a"%string, Some (InboundMessage peer_b 1 direct 8%nat))].

Lemma delivered_witness :
  exists s', RequestResponses.turn mock_peer_reputation arrival requests0 =
    RequestResponses.Repeat s' [RequestResponses.Enqueue 0%nat
      {| context := ctx0; peer := peer_b; peer_id := peer_b; is_broadcast := false;
         peer_index := 0; payload := [x03]; pending_response := 0%nat |}] /\
    RequestResponses.pending_responses s' =
      [{| RequestResponses.pr_rx := 0; RequestResponses.pr_peer := peer_b;
          RequestResponses.pr_request_id := 1; RequestResponses.pr_protocol := "/room/a";
          RequestResponses.pr_channel := 8 |}].
Proof.
  apply (NetworkWorker.delivered "/room/a" ctx0 [x03] false 0%nat
    (details_of "/room/a" requests0) (Some (InboundMessage peer_b 1 direct 8%nat))
    {| toy_issued := ∅; toy_live := {[1]}; toy_accepts := true |} peer_b 1 8%nat [] [] arrival
    requests0); try evaluate.
  - split; cbn; done || lia.
  - intros m Hm.
    match type of Hm with ?l = _ => assert (l = Ok direct) as Hd by evaluate end.
    rewrite Hd in Hm. injection Hm as <-. evaluate.
Defined.

(** ** Connections *)

(** The behaviour above with the names it serves, which its handlers listen to. *)
Module Named.

#[local] Instance named_behaviour : InnerBehaviour := {|
  Inner := toy_inner * list ProtocolName;
  input := option InnerEvent;
  inner_new c names full t := (inner_new c names full t, if full then names else []);
  is_connected b p := is_connected (InnerBehaviour:=toy_behaviour) b.1 p;
  inner_send_request b p m :=
    let '(b', id) := inner_send_request (InnerBehaviour:=toy_behaviour) b.1 p m in ((b', b.2), id);
  inner_send_response b _ _ := (b, true);
  inner_poll b x := let '(b', ev) := toy_poll b.1 x in ((b', b.2), ev);
|}.

#[local] Instance named_laws : InnerLaws.
Proof.
  unshelve refine (@Build_InnerLaws _ named_behaviour (fun b => toy_issued b.1)
    (fun b => toy_live b.1) (fun b => toy_accepts b.1) _ _ _ _ _); cbn.
  - done.
  - intros [b ns] p m b' id [= <- <-]. split; [apply is_fresh|done].
  - intros b c m b' ok Hs. by simplify_eq.
  - intros [b ns] x b' ev. cbn. destruct (toy_poll b x) as [b1 ev1] eqn:Hp. intros [= <- <-].
    exact (poll_issued (InnerLaws:=toy_laws) b x b1 ev1 Hp).
  - intros [b ns] x b' ev. cbn. destruct (toy_poll b x) as [b1 ev1] eqn:Hp. intros [= <- <-].
    exact (poll_live (InnerLaws:=toy_laws) b x b1 ev1 Hp).
Defined.

#[local] Instance named_connections : Connections.ConnectionBehaviour := {|
  Connections.Handler := list ProtocolName;
  Connections.MultiHandler := unit;
  Connections.connection := unit;
  Connections.swarm_event := unit;
  Connections.handler_event := unit;
  Connections.inner_inbound_connection b _ _ := (b, Some b.2);
  Connections.inner_outbound_connection b _ _ := (b, Some b.2);
  Connections.inner_on_swarm_event b _ := b;
  Connections.inner_on_handler_event b _ _ := b;
  Connections.try_from_iter l := if decide (NoDup (l ≫= snd)) then Some tt else None;
|}.

#[local] Instance named_connection_laws : Connections.ConnectionLaws.
Proof.
  unshelve refine (@Connections.Build_ConnectionLaws _ named_behaviour named_laws named_connections
    (fun b => b.2) (fun h => h) _ _ _ _ _ _ _ _ _); cbn; try done.
  - intros [b ns] p m b' id [= <- <-]. done.
  - intros b c m b' ok Hs. by simplify_eq.
  - intros [b ns] x b' ev. cbn. destruct (toy_poll b x). by intros [= <- <-].
  - intros b p c b' h [= <- <-]. split; [done|]. split; [done|]. by intros h' [= ->].
  - intros b p c b' h [= <- <-]. split; [done|]. split; [done|]. by intros h' [= ->].
  - intros l. case_decide; split; try done; by intros [].
Defined.

(** Two protocols; [shared] has the name of the first as a fallback name. *)
Definition first_protocol : RequestResponses.ProtocolConfig :=
  RequestResponses.ProtocolConfig_new "/room/a" (Some 0%nat).
Definition second_protocol : RequestResponses.ProtocolConfig :=
  RequestResponses.ProtocolConfig_new "/room/b" (Some 1%nat).
Definition shared : RequestResponses.ProtocolConfig := {|
  RequestResponses.name := "/room/b"; RequestResponses.fallback_names := ["/room/a"%string];
  RequestResponses.max_request_size := 8; RequestResponses.max_response_size := 8;
  RequestResponses.cfg_request_timeout := 8; RequestResponses.cfg_inbound_queue := Some 1%nat |}.

Definition conn : @Connections.connection _ named_behaviour named_connections := tt.
Definition events : list Connections.event :=
  [Connections.Inbound peer_a conn;
   Connections.Swarm (tt : @Connections.swarm_event _ named_behaviour named_connections);
   Connections.FromHandler peer_a "/room/a"
     (tt : @Connections.handler_event _ named_behaviour named_connections);
   Connections.Outbound peer_b conn].

Lemma connections_accepted_witness :
  match RequestResponses.new [first_protocol; second_protocol] with
  | Ok s => exists s' acts, Connections.on_events mock_peer_reputation events s = Ok (s', acts)
  | _ => False
  end.
Proof.
  destruct (RequestResponses.new [first_protocol; second_protocol]) as [s|e|w] eqn:Hs;
    [|discriminate Hs..].
  apply (Connections.connections_accepted mock_peer_reputation [first_protocol; second_protocol] s
    events Hs). apply (bool_decide_eq_true_1 _). evaluate.
Defined.

Lemma shared_name_panics_witness :
  match RequestResponses.new [first_protocol; shared] with
  | Ok s => Connections.handle_established_inbound_connection peer_a conn s =
      Panic Connections.only_possible_error
  | _ => False
  end.
Proof.
  destruct (RequestResponses.new [first_protocol; shared]) as [s|e|w] eqn:Hs; [|discriminate Hs..].
  apply (Connections.shared_name_panics mock_peer_reputation [first_protocol; shared] s [] s []
    peer_a conn Hs eq_refl); [apply (bool_decide_eq_false_1 _); evaluate|by eexists].
Defined.
End Named.

(** ** Configuration *)

Definition key_path : chars := str "/n/secret.key".
Definition saved_key : files := {[key_path := replicate 32 x0a]}.

Lemma node_identity_stable_witness :
  NodeKeyConfig.into_keypair (NodeKeyConfig.File key_path) (x07 : SecretKey) saved_key fs_fine =
    (saved_key, Ok pair_a).
Proof.
  apply (NodeKeyConfig.node_identity_stable key_path key_a ∅ fs_fine saved_key pair_a);
    [left; evaluate|reflexivity].
Defined.

(** Equality of a record with two components. *)
Ltac by_components :=
  intros [a p] [b q];
  refine (match decide (a = b), decide (p = q) with
          | left _, left _ => left _ | _, _ => right _ end); congruence.

#[local] Instance address_eq_dec : EqDecision MultiaddrWithPeerId.t.
Proof. by_components. Defined.
#[local] Instance party_eq_dec : EqDecision PartyConfig.
Proof. by_components. Defined.
#[local] Instance config_eq_dec : EqDecision Config.
Proof. by_components. Defined.

Definition setup_path : chars := str "/data/:id".
Definition address_text : chars := multiaddr_to_string ([Ip4 5] : Multiaddr).
Definition config0 : Config :=
  {| local := {| network_peer := {| MultiaddrWithPeerId.multiaddr := [Ip4 5];
                                    MultiaddrWithPeerId.peer_id := peer_a |};
                 rpc_addr := str "127.0.0.1:8080" |};
     cfg_boot_nodes := [] |}.
(** The same with a boot node added. *)
Definition config1 : Config := {| local := local config0; cfg_boot_nodes := [boot_b] |}.

#[local] Instance config_serde : Serde Config := {|
  to_vec c := if decide (c = config0) then Some [x30] else
              if decide (c = config1) then Some [x31] else None;
  from_slice b := if decide (b = [x30]) then Some config0 else
                  if decide (b = [x31]) then Some config1 else None;
|}.
#[local] Instance config_serde_laws : SerdeLaws Config.
Proof.
  split. intros c b. cbn [to_vec from_slice config_serde].
  destruct (decide (c = config0)) as [->|]; [intros [= <-]; by rewrite decide_True|].
  destruct (decide (c = config1)) as [->|]; [|done]. intros [= <-].
  rewrite decide_False by done. by rewrite decide_True.
Qed.

Definition config_path0 : chars := str "/config.json".
Definition setup_files : files :=
  {[config_path0 := [x30]; node_path setup_path peer_a := replicate 32 x0a]}.
Definition edited_files : files :=
  {[config_path0 := [x31]; node_path setup_path peer_a := replicate 32 x0a]}.
Definition command0 : Command :=
  {| config_path := config_path0; path := setup_path; cmd_kademlia := true; cmd_mdns := false |}.
Definition room_of (name : chars) : RoomId := "room".
Definition secret0 : chars := join (node_path setup_path peer_a) (str "secret.key").
Definition prepared0 : prepared :=
  {| node_key := NodeKeyConfig.File secret0; params := params0; NodeSetup.room := "room";
     room_rx := 0; peerset_path := join (node_path setup_path peer_a) (str "peerset");
     rpc_address := str "127.0.0.1:8080" |}.


(** ** Discovery *)

Definition discovery0 : Discovery.t :=
  Discovery.add_known_address peer_b [Ip4 8]
    (Discovery.finish (Behaviour.discovery_config peer_a params0) 0).

Definition dialled : list Multiaddr := [[Ip4 7]; [Ip4 8]; [Ip4 1]; [Ip4 2; P2p peer_b]].


Definition discovery_calls : list Discovery.op :=
  [Discovery.OnSwarmEvent first_element (ConnectionEstablished peer_b);
   Discovery.AddKnownAddress peer_b [Ip4 8];
   Discovery.OnSwarmEvent first_element (DialFailed (Some peer_b) (TransportErrors [[Ip4 8]]));
   Discovery.OnSwarmEvent first_element (ExternalAddrConfirmed [Dns "a"]);
   Discovery.Poll {| Discovery.clock := [(5, peer_a)]; Discovery.kad_inputs := [];
                     Discovery.mdns_inputs := [] |};
   Discovery.OnSwarmEvent first_element (ConnectionClosed peer_b)].

Lemma discovery_invariant_witness :
  exists s evs, Discovery.run discovery_calls
      (Discovery.finish (Behaviour.discovery_config peer_a params0) 0) = Ok (s, evs) /\
    Discovery.inv s /\ Discovery.num_connections s = 0.
Proof.
  apply (Discovery.discovery_invariant toy_never_dials (Behaviour.discovery_config peer_a params0) 0
    discovery_calls).
  - repeat constructor; apply first_element_iteration.
  - repeat constructor; vm_compute; discriminate.
Defined.

(** ** The benchmark *)

Lemma percentile_nearest_rank_witness :
  exists v, percentile (E:=Empty_set) [551; 565; 576; 584] 50 = Ok (Some v) /\
    nearest_rank 50 [551; 565; 576; 584] v.
Proof.
  apply (percentile_nearest_rank 50 [551; 565; 576; 584]); [|lia|vm_compute; discriminate].
  repeat constructor.
Defined.

Definition bench_calls : list call :=
  [{| answer := Ok tt; elapsed := 551000000 |}; {| answer := Err (str "x"); elapsed := 7 |};
   {| answer := Ok tt; elapsed := 565000000 |}].

Lemma benchmark_counts_witness :
  exists lines stats,
    benchmark 3 2 (fun run e => to_string run ++ e) bench_calls =
      Ok (lines, stats, last_ten (described (fun run e => to_string run ++ e) 1 bench_calls)) /\
    from_latencies 3 2 1 [551000000; 565000000] = Ok (E:=string) stats /\
    success stats = 2 /\ success stats + fail stats = 3.
Proof.
  apply (benchmark_counts 3 2 (fun run e => to_string run ++ e) bench_calls).
  - repeat constructor; intros w; discriminate.
  - reflexivity.
  - vm_compute. discriminate.
  - vm_compute. discriminate.
  - vm_compute. discriminate.
Defined.

(** ** The RPC layer *)

#[local] Instance keygen_payload_eq_dec : EqDecision KeygenRequestPayload.
Proof. solve_decision. Defined.
#[local] Instance sign_payload_eq_dec : EqDecision SignRequestPayload.
Proof. solve_decision. Defined.
#[local] Instance public_key_eq_dec : EqDecision PublicKey.
Proof. solve_decision. Defined.
#[local] Instance signature_eq_dec : EqDecision Signature.
Proof. solve_decision. Defined.

Definition wallet0 : chars := str "alice".
#[local] Instance keygen_payload_serde : Serde KeygenRequestPayload :=
  one_value {| kg_wallet_id := wallet0; kg_threshold := 2 |} [x50].
#[local] Instance keygen_payload_laws : SerdeLaws KeygenRequestPayload := one_value_laws _ _.
#[local] Instance sign_payload_serde : Serde SignRequestPayload :=
  one_value {| sg_wallet_id := wallet0; sg_message := [x68] |} [x51].
#[local] Instance sign_payload_laws : SerdeLaws SignRequestPayload := one_value_laws _ _.
Definition public_key0 : PublicKey := {| pk_curve := Ed25519; pk_bytes := [x09] |}.
#[local] Instance public_key_serde : Serde PublicKey := one_value public_key0 [x52].
#[local] Instance public_key_laws : SerdeLaws PublicKey := one_value_laws _ _.
Definition signature0 : Signature :=
  {| sig_curve := Ed25519; sig_pub_key := [x09]; sig_signature := [x08] |}.
#[local] Instance signature_serde : Serde Signature := one_value signature0 [x53].
#[local] Instance signature_laws : SerdeLaws Signature := one_value_laws _ _.

Lemma rpc_reaches_worker_witness :
  (exists kp, Worker.KeyGen 2 3 "room" [x50] 6%nat = Worker.KeyGen 2 3 "room" kp 6%nat /\
     decode_keygen_payload kp = Ok {| kg_wallet_id := wallet0; kg_threshold := 2 |}) /\
  (exists sp, Worker.KeySign 3 "room" [x51] 6%nat = Worker.KeySign 3 "room" sp 6%nat /\
     decode_sign_payload sp = Ok {| sg_wallet_id := wallet0; sg_message := [x68] |}) /\
  (forall k, to_vec k = Some [x52] -> Ok (E:=TssError) public_key0 = Ok k) /\
  (forall s, to_vec s = Some [x52] -> Err (E:=TssError) (Terminated "deserialization failed") = Ok (s : Signature)).
Proof.
  assert (prepare room_of command0 0 edited_files fs_fine = Ok prepared0) as Hp by evaluate.
  assert (Tss.keygen room_of true wallet0 3 2 6 (Some (Ok [x52])) =
    (Some (Worker.KeyGen 2 3 "room" [x50] 6%nat), Ok public_key0)) as Hk by evaluate.
  assert (Tss.sign room_of true wallet0 2 [x68] 6 (Some (Ok [x52])) =
    (Some (Worker.KeySign 3 "room" [x51] 6%nat),
     Err (Terminated "deserialization failed"))) as Hs by evaluate.
  assert (2 < u16_max) as Ht by reflexivity.
  vm_cast_no_check (Tss.rpc_reaches_worker room_of command0 0%nat edited_files fs_fine prepared0
    wallet0 3 2 [x68] 6%nat (Some (Ok [x52])) (Worker.KeyGen 2 3 "room" [x50] 6%nat)
    (Ok public_key0) (Worker.KeySign 3 "room" [x51] 6%nat)
    (Err (Terminated "deserialization failed")) Hp Ht Hk Hs).
Defined.

(** ** The node *)

Definition display0 (_ : chars) : string := "/d".
(** A server that can be started at any address. *)
#[local] Instance toy_rpc : JsonRpc := {|
  SocketAddr := chars; RpcModule := unit; RpcServer := chars; ServerHandle := chars; WsClient := chars;
  parse_socket_addr a := Ok a; server_build a := Ok a; server_start s _ := s;
  ws_client_build a := Ok a;
|}.

Definition module0 : outcome chars (@RpcModule toy_rpc) := Ok tt.

Definition execute0 : files * outcome Node.Error Node.t :=
  Node.execute room_of display0 command0 0 1 key_a edited_files fs_fine ∅ 0 module0.

Lemma node_ready_witness :
  match execute0 with
  | (_, Ok nd) =>
      (exists d,
         RequestResponses.protocols (NetworkWorker.rr (Node.network nd)) !!
           protocol_name (Node.room nd) = Some d /\
         RequestResponses.inbound_queue d = Some 0%nat) /\
      exists w' ch payload,
        Worker.step (NetworkWorker.local_peer_id (Node.network nd)) (Node.service nd)
          (Worker.ServiceMsg (Worker.KeyGen 2 3 "room" [x50] 6)) = Ok (w', []) /\
        Worker.rooms_coordination w' = [ch] /\
        decode_keygen_payload payload = Ok {| kg_wallet_id := wallet0; kg_threshold := 2 |}
  | _ => False
  end.
Proof.
  assert (is_ok execute0.2 = true) as Hok by evaluate.
  assert (Tss.keygen room_of true wallet0 3 2 6 None =
    (Some (Worker.KeyGen 2 3 "room" [x50] 6%nat), Err TssCanceled)) as Hk by evaluate.
  destruct execute0 as [fs' [nd|e|w]] eqn:He; [|discriminate Hok..].
  destruct (Node.node_ready room_of display0 command0 0 1 key_a edited_files fs_fine ∅ 0 module0 fs' nd
    He) as [Hq Hr].
  destruct (Hr wallet0 3 2 6%nat None _ _ Hk) as (w' & ch & payload & Hs & Hc & Hd & _).
  split; [exact Hq|]. exists w', ch, payload. split; [exact Hs|]. split; [exact Hc|exact Hd].
Defined.

(** The broadcast of [events0] arrives at a node like the one that sent it. *)
Definition sent0 : WireMessage :=
  {| wm_context := ctx0; wm_payload := [x01]; wm_is_broadcast := true |}.
Definition arrival0 : RequestResponses.obs :=
  some_obs 20 false [("/room/room"%string, Some (InboundMessage peer_a 1 sent0 8%nat))].

Lemma message_travels_witness :
  (exists txs, length txs = 1%nat /\ (forall tx, Some 4%nat = Some tx -> Forall (eq tx) txs) /\
     NetworkWorker.requests_in step0.2 =
       zip_with (RequestResponses.requested true "/room/room" sent0) txs [peer_b]) /\
  exists s' req, RequestResponses.turn mock_peer_reputation arrival0 (NetworkWorker.rr started) =
    RequestResponses.Repeat s' [RequestResponses.Enqueue 0%nat req] /\
    req = {| context := ctx0; peer := peer_a; peer_id := peer_a; is_broadcast := true;
             peer_index := 0; payload := [x01]; pending_response := 0%nat |}.
Proof.
  assert (NetworkWorker.step elements (NetworkWorker.ServiceNext (Some (NetworkWorker.Request "room"
    ctx0 (NetworkWorker.Broadcast [x01] (Some 4%nat)))) 5) started = Ok (step0, true)) as Hs
    by evaluate.
  assert (context_wf ctx0) as Hwf by (split; cbn; done || lia).
  assert (1 <= 8 * 1024 * 1024) as Hlen by done.
  destruct (Node.message_travels (CA:=TssFactory.factory_agents (TssFactory.new [] Ed25519))
    elements "room" ctx0 (NetworkWorker.Broadcast [x01] (Some 4%nat)) 5 started step0.1 step0.2 true
    Hs Hwf Hlen) as [Hsend Harrive].
  split; [vm_cast_no_check Hsend|].
  destruct (Harrive 0%nat [] peer_a 1 8%nat arrival0 (NetworkWorker.rr started))
    as (s' & req & Hturn & Hreq & _); [|by exists s', req].
  split; [done|done|].
  exists (details_of "/room/room" (NetworkWorker.rr started)),
    (Some (InboundMessage peer_a 1 sent0 8%nat)),
    {| toy_issued := ∅; toy_live := {[1]}; toy_accepts := true |}, [].
  split; [evaluate|]. split; [evaluate|]. split; [reflexivity|].
  intros cfg m Hm.
  match type of Hm with ?l = _ => assert (l = Ok sent0) as Hd by evaluate end.
  rewrite Hd in Hm. injection Hm as <-. evaluate.
Defined.
